(* ===== verification/_CoqProject ===== *)
-Q . S2P
Prelude.v
Text.v
Float64.v
Resp.v
RespParser.v
RespWire.v
RespChunks.v
Bitmap.v
BTree.v
SortedSet.v
CmdBuilder.v
Geohash.v
Store.v
StringCmds.v
ListCmds.v
Refinement.v
KeySpec.v
StringSpec.v
ListSpec.v
BitmapCmds.v
BitmapSpec.v
StreamCmds.v
StreamSpec.v
ZsetCmds.v
ZsetSpec.v
KeyspaceSpec.v
AppState.v
Rdb.v
Replication.v
Auth.v
Registry.v
Handler.v
HandlerLogic.v
Transactions.v
Blocking.v
Propagation.v
ClientSpec.v
PubSub.v
Waiting.v
Client.v
ClientReads.v
Serving.v
Credentials.v
Aof.v
Server.v
ServerSpec.v
Recovery.v
Lives.v
Replicas.v
Joining.v
