(* ===== verification/Prelude.v ===== *)
(** * A verified model of codecrafters-redis-rust

    The program is a single-threaded Redis server: an event loop over epoll
    ([src/src/main.rs]) that hands the bytes of each connection to an incremental
    RESP parser ([resp.rs]), turns parsed values into commands
    ([commands/cmd_builder.rs]), runs them on an in-memory key space
    ([commands/cmd_handler.rs], [commands/data_types.rs]) and writes the replies;
    around that, replication ([client.rs], [replication.rs], [app_state.rs]), an
    append-only file ([aof.rs]), snapshots read at the start ([rdb.rs]) and
    passwords ([auth.rs]). This library models all of it down to the system calls.
    Definitions keep the names of the source; each follows the branches, early
    returns and panics of the function it translates.

    ** Conventions

    - A Rust expression that may panic is an [outcome]; [Result] is [Result]. A
      panic ends the process: no hook is installed.
    - Integers are [Z] in the range of their type. The build is a release build, so
      additions wrap ([wrap_u64], [wrap_i64]); casts are written out.
    - [f64] is IEEE binary64, computed exactly ([Float64]).
    - A [HashMap] is a [gmap], a [HashSet] a [gset]; where the source iterates over
      one, the order is an arbitrary permutation ([HashOrder]). A [BTreeMap] is a
      sorted list of entries ([BTree]).
    - The handler's functions are computations of the monad [M] on [State]
      ([Handler]): the key space, the registry of parked requests, the queue of
      responses, the channels, the roles and credentials of connections, the
      configuration, the epoll set, the clock (which stands still while one event
      is handled) and the heap cells that [Rc]s share.
    - Code outside the repository is a parameter: SHA-256 ([Sha256]), base64
      ([Base64]), sin, cos and asin ([Libm]); together with [HashOrder] they form
      the class [Env] that theorems on the handler quantify over. Sockets and
      [epoll_wait] are arguments: what a read delivers, how much of each message a
      write takes before it fails ([Client.Takes]), which events a turn sees. The
      file system is a state, [Aof.Disk]: the bytes of each file by its path, and the
      directories. The [BufWriter] of the append-only file is part of the handler's
      state ([Handler.AofFile]): it keeps a buffer of its capacity, and carries along
      what the coming writes on the file will do, which may be to fail or to take a
      part ([aof_disk]); what is in the buffer when the process ends is lost.

    ** Files

    - Foundations: [Prelude] (results, panics, machine integers, vectors), [Text]
      (UTF-8, numbers as text), [Float64], [BTree].
    - Wire format, [resp.rs] and [exceptions.rs]: [Resp] (values, errors,
      [serialize]); [RespParser] (the parser, and that it always ends); [RespWire]
      (parsing undoes serializing); [RespChunks] (reading in pieces).
    - Data types, [commands/data_types.rs] and [geohash.rs]: [Bitmap], [SortedSet],
      [Store], [Geohash].
    - Commands, [commands/cmd_builder.rs]: [CmdBuilder].
    - Commands on values, [commands/cmd_handler.rs], as functions of the key space:
      [StringCmds], [ListCmds], [BitmapCmds], [StreamCmds], [ZsetCmds].
    - What they promise: [Refinement] is the interface between operations and a
      specification, a class with its lift to sequences; [KeySpec] is an abstract key
      space; [StringSpec], [ListSpec], [BitmapSpec], [StreamSpec] and [ZsetSpec]
      specify the commands on each type of value and show that they are implemented;
      [KeyspaceSpec] puts them together.
    - Configuration and connections: [AppState], [Replication], [Auth].
    - The handler, [commands/cmd_handler.rs]: [Registry] ([RequestRegistry], with its
      invariant [reg_wf]); [Handler] (every other command, [dispatch],
      [_execute_cmd], deadlines, the work at the end of a turn); [HandlerLogic] (the
      weakest preconditions and frames the proofs use, and the invariant [state_wf]).
    - What the handler guarantees: [Transactions], [Blocking], [Propagation],
      [PubSub], [Waiting], [Credentials].
    - [Client] ([read_socket] and the replica's handshake), [ClientReads] (requests
      cut into two reads), [Rdb], [Aof], and [Server] ([main]: the start, the events,
      the end of a turn).
    - What the server promises its clients: [ClientSpec] (commands through [handle]:
      the key space, transactions, watches, the log and the server's part in
      replication as one abstract state), [Serving] (requests through the bytes of a
      connection), [ServerSpec] (any number of connections through the event loop,
      from the start on), [Recovery] (when what a run logs determines the key space,
      and how a start finds the log), [Lives] (restarts and crashes), [Replicas] (a
      server that follows another) and [Joining] (how it comes to).

    ** How the parts interact

    [Server.turn] handles the events of one [epoll_wait]. A readable connection goes
    to [Client.read_socket], which feeds [RespParser.parse] and, for each value it
    completes, calls [Client.serve_value]: the authentication gate ([Auth]), then
    [Handler.handle], or the handshake when the peer is this server's master.
    [handle] queues the command when the client has an open transaction, and else
    runs [_execute_cmd]: marking watches, counting the offset, [dispatch] to the
    command, then the append-only file and the replicas. Commands that park a client
    leave an entry in the [Registry]; [serve_backlog_list], [serve_backlog_stream],
    [callback_deadline_expire] and [cmd_replconf_ack] take it out again and put the
    answer in the queue of responses, which the end of the turn writes.

    ** What the theorems show

    - Wire: a serialized value is parsed back; parsing ends on all input, within two
      iterations per byte; however the bytes are split into reads the outcome is that
      of one read, unless one body is cut twice; requests cut anywhere into two reads,
      or pipelined in one, get the same answers in the same order.
    - Invariant of the handler: in every reachable state queues, deadlines and
      acknowledgement lists agree with the store of parked requests, as long as no two
      requests are parked in one millisecond ([reachable_wf]; the code loses one of
      them then, [same_millisecond_loses]).
    - Transactions: queueing changes nothing; [EXEC] equals running the queue
      directly; a write to a watched key makes it run nothing.
    - Blocking: parked clients are served first come first served; deadlines answer;
      what goes wrong when the served request had the only deadline. That parked
      clients are served depends on a flag that the next command clears.
    - Replication: every replica, and the log while its disk takes what it is given,
      get exactly the successful writes; a replica that runs them has the master's
      data; replaying the log restores it, later only if the writes are timeless
      ([aof_restores]); the handshake completes; the offset counts exactly until it overflows;
      acknowledgements are counted once and never panic. Two whole servers: each
      reads what the other writes, and after the handshake of a replica with a master
      without keys ([replica_joins]) it holds, whenever it has read what the master
      has written, the master's key space ([replica_follows]); one that joins later
      misses what was there ([late_replica_misses]), and one that leaves in the turn
      of a write stops the master ([lost_replica_panics]).
    - Server: the event loop implements an abstract server ([server_refines]) whose
      state is a key space, the open transactions and watches, the log, the replicas
      with what is queued for them, and what each connection has sent of its next
      request; a start gives a server in that relation ([started_serves]). The end of a turn attempts every queued response
      once, and loses what a socket does not take, but nothing of the log
      ([turn_delivers]); credentials
      never outlive a connection; what does outlive it (transactions, watches,
      subscriptions); the timer reports at most one deadline in the life of the
      process.
    - Restarts: a server that stops between two turns comes back with its key space,
      any number of times ([crash_recovers]); one that stops inside a turn, its file
      cut anywhere, comes back with the replay of the requests that are whole: what
      the turns before did and the first writes of that turn ([crash_keeps_turns]). It
      then writes behind the half request it may have found
      ([torn_log_loses_writes]).
    - Commands on values: any sequence of commands on the values of any keys answers
      what an abstract key space answers, in which a value is a string with its
      deadline, a list, a set of bits, a log of entries or a map from members to
      scores ([keyspace_refines]), and one theorem for each type with the commands
      the whole leaves out. Besides, replies and effects on every branch, among them
      the errors and panics ([XRANGE] with crossed bounds), bounds ([INCR], [LRANGE],
      stream ids), equivalence with bitwise and positional definitions, round trips
      of geohashes, stream ids, numbers, manifests and snapshot files.

    ** Fuel

    Loops that are not structural run on fuel, with a theorem that it is enough:
    [parse_fuel] is two iterations per buffered byte and three more ([parse_total]);
    [read_fuel] counts the values the buffer can still hold ([read_socket_ends],
    [replay_ends]); the snapshot reader takes one turn per byte ([read_ends]);
    [_execute_cmd] has three levels, and two are enough, since [EXEC] empties its
    queue before it runs it ([execute_cmd_depth]); the search for a
    free deadline ends because the map is finite ([free_deadline]).

    ** Not modelled

    The system calls themselves (epoll, timerfd, sockets, files) and their failures
    beyond those of reads, of writes to sockets and to the append-only file, and of
    opening a file; log output; [RespValue] and plain getters, which are projections
    here; the shell tests. A call of epoll or of the timer on a descriptor that is
    open is taken to succeed, and so is creating a directory or the manifest. Time
    does not pass inside one event, so a timestamp used twice in it is the same.

    The abstract server answers commands on values, transactions of them, and the
    requests of the handshake of a replica. [KEYS], the geo queries, parking commands,
    pub/sub, [AUTH] and [ACL], [WAIT] with the acknowledgements, [INFO] and [CONFIG]
    are modelled and have theorems of their own, but are outside [serve_admits]. So are
    failing writes: they are covered by the theorems on single turns and on
    invariants over all runs ([server_step], [handler_step]). *)

From Stdlib Require Export ZArith Lia List Ascii String.
From stdpp Require Export base list gmap strings.

#[export] Set Default Goal Selector "!".

Global Open Scope Z_scope.

(** ** Rust's [Result] and panics *)

(** [Result<A, E>]. *)
Inductive Result (E A : Type) : Type :=
| Ok (a : A)
| Err (e : E).
Arguments Ok {E A} a.
Arguments Err {E A} e.

(** A Rust expression either evaluates to a value or panics. The server is
    single threaded and installs no panic hook, so a panic ends the process. *)
Inductive outcome (A : Type) : Type :=
| Ret (a : A)
| Panic.
Arguments Ret {A} a.
Arguments Panic {A}.

#[export] Instance result_eq_dec {E A} `{EqDecision E, EqDecision A} :
  EqDecision (Result E A).
Proof. solve_decision. Defined.

#[export] Instance outcome_eq_dec {A} `{EqDecision A} : EqDecision (outcome A).
Proof. solve_decision. Defined.

Definition result_bind {E A B} (r : Result E A) (k : A -> Result E B) : Result E B :=
  match r with
  | Ok a => k a
  | Err e => Err e
  end.

Definition outcome_bind {A B} (o : outcome A) (k : A -> outcome B) : outcome B :=
  match o with
  | Ret a => k a
  | Panic => Panic
  end.

(** The [?] operator inside a function that may also panic. *)
Definition try_bind {E A B} (o : outcome (Result E A))
    (k : A -> outcome (Result E B)) : outcome (Result E B) :=
  match o with
  | Ret (Ok a) => k a
  | Ret (Err e) => Ret (Err e)
  | Panic => Panic
  end.

Definition result_map_err {E F A} (f : E -> F) (r : Result E A) : Result F A :=
  match r with
  | Ok a => Ok a
  | Err e => Err (f e)
  end.

(** [Option::ok_or]. *)
Definition ok_or {E A} (o : option A) (e : E) : Result E A :=
  match o with
  | Some a => Ok a
  | None => Err e
  end.

(** [Option::unwrap] and [Result::unwrap]. *)
Definition unwrap {A} (o : option A) : outcome A :=
  match o with
  | Some a => Ret a
  | None => Panic
  end.

Definition unwrap_or {A} (o : option A) (d : A) : A :=
  match o with
  | Some a => a
  | None => d
  end.

Declare Scope rust_scope.
Delimit Scope rust_scope with rust.
Global Open Scope rust_scope.

Notation "'let?' x := e 'in' k" := (result_bind e (fun x => k))
  (at level 10, x pattern, k at level 200) : rust_scope.
Notation "'let!' x := e 'in' k" := (outcome_bind e (fun x => k))
  (at level 10, x pattern, k at level 200) : rust_scope.
Notation "'let?!' x := e 'in' k" := (try_bind e (fun x => k))
  (at level 10, x pattern, k at level 200) : rust_scope.

(** ** Tactics of the development *)

(** Let [lia] reason about division and remainder. *)
Ltac Zify.zify_post_hook ::= Z.to_euclidean_division_equations.

(** Split on the boolean tests and matches of the goal, closing the branches
    the hypotheses rule out. *)
Ltac split_matches :=
  repeat (case_match; simplify_eq/=).

(** Turn the boolean comparisons of the context into propositions. *)
Ltac bools :=
  repeat match goal with
  | H : (_ && _)%bool = true |- _ => apply andb_true_iff in H as [? ?]
  | H : (_ || _)%bool = false |- _ => apply orb_false_iff in H as [? ?]
  | H : negb _ = true |- _ => apply negb_true_iff in H
  | H : negb _ = false |- _ => apply negb_false_iff in H
  | H : (_ <=? _) = true |- _ => apply Z.leb_le in H
  | H : (_ <=? _) = false |- _ => apply Z.leb_gt in H
  | H : (_ <? _) = true |- _ => apply Z.ltb_lt in H
  | H : (_ <? _) = false |- _ => apply Z.ltb_ge in H
  | H : (_ =? _) = true |- _ => apply Z.eqb_eq in H
  | H : (_ =? _) = false |- _ => apply Z.eqb_neq in H
  end.

Create HintDb redis discriminated.
Create Rewrite HintDb redis_rw.

(** ** Machine integers

    The binary is built with [cargo build --release], whose arithmetic wraps
    around silently. [usize] is 64 bits wide. *)
Definition u64_max : Z := 2 ^ 64 - 1.
Definition i64_max : Z := 2 ^ 63 - 1.
Definition i64_min : Z := - 2 ^ 63.

Definition wrap_u (w : Z) (z : Z) : Z := z mod 2 ^ w.
Definition wrap_u64 (z : Z) : Z := wrap_u 64 z.
Definition wrap_i64 (z : Z) : Z := (z + 2 ^ 63) mod 2 ^ 64 - 2 ^ 63.

Definition is_u64 (z : Z) : Prop := 0 <= z <= u64_max.
Definition is_i64 (z : Z) : Prop := i64_min <= z <= i64_max.

(** [usize::saturating_sub]. *)
Definition saturating_sub (a b : Z) : Z := Z.max 0 (a - b).

(** [usize::div_ceil]. *)
Definition div_ceil (a b : Z) : Z := (a + b - 1) / b.

Lemma wrap_u64_id z : is_u64 z -> wrap_u64 z = z.
Proof. unfold is_u64, u64_max, wrap_u64, wrap_u. intros. apply Z.mod_small. lia. Qed.

Lemma wrap_u64_is_u64 z : is_u64 (wrap_u64 z).
Proof.
  unfold is_u64, u64_max, wrap_u64, wrap_u.
  pose proof (Z.mod_pos_bound z (2 ^ 64)). lia.
Qed.

Lemma wrap_i64_id z : is_i64 z -> wrap_i64 z = z.
Proof.
  unfold is_i64, i64_min, i64_max, wrap_i64. intros.
  rewrite Z.mod_small; lia.
Qed.

(** ** Lists as Rust vectors

    A [Vec] is a list, a [usize] index a [Z]; [vec_get] is [slice::get]. *)
Definition len {A} (l : list A) : Z := Z.of_nat (List.length l).

Definition vec_get {A} (l : list A) (i : Z) : option A :=
  if (0 <=? i) && (i <? len l) then l !! Z.to_nat i else None.

(** [l[a..b]] for indices already known to be in range. *)
Definition slice {A} (l : list A) (a b : Z) : list A :=
  take (Z.to_nat (b - a)) (drop (Z.to_nat a) l).

Lemma len_nonneg {A} (l : list A) : 0 <= len l.
Proof. unfold len. lia. Qed.

Lemma len_nil {A} : len (@nil A) = 0.
Proof. reflexivity. Qed.

Lemma len_cons {A} (x : A) l : len (x :: l) = 1 + len l.
Proof. unfold len. cbn [List.length]. lia. Qed.

Lemma len_app {A} (l k : list A) : len (l ++ k) = len l + len k.
Proof. unfold len. rewrite length_app. lia. Qed.

Lemma len_map {A B} (f : A -> B) (l : list A) : len (map f l) = len l.
Proof. unfold len. by rewrite List.length_map. Qed.

#[export] Hint Rewrite @len_nil @len_cons @len_app @len_map : redis_rw.

Lemma vec_get_nonneg {A} (l : list A) i : 0 <= i -> vec_get l i = l !! Z.to_nat i.
Proof.
  unfold vec_get, len. intros. destruct (Z.leb_spec 0 i); [|lia]. cbn.
  destruct (Z.ltb_spec i (Z.of_nat (List.length l))); [done|].
  symmetry. apply lookup_ge_None. lia.
Qed.

Lemma vec_get_neg {A} (l : list A) i : i < 0 -> vec_get l i = None.
Proof. unfold vec_get. intros. by destruct (Z.leb_spec 0 i); [lia|]. Qed.

Lemma vec_get_some_range {A} (l : list A) i x : vec_get l i = Some x -> 0 <= i < len l.
Proof.
  unfold vec_get. destruct (Z.leb_spec 0 i), (Z.ltb_spec i (len l)); done.
Qed.

Lemma vec_get_is_some {A} (l : list A) i : 0 <= i < len l -> exists x, vec_get l i = Some x.
Proof.
  intros. rewrite vec_get_nonneg by lia. apply lookup_lt_is_Some_2. unfold len in *. lia.
Qed.

Lemma vec_get_ge {A} (l : list A) i : len l <= i -> vec_get l i = None.
Proof.
  unfold vec_get. intros. destruct (Z.ltb_spec i (len l)); [lia|].
  by rewrite andb_false_r.
Qed.

Lemma vec_get_nil {A} i : vec_get (@nil A) i = None.
Proof. destruct (Z.leb_spec 0 i); [by apply vec_get_ge|by apply vec_get_neg]. Qed.

Lemma vec_get_app_l {A} (l k : list A) i : i < len l -> vec_get (l ++ k) i = vec_get l i.
Proof.
  intros. destruct (Z.leb_spec 0 i); [|by rewrite !vec_get_neg by lia].
  rewrite !vec_get_nonneg by lia. apply lookup_app_l. unfold len in *. lia.
Qed.

Lemma vec_get_app_r {A} (l k : list A) i :
  len l <= i -> vec_get (l ++ k) i = vec_get k (i - len l).
Proof.
  intros. pose proof (len_nonneg l). rewrite !vec_get_nonneg by lia. unfold len in *.
  rewrite lookup_app_r by lia. f_equal. lia.
Qed.

Lemma slice_app_prefix {A} (l k : list A) : slice (l ++ k) 0 (len l) = l.
Proof.
  unfold slice, len. rewrite drop_0, Z.sub_0_r, Nat2Z.id.
  by rewrite take_app_length.
Qed.

(** [iter().skip(n)] and [iter().take(n)] for a [usize] [n], whatever its size. *)
Definition iter_skip {A} (n : Z) (l : list A) : list A := drop (Z.to_nat (Z.min n (len l))) l.
Definition iter_take {A} (n : Z) (l : list A) : list A := take (Z.to_nat (Z.min n (len l))) l.

Lemma iter_skip_drop {A} n (l : list A) : iter_skip n l = drop (Z.to_nat n) l.
Proof.
  unfold iter_skip, len. destruct (Z.le_gt_cases n (Z.of_nat (List.length l))).
  - by rewrite Z.min_l.
  - rewrite Z.min_r by lia. by rewrite !drop_ge by lia.
Qed.

Lemma iter_take_take {A} n (l : list A) : iter_take n l = take (Z.to_nat n) l.
Proof.
  unfold iter_take, len. destruct (Z.le_gt_cases n (Z.of_nat (List.length l))).
  - by rewrite Z.min_l.
  - rewrite Z.min_r by lia. by rewrite !take_ge by lia.
Qed.
