(* ===== verification/Text.v ===== *)
(** * Bytes, strings and numbers as text

    [Vec<u8>] is a list of [ascii] (a [u8] has exactly 256 values), [String] is
    a [string] of bytes, and [as_bytes]/[to_string] convert. The file holds the
    parts of Rust's standard library the server relies on: UTF-8 validation,
    ASCII case mapping, [str::split], and the [FromStr]/[Display] pairs of the
    integer types, with their error messages. *)

From S2P Require Import Prelude.

Abbreviation u8 := ascii (only parsing).
Abbreviation bytes := (list ascii) (only parsing).

(** ** Bytes *)
Definition u8_val (c : u8) : Z := Z.of_N (N_of_ascii c).
Definition u8_of (z : Z) : u8 := ascii_of_N (Z.to_N (z mod 256)).

Lemma u8_val_range c : 0 <= u8_val c < 256.
Proof. unfold u8_val. pose proof (N_ascii_bounded c). lia. Qed.

Lemma u8_val_of z : u8_val (u8_of z) = z mod 256.
Proof.
  unfold u8_val, u8_of. pose proof (Z.mod_pos_bound z 256 ltac:(lia)).
  rewrite N_ascii_embedding by lia. lia.
Qed.

Lemma u8_of_val c : u8_of (u8_val c) = c.
Proof.
  unfold u8_of. rewrite Z.mod_small by apply u8_val_range.
  unfold u8_val. by rewrite N2Z.id, ascii_N_embedding.
Qed.

Lemma u8_val_inj c d : u8_val c = u8_val d -> c = d.
Proof. intros H. by rewrite <- (u8_of_val c), H, u8_of_val. Qed.

Definition as_bytes (s : string) : bytes := list_ascii_of_string s.
Definition from_bytes (b : bytes) : string := string_of_list_ascii b.

(** [str::len]: the number of bytes. *)
Definition str_len (s : string) : Z := Z.of_nat (String.length s).

Lemma as_bytes_from_bytes b : as_bytes (from_bytes b) = b.
Proof. apply list_ascii_of_string_of_list_ascii. Qed.

Lemma from_bytes_as_bytes s : from_bytes (as_bytes s) = s.
Proof. apply string_of_list_ascii_of_string. Qed.

Lemma len_as_bytes s : len (as_bytes s) = str_len s.
Proof. unfold len, str_len. f_equal. unfold as_bytes. induction s; cbn; congruence. Qed.

Lemma str_len_from_bytes b : str_len (from_bytes b) = len b.
Proof. by rewrite <- len_as_bytes, as_bytes_from_bytes. Qed.

Lemma as_bytes_app s t : as_bytes (s +:+ t) = as_bytes s ++ as_bytes t.
Proof. unfold as_bytes. induction s as [|c s IH]; [done|].
  change (String c s +:+ t) with (String c (s +:+ t)). cbn. by rewrite IH. Qed.

Lemma as_bytes_inj s t : as_bytes s = as_bytes t -> s = t.
Proof. intros H. by rewrite <- (from_bytes_as_bytes s), H, from_bytes_as_bytes. Qed.

#[export] Hint Rewrite as_bytes_from_bytes from_bytes_as_bytes len_as_bytes
  str_len_from_bytes as_bytes_app : redis_rw.

Definition CR : u8 := "013"%char.
Definition LF : u8 := "010"%char.
Definition DELIMITER : bytes := [CR; LF].

(** ** UTF-8 validation ([str::from_utf8])

    One state per pending continuation byte, with the tighter range the first
    continuation byte has after [E0], [ED], [F0] and [F4]. *)

Inductive Utf8State :=
| U_start
| U_cont (lo hi : Z) (more : nat).

Definition utf8_step (st : Utf8State) (c : u8) : option Utf8State :=
  let v := u8_val c in
  match st with
  | U_start =>
      if v <? 128 then Some U_start
      else if (194 <=? v) && (v <=? 223) then Some (U_cont 128 191 0)
      else if v =? 224 then Some (U_cont 160 191 1)
      else if v =? 237 then Some (U_cont 128 159 1)
      else if (225 <=? v) && (v <=? 239) then Some (U_cont 128 191 1)
      else if v =? 240 then Some (U_cont 144 191 2)
      else if (241 <=? v) && (v <=? 243) then Some (U_cont 128 191 2)
      else if v =? 244 then Some (U_cont 128 143 2)
      else None
  | U_cont lo hi more =>
      if (lo <=? v) && (v <=? hi) then
        match more with
        | O => Some U_start
        | S m => Some (U_cont 128 191 m)
        end
      else None
  end.

Fixpoint utf8_run (st : Utf8State) (b : bytes) : bool :=
  match b with
  | [] => match st with U_start => true | _ => false end
  | c :: b' => match utf8_step st c with
               | Some st' => utf8_run st' b'
               | None => false
               end
  end.

Definition utf8_valid (b : bytes) : bool := utf8_run U_start b.

(** [str::from_utf8(b)] followed by [to_string]. *)
Definition from_utf8 (b : bytes) : option string :=
  if utf8_valid b then Some (from_bytes b) else None.

Definition is_ascii (c : u8) : bool := u8_val c <? 128.

Lemma utf8_valid_ascii b : forallb is_ascii b = true -> utf8_valid b = true.
Proof.
  unfold utf8_valid. induction b as [|c b IH]; [done|].
  cbn. unfold is_ascii at 1. intros [Hc Hb]%andb_true_iff. rewrite Hc. auto.
Qed.

Lemma from_utf8_valid s : utf8_valid (as_bytes s) = true -> from_utf8 (as_bytes s) = Some s.
Proof. unfold from_utf8. intros ->. by rewrite from_bytes_as_bytes. Qed.

(** ** ASCII case mapping *)
Definition u8_upper (c : u8) : u8 :=
  let v := u8_val c in
  if (97 <=? v) && (v <=? 122) then u8_of (v - 32) else c.

Definition u8_lower (c : u8) : u8 :=
  let v := u8_val c in
  if (65 <=? v) && (v <=? 90) then u8_of (v + 32) else c.

Fixpoint string_map (f : ascii -> ascii) (s : string) : string :=
  match s with
  | EmptyString => EmptyString
  | String c s' => String (f c) (string_map f s')
  end.

Definition to_ascii_uppercase : string -> string := string_map u8_upper.
Definition to_ascii_lowercase : string -> string := string_map u8_lower.

(** ** [str::split] on one character *)
Fixpoint split (d : ascii) (s : string) : list string :=
  match s with
  | EmptyString => [EmptyString]
  | String c s' =>
      if ascii_dec c d then EmptyString :: split d s'
      else match split d s' with
           | [] => [String c EmptyString]
           | w :: ws => String c w :: ws
           end
  end.

(** A piece without the separator. *)
Fixpoint no_char (d : ascii) (s : string) : bool :=
  match s with
  | EmptyString => true
  | String c s' => negb (if ascii_dec c d then true else false) && no_char d s'
  end.

Lemma split_no_char d s : no_char d s = true -> split d s = [s].
Proof.
  induction s as [|c s IH]; [done|]. cbn.
  destruct (ascii_dec c d); cbn; [discriminate|]. intros H. by rewrite IH.
Qed.

Lemma split_join d s t :
  no_char d s = true -> split d (s +:+ String d t) = s :: split d t.
Proof.
  induction s as [|c s IH].
  - change ("" +:+ String d t)%string with (String d t). cbn.
    destruct (ascii_dec d d); [done|congruence].
  - change (String c s +:+ String d t) with (String c (s +:+ String d t)). cbn.
    destruct (ascii_dec c d); cbn; [discriminate|]. intros H. by rewrite IH.
Qed.

(** ** Integers as decimal text *)

Inductive ParseIntError :=
| PIE_Empty
| PIE_InvalidDigit
| PIE_PosOverflow
| PIE_NegOverflow.

#[export] Instance parse_int_error_eq_dec : EqDecision ParseIntError.
Proof. solve_decision. Defined.

(** [ParseIntError]'s [Display]. *)
Definition parse_int_error_display (e : ParseIntError) : string :=
  match e with
  | PIE_Empty => "cannot parse integer from empty string"
  | PIE_InvalidDigit => "invalid digit found in string"
  | PIE_PosOverflow => "number too large to fit in target type"
  | PIE_NegOverflow => "number too small to fit in target type"
  end.

Definition digit_char (d : Z) : u8 := u8_of (48 + d).

Definition to_digit (c : u8) : option Z :=
  let v := u8_val c in
  if (48 <=? v) && (v <=? 57) then Some (v - 48) else None.

(** The digit loop of [from_str_radix]: an invalid digit is reported before an
    overflow of the same position. *)
Fixpoint parse_pos_digits (max acc : Z) (b : bytes) : Result ParseIntError Z :=
  match b with
  | [] => Ok acc
  | c :: b' =>
      match to_digit c with
      | None => Err PIE_InvalidDigit
      | Some d =>
          if acc * 10 + d <=? max then parse_pos_digits max (acc * 10 + d) b'
          else Err PIE_PosOverflow
      end
  end.

Fixpoint parse_neg_digits (min acc : Z) (b : bytes) : Result ParseIntError Z :=
  match b with
  | [] => Ok acc
  | c :: b' =>
      match to_digit c with
      | None => Err PIE_InvalidDigit
      | Some d =>
          if min <=? acc * 10 - d then parse_neg_digits min (acc * 10 - d) b'
          else Err PIE_NegOverflow
      end
  end.

Definition plus_char : u8 := "+"%char.
Definition minus_char : u8 := "-"%char.

(** [str::parse] at an unsigned type with maximum [max]: an optional [+]. *)
Definition parse_unsigned (max : Z) (s : string) : Result ParseIntError Z :=
  match as_bytes s with
  | [] => Err PIE_Empty
  | [c] => if decide (c = plus_char) then Err PIE_InvalidDigit
           else parse_pos_digits max 0 [c]
  | c :: b => if decide (c = plus_char) then parse_pos_digits max 0 b
              else parse_pos_digits max 0 (c :: b)
  end.

(** [str::parse] at a signed type: an optional [+] or [-]. *)
Definition parse_signed (min max : Z) (s : string) : Result ParseIntError Z :=
  match as_bytes s with
  | [] => Err PIE_Empty
  | [c] => if decide (c = plus_char \/ c = minus_char) then Err PIE_InvalidDigit
           else parse_pos_digits max 0 [c]
  | c :: b => if decide (c = plus_char) then parse_pos_digits max 0 b
              else if decide (c = minus_char) then parse_neg_digits min 0 b
              else parse_pos_digits max 0 (c :: b)
  end.

Definition parse_u64 : string -> Result ParseIntError Z := parse_unsigned u64_max.
Definition parse_usize : string -> Result ParseIntError Z := parse_unsigned u64_max.
Definition parse_u16 : string -> Result ParseIntError Z := parse_unsigned (2 ^ 16 - 1).
Definition parse_u8 : string -> Result ParseIntError Z := parse_unsigned (2 ^ 8 - 1).
Definition parse_i64 : string -> Result ParseIntError Z := parse_signed i64_min i64_max.

(** [Display] of an integer: least significant digit first, into [acc]. *)
Fixpoint show_digits (fuel : nat) (n : Z) (acc : bytes) : bytes :=
  match fuel with
  | O => acc
  | S f =>
      let acc' := digit_char (n mod 10) :: acc in
      if n / 10 =? 0 then acc' else show_digits f (n / 10) acc'
  end.

(** The bit length bounds the number of decimal digits. *)
Definition show_nonneg (n : Z) : bytes := show_digits (S (Z.to_nat (Z.log2 n))) n [].

Definition show_Z (n : Z) : string :=
  if n <? 0 then String minus_char (from_bytes (show_nonneg (- n)))
  else from_bytes (show_nonneg n).

Example show_Z_ex :
  (show_Z 0, show_Z 6379, show_Z (-120)) = ("0", "6379", "-120")%string.
Proof. reflexivity. Qed.

Lemma to_digit_digit_char d : 0 <= d < 10 -> to_digit (digit_char d) = Some d.
Proof.
  intros. unfold to_digit, digit_char. rewrite u8_val_of, Z.mod_small by lia.
  destruct (Z.leb_spec 48 (48 + d)), (Z.leb_spec (48 + d) 57); try lia.
  cbn. f_equal. lia.
Qed.

Lemma to_digit_head_not_sign c d :
  to_digit c = Some d -> c <> plus_char /\ c <> minus_char.
Proof. intros H. split; intros ->; discriminate H. Qed.

Lemma show_digits_forall (P : u8 -> Prop) f n acc :
  (forall d, 0 <= d < 10 -> P (digit_char d)) -> Forall P acc ->
  Forall P (show_digits f n acc).
Proof.
  intros HP. revert n acc. induction f as [|f IH]; intros n acc Hacc; cbn; [done|].
  assert (P (digit_char (n mod 10))) by (apply HP; lia).
  case_match; auto using Forall_cons_2.
Qed.

Lemma show_digits_head f n acc :
  exists d l, 0 <= d < 10 /\ show_digits (S f) n acc = digit_char d :: l.
Proof.
  revert n acc. induction f as [|f IH]; intros n acc; cbn [show_digits].
  - exists (n mod 10), acc. split; [lia|]. by case_match.
  - case_match; [exists (n mod 10), acc; split; [lia|done]|]. apply IH.
Qed.

(** Reading back what [show_digits] printed leaves the accumulator at [n]. *)
Lemma parse_show_digits max f n acc :
  0 <= n <= max -> n < 2 ^ Z.of_nat f ->
  parse_pos_digits max 0 (show_digits f n acc) = parse_pos_digits max n acc.
Proof.
  revert n acc. induction f as [|f IH]; intros n acc Hn Hf.
  { cbn in *. assert (n = 0) as -> by lia. done. }
  rewrite Nat2Z.inj_succ, Z.pow_succ_r in Hf by lia.
  cbn [show_digits]. destruct (Z.eqb_spec (n / 10) 0).
  - cbn [parse_pos_digits]. rewrite to_digit_digit_char by lia.
    replace (0 * 10 + n mod 10) with n by lia.
    destruct (Z.leb_spec n max); [done|lia].
  - rewrite IH by lia. cbn [parse_pos_digits]. rewrite to_digit_digit_char by lia.
    replace (n / 10 * 10 + n mod 10) with n by lia.
    destruct (Z.leb_spec n max); [done|lia].
Qed.

Lemma parse_neg_show_digits min f n acc :
  0 <= n -> min <= - n -> n < 2 ^ Z.of_nat f ->
  parse_neg_digits min 0 (show_digits f n acc) = parse_neg_digits min (- n) acc.
Proof.
  revert n acc. induction f as [|f IH]; intros n acc Hn Hm Hf.
  { cbn in *. assert (n = 0) as -> by lia. done. }
  rewrite Nat2Z.inj_succ, Z.pow_succ_r in Hf by lia.
  cbn [show_digits]. destruct (Z.eqb_spec (n / 10) 0).
  - cbn [parse_neg_digits]. rewrite to_digit_digit_char by lia.
    replace (0 * 10 - n mod 10) with (- n) by lia.
    destruct (Z.leb_spec min (- n)); [done|lia].
  - rewrite IH by lia. cbn [parse_neg_digits]. rewrite to_digit_digit_char by lia.
    replace (- (n / 10) * 10 - n mod 10) with (- n) by lia.
    destruct (Z.leb_spec min (- n)); [done|lia].
Qed.

Lemma show_fuel n : 0 <= n -> n < 2 ^ Z.of_nat (S (Z.to_nat (Z.log2 n))).
Proof.
  intros. rewrite Nat2Z.inj_succ, Z2Nat.id by apply Z.log2_nonneg.
  destruct (Z.eq_dec n 0) as [->|]; [reflexivity|].
  apply Z.log2_spec. lia.
Qed.

Lemma show_Z_nonneg n : 0 <= n -> show_Z n = from_bytes (show_nonneg n).
Proof. unfold show_Z. intros. destruct (Z.ltb_spec n 0); [lia|done]. Qed.

Lemma parse_show_unsigned max n :
  0 <= n <= max -> parse_unsigned max (show_Z n) = Ok n.
Proof.
  intros Hn. rewrite show_Z_nonneg by lia.
  unfold parse_unsigned. rewrite as_bytes_from_bytes.
  pose proof (parse_show_digits max _ n [] Hn (show_fuel n ltac:(lia))) as Hp.
  unfold show_nonneg in *.
  destruct (show_digits_head (Z.to_nat (Z.log2 n)) n []) as (d & l & Hd & Heq).
  rewrite Heq in *. pose proof (to_digit_digit_char d Hd) as Hdig.
  destruct (to_digit_head_not_sign _ _ Hdig) as [Hp1 _].
  destruct l; rewrite decide_False by done; exact Hp.
Qed.

Lemma parse_show_signed min max n :
  min <= 0 -> min <= n <= max -> parse_signed min max (show_Z n) = Ok n.
Proof.
  intros Hmin Hn. unfold show_Z. destruct (Z.ltb_spec n 0).
  - unfold parse_signed. cbn [as_bytes list_ascii_of_string].
    change (list_ascii_of_string ?s) with (as_bytes s). rewrite as_bytes_from_bytes.
    pose proof (parse_neg_show_digits min _ (- n) [] ltac:(lia) ltac:(lia)
                  (show_fuel (- n) ltac:(lia))) as Hp.
    unfold show_nonneg in *.
    destruct (show_digits_head (Z.to_nat (Z.log2 (- n))) (- n) []) as (d & l & Hd & Heq).
    rewrite Heq in *. rewrite decide_False, decide_True by done.
    rewrite Hp. cbn. f_equal. lia.
  - unfold parse_signed. rewrite as_bytes_from_bytes.
    pose proof (parse_show_digits max _ n [] ltac:(lia) (show_fuel n ltac:(lia))) as Hp.
    unfold show_nonneg in *.
    destruct (show_digits_head (Z.to_nat (Z.log2 n)) n []) as (d & l & Hd & Heq).
    rewrite Heq in *. pose proof (to_digit_digit_char d Hd) as Hdig.
    destruct (to_digit_head_not_sign _ _ Hdig) as [Hp1 Hp2].
    destruct l.
    + rewrite decide_False by (intros [|]; done). exact Hp.
    + rewrite !decide_False by done. exact Hp.
Qed.

Lemma parse_show_i64 n : is_i64 n -> parse_i64 (show_Z n) = Ok n.
Proof. intros. apply parse_show_signed; [done|unfold is_i64 in *; lia]. Qed.

Lemma parse_show_usize n : is_u64 n -> parse_usize (show_Z n) = Ok n.
Proof. apply parse_show_unsigned. Qed.

Lemma parse_pos_digits_range max acc b n :
  0 <= acc -> parse_pos_digits max acc b = Ok n -> acc <= max -> 0 <= n <= max.
Proof.
  revert acc. induction b as [|c b IH]; intros acc Ha; cbn; [intros [= ->]; lia|].
  unfold to_digit. intros H Hm. repeat case_match; simplify_eq. bools.
  eapply IH; [|done|lia]. nia.
Qed.

Lemma parse_neg_digits_range min acc b n :
  acc <= 0 -> parse_neg_digits min acc b = Ok n -> min <= acc -> min <= n <= 0.
Proof.
  revert acc. induction b as [|c b IH]; intros acc Ha; cbn; [intros [= ->]; lia|].
  unfold to_digit. intros H Hm. repeat case_match; simplify_eq. bools.
  eapply IH; [|done|lia]. nia.
Qed.

Lemma parse_unsigned_range max s n :
  0 <= max -> parse_unsigned max s = Ok n -> 0 <= n <= max.
Proof.
  unfold parse_unsigned. intros Hm H.
  repeat (case_match; try discriminate);
    (eapply parse_pos_digits_range; [|exact H|]; lia).
Qed.

Lemma parse_signed_range min max s n :
  min <= 0 <= max -> parse_signed min max s = Ok n -> min <= n <= max.
Proof.
  unfold parse_signed. intros Hm H.
  repeat (case_match; try discriminate);
    first [ eapply parse_pos_digits_range in H; lia
          | eapply parse_neg_digits_range in H; lia ].
Qed.

Lemma digit_char_spec (P : u8 -> Prop) :
  P "0"%char -> P "1"%char -> P "2"%char -> P "3"%char -> P "4"%char ->
  P "5"%char -> P "6"%char -> P "7"%char -> P "8"%char -> P "9"%char ->
  forall d, 0 <= d < 10 -> P (digit_char d).
Proof.
  intros. assert (d = 0 \/ d = 1 \/ d = 2 \/ d = 3 \/ d = 4 \/ d = 5 \/ d = 6 \/
                  d = 7 \/ d = 8 \/ d = 9) as Hd by lia.
  repeat destruct Hd as [->|Hd]; subst; assumption.
Qed.

(** Printed numbers are made of digits and at most one leading minus sign. *)
Lemma show_Z_forall (P : u8 -> Prop) n :
  (n < 0 -> P minus_char) ->
  P "0"%char -> P "1"%char -> P "2"%char -> P "3"%char -> P "4"%char ->
  P "5"%char -> P "6"%char -> P "7"%char -> P "8"%char -> P "9"%char ->
  Forall P (as_bytes (show_Z n)).
Proof.
  intros Hm. intros.
  assert (forall k, Forall P (show_nonneg k)) as Hk.
  { intros k. apply show_digits_forall; [by apply digit_char_spec|constructor]. }
  unfold show_Z. destruct (Z.ltb_spec n 0).
  - change (as_bytes (String minus_char ?s)) with (minus_char :: as_bytes s).
    rewrite as_bytes_from_bytes. constructor; [by apply Hm|apply Hk].
  - rewrite as_bytes_from_bytes. apply Hk.
Qed.

Lemma utf8_show_Z n : utf8_valid (as_bytes (show_Z n)) = true.
Proof.
  apply utf8_valid_ascii, forallb_forall. intros c Hc.
  assert (Forall (fun c => is_ascii c = true) (as_bytes (show_Z n))) as HF.
  { apply show_Z_forall; reflexivity. }
  rewrite List.Forall_forall in HF. auto.
Qed.
