(* ===== verification/Float64.v ===== *)
(** * IEEE binary64 as the server uses it

    [f64] is the standard library's [spec_float] at precision 53 and maximal
    exponent 1024: arithmetic is correctly rounded, so every computation of the
    source on [f64] evaluates here bit for bit. The file also holds the casts
    ([as u64], [as f64]), [str::parse::<f64>], the shortest [Display], and the
    order of the comparisons. *)

From Stdlib Require Import SpecFloat.
From S2P Require Import Prelude Text.

Abbreviation f64 := spec_float (only parsing).

Definition f64_prec : Z := 53.
Definition f64_emax : Z := 1024.

Definition f64_add : f64 -> f64 -> f64 := SFadd f64_prec f64_emax.
Definition f64_sub : f64 -> f64 -> f64 := SFsub f64_prec f64_emax.
Definition f64_mul : f64 -> f64 -> f64 := SFmul f64_prec f64_emax.
Definition f64_div : f64 -> f64 -> f64 := SFdiv f64_prec f64_emax.
Definition f64_sqrt : f64 -> f64 := SFsqrt f64_prec f64_emax.
Definition f64_abs : f64 -> f64 := SFabs.

(** [PartialOrd::partial_cmp], and the operators derived from it. *)
Definition f64_cmp : f64 -> f64 -> option comparison := SFcompare.
Definition f64_eqb : f64 -> f64 -> bool := SFeqb.
Definition f64_ltb : f64 -> f64 -> bool := SFltb.
Definition f64_leb : f64 -> f64 -> bool := SFleb.
Definition is_nan (x : f64) : bool :=
  match x with S754_nan => true | _ => false end.

(** [z as f64]: round to nearest, ties to even. *)
Definition f64_of_Z (z : Z) : f64 := binary_normalize f64_prec f64_emax z 0 false.

(** [x as uN]: truncation that saturates, NaN giving zero. *)
Definition f64_to_uint (max : Z) (x : f64) : Z :=
  match x with
  | S754_zero _ | S754_nan => 0
  | S754_infinity s => if s then 0 else max
  | S754_finite true _ _ => 0
  | S754_finite false m e => Z.min max (Z.shiftl (Zpos m) e)
  end.
Definition f64_to_u64 : f64 -> Z := f64_to_uint u64_max.
Definition f64_to_u32 : f64 -> Z := f64_to_uint (2 ^ 32 - 1).

(** The double nearest to [m * 10 ^ k]. *)
Definition f64_of_decimal (neg : bool) (m k : Z) : f64 :=
  match m with
  | Zpos p =>
      if 0 <=? k then
        match Zpos p * 10 ^ k with
        | Zpos q => binary_round f64_prec f64_emax neg q 0
        | _ => S754_zero neg
        end
      else
        match 10 ^ (- k) with
        | Zpos q =>
            let '(mz, ez, lz) :=
              SFdiv_core_binary f64_prec f64_emax (Zpos p) 0 (Zpos q) 0 in
            binary_round_aux f64_prec f64_emax neg mz ez lz
        | _ => S754_zero neg
        end
  | _ => S754_zero neg
  end.

(** ** [str::parse::<f64>] *)

Inductive ParseFloatError := PFE_Empty | PFE_Invalid.

Definition parse_float_error_display (e : ParseFloatError) : string :=
  match e with
  | PFE_Empty => "cannot parse float from empty string"
  | PFE_Invalid => "invalid float literal"
  end.

(** Leading digits: the accumulated value, how many, and what follows. *)
Fixpoint take_digits (acc n : Z) (b : bytes) : Z * Z * bytes :=
  match b with
  | c :: b' => match to_digit c with
               | Some d => take_digits (acc * 10 + d) (n + 1) b'
               | None => (acc, n, b)
               end
  | [] => (acc, n, [])
  end.

(** The optional exponent, which must end the text. *)
Definition parse_exponent (b : bytes) : option Z :=
  match b with
  | [] => Some 0
  | c :: b1 =>
      if decide (u8_lower c = "e"%char) then
        let (neg, b2) :=
          match b1 with
          | s :: b2 => if decide (s = minus_char) then (true, b2)
                       else if decide (s = plus_char) then (false, b2)
                       else (false, b1)
          | [] => (false, [])
          end in
        match take_digits 0 0 b2 with
        | (x, n, []) => if n =? 0 then None else Some (if neg then - x else x)
        | _ => None
        end
      else None
  end.

(** [parse_number]: mantissa and decimal exponent. *)
Definition parse_number (b : bytes) : option (Z * Z) :=
  let '(i, ni, b1) := take_digits 0 0 b in
  let '(m, nf, b2) :=
    match b1 with
    | c :: b1' => if decide (c = "."%char) then
                    let '(m, n, b2) := take_digits i 0 b1' in (m, n, b2)
                  else (i, 0, b1)
    | [] => (i, 0, [])
    end in
  if ni + nf =? 0 then None
  else match parse_exponent b2 with
       | Some x => Some (m, x - nf)
       | None => None
       end.

Definition parse_inf_nan (b : bytes) (neg : bool) : option f64 :=
  let s := to_ascii_lowercase (from_bytes b) in
  if decide (s = "nan"%string) then Some S754_nan
  else if decide (s = "inf"%string \/ s = "infinity"%string)
  then Some (S754_infinity neg) else None.

Definition parse_f64 (s : string) : Result ParseFloatError f64 :=
  match as_bytes s with
  | [] => Err PFE_Empty
  | c :: b1 =>
      let neg := if decide (c = minus_char) then true else false in
      let b := if decide (c = minus_char \/ c = plus_char) then b1 else c :: b1 in
      match b with
      | [] => Err PFE_Invalid
      | _ => match parse_number b with
             | Some (m, k) => Ok (f64_of_decimal neg m k)
             | None => match parse_inf_nan b neg with
                       | Some x => Ok x
                       | None => Err PFE_Invalid
                       end
             end
      end
  end.

(** ** [Display]: the shortest digits that read back to the same double *)

(** [num / den < 10 ^ k]. *)
Definition below_pow10 (num den k : Z) : bool :=
  if 0 <=? k then num <? den * 10 ^ k else num * 10 ^ (- k) <? den.

(** The decimal exponent: the least [k] with [v < 10 ^ k], searched from an
    estimate that is at most two too small. *)
Fixpoint find_k (fuel : nat) (num den k : Z) : Z :=
  match fuel with
  | O => k
  | S f => if below_pow10 num den k then k else find_k f num den (k + 1)
  end.

(** Among the two [n]-digit neighbours of [v], those that read back to [v],
    the closer one first. *)
Definition digits_of_width (v : f64) (num den k n : Z) : option (Z * Z) :=
  let s := n - k in
  let a := if 0 <=? s then num * 10 ^ s else num in
  let b := if 0 <=? s then den else den * 10 ^ (- s) in
  let d := a / b in
  let ok x := SFeqb (f64_of_decimal false x (- s)) v in
  let closer_low := 2 * (a - d * b) <=? b in
  match ok d, ok (d + 1) with
  | true, true => Some (if closer_low then d else d + 1, - s)
  | true, false => Some (d, - s)
  | false, true => Some (d + 1, - s)
  | false, false => None
  end.

Fixpoint shortest_from (fuel : nat) (v : f64) (num den k n : Z) : Z * Z :=
  match fuel with
  | O => (0, 0)
  | S f => match digits_of_width v num den k n with
           | Some r => r
           | None => shortest_from f v num den k (n + 1)
           end
  end.

(** Rounding up may carry into a power of ten: drop the trailing zeros. *)
Fixpoint strip_zeros (fuel : nat) (d x : Z) : Z * Z :=
  match fuel with
  | O => (d, x)
  | S f => if d mod 10 =? 0 then strip_zeros f (d / 10) (x + 1) else (d, x)
  end.

(** Seventeen significant digits always identify a double. *)
Definition shortest (m : positive) (e : Z) : Z * Z :=
  let num := if 0 <=? e then Zpos m * 2 ^ e else Zpos m in
  let den := if 0 <=? e then 1 else 2 ^ (- e) in
  let est := (Z.log2 (Zpos m) + e) * 30103 / 100000 - 1 in
  let k := find_k 5 num den est in
  let (d, x) := shortest_from 17 (S754_finite false m e) num den k 1 in
  strip_zeros 17 d x.

Definition zeros (n : Z) : string := from_bytes (repeat "0"%char (Z.to_nat n)).

(** Place the decimal point of [d * 10 ^ x]; Rust never uses an exponent here. *)
Definition place_point (d x : Z) : string :=
  let ds := as_bytes (show_Z d) in
  let p := len ds + x in
  if 0 <=? x then from_bytes ds +:+ zeros x
  else if 0 <? p then
    from_bytes (take (Z.to_nat p) ds) +:+ "." +:+ from_bytes (drop (Z.to_nat p) ds)
  else "0." +:+ zeros (- p) +:+ from_bytes ds.

Definition f64_display (x : f64) : string :=
  match x with
  | S754_nan => "NaN"
  | S754_infinity s => if s then "-inf" else "inf"
  | S754_zero s => if s then "-0" else "0"
  | S754_finite s m e =>
      let (d, x) := shortest m e in
      (if s then "-" else "") +:+ place_point d x
  end.

Definition f64_lit (s : string) : f64 :=
  match parse_f64 s with Ok x => x | Err _ => S754_nan end.

Example display_roundtrip_examples :
  map (fun s => f64_display (f64_lit s))
    ["0.1"; "-85.05112878"; "1e21"; "100"; "3.0"; "1e-7"; "5e-324"; "123456.789";
     "1.7976931348623157e308x"; "inf"; ".5"]%string =
  ["0.1"; "-85.05112878"; "1000000000000000000000"; "100"; "3"; "0.0000001";
   place_point 5 (-324); "123456.789"; "NaN"; "inf"; "0.5"]%string.
Proof. vm_compute. reflexivity. Qed.

(** ** The order of [partial_cmp]

    Comparison of non-NaN doubles is the lexicographic order of a triple of
    integers, hence a total preorder; the two zeros are equal in it. *)
Definition f64_key (x : f64) : Z * Z * Z :=
  match x with
  | S754_nan => (3, 0, 0)
  | S754_infinity true => (-2, 0, 0)
  | S754_finite true m e => (-1, - e, - Zpos m)
  | S754_zero _ => (0, 0, 0)
  | S754_finite false m e => (1, e, Zpos m)
  | S754_infinity false => (2, 0, 0)
  end.

Definition key_cmp (a b : Z * Z * Z) : comparison :=
  let '(a1, a2, a3) := a in
  let '(b1, b2, b3) := b in
  match Z.compare a1 b1 with
  | Eq => match Z.compare a2 b2 with
          | Eq => Z.compare a3 b3
          | c => c
          end
  | c => c
  end.

Lemma pos_compare_opp m n : Z.compare (Z.neg m) (Z.neg n) = CompOpp (Pos.compare m n).
Proof. reflexivity. Qed.

Lemma compare_opp_opp a b : Z.compare (- a) (- b) = CompOpp (Z.compare a b).
Proof. rewrite Z.compare_opp, <- Z.compare_antisym. done. Qed.

Lemma f64_cmp_key x y :
  is_nan x = false -> is_nan y = false ->
  f64_cmp x y = Some (key_cmp (f64_key x) (f64_key y)).
Proof.
  destruct x as [|[]| |[] m1 e1], y as [|[]| |[] m2 e2]; try discriminate; intros _ _;
    try reflexivity; unfold f64_cmp, SFcompare, f64_key, key_cmp.
  change (-1 ?= -1) with Eq. cbv iota. rewrite compare_opp_opp.
  change (- Z.pos m1) with (Z.neg m1). change (- Z.pos m2) with (Z.neg m2).
  rewrite pos_compare_opp.
  change (Pcompare m1 m2 Eq) with (Pos.compare m1 m2).
  by destruct (e1 ?= e2), (Pos.compare m1 m2).
Qed.

(** The lexicographic relation behind [key_cmp], for [lia]. *)
Definition key_lt (a b : Z * Z * Z) : Prop :=
  let '(a1, a2, a3) := a in
  let '(b1, b2, b3) := b in
  a1 < b1 \/ (a1 = b1 /\ (a2 < b2 \/ (a2 = b2 /\ a3 < b3))).

Lemma key_cmp_spec a b : CompareSpec (a = b) (key_lt a b) (key_lt b a) (key_cmp a b).
Proof.
  destruct a as [[a1 a2] a3], b as [[b1 b2] b3]. unfold key_cmp, key_lt.
  destruct (Z.compare_spec a1 b1); [|constructor; lia..].
  destruct (Z.compare_spec a2 b2); [|constructor; lia..].
  destruct (Z.compare_spec a3 b3); constructor; [by subst|lia..].
Qed.

Lemma key_lt_trans a b c : key_lt a b -> key_lt b c -> key_lt a c.
Proof. destruct a as [[]], b as [[]], c as [[]]. unfold key_lt. lia. Qed.

Lemma key_lt_irrefl a : ~ key_lt a a.
Proof. destruct a as [[]]. unfold key_lt. lia. Qed.
