(* ===== verification/Resp.v ===== *)
(** * RESP values ([resp.rs], [exceptions.rs])

    [RespType] with the source's constructors, the per-type operations the
    parser and the handlers use, [serialize], and [CustomError] with its
    rendering as a RESP value. *)

From Stdlib Require Import SpecFloat.
From S2P Require Import Prelude Text Float64.

(** ** [RespType] *)

Inductive RespType : Type :=
| SimpleStr (o : option string)
| Error (o : option string)
| Integer (o : option Z)
| BulkStr (length : Z) (value : option string)
| NullBulkStr
| Array (length : Z) (value : option (list RespType))
| Null
| Bool (o : option Z)
| Double (o : option f64)
| BigNbr (o : option string)
| BulkError (length : Z) (value : option string)
| VerbatimStr (length : Z) (value : option string)
| Map
| Attr
| Set_
| Push
| RDB (o : option bytes)
| Bytes (o : option bytes).

(** Structural induction that reaches the items of an array. *)
Section RespInduction.
Variable P : RespType -> Prop.
Hypothesis Harray : forall n v, Forall P v -> P (Array n (Some v)).
Hypothesis Hother : forall r,
  match r with Array _ (Some _) => False | _ => True end -> P r.

Fixpoint RespType_nested_ind (r : RespType) : P r :=
  match r with
  | Array n (Some v) =>
      Harray n v ((fix go (l : list RespType) : Forall P l :=
                     match l with
                     | [] => Forall_nil_2 P
                     | x :: l' => Forall_cons_2 P x l' (RespType_nested_ind x) (go l')
                     end) v)
  | r' => Hother r' ltac:(first [exact I | idtac])
  end.
End RespInduction.

(** [ReadBytesOutput]: what a token read from the buffer is. *)
Inductive ReadBytesOutput : Type :=
| RBO_String (s : string)
| RBO_Bytes (v : bytes).

Definition rbo_str (o : ReadBytesOutput) : option string :=
  match o with RBO_String s => Some s | RBO_Bytes _ => None end.

(** The [Box<dyn Error>]s of the parser. *)
Inductive BoxError : Type :=
| BE_Utf8
| BE_ParseInt (e : ParseIntError)
| BE_InvalidData
| BE_NotImplemented.

Definition get_prefix (r : RespType) : string :=
  match r with
  | SimpleStr _ => "+"
  | Error _ => "-"
  | Integer _ => ":"
  | BulkStr _ _ => "$"
  | NullBulkStr => "$-1" +:+ from_bytes DELIMITER
  | Array _ _ => "*"
  | Null => "_"
  | Bool _ => "#"
  | Double _ => ","
  | BigNbr _ => "("
  | BulkError _ _ => "!"
  | VerbatimStr _ _ => "="
  | Map => "%"
  | Attr => "|"
  | Set_ => "~"
  | Push => ">"
  | RDB _ => "$"
  | Bytes _ => ""
  end.

Definition match_prefix (first_char : u8) (rdb : bool) : option RespType :=
  if decide (first_char = "+"%char) then Some (SimpleStr None)
  else if decide (first_char = "-"%char) then Some (Error None)
  else if decide (first_char = ":"%char) then Some (Integer None)
  else if decide (first_char = "$"%char) then
    Some (if rdb then RDB None else BulkStr 0 None)
  else if decide (first_char = "*"%char) then Some (Array 0 None)
  else if decide (first_char = "_"%char) then Some Null
  else if decide (first_char = "#"%char) then Some (Bool None)
  else if decide (first_char = ","%char) then Some (Double None)
  else if decide (first_char = "!"%char) then Some (BulkError 0 None)
  else if decide (first_char = "="%char) then Some (VerbatimStr 0 None)
  else if decide (first_char = "%"%char) then Some Map
  else if decide (first_char = "|"%char) then Some Attr
  else if decide (first_char = "~"%char) then Some Set_
  else if decide (first_char = ">"%char) then Some Push
  else None.

Definition set_length (r : RespType) (value : Z) : RespType :=
  match r with
  | Array _ v => Array value v
  | BulkStr _ v => BulkStr value v
  | _ => r
  end.

Definition is_some {A} (o : option A) : bool :=
  match o with Some _ => true | None => false end.

Definition is_completed (r : RespType) : bool :=
  match r with
  | SimpleStr o | Error o => is_some o
  | Integer o => is_some o
  | Array length value =>
      match value with
      | Some v => len v =? length
      | None => false
      end
  | BulkStr _ value | BulkError _ value | VerbatimStr _ value => is_some value
  | RDB o => is_some o
  | _ => false
  end.

Definition add_item (r item : RespType) : RespType :=
  match r with
  | Array length value => Array length (Some (unwrap_or value [] ++ [item]))
  | _ => r
  end.

(** [Option::get_or_insert]: a value already present stays. *)
Definition get_or_insert {A} (o : option A) (a : A) : option A :=
  Some (unwrap_or o a).

Definition set_value (r : RespType) (parsed : ReadBytesOutput) : Result BoxError RespType :=
  match parsed with
  | RBO_String s =>
      match r with
      | SimpleStr o => Ok (SimpleStr (get_or_insert o s))
      | Error o => Ok (Error (get_or_insert o s))
      | BulkStr length value => Ok (BulkStr length (get_or_insert value s))
      | _ => Err BE_NotImplemented
      end
  | RBO_Bytes v =>
      match r with
      | RDB o => Ok (RDB (get_or_insert o v))
      | _ => Err BE_NotImplemented
      end
  end.

Definition bulk_bytes (v : bytes) : RespType :=
  Bytes (Some (as_bytes ("$" +:+ show_Z (len v)) ++ DELIMITER ++ v ++ DELIMITER)).

Definition get_str (r : RespType) : option string :=
  match r with
  | SimpleStr o => o
  | BulkStr _ value => value
  | _ => None
  end.

Definition get_int (r : RespType) : option Z :=
  match r with
  | Integer o => o
  | _ => None
  end.

(** A header line: prefix, number, delimiter. *)
Definition header (prefix : string) (n : Z) : bytes :=
  as_bytes prefix ++ as_bytes (show_Z n) ++ DELIMITER.

(** [todo!] for the types without a wire form. *)
Fixpoint serialize (r : RespType) : outcome bytes :=
  let fix items (l : list RespType) : outcome bytes :=
    match l with
    | [] => Ret []
    | x :: l' =>
        let! a := serialize x in
        let! b := items l' in
        Ret (a ++ b)
    end in
  match r with
  | Array length value =>
      match value with
      | Some v => let! body := items v in Ret (header "*" length ++ body)
      | None => Ret (header "*" (-1))
      end
  | BulkStr length value =>
      match value with
      | Some v => Ret (header "$" length ++ as_bytes v ++ DELIMITER)
      | None => Ret (header "$" (-1))
      end
  | SimpleStr o =>
      match o with
      | Some s => Ret (as_bytes "+" ++ as_bytes s ++ DELIMITER)
      | None => Ret []
      end
  | Integer o =>
      match o with
      | Some x => Ret (header ":" x)
      | None => Ret []
      end
  | RDB (Some v) => Ret (header "$" (len v) ++ v)
  | Error o =>
      match o with
      | Some s => Ret (as_bytes "-" ++ as_bytes s ++ DELIMITER)
      | None => Ret []
      end
  | Bytes o => Ret (unwrap_or o [])
  | NullBulkStr => Ret (as_bytes "$-1" ++ DELIMITER)
  | _ => Panic
  end.

Fixpoint serialize_items (l : list RespType) : outcome bytes :=
  match l with
  | [] => Ret []
  | x :: l' =>
      let! a := serialize x in
      let! b := serialize_items l' in
      Ret (a ++ b)
  end.

Lemma serialize_array n v :
  serialize (Array n (Some v)) =
  let! body := serialize_items v in Ret (header "*" n ++ body).
Proof. reflexivity. Qed.

(** ** [CustomError] ([exceptions.rs]) *)

Inductive CustomError : Type :=
| PathNotExists (s : string)
| InvalidArgument (s : string)
| MissingArgument (s : string)
| ParseError (s : string)
| NoCmdError (s : string)
| UnsupportedCmdStructure (s : string)
| UnsupportedCmd (s : string)
| UnprocessableError (s : string)
| InternalError (s : string)
| FileReadingError
| RDBParsingError
| WrongUsernamePassword (s : string)
| OutOfIndex
| Dummy.

Definition into_resp (e : CustomError) : RespType :=
  match e with
  | PathNotExists s | InvalidArgument s | MissingArgument s | ParseError s
  | NoCmdError s | UnsupportedCmdStructure s | UnsupportedCmd s
  | UnprocessableError s | InternalError s | WrongUsernamePassword s =>
      Error (Some s)
  | FileReadingError | RDBParsingError | OutOfIndex | Dummy => NullBulkStr
  end.

Definition into_error_bytes (e : CustomError) : outcome bytes :=
  serialize (into_resp e).

(** [impl From<ParseIntError> for CustomError] and its siblings: the [?]
    conversions. *)
Definition from_parse_int {A} (r : Result ParseIntError A) : Result CustomError A :=
  result_map_err (fun e => ParseError (parse_int_error_display e)) r.
Definition from_parse_float {A} (r : Result ParseFloatError A) : Result CustomError A :=
  result_map_err (fun e => ParseError (parse_float_error_display e)) r.
Definition from_utf8_error : CustomError := ParseError "Error parsing UTF8".

(** An error always has a wire form. *)
Lemma into_error_bytes_total e : exists b, into_error_bytes e = Ret b.
Proof. destruct e; eexists; reflexivity. Qed.
