(* ===== verification/RespParser.v ===== *)
(** * The incremental RESP parser ([resp.rs], [RespParser])

    The parser is a state machine over a growing buffer. [parse_step] is one
    iteration of the [loop] of [RespParser::parse]; [parse_loop] iterates it
    with fuel, and [parse_total] shows the fuel of [parse] always suffices on
    the states the parser reaches ([parser_wf]). The stack is a list with its
    top at the head. Indices are [usize] values, so the additions on them wrap
    around and an index out of range panics. *)

From S2P Require Import Prelude Text Float64 Resp.

(** ** State *)

Inductive ParseStatus : Type :=
| PS_None
| PS_Type
| PS_Header
| PS_Line
| PS_Bulk (n : Z)
| PS_RDB (n : Z).

Record RespParser : Type := mk_parser {
  buf : bytes;
  buf_cur : Z;
  tmp_start : Z;
  stack : list RespType;
  completed : list RespType;
  status : ParseStatus
}.

Definition parser_new : RespParser := mk_parser [] 0 0 [] [] PS_Type.

Definition set_cur (p : RespParser) (c : Z) : RespParser :=
  mk_parser (buf p) c (tmp_start p) (stack p) (completed p) (status p).
Definition set_start (p : RespParser) (t : Z) : RespParser :=
  mk_parser (buf p) (buf_cur p) t (stack p) (completed p) (status p).
Definition set_stack (p : RespParser) (s : list RespType) : RespParser :=
  mk_parser (buf p) (buf_cur p) (tmp_start p) s (completed p) (status p).
Definition set_completed (p : RespParser) (c : list RespType) : RespParser :=
  mk_parser (buf p) (buf_cur p) (tmp_start p) (stack p) c (status p).
Definition set_status (p : RespParser) (s : ParseStatus) : RespParser :=
  mk_parser (buf p) (buf_cur p) (tmp_start p) (stack p) (completed p) s.

(** [feed_buf(data, n)]: append the first [n] bytes read. *)
Definition feed_buf (p : RespParser) (data : bytes) : RespParser :=
  mk_parser (buf p ++ data) (buf_cur p) (tmp_start p) (stack p) (completed p) (status p).

(** ** Token scanners *)

(** The [while] of [next_till_type] over the bytes from [buf_cur] on: how many
    bytes it consumes, and the type found. *)
Fixpoint scan_type (rdb : bool) (b : bytes) (k : Z) : Z * option RespType :=
  match b with
  | [] => (k, None)
  | c :: b' =>
      match match_prefix c rdb with
      | Some r => (k + 1, Some r)
      | None => scan_type rdb b' (k + 1)
      end
  end.

Definition next_till_type (p : RespParser) (rdb : bool) : option RespType * RespParser :=
  let (k, o) := scan_type rdb (drop (Z.to_nat (buf_cur p)) (buf p)) 0 in
  let cur := buf_cur p + k in
  match o with
  | Some r => (Some r, set_start (set_cur p cur) cur)
  | None => (None, set_cur p cur)
  end.

(** The [while] of [next_till_new_line]: the bytes passed over before the
    delimiter, if there is one. *)
Fixpoint scan_newline (b : bytes) (k : Z) : Z * bool :=
  match b with
  | c :: ((d :: _) as b') =>
      if decide (c = CR /\ d = LF) then (k, true) else scan_newline b' (k + 1)
  | _ => (k, false)
  end.

(** [&buf[a..b]], panicking out of range. *)
Definition slice_checked (b : bytes) (lo hi : Z) : outcome bytes :=
  if (lo <=? hi) && (hi <=? len b) then Ret (slice b lo hi) else Panic.

Definition next_till_new_line (p : RespParser) :
    outcome (Result BoxError (option ReadBytesOutput) * RespParser) :=
  if len (buf p) <? buf_cur p then Panic
  else
    let (k, found) := scan_newline (drop (Z.to_nat (buf_cur p)) (buf p)) 0 in
    let cur := buf_cur p + k in
    if found then
      let! s := slice_checked (buf p) (tmp_start p) cur in
      match from_utf8 s with
      | Some str =>
          Ret (Ok (Some (RBO_String str)), set_start (set_cur p (cur + 2)) (cur + 2))
      | None => Ret (Err BE_Utf8, set_cur p cur)
      end
    else Ret (Ok None, set_cur p cur).

(** [buf[i]]. *)
Definition index (b : bytes) (i : Z) : outcome u8 := unwrap (vec_get b i).

Definition read_bytes (p : RespParser) (n : Z) (rdb : bool) :
    outcome (Result BoxError (option ReadBytesOutput) * RespParser) :=
  let tmp_len := wrap_u64 (buf_cur p - tmp_start p) in
  let buf_len := len (buf p) in
  let ending_len := if rdb then 0 else 2 in
  let total := wrap_u64 (n + ending_len) in
  let next_len := Z.min (saturating_sub total tmp_len) buf_len in
  let cur := if 0 <? next_len then wrap_u64 (buf_cur p + next_len) else buf_cur p in
  let p' := set_cur p cur in
  if (cur <=? buf_len) && (wrap_u64 (cur - tmp_start p) =? total) then
    let! delim :=
      if rdb then Ret false
      else
        let! c := index (buf p) (wrap_u64 (tmp_start p + n)) in
        if decide (c = CR) then
          let! d := index (buf p) (wrap_u64 (tmp_start p + n + 1)) in
          Ret (bool_decide (d = LF))
        else Ret false in
    if delim then
      let! s := slice_checked (buf p) (tmp_start p) (wrap_u64 (cur - 2)) in
      match from_utf8 s with
      | Some str => Ret (Ok (Some (RBO_String str)), p')
      | None => Ret (Err BE_Utf8, p')
      end
    else if rdb then
      let! s := slice_checked (buf p) (tmp_start p) cur in
      Ret (Ok (Some (RBO_Bytes s)), p')
    else Ret (Err BE_InvalidData, p')
  else Ret (Ok None, p').

Definition drain_till_buf (p : RespParser) : outcome RespParser :=
  if len (buf p) <? buf_cur p then Panic
  else Ret (mk_parser (drop (Z.to_nat (buf_cur p)) (buf p)) 0 0
              (stack p) (completed p) (status p)).

(** ** Completed values *)

(** The [loop] of [pop_completed] on the stack: what remains of it, and the
    value that left it. *)
Fixpoint pop_stack (top : RespType) (rest : list RespType) : list RespType * option RespType :=
  if is_completed top then
    match rest with
    | [] => ([], Some top)
    | next :: rest' => pop_stack (add_item next top) rest'
    end
  else (top :: rest, None).

Definition pop_completed (p : RespParser) : RespParser :=
  match stack p with
  | [] => p
  | top :: rest =>
      let (s, done) := pop_stack top rest in
      let p' := set_stack p s in
      match done with
      | Some r => set_completed p' (completed p' ++ [r])
      | None => p'
      end
  end.

Definition get_completed (p : RespParser) : option RespType * RespParser :=
  match completed p with
  | [] => (None, p)
  | r :: c => (Some r, set_completed p c)
  end.

(** ** One iteration of [parse] *)

Inductive step_result : Type :=
| Continue (p : RespParser)
| Return (r : Result BoxError unit) (p : RespParser)
| StepPanic.

(** The value on top of the stack takes the token. *)
Definition give_value (p : RespParser) (v : ReadBytesOutput) : step_result :=
  match stack p with
  | top :: rest =>
      match set_value top v with
      | Ok top' => Continue (set_status (set_stack p (top' :: rest)) PS_Type)
      | Err e => Return (Err e) p
      end
  | [] => Continue p
  end.

Definition step_type (rdb : bool) (p : RespParser) : step_result :=
  match next_till_type p rdb with
  | (Some r, p) =>
      let p := set_stack p (r :: stack p) in
      match r with
      | Array _ _ | BulkStr _ _ | RDB _ => Continue (set_status p PS_Header)
      | SimpleStr _ | Integer _ => Continue (set_status p PS_Line)
      | _ => Continue p
      end
  | (None, p) => Continue (set_status p PS_Type)
  end.

(** The status after a header of the given length. *)
Definition status_after_header (top : RespType) (n : Z) : ParseStatus :=
  match top with
  | Array _ _ => PS_Type
  | BulkStr length _ | BulkError length _ | VerbatimStr length _ => PS_Bulk length
  | RDB _ => PS_RDB n
  | _ => PS_Type
  end.

Definition step_header (p : RespParser) : step_result :=
  match next_till_new_line p with
  | Panic => StepPanic
  | Ret (Err e, p) => Return (Err e) p
  | Ret (Ok None, p) => Return (Ok tt) (set_status p PS_Header)
  | Ret (Ok (Some s), p) =>
      match drain_till_buf p with
      | Panic => StepPanic
      | Ret p =>
          match stack p with
          | [] => Continue p
          | top :: rest =>
              match rbo_str s with
              | None => StepPanic
              | Some str =>
                  match parse_usize str with
                  | Err e => Return (Err (BE_ParseInt e)) p
                  | Ok n =>
                      let top := set_length top n in
                      Continue (set_status (set_stack p (top :: rest))
                                  (status_after_header top n))
                  end
              end
          end
      end
  end.

Definition step_line (p : RespParser) : step_result :=
  match next_till_new_line p with
  | Panic => StepPanic
  | Ret (Err e, p) => Return (Err e) p
  | Ret (Ok None, p) => Return (Ok tt) (set_status p PS_Line)
  | Ret (Ok (Some s), p) =>
      match drain_till_buf p with
      | Panic => StepPanic
      | Ret p => give_value p s
      end
  end.

(** [Bulk(n)] and [RDB(n)]; a read error only leaves the status at [Type]. *)
Definition step_bulk (n : Z) (rdb : bool) (p : RespParser) : step_result :=
  match read_bytes p n rdb with
  | Panic => StepPanic
  | Ret (Ok (Some s), p) =>
      match drain_till_buf p with
      | Panic => StepPanic
      | Ret p => give_value p s
      end
  | Ret (Ok None, p) => Continue (set_status p (if rdb then PS_RDB n else PS_Bulk n))
  | Ret (Err _, p) => Continue p
  end.

(** Nothing to do: a value is complete, or the buffer is exhausted. *)
Definition parse_blocked (p : RespParser) : bool :=
  negb (bool_decide (completed p = [])) ||
  bool_decide (buf p = []) || (len (buf p) <=? buf_cur p).

(** The [match current_status], entered with the status replaced by [Type]. *)
Definition parse_body (rdb : bool) (p : RespParser) : step_result :=
  let q := set_status p PS_Type in
  match status p with
  | PS_Type => step_type rdb q
  | PS_Header => step_header q
  | PS_Line => step_line q
  | PS_Bulk n => step_bulk n false q
  | PS_RDB n => step_bulk n true q
  | PS_None => Continue q
  end.

Definition parse_step (rdb : bool) (p : RespParser) : step_result :=
  let p := pop_completed p in
  if parse_blocked p then Return (Ok tt) p else parse_body rdb p.

Fixpoint parse_loop (fuel : nat) (rdb : bool) (p : RespParser) :
    option (outcome (Result BoxError unit * RespParser)) :=
  match fuel with
  | O => None
  | S f =>
      match parse_step rdb p with
      | Continue p' => parse_loop f rdb p'
      | Return r p' => Some (Ret (r, p'))
      | StepPanic => Some Panic
      end
  end.

(** Each byte costs at most two iterations. *)
Definition parse_fuel (p : RespParser) : nat := 2 * List.length (buf p) + 3.

Definition parse (rdb : bool) (p : RespParser) : outcome (Result BoxError unit * RespParser) :=
  unwrap_or (parse_loop (parse_fuel p) rdb p) Panic.

(** ** The states the parser reaches *)

(** A vector never holds more than [isize::MAX] bytes. *)
Definition isize_max : Z := 2 ^ 63 - 1.

(** The open value a token is read for. *)
Definition awaiting (st : ParseStatus) (s : list RespType) : Prop :=
  match st, s with
  | PS_Type, _ => True
  | PS_Header, (Array _ None | BulkStr _ None | RDB None) :: _ => True
  | PS_Line, (SimpleStr None | Integer None) :: _ => True
  | PS_Bulk n, BulkStr m None :: _ => n = m
  | PS_RDB _, RDB None :: _ => True
  | _, _ => False
  end.

Definition status_wf (p : RespParser) : Prop :=
  match status p with
  | PS_None => False
  | PS_Type | PS_Header | PS_Line =>
      0 <= tmp_start p <= buf_cur p /\ buf_cur p <= len (buf p)
  | PS_Bulk n => is_u64 n /\ tmp_start p = 0 /\ 0 <= buf_cur p <= wrap_u64 (n + 2)
  | PS_RDB n => is_u64 n /\ tmp_start p = 0 /\ 0 <= buf_cur p <= n
  end.

Definition parser_wf (p : RespParser) : Prop :=
  len (buf p) <= isize_max /\ awaiting (status p) (stack p) /\ status_wf p.

(** The iterations a state has left: two per byte not yet passed, one more to
    settle a token. *)
Definition measure (p : RespParser) : Z :=
  2 * Z.max 0 (len (buf p) - buf_cur p) +
  match status p with PS_Type => 0 | _ => 1 end.

Lemma scan_type_spec rdb b k k' o :
  scan_type rdb b k = (k', o) ->
  k <= k' <= k + len b /\ (b <> [] -> k < k').
Proof.
  revert k. induction b as [|c b IH]; intros k; cbn; rewrite ?len_cons.
  { intros [= <- <-]. rewrite len_nil. split; [lia|done]. }
  pose proof (len_nonneg b). case_match.
  - intros [= <- <-]. lia.
  - intros Hs%IH. lia.
Qed.

Lemma scan_newline_spec b k k' found :
  scan_newline b k = (k', found) ->
  k <= k' /\ (if found then k' + 2 <= k + len b else k' <= k + len b).
Proof.
  revert k. induction b as [|c b IH]; intros k.
  { intros [= <- <-]. rewrite len_nil. lia. }
  destruct b as [|d b].
  { intros [= <- <-]. autorewrite with redis_rw. lia. }
  cbn [scan_newline]. rewrite !len_cons. pose proof (len_nonneg b). case_decide.
  - intros [= <- <-]. lia.
  - intros [? Hs]%IH. rewrite len_cons in Hs. destruct found; lia.
Qed.

Lemma len_drop {A} (l : list A) i : 0 <= i <= len l -> len (drop (Z.to_nat i) l) = len l - i.
Proof. unfold len. rewrite length_drop. lia. Qed.

Lemma slice_checked_ok b lo hi :
  0 <= lo -> lo <= hi <= len b -> slice_checked b lo hi = Ret (slice b lo hi).
Proof.
  unfold slice_checked. intros. by rewrite (proj2 (Z.leb_le lo hi)), (proj2 (Z.leb_le hi (len b))) by lia.
Qed.

(** What [next_till_new_line] does on indices in range: it never panics, moves
    forward only, and an answer consumes the delimiter. *)
Lemma next_till_new_line_spec p :
  0 <= tmp_start p <= buf_cur p -> buf_cur p <= len (buf p) ->
  exists r p', next_till_new_line p = Ret (r, p') /\
    buf p' = buf p /\ stack p' = stack p /\ completed p' = completed p /\
    status p' = status p /\ buf_cur p <= buf_cur p' <= len (buf p) /\
    match r with
    | Ok (Some v) => buf_cur p + 2 <= buf_cur p' /\ tmp_start p' = buf_cur p' /\
                     exists s, v = RBO_String s
    | _ => tmp_start p' = tmp_start p
    end.
Proof.
  intros Hs Hc. unfold next_till_new_line.
  destruct (Z.ltb_spec (len (buf p)) (buf_cur p)); [lia|].
  destruct (scan_newline _ 0) as [k found] eqn:Hscan.
  apply scan_newline_spec in Hscan as [Hk Hf]. rewrite len_drop in Hf by lia.
  destruct found.
  - rewrite slice_checked_ok by lia. cbn [outcome_bind].
    destruct (from_utf8 _) as [s|].
    + eexists _, _. split; [done|]. cbn. repeat split; try lia. eauto.
    + eexists _, _. split; [done|]. cbn. repeat split; lia.
  - eexists _, _. split; [done|]. cbn. repeat split; lia.
Qed.

Lemma drain_ok p :
  buf_cur p <= len (buf p) ->
  drain_till_buf p = Ret (mk_parser (drop (Z.to_nat (buf_cur p)) (buf p)) 0 0
                            (stack p) (completed p) (status p)).
Proof. unfold drain_till_buf. intros. by destruct (Z.ltb_spec (len (buf p)) (buf_cur p)); [lia|]. Qed.

(** The bytes a [Bulk] or [RDB] token spans, delimiter included. *)
Definition bulk_total (n : Z) (rdb : bool) : Z := wrap_u64 (n + if rdb then 0 else 2).

Lemma bulk_total_range n rdb : 0 <= bulk_total n rdb <= u64_max.
Proof. apply wrap_u64_is_u64. Qed.

(** On a token that started at the buffer's origin, a read stays within the
    token, and makes progress whenever it does not finish it. *)
Lemma read_bytes_spec p n rdb :
  tmp_start p = 0 -> 0 <= buf_cur p <= bulk_total n rdb -> buf_cur p < len (buf p) ->
  match read_bytes p n rdb with
  | Panic => True
  | Ret (r, p') =>
      exists cur, p' = set_cur p cur /\ buf_cur p <= cur <= bulk_total n rdb /\
      match r with
      | Ok None => buf_cur p < cur
      | _ => cur <= len (buf p)
      end
  end.
Proof.
  intros Hs Hc Hlt. pose proof (bulk_total_range n rdb) as HN.
  unfold read_bytes. fold (bulk_total n rdb). rewrite Hs, Z.sub_0_r.
  rewrite (wrap_u64_id (buf_cur p)) by (unfold is_u64; lia).
  set (next := Z.min _ _).
  assert (next = Z.min (bulk_total n rdb - buf_cur p) (len (buf p))) as Hnext.
  { unfold next, saturating_sub. lia. }
  assert ((if 0 <? next then wrap_u64 (buf_cur p + next) else buf_cur p) =
          buf_cur p + next) as Hcur.
  { destruct (Z.ltb_spec 0 next); [|lia]. apply wrap_u64_id. unfold is_u64. lia. }
  rewrite Hcur, Z.sub_0_r. clear Hcur.
  rewrite (wrap_u64_id (buf_cur p + next)) by (unfold is_u64; lia).
  destruct (Z.leb_spec (buf_cur p + next) (len (buf p))), (Z.eqb_spec (buf_cur p + next) (bulk_total n rdb));
    cbn [andb].
  2-4: eexists; split; [done|]; lia.
  destruct (if rdb then Ret false else _) as [delim|]; [|done].
  cbn [outcome_bind]. destruct delim.
  - destruct (slice_checked _ _ _); [|done]. cbn [outcome_bind].
    destruct (from_utf8 _); eexists; (split; [done|]); lia.
  - destruct rdb.
    + destruct (slice_checked _ _ _); [|done]. eexists; (split; [done|]); lia.
    + eexists; (split; [done|]); lia.
Qed.

Lemma pop_completed_fields p :
  buf (pop_completed p) = buf p /\ buf_cur (pop_completed p) = buf_cur p /\
  tmp_start (pop_completed p) = tmp_start p /\ status (pop_completed p) = status p.
Proof.
  unfold pop_completed. destruct (stack p); [done|].
  by destruct (pop_stack _ _) as [? []].
Qed.

Lemma awaiting_incomplete st s :
  awaiting st s -> st = PS_Type \/ exists top rest, s = top :: rest /\ is_completed top = false.
Proof.
  destruct st, s as [|[] ?]; cbn; intros H; try done; auto;
    right; eexists _, _; (split; [done|]); by repeat case_match.
Qed.

Lemma pop_incomplete p top rest :
  stack p = top :: rest -> is_completed top = false -> pop_completed p = p.
Proof.
  intros Hs Hc. unfold pop_completed. rewrite Hs. destruct rest; cbn; rewrite Hc;
    destruct p; cbn in *; by subst.
Qed.

Lemma pop_completed_wf p : parser_wf p -> parser_wf (pop_completed p).
Proof.
  intros (Hb & Ha & Hs).
  destruct (awaiting_incomplete _ _ Ha) as [Ht|(top & rest & Htop & Hinc)].
  - destruct (pop_completed_fields p) as (H1 & H2 & H3 & H4).
    unfold parser_wf, status_wf in *. by rewrite H1, H2, H3, H4, Ht in *.
  - by erewrite pop_incomplete.
Qed.

Lemma pop_completed_measure p : measure (pop_completed p) = measure p.
Proof.
  destruct (pop_completed_fields p) as (H1 & H2 & H3 & H4).
  unfold measure. by rewrite H1, H2, H4.
Qed.

Lemma parse_blocked_false p :
  parse_blocked p = false ->
  completed p = [] /\ buf p <> [] /\ buf_cur p < len (buf p).
Proof. unfold parse_blocked. intros. bools. by repeat case_bool_decide. Qed.

(** A step result keeps the invariant, and [Continue] uses up some measure. *)
Definition step_ok (m : Z) (s : step_result) : Prop :=
  match s with
  | Continue p => parser_wf p /\ measure p < m
  | Return _ p => parser_wf p
  | StepPanic => True
  end.

Lemma give_value_ok p v m :
  len (buf p) <= isize_max -> tmp_start p = 0 -> buf_cur p = 0 -> status p = PS_Type ->
  2 * len (buf p) < m -> step_ok m (give_value p v).
Proof.
  intros Hb Ht Hc Hst Hm. pose proof (len_nonneg (buf p)).
  unfold give_value, step_ok, parser_wf, status_wf, measure.
  repeat case_match; simplify_eq/=; try congruence; repeat split; try lia; done.
Qed.

(** A type just met holds no value yet. *)
Definition fresh_type (r : RespType) : Prop :=
  match r with
  | Array _ v => v = None
  | BulkStr _ v => v = None
  | RDB v => v = None
  | SimpleStr v => v = None
  | Integer v => v = None
  | _ => True
  end.

Lemma match_prefix_fresh c rdb r : match_prefix c rdb = Some r -> fresh_type r.
Proof. unfold match_prefix. intros. by repeat (case_match; simplify_eq/=). Qed.

Lemma scan_type_fresh rdb b k k' r : scan_type rdb b k = (k', Some r) -> fresh_type r.
Proof.
  revert k. induction b as [|c b IH]; intros k; cbn; [done|].
  destruct (match_prefix c rdb) eqn:Hm; [|apply IH].
  intros [= <- <-]. by eapply match_prefix_fresh.
Qed.

Lemma step_type_ok rdb p :
  len (buf p) <= isize_max -> 0 <= tmp_start p <= buf_cur p ->
  buf_cur p < len (buf p) -> status p = PS_Type ->
  step_ok (measure p) (step_type rdb p).
Proof.
  intros Hb Ht Hc Hst. unfold step_type, next_till_type.
  destruct (scan_type _ _ 0) as [k o] eqn:Hscan.
  pose proof (scan_type_spec _ _ _ _ _ Hscan) as [Hk Hk']. rewrite len_drop in Hk by lia.
  assert (0 < k).
  { apply Hk'. intros Hnil. apply (f_equal len) in Hnil.
    rewrite len_drop, len_nil in Hnil by lia. lia. }
  unfold step_ok, parser_wf, status_wf, measure. rewrite Hst.
  destruct o as [r|]; [|cbn; rewrite ?Hst; repeat split; lia].
  apply scan_type_fresh in Hscan.
  destruct r; cbn in *; rewrite ?Hst; repeat split; try lia; by subst.
Qed.

Lemma parse_usize_u64 s n : parse_usize s = Ok n -> is_u64 n.
Proof. intros H%parse_unsigned_range; [done|]. unfold u64_max. lia. Qed.

Lemma step_header_ok p :
  len (buf p) <= isize_max -> 0 <= tmp_start p <= buf_cur p ->
  buf_cur p < len (buf p) -> awaiting PS_Header (stack p) -> status p = PS_Type ->
  step_ok (measure p + 1) (step_header p).
Proof.
  intros Hb Ht Hc Ha Hst.
  destruct (next_till_new_line_spec p) as (r & p' & Heq & Hbuf & Hstk & Hcomp & Hstat & Hcur & Hr); [lia..|].
  unfold step_header. rewrite Heq. unfold measure at 1. rewrite Hst.
  destruct r as [[v|]|e].
  - destruct Hr as (Hcur2 & Hstart & str & ->). rewrite drain_ok by (rewrite Hbuf; lia).
    cbn. rewrite Hbuf, Hstk, Hcomp, Hstat, Hst.
    pose proof (len_drop (buf p) (buf_cur p') ltac:(lia)) as Hlen.
    destruct (stack p) as [|top rest].
    { cbn. unfold parser_wf, status_wf, measure. cbn. rewrite Hlen. repeat split; lia. }
    destruct (parse_usize str) as [n|e] eqn:Hn.
    2: { cbn. unfold parser_wf, status_wf. cbn. rewrite Hlen. repeat split; lia. }
    apply parse_usize_u64 in Hn. pose proof (bulk_total_range n false).
    unfold step_ok, parser_wf, status_wf, measure. cbn. rewrite Hlen.
    destruct top; cbn in *; try done; repeat split; try lia;
      unfold is_u64, bulk_total in *; try lia; by repeat case_match.
  - cbn. unfold parser_wf, status_wf. cbn. rewrite Hbuf, Hstk. repeat split; try lia; done.
  - cbn. unfold parser_wf, status_wf. rewrite Hstat, Hst, Hbuf. cbn. repeat split; lia.
Qed.

Lemma step_line_ok p :
  len (buf p) <= isize_max -> 0 <= tmp_start p <= buf_cur p ->
  buf_cur p < len (buf p) -> awaiting PS_Line (stack p) -> status p = PS_Type ->
  step_ok (measure p + 1) (step_line p).
Proof.
  intros Hb Ht Hc Ha Hst.
  destruct (next_till_new_line_spec p) as (r & p' & Heq & Hbuf & Hstk & Hcomp & Hstat & Hcur & Hr); [lia..|].
  unfold step_line. rewrite Heq. unfold measure at 1. rewrite Hst.
  destruct r as [[v|]|e].
  - destruct Hr as (Hcur2 & Hstart & str & ->). rewrite drain_ok by (rewrite Hbuf; lia).
    pose proof (len_drop (buf p) (buf_cur p') ltac:(lia)) as Hlen.
    rewrite Hbuf, Hstk, Hcomp, Hstat, Hst. apply give_value_ok; cbn; try done; lia.
  - cbn. unfold parser_wf, status_wf. cbn. rewrite Hbuf, Hstk. repeat split; try lia; done.
  - cbn. unfold parser_wf, status_wf. rewrite Hstat, Hst, Hbuf. cbn. repeat split; lia.
Qed.

Lemma step_bulk_ok n (rdb : bool) p :
  len (buf p) <= isize_max -> is_u64 n -> tmp_start p = 0 ->
  0 <= buf_cur p <= bulk_total n rdb -> buf_cur p < len (buf p) ->
  awaiting (if rdb then PS_RDB n else PS_Bulk n) (stack p) -> status p = PS_Type ->
  step_ok (measure p + 1) (step_bulk n rdb p).
Proof.
  intros Hb Hn Hs Hc Hlt Ha Hst. unfold step_bulk.
  pose proof (read_bytes_spec p n rdb Hs Hc Hlt) as Hread.
  destruct (read_bytes p n rdb) as [[r p']|]; [|done].
  destruct Hread as (cur & -> & Hcur & Hr).
  unfold measure at 1. rewrite Hst. destruct r as [[v|]|e].
  - rewrite drain_ok by (cbn; lia).
    pose proof (len_drop (buf p) cur ltac:(lia)) as Hlen.
    apply give_value_ok; cbn; try done; lia.
  - unfold step_ok, parser_wf, status_wf, measure.
    destruct rdb; cbn; repeat split; try done; unfold is_u64 in *; try lia.
    all: unfold bulk_total in *; rewrite ?Z.add_0_r, ?(wrap_u64_id n) in * by done; lia.
  - unfold step_ok, parser_wf, status_wf, measure. cbn. rewrite Hst. repeat split; lia.
Qed.

Lemma parse_body_ok rdb p :
  parser_wf p -> buf_cur p < len (buf p) -> step_ok (measure p) (parse_body rdb p).
Proof.
  intros (Hb & Ha & Hs) Hlt. unfold parse_body, measure. unfold status_wf in Hs.
  destruct (status p) eqn:Hst; try done.
  - rewrite Z.add_0_r.
    replace (2 * _) with (measure (set_status p PS_Type)) by (unfold measure; cbn; lia).
    apply step_type_ok; cbn; tauto.
  - replace (2 * _) with (measure (set_status p PS_Type)) by (unfold measure; cbn; lia).
    apply step_header_ok; cbn; tauto.
  - replace (2 * _) with (measure (set_status p PS_Type)) by (unfold measure; cbn; lia).
    apply step_line_ok; cbn; tauto.
  - replace (2 * _) with (measure (set_status p PS_Type)) by (unfold measure; cbn; lia).
    apply step_bulk_ok; cbn; tauto.
  - replace (2 * _) with (measure (set_status p PS_Type)) by (unfold measure; cbn; lia).
    destruct Hs as (Hn & ? & ?). apply step_bulk_ok; cbn; try done.
    unfold bulk_total. by rewrite Z.add_0_r, wrap_u64_id.
Qed.

Lemma parse_step_ok rdb p : parser_wf p -> step_ok (measure p) (parse_step rdb p).
Proof.
  intros Hwf%pop_completed_wf. unfold parse_step. rewrite <- pop_completed_measure.
  destruct (parse_blocked _) eqn:Hblk; [done|].
  apply parse_blocked_false in Hblk as (_ & _ & Hlt). by apply parse_body_ok.
Qed.

Lemma parse_loop_total rdb fuel p :
  parser_wf p -> measure p < Z.of_nat fuel ->
  match parse_loop fuel rdb p with
  | Some (Ret (_, p')) => parser_wf p'
  | Some Panic => True
  | None => False
  end.
Proof.
  revert p. induction fuel as [|f IH]; intros p Hwf Hm.
  { unfold measure in Hm. case_match; lia. }
  cbn. pose proof (parse_step_ok rdb p Hwf) as Hok.
  destruct (parse_step rdb p) as [p'|r p'|]; cbn in Hok; try done.
  apply IH; [tauto|lia].
Qed.

Lemma measure_fuel p : parser_wf p -> measure p < Z.of_nat (parse_fuel p).
Proof.
  intros (_ & _ & Hs). unfold measure, parse_fuel, len, status_wf in *. case_match; lia.
Qed.

Lemma parse_loop_mono rdb f k p x :
  parse_loop f rdb p = Some x -> parse_loop (f + k) rdb p = Some x.
Proof.
  revert p. induction f as [|f IH]; intros p; cbn; [done|].
  destruct (parse_step rdb p); auto.
Qed.

(** [parse] is what the loop computes with any sufficient fuel. *)
Lemma parse_loop_parse rdb f p x :
  parser_wf p -> parse_loop f rdb p = Some x -> parse rdb p = x.
Proof.
  intros Hwf Hf. unfold parse.
  pose proof (parse_loop_total rdb _ p Hwf (measure_fuel p Hwf)) as Ht.
  destruct (parse_loop (parse_fuel p) rdb p) as [y|] eqn:Hy; [|done].
  apply (parse_loop_mono _ _ f) in Hy. apply (parse_loop_mono _ _ (parse_fuel p)) in Hf.
  rewrite Nat.add_comm in Hf. cbn. congruence.
Qed.

Lemma parser_new_wf : parser_wf parser_new.
Proof. unfold parser_wf, status_wf. cbn. unfold isize_max. rewrite len_nil. repeat split; lia. Qed.

Lemma feed_buf_wf p data :
  parser_wf p -> len (buf p) + len data <= isize_max -> parser_wf (feed_buf p data).
Proof.
  unfold parser_wf, status_wf. cbn. rewrite len_app. pose proof (len_nonneg data).
  intros (Hb & Ha & Hs) Hl. repeat split; [lia|done|]. case_match; try done; lia.
Qed.

(** C15: from every state the parser reaches, [parse] ends: its loop takes at most
    two iterations per byte of the buffer and three more, any larger bound gives
    the same result, and the state it leaves is again one the parser reaches. *)
Theorem parse_total rdb p : parser_wf p -> exists x,
  parse rdb p = x /\
  (forall f, (parse_fuel p <= f)%nat -> parse_loop f rdb p = Some x) /\
  match x with Ret (_, p') => parser_wf p' | Panic => True end.
Proof.
  intros Hwf. pose proof (parse_loop_total rdb _ p Hwf (measure_fuel p Hwf)) as Ht.
  destruct (parse_loop (parse_fuel p) rdb p) as [x|] eqn:Hx; [|done]. exists x. split_and!.
  - unfold parse. by rewrite Hx.
  - intros f Hf. apply (parse_loop_mono _ _ (f - parse_fuel p)) in Hx.
    by replace (parse_fuel p + (f - parse_fuel p))%nat with f in Hx by lia.
  - by destruct x as [[]|].
Qed.

Lemma parse_total_witness : exists x,
  parse false (feed_buf parser_new (as_bytes "*1")) = Ret x /\ parser_wf x.2.
Proof.
  destruct (parse_total false (feed_buf parser_new (as_bytes "*1"))) as (x & Hx & _ & Hwf).
  - apply feed_buf_wf; [apply parser_new_wf|by vm_compute].
  - destruct x as [[r p]|]; [|exfalso; vm_compute in Hx; discriminate].
    exists (r, p). split; [exact Hx|exact Hwf].
Defined.
