(* ===== verification/RespWire.v ===== *)
(** * Serializing and parsing agree

    [wire_wf] describes the values a client can send (simple strings, bulk
    strings and non-empty arrays of them, nested at will); on these, [parse]
    undoes [serialize], whatever bytes follow. *)

From S2P Require Import Prelude Text Float64 Resp RespParser.

(** ** Well-formed wire values *)
Fixpoint no_crlf (b : bytes) : bool :=
  match b with
  | c :: ((d :: _) as b') => negb (bool_decide (c = CR /\ d = LF)) && no_crlf b'
  | _ => true
  end.

(** Rust's [String] and [Vec] invariants (valid UTF-8, lengths that fit), the
    length fields agreeing with the contents, and no delimiter inside a simple
    string. *)
Fixpoint wire_wf (r : RespType) : bool :=
  match r with
  | SimpleStr (Some s) => utf8_valid (as_bytes s) && no_crlf (as_bytes s)
  | BulkStr n (Some s) =>
      (n =? str_len s) && utf8_valid (as_bytes s) && (str_len s <=? isize_max)
  | Array n (Some v) =>
      (n =? len v) && (0 <? n) && (n <=? isize_max) && forallb wire_wf v
  | _ => false
  end.

Lemma wire_wf_completed r : wire_wf r = true -> is_completed r = true.
Proof.
  destruct r as [[]| | |? []| |n [v|]| | | | | | | | | | | |]; cbn; try done.
  intros. bools. subst. by apply Z.eqb_eq.
Qed.

(** ** Scanning lemmas *)
Lemma scan_newline_cons2 c d b k :
  scan_newline (c :: d :: b) k =
  if decide (c = CR /\ d = LF) then (k, true) else scan_newline (d :: b) (k + 1).
Proof. reflexivity. Qed.

Lemma no_crlf_cons2 c d b :
  no_crlf (c :: d :: b) = negb (bool_decide (c = CR /\ d = LF)) && no_crlf (d :: b).
Proof. reflexivity. Qed.

Lemma scan_newline_shift b k :
  scan_newline b k = let (j, f) := scan_newline b 0 in (k + j, f).
Proof.
  revert k. induction b as [|c b IH]; intros k; [by cbn; rewrite Z.add_0_r|].
  destruct b as [|d b]; [by cbn; rewrite Z.add_0_r|].
  rewrite !scan_newline_cons2. case_decide; [by rewrite Z.add_0_r|].
  rewrite (IH (k + 1)), (IH (0 + 1)). destruct (scan_newline (d :: b) 0). f_equal. lia.
Qed.

(** The delimiter found is the first one. *)
Lemma scan_newline_found b rest :
  no_crlf b = true -> scan_newline (b ++ DELIMITER ++ rest) 0 = (len b, true).
Proof.
  induction b as [|c b IH]; intros Hb; [reflexivity|].
  cbn [app]. assert (no_crlf b = true) as Hb'.
  { destruct b; [done|]. rewrite no_crlf_cons2 in Hb. by bools. }
  specialize (IH Hb').
  destruct b as [|d b].
  - cbn [app DELIMITER]. rewrite scan_newline_cons2, decide_False by (intros [_ Hd]; discriminate Hd).
    reflexivity.
  - cbn [app] in *. rewrite scan_newline_cons2. case_decide as Hd.
    + rewrite no_crlf_cons2, bool_decide_eq_true_2 in Hb by done.
      discriminate.
    + rewrite scan_newline_shift. rewrite IH, !len_cons. f_equal; lia.
Qed.

Lemma no_crlf_no_cr b : Forall (fun c => c <> CR) b -> no_crlf b = true.
Proof.
  induction 1 as [|c b Hc Hb IH]; [done|]. destruct b; [done|].
  rewrite no_crlf_cons2, bool_decide_eq_false_2 by (by intros [? _]).
  done.
Qed.

Lemma no_crlf_show_Z n : no_crlf (as_bytes (show_Z n)) = true.
Proof. apply no_crlf_no_cr, show_Z_forall; done. Qed.

Lemma drop_len_app {A} (l k : list A) : drop (Z.to_nat (len l)) (l ++ k) = k.
Proof. unfold len. rewrite Nat2Z.id. apply drop_app_length. Qed.

Lemma slice_mid {A} (l m k : list A) :
  slice (l ++ m ++ k) (len l) (len l + len m) = m.
Proof.
  unfold slice. rewrite drop_len_app. replace (len l + len m - len l) with (len m) by lia.
  unfold len. rewrite Nat2Z.id. apply take_app_length.
Qed.

(** A line after [pre], read from [pre]'s end. *)
Lemma next_line p pre s rest :
  buf p = pre ++ as_bytes s ++ DELIMITER ++ rest ->
  buf_cur p = len pre -> tmp_start p = len pre ->
  utf8_valid (as_bytes s) = true -> no_crlf (as_bytes s) = true ->
  exists p', next_till_new_line p = Ret (Ok (Some (RBO_String s)), p') /\
    drain_till_buf p' = Ret (mk_parser rest 0 0 (stack p) (completed p) (status p)).
Proof.
  intros Hbuf Hcur Hst Hu Hn. unfold next_till_new_line.
  pose proof (len_nonneg (as_bytes s)). pose proof (len_nonneg rest).
  assert (len (buf p) = len pre + len (as_bytes s) + 2 + len rest) as Hlen.
  { rewrite Hbuf, !len_app. change (len DELIMITER) with 2. lia. }
  destruct (Z.ltb_spec (len (buf p)) (buf_cur p)); [lia|].
  rewrite Hcur, Hbuf, drop_len_app, scan_newline_found by done.
  rewrite <- Hbuf, Hst, slice_checked_ok by (pose proof (len_nonneg pre); lia).
  cbn [outcome_bind]. rewrite Hbuf, slice_mid, from_utf8_valid by done.
  eexists. split; [done|]. rewrite drain_ok by (cbn; rewrite Hlen; lia). cbn.
  f_equal. f_equal. rewrite Hbuf, (app_assoc pre), (app_assoc (pre ++ _)).
  replace (len pre + len (as_bytes s) + 2)
    with (len ((pre ++ as_bytes s) ++ DELIMITER)); [apply drop_len_app|].
  rewrite !len_app. change (len DELIMITER) with 2. lia.
Qed.

(** ** Runs of the parser *)

Inductive steps (rdb : bool) : RespParser -> RespParser -> Prop :=
| steps_refl p : steps rdb p p
| steps_step p q r : parse_step rdb p = Continue q -> steps rdb q r -> steps rdb p r.

(** A step looks at the state only after popping the completed values, so runs
    are composed up to that. *)
Definition steps_to (p q : RespParser) : Prop :=
  exists q', steps false p q' /\ pop_completed q' = pop_completed q.

Lemma pop_stack_idemp top rest s o :
  pop_stack top rest = (s, o) ->
  match s with [] => True | t :: _ => is_completed t = false end.
Proof.
  revert top. induction rest as [|x rest IH]; intros top; cbn.
  - destruct (is_completed top) eqn:E; intros [= <- <-]; done.
  - destruct (is_completed top) eqn:E; [apply IH|]. intros [= <- <-]. done.
Qed.

Lemma parse_step_pop rdb p q :
  pop_completed p = pop_completed q -> parse_step rdb p = parse_step rdb q.
Proof. unfold parse_step. by intros ->. Qed.

Lemma steps_trans rdb p q r : steps rdb p q -> steps rdb q r -> steps rdb p r.
Proof. induction 1; eauto using steps. Qed.

Lemma steps_to_trans p q r : steps_to p q -> steps_to q r -> steps_to p r.
Proof.
  intros (q' & Hp & Hq) (r' & Hr & Hrr). destruct Hr as [|q q1 r' Hs Hr].
  - exists q'. split; [done|congruence].
  - exists r'. split; [|done]. eapply steps_trans; [exact Hp|].
    eapply steps_step; [|exact Hr]. by rewrite (parse_step_pop _ _ _ Hq).
Qed.

Lemma steps_to_one p q : parse_step false p = Continue q -> steps_to p q.
Proof. intros. exists q. eauto using steps. Qed.

Lemma steps_to_pop p q : pop_completed p = pop_completed q -> steps_to p q.
Proof. intros. exists p. eauto using steps. Qed.

Lemma steps_loop rdb p q f x :
  steps rdb p q -> parse_loop f rdb q = Some x -> exists f', parse_loop f' rdb p = Some x.
Proof.
  induction 1 as [|p q r Hs _ IH]; intros Hx; [eauto|].
  destruct (IH Hx) as [f' Hf']. exists (S f'). cbn. by rewrite Hs.
Qed.

(** A run that ends in a state whose step returns. *)
Lemma steps_to_parse p q r p' :
  parser_wf p -> steps_to p q -> parse_step false q = Return r p' ->
  parse false p = Ret (r, p').
Proof.
  intros Hwf (q' & Hs & Hpop) Hret.
  destruct (steps_loop _ _ _ 1 (Ret (r, p')) Hs) as [f Hf].
  { cbn. by rewrite (parse_step_pop _ _ _ Hpop), Hret. }
  by eapply parse_loop_parse.
Qed.

(** ** One token at a time *)

(** Between tokens: everything before the next token is drained. *)
Definition ready (b : bytes) (s : list RespType) : RespParser :=
  mk_parser b 0 0 s [] PS_Type.

Definition open_stack (s : list RespType) : Prop :=
  match s with [] => True | t :: _ => is_completed t = false end.

Lemma pop_open b c t s st :
  open_stack s -> pop_completed (mk_parser b c t s [] st) = mk_parser b c t s [] st.
Proof.
  intros Hs. destruct s as [|top rest]; [done|]. by eapply pop_incomplete.
Qed.

Lemma parse_step_open rdb b c t s st :
  open_stack s -> 0 <= c < len b ->
  parse_step rdb (mk_parser b c t s [] st) = parse_body rdb (mk_parser b c t s [] st).
Proof.
  intros Hs Hc. unfold parse_step. rewrite pop_open by done.
  unfold parse_blocked. cbn. destruct (Z.leb_spec (len b) c); [lia|].
  destruct b; [unfold len in *; cbn in *; lia|done].
Qed.

Lemma scan_type_head rdb c b k r :
  match_prefix c rdb = Some r -> scan_type rdb (c :: b) k = (k + 1, Some r).
Proof. intros H. cbn [scan_type]. by rewrite H. Qed.

(** Meeting a type prefix. *)
Lemma step_prefix c b s r st :
  open_stack s -> match_prefix c false = Some r -> fresh_type r ->
  match r with
  | Array _ _ | BulkStr _ _ => st = PS_Header
  | SimpleStr _ => st = PS_Line
  | _ => False
  end ->
  steps_to (ready (c :: b) s) (mk_parser (c :: b) 1 1 (r :: s) [] st).
Proof.
  intros Hs Hc Hf Hr. apply steps_to_one. unfold ready.
  rewrite parse_step_open by (rewrite ?len_cons; pose proof (len_nonneg b); done || lia).
  unfold parse_body, step_type, next_till_type. cbn [status set_status buf buf_cur].
  change (drop (Z.to_nat 0) (c :: b)) with (c :: b). rewrite (scan_type_head _ _ _ _ r Hc).
  destruct r; cbn; try done; by subst.
Qed.

(** Reading the length of an array or bulk string. *)
Lemma step_length c n b s r :
  is_u64 n -> fresh_type r ->
  match r with Array _ _ | BulkStr _ _ => True | _ => False end ->
  steps_to (mk_parser (c :: as_bytes (show_Z n) ++ DELIMITER ++ b) 1 1 (r :: s) [] PS_Header)
    (mk_parser b 0 0 (set_length r n :: s) [] (status_after_header (set_length r n) n)).
Proof.
  intros Hn Hf Hr. apply steps_to_one.
  rewrite parse_step_open.
  2: { destruct r; cbn in *; try done; by subst. }
  2: { rewrite len_cons, !len_app. change (len DELIMITER) with 2.
       pose proof (len_nonneg b). pose proof (len_nonneg (as_bytes (show_Z n))). lia. }
  unfold parse_body. cbn [status].
  set (p := set_status _ _).
  destruct (next_line p [c] (show_Z n) b) as (p' & Hline & Hdrain); [done|done|done| | |].
  { apply utf8_show_Z. }
  { apply no_crlf_show_Z. }
  unfold step_header. rewrite Hline, Hdrain. cbn. by rewrite parse_show_usize.
Qed.

(** Reading the body of a bulk string in one go. *)
Lemma step_bulk_body s b st n :
  n = str_len s -> n <= isize_max -> utf8_valid (as_bytes s) = true ->
  steps_to (mk_parser (as_bytes s ++ DELIMITER ++ b) 0 0 (BulkStr n None :: st) [] (PS_Bulk n))
    (ready b (BulkStr n (Some s) :: st)).
Proof.
  intros Hn Hmax Hu. apply steps_to_one.
  assert (len (as_bytes s) = n) as Hlen by (by rewrite len_as_bytes).
  pose proof (len_nonneg (as_bytes s)). pose proof (len_nonneg b).
  rewrite parse_step_open; [|done|].
  2: { rewrite !len_app. change (len DELIMITER) with 2. lia. }
  unfold parse_body. cbn [status]. unfold step_bulk, read_bytes. cbn [buf tmp_start buf_cur set_status].
  rewrite Z.sub_0_r, (wrap_u64_id 0), (wrap_u64_id (n + 2)) by (unfold is_u64, u64_max, isize_max in *; lia).
  rewrite !len_app, Hlen. change (len DELIMITER) with 2.
  replace (Z.min (saturating_sub (n + 2) 0) (n + (2 + len b))) with (n + 2)
    by (unfold saturating_sub; lia).
  destruct (Z.ltb_spec 0 (n + 2)); [|lia].
  rewrite !Z.add_0_l, Z.sub_0_r, !(wrap_u64_id (n + 2)), (wrap_u64_id n), (wrap_u64_id (n + 1)),
    (wrap_u64_id (n + 2 - 2)) by (unfold is_u64, u64_max, isize_max in *; lia).
  rewrite Z.eqb_refl. destruct (Z.leb_spec (n + 2) (n + (2 + len b))); [|lia]. cbn [andb].
  assert (vec_get (as_bytes s ++ DELIMITER ++ b) n = Some CR) as Hcr.
  { rewrite vec_get_app_r by lia. by rewrite Hlen, Z.sub_diag. }
  assert (vec_get (as_bytes s ++ DELIMITER ++ b) (n + 1) = Some LF) as Hlf.
  { rewrite vec_get_app_r by lia. rewrite Hlen.
    replace (n + 1 - n) with 1 by lia. by rewrite vec_get_nonneg. }
  unfold index. rewrite Hcr, Hlf. cbn [unwrap outcome_bind].
  rewrite decide_True, bool_decide_eq_true_2 by done.
  replace (n + 2 - 2) with n by lia.
  assert (len (as_bytes s ++ DELIMITER ++ b) = n + (2 + len b)) as Hall.
  { rewrite !len_app, Hlen. done. }
  rewrite slice_checked_ok by (rewrite ?Hall; lia). cbn [outcome_bind].
  assert (slice (as_bytes s ++ DELIMITER ++ b) 0 n = as_bytes s) as Hsl.
  { rewrite <- Hlen. apply slice_app_prefix. }
  cbn [buf tmp_start set_status] in *. rewrite Hsl.
  rewrite from_utf8_valid by done. rewrite drain_ok by (cbn [buf buf_cur set_cur set_status]; lia). cbn -[len DELIMITER app drop].
  unfold ready. rewrite app_assoc.
  replace (n + 2) with (len (as_bytes s ++ DELIMITER)) by (rewrite len_app, Hlen; done).
  by rewrite drop_len_app.
Qed.

Lemma step_line_body s b st :
  utf8_valid (as_bytes s) = true -> no_crlf (as_bytes s) = true ->
  steps_to (mk_parser ("+"%char :: as_bytes s ++ DELIMITER ++ b) 1 1
              (SimpleStr None :: st) [] PS_Line)
    (ready b (SimpleStr (Some s) :: st)).
Proof.
  intros Hu Hn. apply steps_to_one. rewrite parse_step_open; [|done|].
  2: { rewrite len_cons, !len_app. change (len DELIMITER) with 2.
       pose proof (len_nonneg b). pose proof (len_nonneg (as_bytes s)). lia. }
  unfold parse_body. cbn [status]. set (p := set_status _ _).
  destruct (next_line p ["+"%char] s b) as (p' & Hline & Hdrain); [done..|].
  unfold step_line. by rewrite Hline, Hdrain.
Qed.

(** ** Whole values *)

(** Consuming the wire form of [r] leaves [r] on the stack. *)
Definition consumes (r : RespType) : Prop :=
  forall s rest w, open_stack s -> serialize r = Ret w ->
  steps_to (ready (w ++ rest) s) (ready rest (r :: s)).

Lemma header_app p n b rest :
  (header (String p EmptyString) n ++ b) ++ rest =
  p :: as_bytes (show_Z n) ++ DELIMITER ++ (b ++ rest).
Proof. unfold header. cbn. by rewrite <- !app_assoc. Qed.

Lemma isize_u64 n : 0 <= n <= isize_max -> is_u64 n.
Proof. unfold isize_max, is_u64, u64_max. lia. Qed.

(** A finished item moves into the array below it. *)
Lemma pop_item r n v s b :
  is_completed r = true ->
  pop_completed (ready b (r :: Array n v :: s)) =
  pop_completed (ready b (Array n (Some (unwrap_or v [] ++ [r])) :: s)).
Proof.
  intros Hr. unfold pop_completed, ready. cbn [stack]. cbn [pop_stack]. by rewrite Hr.
Qed.

Lemma consumes_items items : Forall consumes items ->
  Forall (fun r => is_completed r = true) items ->
  forall n v s rest w,
  items <> [] -> len (unwrap_or v []) + len items = n -> serialize_items items = Ret w ->
  steps_to (ready (w ++ rest) (Array n v :: s))
    (ready rest (Array n (Some (unwrap_or v [] ++ items)) :: s)).
Proof.
  induction 1 as [|r items Hr _ IH]; intros Hc n v s rest w Hne Hn Hw; [done|].
  inversion Hc as [|? ? Hcr Hcs]; subst. cbn in Hw.
  destruct (serialize r) as [a|] eqn:Ha; [|done]. cbn in Hw.
  destruct (serialize_items items) as [c|] eqn:Hi; [|done]. injection Hw as <-.
  rewrite len_cons in *. rewrite <- app_assoc.
  set (n := len (unwrap_or v []) + (1 + len items)).
  assert (open_stack (Array n v :: s)) as Hopen.
  { cbn. destruct v; [|done]. apply Z.eqb_neq. unfold n. cbn.
    pose proof (len_nonneg items). lia. }
  eapply steps_to_trans; [by apply Hr|].
  eapply steps_to_trans; [by apply steps_to_pop, pop_item|].
  destruct items as [|r2 items].
  { injection Hi as <-. exists (ready rest (Array n (Some (unwrap_or v [] ++ [r])) :: s)).
    split; [constructor|done]. }
  replace (unwrap_or v [] ++ r :: r2 :: items)
    with (unwrap_or (Some (unwrap_or v [] ++ [r])) [] ++ r2 :: items)
    by (cbn; by rewrite <- app_assoc).
  apply IH; [done|done| |done]. unfold n. cbn [unwrap_or]. rewrite len_app, !len_cons, len_nil. lia.
Qed.

Lemma wire_wf_consumes r : wire_wf r = true -> consumes r.
Proof.
  induction r as [n v IH|r Hr] using RespType_nested_ind; intros Hwf s rest w Hs Hw.
  - cbn in Hwf. bools. subst n. rewrite serialize_array in Hw.
    destruct (serialize_items v) as [body|] eqn:Hb; [|done].
    cbn [outcome_bind] in Hw. assert (w = header "*" (len v) ++ body) as -> by congruence.
    rewrite header_app.
    eapply steps_to_trans; [by eapply (step_prefix _ _ _ (Array 0 None) PS_Header)|].
    eapply steps_to_trans.
    { apply (step_length _ (len v)); [apply isize_u64; lia|done|done]. }
    assert (Forall (fun r => wire_wf r = true) v) as Hv.
    { by apply List.Forall_forall, forallb_forall. }
    apply (consumes_items v); try done.
    + clear -IH Hv. induction Hv; inversion IH; subst; constructor; auto.
    + eapply Forall_impl; [exact Hv|apply wire_wf_completed].
    + by intros ->.
  - destruct r as [[str|]| | |n [str|]| |n [v|]| | | | | | | | | | | |]; try done.
    + cbn in Hwf. bools. injection Hw as <-. cbn [app as_bytes list_ascii_of_string].
      rewrite <- !app_assoc.
      eapply steps_to_trans; [by eapply (step_prefix _ _ _ (SimpleStr None) PS_Line)|].
      by apply step_line_body.
    + cbn in Hwf. bools. cbn [serialize] in Hw.
      assert (w = header "$" n ++ as_bytes str ++ DELIMITER) as -> by congruence.
      rewrite header_app.
      eapply steps_to_trans; [by eapply (step_prefix _ _ _ (BulkStr 0 None) PS_Header)|].
      eapply steps_to_trans.
      { apply (step_length _ n); [apply isize_u64|done|done].
        subst n. unfold str_len in *. lia. }
      rewrite <- app_assoc. apply step_bulk_body; [done|lia|done].
Qed.

(** What a parser holds after reading one whole value from its origin. *)
Definition parsed (rest : bytes) (r : RespType) : RespParser :=
  mk_parser rest 0 0 [] [r] PS_Type.

Lemma parse_wire r w rest :
  wire_wf r = true -> serialize r = Ret w -> len (w ++ rest) <= isize_max ->
  parse false (ready (w ++ rest) []) = Ret (Ok tt, parsed rest r).
Proof.
  intros Hwf Hw Hlen. eapply steps_to_parse.
  - unfold parser_wf, status_wf, ready. cbn. pose proof (len_nonneg (w ++ rest)).
    repeat split; lia.
  - by apply wire_wf_consumes.
  - unfold parse_step, pop_completed, ready. cbn.
    by rewrite (wire_wf_completed r Hwf).
Qed.

(** A snapshot is read as a file: its header, and as many bytes as it says. *)
Lemma snapshot_body b : 0 < len b <= isize_max ->
  parse_step true (mk_parser b 0 0 [RDB None] [] (PS_RDB (len b))) = Continue (ready [] [RDB (Some b)]).
Proof.
  intros Hb. rewrite parse_step_open by (done || lia).
  unfold parse_body. cbn [status]. unfold step_bulk, read_bytes. cbn [buf tmp_start buf_cur set_status].
  rewrite Z.sub_0_r, (wrap_u64_id 0), Z.add_0_r, (wrap_u64_id (len b)) by (unfold is_u64, u64_max, isize_max in *; lia).
  replace (Z.min (saturating_sub (len b) 0) (len b)) with (len b) by (unfold saturating_sub; lia).
  destruct (Z.ltb_spec 0 (len b)); [|lia].
  rewrite !Z.add_0_l, Z.sub_0_r, !(wrap_u64_id (len b)) by (unfold is_u64, u64_max, isize_max in *; lia).
  rewrite Z.eqb_refl, Z.leb_refl. cbn [andb outcome_bind].
  rewrite slice_checked_ok by (cbn [buf set_cur set_status]; lia). cbn [outcome_bind].
  rewrite drain_ok by (cbn [buf buf_cur set_cur set_status]; lia). cbn -[len drop slice].
  unfold ready. rewrite <- (app_nil_r b) at 2 3. by rewrite drop_len_app, slice_app_prefix.
Qed.

Lemma parse_snapshot b : 0 < len b -> len (header "$" (len b) ++ b) <= isize_max ->
  parse true (ready (header "$" (len b) ++ b) []) = Ret (Ok tt, parsed [] (RDB (Some b))).
Proof.
  intros Hb Hlen. pose proof (header_app "$"%char (len b) b []) as Hh. rewrite !app_nil_r in Hh.
  assert (len b <= isize_max) as Hlb.
  { rewrite len_app in Hlen. pose proof (len_nonneg (header "$" (len b))). lia. }
  rewrite Hh in Hlen |- *. set (data := _ :: _) in *.
  apply (parse_loop_parse _ 4).
  { unfold parser_wf, status_wf, ready. cbn. pose proof (len_nonneg data). repeat split; lia. }
  cbn [parse_loop]. unfold ready at 1. rewrite parse_step_open by (unfold data; rewrite ?len_cons; pose proof (len_nonneg (as_bytes (show_Z (len b)) ++ DELIMITER ++ b)); done || lia).
  unfold parse_body at 1. cbn [status]. unfold step_type, next_till_type. cbn [buf buf_cur set_status].
  change (drop (Z.to_nat 0) data) with data. unfold data at 1. rewrite (scan_type_head _ _ _ _ (RDB None)) by done.
  fold data. change (set_status (set_stack ?p ?l) PS_Header) with (mk_parser data 1 1 [RDB None] [] PS_Header).
  rewrite parse_step_open.
  2: done.
  2: { unfold data. rewrite len_cons, !len_app. change (len DELIMITER) with 2. pose proof (len_nonneg (as_bytes (show_Z (len b)))). lia. }
  unfold parse_body at 1. cbn [status]. set (p := set_status _ _).
  destruct (next_line p ["$"%char] (show_Z (len b)) b) as (p' & Hline & Hdrain); [done|done|done|apply utf8_show_Z|apply no_crlf_show_Z|].
  unfold step_header. rewrite Hline, Hdrain. cbn -[len parse_step]. rewrite parse_show_usize by (apply isize_u64; lia).
  change (set_status (set_stack ?q ?l) ?st) with (mk_parser b 0 0 [RDB None] [] (PS_RDB (len b))).
  rewrite snapshot_body by lia. done.
Qed.

(** C14: parsing undoes serializing, for the values requests are made of ([wire_wf]:
    simple strings without CRLF, bulk strings of valid UTF-8 with their length, and
    arrays of such values that are not empty, with their length): fed the bytes of
    one, of at most [isize_max], a new parser delivers that value, and is new again
    once it is taken. (Not so for integers, for which [parse] returns an error, nor
    for empty arrays and nulls.) *)
Theorem parse_serialize r w : wire_wf r = true -> serialize r = Ret w -> len w <= isize_max ->
  exists p, parse false (feed_buf parser_new w) = Ret (Ok tt, p) /\
    get_completed p = (Some r, parser_new).
Proof.
  intros Hwf Hs Hlen. exists (parsed [] r). split; [|done].
  rewrite <- (app_nil_r w) in Hlen |- *. exact (parse_wire r w [] Hwf Hs Hlen).
Qed.

Lemma parse_serialize_witness :
  let w := as_bytes "*2" ++ DELIMITER ++ as_bytes "$3" ++ DELIMITER ++ as_bytes "GET" ++ DELIMITER ++
           as_bytes "$1" ++ DELIMITER ++ as_bytes "k" ++ DELIMITER in
  exists p, parse false (feed_buf parser_new w) = Ret (Ok tt, p) /\
    get_completed p = (Some (Array 2 (Some [BulkStr 3 (Some "GET"%string); BulkStr 1 (Some "k"%string)])), parser_new).
Proof. intros w. apply parse_serialize; [reflexivity|reflexivity|by vm_compute]. Defined.

(** A body cut in two places is not delivered when its last byte arrives: the
    cursor has already run to the end of the value. *)
Example split_body_stalls :
  let p := feed_buf parser_new (as_bytes "$5" ++ DELIMITER ++ as_bytes "hell") in
  match parse false p with
  | Ret (Ok _, p) =>
      match parse false (feed_buf p (as_bytes "o")) with
      | Ret (Ok _, p) =>
          match parse false (feed_buf p DELIMITER) with
          | Ret (Ok _, p) =>
              (get_completed p).1 = None /\
              match parse false (feed_buf p (as_bytes "+")) with
              | Ret (Ok _, p) => (get_completed p).1 = Some (BulkStr 5 (Some "hello"%string))
              | _ => False
              end
          | _ => False
          end
      | _ => False
      end
  | _ => False
  end.
Proof. vm_compute. split; reflexivity. Qed.
