(* ===== verification/RespChunks.v ===== *)
(** * Reading in pieces

    A socket delivers a request in as many reads as it likes, and [read_socket]
    feeds each to the parser. This file shows when that makes no difference:
    [parse] after a second read does what one [parse] of both would have done,
    as long as no body of a bulk string or snapshot is cut twice. *)

From S2P Require Import Prelude Text Float64 Resp RespParser RespWire.

(** ** Scanning a longer buffer *)
Lemma scan_type_app rdb a b k :
  scan_type rdb (a ++ b) k =
  match scan_type rdb a k with
  | (k', Some r) => (k', Some r)
  | (k', None) => scan_type rdb b k'
  end.
Proof.
  revert k. induction a as [|c a IH]; intros k; [done|].
  cbn. destruct (match_prefix c rdb); [done|]. apply IH.
Qed.

Lemma scan_type_none rdb a k k' : scan_type rdb a k = (k', None) -> k' = k + len a.
Proof.
  revert k. induction a as [|c a IH]; intros k; cbn; rewrite ?len_cons, ?len_nil.
  { intros [= <-]. lia. }
  destruct (match_prefix c rdb); [done|]. intros H%IH. lia.
Qed.

Lemma scan_type_shift rdb b k :
  scan_type rdb b k = let (j, o) := scan_type rdb b 0 in (k + j, o).
Proof.
  revert k. induction b as [|c b IH]; intros k; cbn; [by rewrite Z.add_0_r|].
  destruct (match_prefix c rdb); [done|].
  rewrite (IH (k + 1)), (IH (0 + 1)). destruct (scan_type rdb b 0). f_equal. lia.
Qed.

Lemma scan_newline_app a b k k' found :
  scan_newline a k = (k', found) ->
  if found then scan_newline (a ++ b) k = (k', true)
  else scan_newline (a ++ b) k = scan_newline (drop (Z.to_nat (k' - k)) a ++ b) k'.
Proof.
  revert k. induction a as [|c a IH]; intros k.
  { intros [= <- <-]. by rewrite Z.sub_diag. }
  destruct a as [|d a].
  { intros [= <- <-]. by rewrite Z.sub_diag. }
  rewrite scan_newline_cons2. change ((c :: d :: a) ++ b) with (c :: d :: (a ++ b)).
  rewrite scan_newline_cons2. case_decide; [by intros [= <- <-]|].
  intros Hs. pose proof (scan_newline_spec _ _ _ _ Hs) as [Hk _]. specialize (IH _ Hs).
  destruct found; [done|]. etransitivity; [exact IH|].
  by replace (Z.to_nat (k' - k)) with (S (Z.to_nat (k' - (k + 1)))) by lia.
Qed.

Lemma drop_app_in {A} (l k : list A) i :
  0 <= i <= len l -> drop (Z.to_nat i) (l ++ k) = drop (Z.to_nat i) l ++ k.
Proof. intros. apply drop_app_le. unfold len in *. lia. Qed.

Lemma slice_app_in {A} (l k : list A) lo hi :
  0 <= lo <= hi -> hi <= len l -> slice (l ++ k) lo hi = slice l lo hi.
Proof.
  intros. unfold slice. rewrite drop_app_in by lia. apply take_app_le.
  rewrite length_drop. unfold len in *. lia.
Qed.

Lemma slice_checked_app l k lo hi s :
  0 <= lo -> slice_checked l lo hi = Ret s -> slice_checked (l ++ k) lo hi = Ret s.
Proof.
  unfold slice_checked. rewrite len_app. pose proof (len_nonneg k). intros Hlo.
  destruct (Z.leb_spec lo hi), (Z.leb_spec hi (len l)); try done. cbn [andb].
  destruct (Z.leb_spec hi (len l + len k)); [|lia]. by rewrite slice_app_in by lia.
Qed.

(** ** One token of a longer buffer *)
Lemma feed_status p b st : set_status (feed_buf p b) st = feed_buf (set_status p st) b.
Proof. done. Qed.

Lemma drain_feed p p' b : 0 <= buf_cur p ->
  drain_till_buf p = Ret p' -> drain_till_buf (feed_buf p b) = Ret (feed_buf p' b).
Proof.
  unfold drain_till_buf. cbn. rewrite len_app. pose proof (len_nonneg b). intros Hc.
  destruct (Z.ltb_spec (len (buf p)) (buf_cur p)); [done|]. intros [= <-].
  destruct (Z.ltb_spec (len (buf p) + len b) (buf_cur p)); [lia|].
  unfold feed_buf. cbn. by rewrite drop_app_in by lia.
Qed.

Lemma give_feed p v b :
  match give_value p v with
  | Continue p' => give_value (feed_buf p b) v = Continue (feed_buf p' b)
  | Return r p' => give_value (feed_buf p b) v = Return r (feed_buf p' b)
  | StepPanic => False
  end.
Proof. unfold give_value. cbn. destruct (stack p); [done|]. by destruct (set_value _ _). Qed.

(** A line: found in the first piece, it is found in both; otherwise the scan
    goes on where it stopped, which leaves a carriage return at the end of the
    piece to be seen with what follows it. *)
Lemma next_line_feed p b :
  0 <= tmp_start p <= buf_cur p -> buf_cur p <= len (buf p) ->
  match next_till_new_line p with
  | Panic => False
  | Ret (Ok None, p') =>
      next_till_new_line (feed_buf p b) = next_till_new_line (feed_buf p' b)
  | Ret (r, p') => next_till_new_line (feed_buf p b) = Ret (r, feed_buf p' b)
  end.
Proof.
  intros Hs Hc. unfold next_till_new_line. cbn. rewrite len_app. pose proof (len_nonneg b).
  destruct (Z.ltb_spec (len (buf p)) (buf_cur p)), (Z.ltb_spec (len (buf p) + len b) (buf_cur p)); try lia.
  rewrite drop_app_in by lia.
  destruct (scan_newline (drop _ (buf p)) 0) as [k found] eqn:Hscan.
  pose proof (scan_newline_app _ b _ _ _ Hscan) as Happ.
  apply scan_newline_spec in Hscan as [Hk Hf]. rewrite len_drop in Hf by lia.
  destruct found.
  - rewrite Happ, slice_checked_ok by lia. cbn [outcome_bind].
    erewrite slice_checked_app by (lia || (apply slice_checked_ok; lia)). cbn [outcome_bind].
    by destruct (from_utf8 _).
  - rewrite Z.sub_0_r in Happ. rewrite Happ. clear Happ. cbn. rewrite len_app.
    destruct (Z.ltb_spec (len (buf p) + len b) (buf_cur p + k)); [lia|].
    rewrite drop_app_in by lia. rewrite drop_drop.
    replace (Z.to_nat (buf_cur p) + Z.to_nat k)%nat with (Z.to_nat (buf_cur p + k)) by lia.
    rewrite (scan_newline_shift _ k). destruct (scan_newline _ 0) as [j f].
    cbv beta iota. by rewrite !Z.add_assoc.
Qed.

(** ** Bodies *)

(** What [read_bytes] does once the cursor is at the end of the token. *)
Definition token_at (p : RespParser) (n : Z) (rdb : bool) (cur : Z) :
    outcome (Result BoxError (option ReadBytesOutput) * RespParser) :=
  let! delim :=
    if rdb then Ret false
    else
      let! c := index (buf p) n in
      if decide (c = CR) then
        let! d := index (buf p) (wrap_u64 (n + 1)) in
        Ret (bool_decide (d = LF))
      else Ret false in
  if delim then
    let! s := slice_checked (buf p) 0 (wrap_u64 (cur - 2)) in
    match from_utf8 s with
    | Some str => Ret (Ok (Some (RBO_String str)), set_cur p cur)
    | None => Ret (Err BE_Utf8, set_cur p cur)
    end
  else if rdb then
    let! s := slice_checked (buf p) 0 cur in
    Ret (Ok (Some (RBO_Bytes s)), set_cur p cur)
  else Ret (Err BE_InvalidData, set_cur p cur).

Lemma read_bytes_eq p n rdb :
  is_u64 n -> tmp_start p = 0 -> 0 <= buf_cur p <= bulk_total n rdb ->
  read_bytes p n rdb =
  let cur := buf_cur p + Z.min (bulk_total n rdb - buf_cur p) (len (buf p)) in
  if (cur <=? len (buf p)) && (cur =? bulk_total n rdb) then token_at p n rdb cur
  else Ret (Ok None, set_cur p cur).
Proof.
  intros Hn Hs Hc. pose proof (bulk_total_range n rdb) as HN. pose proof (len_nonneg (buf p)).
  unfold read_bytes. fold (bulk_total n rdb). rewrite Hs, Z.sub_0_r.
  rewrite (wrap_u64_id (buf_cur p)) by (unfold is_u64; lia).
  replace (Z.min (saturating_sub (bulk_total n rdb) (buf_cur p)) (len (buf p)))
    with (Z.min (bulk_total n rdb - buf_cur p) (len (buf p))) by (unfold saturating_sub; lia).
  set (next := Z.min _ _).
  assert (0 <= next <= bulk_total n rdb - buf_cur p) by lia.
  assert ((if 0 <? next then wrap_u64 (buf_cur p + next) else buf_cur p) =
          buf_cur p + next) as ->.
  { destruct (Z.ltb_spec 0 next); [|lia]. apply wrap_u64_id. unfold is_u64. lia. }
  rewrite Z.sub_0_r, (wrap_u64_id (buf_cur p + next)) by (unfold is_u64; lia).
  unfold token_at. rewrite !Z.add_0_l, (wrap_u64_id n) by done. reflexivity.
Qed.

Lemma index_app a b i : index a i <> Panic -> index (a ++ b) i = index a i.
Proof.
  unfold index. destruct (vec_get a i) eqn:Hi; [|done]. intros _.
  rewrite vec_get_app_l; [by rewrite Hi|]. apply vec_get_some_range in Hi. lia.
Qed.

Lemma index_ret a i : 0 <= i < len a -> exists c, index a i = Ret c.
Proof. intros [c Hc]%vec_get_is_some. exists c. unfold index. by rewrite Hc. Qed.

Lemma index_out a i : len a <= i -> index a i = Panic.
Proof. intros. unfold index. by rewrite vec_get_ge. Qed.

(** A token that is complete is the same in a longer buffer. *)
Lemma token_feed p b n rdb cur :
  is_u64 n -> len (buf p) + len b <= isize_max -> cur = bulk_total n rdb -> 0 <= cur <= len (buf p) ->
  match token_at p n rdb cur with
  | Ret (r, p') => token_at (feed_buf p b) n rdb cur = Ret (r, feed_buf p' b)
  | Panic => token_at (feed_buf p b) n rdb cur = Panic
  end.
Proof.
  intros Hn Hmax Hcur Hlen. pose proof (len_nonneg b). unfold token_at. destruct rdb.
  - cbn [outcome_bind feed_buf buf]. rewrite slice_checked_ok by lia.
    by erewrite slice_checked_app by (lia || (apply slice_checked_ok; lia)).
  - unfold bulk_total in Hcur. cbn [feed_buf buf].
    destruct (Z.leb_spec (n + 2) u64_max) as [Hw|Hw].
    + rewrite wrap_u64_id in Hcur by (unfold is_u64 in *; lia).
      rewrite (wrap_u64_id (n + 1)) by (unfold is_u64 in *; lia).
      destruct (index_ret (buf p) n) as [c Hc]; [unfold is_u64 in *; lia|].
      destruct (index_ret (buf p) (n + 1)) as [d Hd]; [unfold is_u64 in *; lia|].
      rewrite !index_app, Hc, Hd by congruence. cbn [outcome_bind].
      replace (cur - 2) with n by lia. rewrite wrap_u64_id by done.
      destruct (decide (c = CR)); [|done]. cbn [outcome_bind].
      case_bool_decide; [|done]. rewrite slice_checked_ok by (unfold is_u64 in *; lia).
      erewrite slice_checked_app by (unfold is_u64 in *; lia || (apply slice_checked_ok; unfold is_u64 in *; lia)).
      cbn [outcome_bind]. by destruct (from_utf8 _).
    + unfold isize_max, u64_max in *. rewrite (index_out (buf p)), (index_out (buf p ++ b))
        by (rewrite ?len_app; lia). done.
Qed.

(** ** One iteration on a longer buffer *)

(** No body is cut: what is open, if anything, begins with the buffer. *)
Definition uncut (p : RespParser) : bool :=
  match status p with PS_Bulk _ | PS_RDB _ => buf_cur p =? 0 | _ => true end.

(** The bytes a body that was cut still misses. *)
Definition missing (p : RespParser) : Z :=
  match status p with
  | PS_Bulk n => if buf_cur p =? 0 then 0 else bulk_total n false - len (buf p)
  | PS_RDB n => if buf_cur p =? 0 then 0 else bulk_total n true - len (buf p)
  | _ => 0
  end.

Lemma pop_feed p b : pop_completed (feed_buf p b) = feed_buf (pop_completed p) b.
Proof.
  unfold pop_completed. cbn. destruct (stack p); [done|]. by destruct (pop_stack _ _) as [? []].
Qed.

Lemma pop_settled p : open_stack (stack p) -> pop_completed p = p.
Proof. destruct p as [? ? ? s ? ?]. intros. destruct s; [done|]. by eapply pop_incomplete. Qed.

Lemma pop_open_stack p : open_stack (stack (pop_completed p)).
Proof.
  unfold pop_completed. destruct (stack p) as [|top rest] eqn:Hs; [by rewrite Hs|].
  destruct (pop_stack top rest) as [s o] eqn:Hpop. apply pop_stack_idemp in Hpop. by destruct o.
Qed.

Lemma pop_idemp p : pop_completed (pop_completed p) = pop_completed p.
Proof. apply pop_settled, pop_open_stack. Qed.

Lemma step_feed_pop rdb p b :
  parse_step rdb (feed_buf (pop_completed p) b) = parse_step rdb (feed_buf p b).
Proof. apply parse_step_pop. by rewrite !pop_feed, pop_idemp. Qed.

Lemma blocked_feed p b : parse_blocked p = false -> parse_blocked (feed_buf p b) = false.
Proof.
  intros (Hc & Hb & Hl)%parse_blocked_false. unfold parse_blocked. cbn. rewrite Hc, len_app.
  pose proof (len_nonneg b). destruct (Z.leb_spec (len (buf p) + len b) (buf_cur p)); [lia|].
  by destruct (buf p).
Qed.

(** How an iteration [r] on a buffer relates to the iteration [r'] on a longer
    one. *)
Inductive resumed (rdb : bool) (b : bytes) (r' : step_result) : step_result -> Prop :=
| resumed_same p : uncut p = true -> r' = Continue (feed_buf p b) -> resumed rdb b r' (Continue p)
| resumed_later p : parse_step rdb p = Return (Ok tt) (pop_completed p) ->
    (missing p <= len b -> r' = parse_step rdb (feed_buf p b)) ->
    (len b < missing p -> exists q, r' = Continue q /\ parse_step rdb q = Return (Ok tt) q /\ completed q = []) ->
    resumed rdb b r' (Continue p)
| resumed_end p : uncut p = true -> r' = parse_step rdb (feed_buf p b) -> resumed rdb b r' (Return (Ok tt) p)
| resumed_error e p : r' = Return (Err e) (feed_buf p b) -> resumed rdb b r' (Return (Err e) p)
| resumed_panic : r' = StepPanic -> resumed rdb b r' StepPanic.

(** A state between two iterations that is about to read a token. *)
Definition at_token (p : RespParser) : Prop :=
  open_stack (stack p) /\ completed p = [] /\ 0 <= buf_cur p < len (buf p).

Lemma step_at_token rdb p : at_token p -> parse_step rdb p = parse_body rdb p.
Proof.
  intros (Hs & Hc & Hl). unfold parse_step. rewrite pop_settled by done. unfold parse_blocked.
  rewrite Hc. destruct (Z.leb_spec (len (buf p)) (buf_cur p)); [lia|].
  destruct p as [[|] ? ? ? ? ?]; [|done]. cbn in *. rewrite len_nil in *. lia.
Qed.

Lemma step_blocked rdb p : len (buf p) <= buf_cur p ->
  parse_step rdb p = Return (Ok tt) (pop_completed p).
Proof.
  intros Hl. unfold parse_step, parse_blocked. destruct (pop_completed_fields p) as (-> & -> & _).
  destruct (Z.leb_spec (len (buf p)) (buf_cur p)); [|lia]. by rewrite orb_true_r.
Qed.

Lemma at_token_feed p b : at_token p -> at_token (feed_buf p b).
Proof. intros (? & ? & ?). repeat split; try done; cbn; rewrite ?len_app; pose proof (len_nonneg b); lia. Qed.

Lemma len_pos {A} (b : list A) : b <> [] -> 0 < len b.
Proof. destruct b; [done|]. rewrite len_cons. pose proof (len_nonneg b). lia. Qed.

Section Feed.
Context (rdb : bool) (b : bytes) (Hb : b <> []).

Lemma type_feed p : at_token p -> status p = PS_Type ->
  resumed rdb b (step_type rdb (feed_buf p b)) (step_type rdb p).
Proof.
  intros Ha Hst. pose proof Ha as (Hs & Hc & Hl). unfold step_type, next_till_type. cbn.
  rewrite drop_app_in, scan_type_app by lia.
  destruct (scan_type rdb (drop _ (buf p)) 0) as [k [r|]] eqn:Hscan.
  - apply scan_type_fresh in Hscan.
    destruct r; apply resumed_same; try done; unfold uncut; cbn; by rewrite ?Hst.
  - pose proof (scan_type_none _ _ _ _ Hscan) as Hk. rewrite len_drop in Hk by lia.
    set (p1 := set_status (set_cur p (buf_cur p + k)) PS_Type).
    assert (buf_cur p + k = len (buf p)) as Hend by lia.
    apply resumed_later.
    + apply step_blocked. cbn. lia.
    + intros _. rewrite step_at_token.
      2: { repeat split; try done; cbn; rewrite ?len_app; pose proof (len_pos b Hb); lia. }
      unfold parse_body, step_type, next_till_type. cbn.
      rewrite (scan_type_shift _ _ k), Hend, drop_len_app, <- Hend.
      destruct p; cbn in *; subst. destruct (scan_type rdb b 0) as [j o]. rewrite Z.add_assoc.
      by destruct o as [[]|].
    + unfold missing. cbn. pose proof (len_nonneg b). lia.
Qed.

Lemma header_feed p : at_token p -> status p = PS_Type -> 0 <= tmp_start p <= buf_cur p ->
  resumed rdb b (step_header (feed_buf p b)) (step_header p).
Proof.
  intros Ha Hst Hts. pose proof Ha as (Hs & Hc & Hl).
  destruct (next_till_new_line_spec p) as (r & p' & Heq & Hbuf & Hstk & Hcomp & Hstat & Hcur & Hr); [lia..|].
  pose proof (next_line_feed p b) as Hfeed. rewrite Heq in Hfeed.
  unfold step_header at 2. rewrite Heq. destruct r as [[v|]|e].
  - unfold step_header. rewrite Hfeed by lia. rewrite (drain_ok p') by (rewrite Hbuf; lia).
    erewrite drain_feed by (lia || (apply drain_ok; rewrite Hbuf; lia)). cbn.
    destruct (stack p') as [|top rest]; [by apply resumed_same; [unfold uncut; cbn; rewrite Hstat, Hst|]|].
    destruct (rbo_str v) as [str|]; [|by apply resumed_panic].
    destruct (parse_usize str) as [n|e]; [|by apply resumed_error].
    apply resumed_same; [|done]. unfold uncut, status_after_header. cbn. by destruct (set_length top n).
  - apply resumed_end; [done|]. unfold step_header. rewrite Hfeed by lia.
    rewrite step_at_token. 
    2: { repeat split; cbn; rewrite ?Hstk, ?Hcomp, ?Hbuf, ?len_app; try done; pose proof (len_pos b Hb); lia. }
    unfold parse_body. cbn [status set_status feed_buf]. unfold step_header.
    replace (set_status (feed_buf (set_status p' PS_Header) b) PS_Type) with (feed_buf p' b); [done|].
    unfold feed_buf, set_status. cbn. by rewrite Hstat, Hst.
  - apply resumed_error. unfold step_header. by rewrite Hfeed by lia.
Qed.

(** A token was read and drained: the open value takes it. *)
Lemma give_resumed p v : uncut p = true -> buf_cur p = 0 ->
  resumed rdb b (give_value (feed_buf p b) v) (give_value p v).
Proof.
  intros Hu Hc. pose proof (give_feed p v b) as Hg. unfold give_value in *.
  destruct (stack p); [by apply resumed_same|]. destruct (set_value _ _).
  - by apply resumed_same.
  - by apply resumed_error.
Qed.

Lemma line_feed p : at_token p -> status p = PS_Type -> 0 <= tmp_start p <= buf_cur p ->
  resumed rdb b (step_line (feed_buf p b)) (step_line p).
Proof.
  intros Ha Hst Hts. pose proof Ha as (Hs & Hc & Hl).
  destruct (next_till_new_line_spec p) as (r & p' & Heq & Hbuf & Hstk & Hcomp & Hstat & Hcur & Hr); [lia..|].
  pose proof (next_line_feed p b) as Hfeed. rewrite Heq in Hfeed.
  unfold step_line at 2. rewrite Heq. destruct r as [[v|]|e].
  - unfold step_line. rewrite Hfeed by lia. rewrite (drain_ok p') by (rewrite Hbuf; lia).
    erewrite drain_feed by (lia || (apply drain_ok; rewrite Hbuf; lia)).
    apply give_resumed; [|done]. unfold uncut. cbn. by rewrite Hstat, Hst.
  - apply resumed_end; [done|]. unfold step_line. rewrite Hfeed by lia.
    rewrite step_at_token.
    2: { repeat split; cbn; rewrite ?Hstk, ?Hcomp, ?Hbuf, ?len_app; try done; pose proof (len_pos b Hb); lia. }
    unfold parse_body. cbn [status set_status feed_buf]. unfold step_line.
    replace (set_status (feed_buf (set_status p' PS_Line) b) PS_Type) with (feed_buf p' b); [done|].
    unfold feed_buf, set_status. cbn. by rewrite Hstat, Hst.
  - apply resumed_error. unfold step_line. by rewrite Hfeed by lia.
Qed.

(** The status in which a body is read. *)
Definition body_status (n : Z) (snapshot : bool) : ParseStatus :=
  if snapshot then PS_RDB n else PS_Bulk n.

(** A body that is cut: the cursor is at the end of the buffer. *)
Definition cut_body (p : RespParser) (n : Z) (snapshot : bool) : RespParser :=
  set_status (set_cur p (len (buf p))) (body_status n snapshot).

Lemma body_open p n snapshot : is_u64 n -> tmp_start p = 0 -> buf_cur p = 0 ->
  len (buf p) < bulk_total n snapshot -> step_bulk n snapshot p = Continue (cut_body p n snapshot).
Proof.
  intros Hn Hts Hcur Hlen. pose proof (len_nonneg (buf p)). pose proof (bulk_total_range n snapshot).
  unfold step_bulk. rewrite read_bytes_eq by (done || lia). cbv zeta. rewrite Hcur, Z.add_0_l, Z.sub_0_r, Z.min_r by lia.
  destruct (Z.eqb_spec (len (buf p)) (bulk_total n snapshot)); [lia|]. by rewrite andb_false_r.
Qed.

(** A body that ends in the buffer. *)
Lemma body_whole p n snapshot : is_u64 n -> tmp_start p = 0 ->
  0 <= buf_cur p <= bulk_total n snapshot -> bulk_total n snapshot <= len (buf p) ->
  read_bytes p n snapshot = token_at p n snapshot (bulk_total n snapshot).
Proof.
  intros Hn Hts Hcur Hlen. rewrite read_bytes_eq by (done || lia). cbv zeta.
  rewrite Z.min_l by lia. replace (buf_cur p + _) with (bulk_total n snapshot) by lia.
  destruct (Z.leb_spec (bulk_total n snapshot) (len (buf p))); [|lia]. by rewrite Z.eqb_refl.
Qed.

Lemma token_at_result p n snapshot cur r p' : token_at p n snapshot cur = Ret (r, p') ->
  p' = set_cur p cur /\ r <> Ok None.
Proof.
  unfold token_at. destruct (if snapshot then _ else _) as [[|]|]; cbn [outcome_bind]; [| |done].
  - destruct (slice_checked _ _ _); [|done]. cbn [outcome_bind].
    destruct (from_utf8 _); by intros [= <- <-].
  - destruct snapshot; [|by intros [= <- <-]].
    destruct (slice_checked _ _ _); [|done]. by intros [= <- <-].
Qed.

Lemma cut_resumed p n snapshot : at_token p -> status p = PS_Type -> is_u64 n ->
  tmp_start p = 0 -> buf_cur p = 0 -> len (buf p) < bulk_total n snapshot ->
  resumed rdb b (step_bulk n snapshot (feed_buf p b)) (Continue (cut_body p n snapshot)).
Proof.
  intros (Hs & Hc & Hl) Hst Hn Hts Hcur Hlen. pose proof (len_pos b Hb).
  assert (missing (cut_body p n snapshot) = bulk_total n snapshot - len (buf p)) as Hmiss.
  { unfold missing, cut_body, body_status. destruct snapshot; cbn; by destruct (Z.eqb_spec (len (buf p)) 0); [lia|]. }
  apply resumed_later.
  - apply step_blocked. unfold cut_body. cbn. lia.
  - rewrite Hmiss. intros Hle. rewrite step_at_token.
    2: { unfold cut_body. repeat split; cbn; rewrite ?len_app; try done; lia. }
    unfold parse_body. replace (status _) with (body_status n snapshot) by done.
    set (q := set_status _ _).
    assert (step_bulk n snapshot (feed_buf p b) = step_bulk n snapshot q) as ->; [|by destruct snapshot].
    unfold step_bulk. rewrite !body_whole; try done; unfold q; cbn; rewrite ?len_app; try lia.
    unfold token_at, cut_body, set_cur. cbn. by rewrite Hst.
  - rewrite Hmiss. intros Hlt. exists (cut_body (feed_buf p b) n snapshot).
    rewrite body_open by (cbn; rewrite ?len_app; done || lia). split_and!; [done| |done].
    rewrite step_blocked by (unfold cut_body; cbn; lia). by rewrite pop_settled.
Qed.

Lemma bulk_feed n snapshot p : at_token p -> status p = PS_Type -> is_u64 n ->
  tmp_start p = 0 -> buf_cur p = 0 -> len (buf p) + len b <= isize_max ->
  resumed rdb b (step_bulk n snapshot (feed_buf p b)) (step_bulk n snapshot p).
Proof.
  intros Ha Hst Hn Hts Hcur Hmax. pose proof (bulk_total_range n snapshot) as HN.
  pose proof (len_nonneg b).
  destruct (Z.le_gt_cases (bulk_total n snapshot) (len (buf p))) as [Hle|Hgt].
  2: { rewrite (body_open p) by (done || lia). by apply cut_resumed. }
  unfold step_bulk. rewrite !body_whole by (cbn; rewrite ?len_app; done || lia).
  pose proof (token_feed p b n snapshot _ Hn Hmax eq_refl) as Htok.
  destruct (token_at p _ _ _) as [[r p']|] eqn:Hr; rewrite Htok by lia; [|by apply resumed_panic].
  apply token_at_result in Hr as [-> Hr]. destruct r as [[v|]|e]; [| done |].
  - rewrite (drain_ok (set_cur _ _)) by (cbn; lia).
    erewrite drain_feed by (cbn; lia || (apply drain_ok; cbn; lia)).
    apply give_resumed; [|done]. unfold uncut. cbn. by rewrite Hst.
  - apply resumed_same; [|done]. unfold uncut. cbn. by rewrite Hst.
Qed.
End Feed.

(** Every iteration from a state without a cut body. *)
Lemma step_feed rdb b p : b <> [] -> parser_wf p -> uncut p = true ->
  len (buf p) + len b <= isize_max ->
  resumed rdb b (parse_step rdb (feed_buf p b)) (parse_step rdb p).
Proof.
  intros Hb Hwf Hu Hmax. unfold parse_step at 2.
  destruct (pop_completed_fields p) as (Ebuf & Ecur & Est & Estat).
  destruct (parse_blocked (pop_completed p)) eqn:Hblk.
  { apply resumed_end; [|by rewrite step_feed_pop]. unfold uncut in *. by rewrite Estat, Ecur. }
  rewrite <- step_feed_pop. apply pop_completed_wf in Hwf as (_ & _ & Hs).
  pose proof (pop_open_stack p) as Hopen. unfold uncut in Hu. rewrite <- Ebuf in Hmax.
  rewrite <- Estat, <- Ecur in Hu. clear Ebuf Ecur Est Estat.
  apply parse_blocked_false in Hblk as (Hc & _ & Hl). set (q := pop_completed p) in *. 
  unfold status_wf in Hs. assert (at_token q) as Ha.
  { repeat split; try done. destruct (status q); try done; lia. }
  rewrite step_at_token by by apply at_token_feed. unfold parse_body. rewrite feed_status.
  cbn [status feed_buf]. destruct (status q); try done.
  - by apply type_feed.
  - apply header_feed; cbn; try done; lia.
  - apply line_feed; cbn; try done; lia.
  - apply Z.eqb_eq in Hu. destruct Hs as (? & ? & ?). apply bulk_feed; cbn; try done; lia.
  - apply Z.eqb_eq in Hu. destruct Hs as (? & ? & ?). apply bulk_feed; cbn; try done; lia.
Qed.

(** ** Reads, one after the other *)
Lemma parse_loop_step rdb f p q y :
  parse_step rdb p = parse_step rdb q -> parse_loop f rdb p = Some y -> parse_loop f rdb q = Some y.
Proof. intros Hs. destruct f; [done|]. cbn. by rewrite Hs. Qed.

Lemma missing_uncut p : uncut p = true -> missing p = 0.
Proof. unfold uncut, missing. destruct (status p); try done; by intros ->. Qed.

Lemma missing_pop p : missing (pop_completed p) = missing p.
Proof. unfold missing. by destruct (pop_completed_fields p) as (-> & -> & _ & ->). Qed.

(** The buffer only shrinks. *)
Definition shrinks (p : RespParser) (s : step_result) : Prop :=
  match s with Continue p' | Return _ p' => len (buf p') <= len (buf p) | StepPanic => True end.

Lemma drain_shrinks p p' : drain_till_buf p = Ret p' -> len (buf p') <= len (buf p).
Proof.
  unfold drain_till_buf. destruct (_ <? _); [done|]. intros [= <-]. unfold len. cbn.
  rewrite length_drop. lia.
Qed.

Lemma give_shrinks p q v : len (buf q) <= len (buf p) -> shrinks p (give_value q v).
Proof. unfold give_value. intros. destruct (stack q); [done|]. by destruct (set_value _ _). Qed.

Lemma next_line_buf p r p' : next_till_new_line p = Ret (r, p') -> buf p' = buf p.
Proof.
  unfold next_till_new_line. destruct (_ <? _); [done|]. destruct (scan_newline _ _) as [k []].
  - destruct (slice_checked _ _ _); [|done]. cbn. destruct (from_utf8 _); by intros [= <- <-].
  - by intros [= <- <-].
Qed.

Lemma read_bytes_buf p n rdb r p' : read_bytes p n rdb = Ret (r, p') -> buf p' = buf p.
Proof.
  unfold read_bytes. destruct (_ && _); [|by intros [= <- <-]].
  destruct (if rdb then _ else _) as [[|]|]; cbn [outcome_bind]; [| |done].
  - destruct (slice_checked _ _ _); [|done]. cbn. destruct (from_utf8 _); by intros [= <- <-].
  - destruct rdb; [|by intros [= <- <-]].
    destruct (slice_checked _ _ _); [|done]. by intros [= <- <-].
Qed.

Lemma bulk_shrinks p q n rdb : buf q = buf p -> shrinks p (step_bulk n rdb q).
Proof.
  intros Hq. unfold step_bulk. destruct (read_bytes q n rdb) as [[[[v|]|e] q']|] eqn:Hn; [| | |done].
  2,3: apply read_bytes_buf in Hn; cbn; by rewrite Hn, Hq.
  destruct (drain_till_buf q') as [q''|] eqn:Hd; [|done].
  apply read_bytes_buf in Hn. apply drain_shrinks in Hd. rewrite Hn, Hq in Hd. by apply give_shrinks.
Qed.

Lemma step_shrinks rdb p : shrinks p (parse_step rdb p).
Proof.
  unfold parse_step. destruct (pop_completed_fields p) as (Hbuf & _).
  destruct (parse_blocked _); [cbn; by rewrite Hbuf|].
  enough (forall q, buf q = buf p -> match status (pop_completed p) with
    | PS_Type => shrinks p (step_type rdb q)
    | PS_Header => shrinks p (step_header q)
    | PS_Line => shrinks p (step_line q)
    | PS_Bulk n => shrinks p (step_bulk n false q)
    | PS_RDB n => shrinks p (step_bulk n true q)
    | PS_None => True end) as Hall.
  { specialize (Hall (set_status (pop_completed p) PS_Type) Hbuf). unfold parse_body.
    destruct (status _); [cbn; by rewrite Hbuf|done..]. }
  clear Hbuf. intros q Hq. destruct (status _); [done| | | | |].
  - unfold step_type, next_till_type. destruct (scan_type _ _ _) as [k [[]|]]; cbn; by rewrite Hq.
  - unfold step_header. destruct (next_till_new_line q) as [[[[v|]|e] q']|] eqn:Hn; [| | |done].
    2,3: apply next_line_buf in Hn; cbn; by rewrite Hn, Hq.
    destruct (drain_till_buf q') as [q''|] eqn:Hd; [|done].
    apply next_line_buf in Hn. apply drain_shrinks in Hd. rewrite Hn, Hq in Hd.
    destruct (stack q''), (rbo_str v); try done. by destruct (parse_usize _).
  - unfold step_line. destruct (next_till_new_line q) as [[[[v|]|e] q']|] eqn:Hn; [| | |done].
    2,3: apply next_line_buf in Hn; cbn; by rewrite Hn, Hq.
    destruct (drain_till_buf q') as [q''|] eqn:Hd; [|done].
    apply next_line_buf in Hn. apply drain_shrinks in Hd. rewrite Hn, Hq in Hd. by apply give_shrinks.
  - by apply bulk_shrinks.
  - by apply bulk_shrinks.
Qed.

(** A read after [parse] came to its end: both runs reach the same state, unless
    a body is still cut after it. *)
Lemma parse_loop_feed rdb b f p x : b <> [] -> parser_wf p -> uncut p = true ->
  len (buf p) + len b <= isize_max -> parse_loop f rdb p = Some x ->
  match x with
  | Ret (Ok _, p1) =>
      if missing p1 <=? len b then
        exists f1, forall f2 y, parse_loop f2 rdb (feed_buf p1 b) = Some y ->
          parse_loop (f1 + f2) rdb (feed_buf p b) = Some y
      else exists f1 q, parse_loop f1 rdb (feed_buf p b) = Some (Ret (Ok tt, q)) /\ completed q = []
  | Ret (Err e, p1) => exists f1, parse_loop f1 rdb (feed_buf p b) = Some (Ret (Err e, feed_buf p1 b))
  | Panic => exists f1, parse_loop f1 rdb (feed_buf p b) = Some Panic
  end.
Proof.
  intros Hb. revert p. induction f as [|f IH]; intros p Hwf Hu Hmax; [done|]. cbn [parse_loop].
  pose proof (step_feed rdb b p Hb Hwf Hu Hmax) as Hstep.
  pose proof (parse_step_ok rdb p Hwf) as Hok.
  pose proof (step_shrinks rdb p) as Hshr. set (st := parse_step rdb p) in *. clearbody st.
  destruct Hstep as [p' Hu' Hr|p' Hblk Hlater Hopen|p' Hu' Hr|e p' Hr|Hr].
  - intros Hx. destruct Hok as [Hwf' _].
    cbn in Hshr.
    specialize (IH p' Hwf' Hu' ltac:(lia) Hx).
    destruct x as [[[[]|e] p1]|].
    + destruct (missing p1 <=? len b).
      * destruct IH as [f1 IH]. exists (S f1). intros f2 y Hy. cbn. rewrite Hr. by apply IH.
      * destruct IH as (f1 & q & Hf & Hq). exists (S f1), q. cbn. by rewrite Hr.
    + destruct IH as [f1 IH]. exists (S f1). cbn. by rewrite Hr.
    + destruct IH as [f1 IH]. exists (S f1). cbn. by rewrite Hr.
  - destruct f as [|f]; [done|]. cbn [parse_loop]. rewrite Hblk. intros [= <-].
    rewrite missing_pop. destruct (Z.leb_spec (missing p') (len b)) as [Hle|Hgt].
    + exists 0%nat. intros f2 y. apply parse_loop_step. rewrite step_feed_pop. symmetry. by apply Hlater.
    + destruct (Hopen Hgt) as (q & Hq & Hend & Hcomp). exists 2%nat, q. cbn. by rewrite Hq, Hend.
  - intros [= <-]. rewrite missing_uncut by done. destruct (Z.leb_spec 0 (len b)) as [_|]; [|pose proof (len_nonneg b); lia].
    exists 0%nat. intros f2 y. by apply parse_loop_step.
  - intros [= <-]. exists 1%nat. cbn. by rewrite Hr.
  - intros [= <-]. exists 1%nat. cbn. by rewrite Hr.
Qed.

Lemma parse_loop_shrinks rdb f p r p1 :
  parse_loop f rdb p = Some (Ret (r, p1)) -> len (buf p1) <= len (buf p).
Proof.
  revert p. induction f as [|f IH]; intros p; [done|]. cbn. pose proof (step_shrinks rdb p) as Hs.
  destruct (parse_step rdb p); cbn in Hs; [|by intros [= -> ->]|done]. intros H%IH. lia.
Qed.

Lemma parse_keeps_wf rdb p r p1 : parser_wf p -> parse rdb p = Ret (r, p1) -> parser_wf p1.
Proof.
  intros Hwf. unfold parse. pose proof (parse_loop_total rdb _ p Hwf (measure_fuel p Hwf)) as Ht.
  destruct (parse_loop _ _ _) as [x|]; [|done]. cbn [unwrap_or]. by intros ->.
Qed.

Lemma parse_shrinks rdb p r p1 : parse rdb p = Ret (r, p1) -> len (buf p1) <= len (buf p).
Proof.
  unfold parse. destruct (parse_loop _ _ _) as [x|] eqn:Hx; [|done]. cbn [unwrap_or]. intros ->.
  by eapply parse_loop_shrinks.
Qed.

(** The same of [parse] itself. *)
Lemma parse_feed rdb p b : b <> [] -> parser_wf p -> uncut p = true ->
  len (buf p) + len b <= isize_max ->
  match parse rdb p with
  | Ret (Ok _, p1) =>
      if missing p1 <=? len b then parse rdb (feed_buf p b) = parse rdb (feed_buf p1 b)
      else exists q, parse rdb (feed_buf p b) = Ret (Ok tt, q) /\ completed q = []
  | Ret (Err e, p1) => parse rdb (feed_buf p b) = Ret (Err e, feed_buf p1 b)
  | Panic => parse rdb (feed_buf p b) = Panic
  end.
Proof.
  intros Hb Hwf Hu Hmax. pose proof (feed_buf_wf p b Hwf Hmax) as Hwfb.
  pose proof (parse_loop_total rdb _ p Hwf (measure_fuel p Hwf)) as Ht.
  destruct (parse_loop (parse_fuel p) rdb p) as [x|] eqn:Hx; [|done].
  rewrite (parse_loop_parse _ _ _ _ Hwf Hx).
  pose proof Hx as Hshr. apply (parse_loop_feed rdb b) in Hx; try done. destruct x as [[[[]|e] p1]|].
  - destruct (missing p1 <=? len b).
    + destruct Hx as [f1 Hf]. apply parse_loop_shrinks in Hshr. cbn in Ht.
      pose proof (feed_buf_wf p1 b Ht ltac:(lia)) as Hwf1.
      pose proof (parse_loop_total rdb _ _ Hwf1 (measure_fuel _ Hwf1)) as Ht1.
      destruct (parse_loop (parse_fuel (feed_buf p1 b)) rdb (feed_buf p1 b)) as [y|] eqn:Hy; [|done].
      rewrite (parse_loop_parse _ _ _ _ Hwf1 Hy). eapply parse_loop_parse; [done|]. by apply Hf.
    + destruct Hx as (f1 & q & Hf & Hq). exists q. split; [|done]. by eapply parse_loop_parse.
  - destruct Hx as [f1 Hf]. by eapply parse_loop_parse.
  - destruct Hx as [f1 Hf]. by eapply parse_loop_parse.
Qed.

(** A read that does not end the body that was cut before it: the cursor passes the
    end of the buffer, and nothing is delivered. *)
Lemma late_step n snapshot p : is_u64 n -> tmp_start p = 0 -> 0 < buf_cur p <= bulk_total n snapshot ->
  len (buf p) < bulk_total n snapshot -> exists cur, len (buf p) < cur /\
  step_bulk n snapshot p = Continue (set_status (set_cur p cur) (body_status n snapshot)).
Proof.
  intros Hn Hts Hcur Hlen. unfold step_bulk. rewrite read_bytes_eq by (done || lia). cbv zeta.
  set (cur := buf_cur p + _). exists cur. assert (len (buf p) < cur) as Hlt by lia. split; [done|].
  destruct (Z.leb_spec cur (len (buf p))); [lia|]. by destruct snapshot.
Qed.

(** What is missing is the rest of a body. *)
Lemma missing_body p : parser_wf p -> 0 < missing p -> exists n snapshot,
  status p = body_status n snapshot /\ is_u64 n /\ tmp_start p = 0 /\
  0 < buf_cur p <= bulk_total n snapshot /\ missing p = bulk_total n snapshot - len (buf p) /\
  exists top rest, stack p = top :: rest /\ is_completed top = false.
Proof.
  intros (_ & Ha & Hs) Hpos. unfold awaiting, status_wf, missing in *.
  destruct (status p) as [| | |n|n|]; try lia; destruct (Z.eqb_spec (buf_cur p) 0); try lia.
  - exists n, false. destruct (stack p) as [|[] l] eqn:Hstk; try done.
    match goal with o : option string |- _ => destruct o end; [done|].
    unfold bulk_total in *. split_and!; try tauto; try lia. by eexists _, _.
  - exists n, true. destruct (stack p) as [|[] l] eqn:Hstk; try done.
    match goal with o : option bytes |- _ => destruct o end; [done|].
    destruct Hs as (Hn & ? & ?). unfold bulk_total in *. rewrite Z.add_0_r, wrap_u64_id in * by done.
    split_and!; try tauto; try lia. by eexists _, _.
Qed.

Lemma parse_late rdb p b : parser_wf p -> completed p = [] -> 0 < missing p -> len b < missing p ->
  len (buf p) + len b <= isize_max ->
  exists q, parse rdb (feed_buf p b) = Ret (Ok tt, q) /\ completed q = [].
Proof.
  intros Hwf Hc Hpos Hlate Hmax. pose proof (feed_buf_wf p b Hwf Hmax) as Hwfb.
  destruct (missing_body p Hwf Hpos) as (n & sn & Hst & Hn & Hts & Hcur & Hm & top & rest & Hs & Htop).
  assert (pop_completed (feed_buf p b) = feed_buf p b) as Hpop by (by eapply pop_incomplete).
  set (q0 := feed_buf p b) in *.
  assert (exists f q, parse_loop f rdb q0 = Some (Ret (Ok tt, q)) /\ completed q = []) as (f & q & Hf & Hq);
    [|exists q; split; [by eapply parse_loop_parse|done]].
  destruct (parse_blocked q0) eqn:Hblk.
  { exists 1%nat, q0. cbn [parse_loop]. unfold parse_step. by rewrite Hpop, Hblk. }
  destruct (late_step n sn (set_status q0 PS_Type)) as (cur & Hlt & Hstep); cbn in *; try rewrite len_app; try done; [lia|].
  exists 2%nat, (set_status (set_cur q0 cur) (body_status n sn)). split; [|done]. cbn [parse_loop].
  assert (parse_step rdb q0 = Continue (set_status (set_cur q0 cur) (body_status n sn))) as ->.
  { unfold parse_step. rewrite Hpop, Hblk. unfold parse_body. cbn [status q0 feed_buf]. rewrite Hst.
    by destruct sn. }
  rewrite step_blocked by (cbn; lia). by rewrite (pop_incomplete _ top rest).
Qed.

(** What the reads [cs] leave, each parsed before the next. *)
Fixpoint parse_reads (rdb : bool) (cs : list bytes) (p : RespParser) :
    outcome (Result BoxError unit * RespParser) :=
  match cs with
  | [] => Ret (Ok tt, p)
  | c :: cs' =>
      match parse rdb (feed_buf p c) with
      | Ret (Ok _, p1) => parse_reads rdb cs' p1
      | x => x
      end
  end.

(** Every read brings something, and ends the body that was cut before it. *)
Fixpoint unbroken (rdb : bool) (cs : list bytes) (p : RespParser) : bool :=
  match cs with
  | [] => true
  | c :: cs' =>
      (0 <? len c) && (missing p <=? len c) &&
      match parse rdb (feed_buf p c) with
      | Ret (Ok _, p1) => unbroken rdb cs' p1
      | _ => true
      end
  end.

Lemma feed_feed p a b : feed_buf (feed_buf p a) b = feed_buf p (a ++ b).
Proof. unfold feed_buf. cbn. by rewrite app_assoc. Qed.

Lemma feed_nil p : feed_buf p [] = p.
Proof. destruct p. unfold feed_buf. cbn. by rewrite app_nil_r. Qed.

(** An error or a panic is the same with more bytes behind it. *)
Lemma parse_feed_fails rdb p b : parser_wf p -> uncut p = true ->
  len (buf p) + len b <= isize_max ->
  match parse rdb p with
  | Ret (Ok _, _) => True
  | Ret (Err e, p1) => parse rdb (feed_buf p b) = Ret (Err e, feed_buf p1 b)
  | Panic => parse rdb (feed_buf p b) = Panic
  end.
Proof.
  intros Hwf Hu Hmax. destruct b as [|c b].
  { rewrite !feed_nil. destruct (parse rdb p) as [[[|] p1]|]; by rewrite ?feed_nil. }
  pose proof (parse_feed rdb p (c :: b) ltac:(done) Hwf Hu Hmax). by destruct (parse rdb p) as [[[|] p1]|].
Qed.

Lemma reads_after rdb p a p1 cs : parser_wf p -> uncut p = true ->
  len (buf p) + len (a ++ mjoin cs) <= isize_max ->
  parse rdb (feed_buf p a) = Ret (Ok tt, p1) -> unbroken rdb cs p1 = true ->
  match parse_reads rdb cs p1 with
  | Ret (Ok _, p2) => parse rdb (feed_buf p (a ++ mjoin cs)) = Ret (Ok tt, p2)
  | Ret (Err e, p2) => exists rest, parse rdb (feed_buf p (a ++ mjoin cs)) = Ret (Err e, feed_buf p2 rest)
  | Panic => parse rdb (feed_buf p (a ++ mjoin cs)) = Panic
  end.
Proof.
  intros Hwf Hu. revert a p1. induction cs as [|c cs IH]; intros a p1 Hmax Hp Hun.
  { cbn. by rewrite app_nil_r. }
  change (mjoin (c :: cs)) with (c ++ mjoin cs) in *. rewrite app_assoc in *.
  cbn [parse_reads unbroken] in *. bools. pose proof (len_nonneg (mjoin cs)).
  rewrite len_app in Hmax. assert (c <> []) as Hc by (by intros ->).
  rewrite len_app in Hmax.
  pose proof (feed_buf_wf p a Hwf ltac:(lia)) as Hwfa.
  pose proof (feed_buf_wf p (a ++ c) Hwf ltac:(rewrite len_app; lia)) as Hwfc.
  pose proof (parse_feed rdb (feed_buf p a) c Hc Hwfa Hu) as Hfeed. rewrite Hp, feed_feed in Hfeed.
  destruct (Z.leb_spec (missing p1) (len c)); [|lia].
  rewrite <- Hfeed in * by (cbn; rewrite len_app; lia).
  pose proof (parse_feed_fails rdb (feed_buf p (a ++ c)) (mjoin cs) Hwfc Hu) as Hfail.
  rewrite feed_feed in Hfail. cbn in Hfail. rewrite !len_app in Hfail.
  destruct (parse rdb (feed_buf p (a ++ c))) as [[[[]|e] p2]|] eqn:Hac.
  - apply IH; [rewrite !len_app; lia|done|done].
  - eexists. apply Hfail. lia.
  - apply Hfail. lia.
Qed.

(** C16: however the bytes for a parser are split into reads, parsing after each
    read ends in the state, the error or the panic that one read of all of them
    ends in, when no body of a bulk string or snapshot is cut twice; an error
    leaves the reads behind it unread. *)
Theorem reads_joined rdb p cs : parser_wf p -> uncut p = true -> cs <> [] ->
  len (buf p) + len (mjoin cs) <= isize_max -> unbroken rdb cs p = true ->
  match parse_reads rdb cs p with
  | Ret (Ok _, p2) => parse rdb (feed_buf p (mjoin cs)) = Ret (Ok tt, p2)
  | Ret (Err e, p2) => exists rest, parse rdb (feed_buf p (mjoin cs)) = Ret (Err e, feed_buf p2 rest)
  | Panic => parse rdb (feed_buf p (mjoin cs)) = Panic
  end.
Proof.
  intros Hwf Hu Hne Hmax Hun. destruct cs as [|c cs]; [done|].
  cbn [parse_reads unbroken] in *. bools. change (mjoin (c :: cs)) with (c ++ mjoin cs) in *.
  rewrite len_app in Hmax. pose proof (len_nonneg (mjoin cs)).
  pose proof (feed_buf_wf p c Hwf ltac:(lia)) as Hwfc.
  pose proof (parse_feed_fails rdb (feed_buf p c) (mjoin cs) Hwfc Hu) as Hfail.
  rewrite feed_feed in Hfail. cbn in Hfail. rewrite len_app in Hfail.
  destruct (parse rdb (feed_buf p c)) as [[[[]|e] p1]|] eqn:Hp.
  - apply reads_after; try done. rewrite len_app. lia.
  - eexists. apply Hfail. lia.
  - apply Hfail. lia.
Qed.

Lemma parse_completed rdb p : completed p <> [] -> parse rdb p = Ret (Ok tt, pop_completed p).
Proof.
  intros Hc. unfold parse, parse_fuel. rewrite Nat.add_comm. cbn. unfold parse_step.
  assert (completed (pop_completed p) <> []) as Hc'.
  { unfold pop_completed. destruct (stack p); [done|]. destruct (pop_stack _ _) as [? []]; cbn; [|done].
    by destruct (completed p). }
  unfold parse_blocked. by rewrite bool_decide_eq_false_2.
Qed.

(** A value that is cut: nothing is delivered for its first part, and then, with
    whatever follows, what is delivered for the whole. *)
Lemma cut_value r a b tail : wire_wf r = true -> serialize r = Ret (a ++ b) -> b <> [] ->
  len (a ++ b ++ tail) <= isize_max ->
  exists p1, parse false (ready a []) = Ret (Ok tt, p1) /\ get_completed p1 = (None, p1) /\
    parse false (feed_buf p1 (b ++ tail)) = parse false (ready (a ++ b ++ tail) []) /\ missing p1 <= len b.
Proof.
  intros Hr Hs Hb Hmax. rewrite !len_app in Hmax.
  pose proof (len_nonneg a). pose proof (len_nonneg b). pose proof (len_nonneg tail).
  pose proof (parse_wire r _ [] Hr Hs ltac:(rewrite app_nil_r, len_app; lia)) as Hall.
  rewrite app_nil_r in Hall. change (ready ?w []) with (feed_buf parser_new w) in *.
  assert (parser_wf (feed_buf parser_new a)) as Hwf.
  { apply feed_buf_wf; [apply parser_new_wf|]. cbn. rewrite len_nil. lia. }
  assert (b ++ tail <> []) as Hbt by (by intros [? _]%app_eq_nil).
  pose proof (parse_feed false (feed_buf parser_new a) b Hb Hwf eq_refl) as Hone.
  pose proof (parse_feed false (feed_buf parser_new a) (b ++ tail) Hbt Hwf eq_refl) as Hfeed.
  rewrite feed_feed in Hone, Hfeed. rewrite Hall in Hone. rewrite len_app in Hfeed. cbn in Hone, Hfeed.
  destruct (parse false (feed_buf parser_new a)) as [[[[]|e] p1]|]; [|specialize (Hone ltac:(lia)); done..].
  destruct (Z.leb_spec (missing p1) (len b)) as [Hle|_].
  2: { destruct Hone as (q & Hq & Hc); [lia|]. injection Hq as <-. done. }
  destruct (Z.leb_spec (missing p1) (len b + len tail)); [|lia].
  exists p1. split_and!; [done| |by rewrite Hfeed by lia|done]. specialize (Hone ltac:(lia)).
  unfold get_completed. destruct (completed p1) eqn:Hc; [done|]. exfalso.
  assert (completed (feed_buf p1 b) <> []) as Hn%(parse_completed false) by (cbn; by rewrite Hc).
  rewrite Hn in Hone. apply (f_equal (fun x => match x with Ret (_, p) => buf p | Panic => [] end)) in Hone.
  cbn in Hone. destruct (pop_completed_fields (feed_buf p1 b)) as (Hbuf & _). rewrite Hbuf in Hone.
  cbn in Hone. symmetry in Hone. by apply app_eq_nil in Hone as [_ ?].
Qed.

(** ** Witnesses *)
Definition demo_pieces : list bytes :=
  [as_bytes "*2" ++ [CR]; LF :: as_bytes "$3" ++ DELIMITER ++ as_bytes "GE"; as_bytes "T" ++ DELIMITER;
   as_bytes "$1" ++ DELIMITER ++ as_bytes "k" ++ [CR]; [LF]].

Lemma reads_joined_witness : exists p2,
  parse_reads false demo_pieces parser_new = Ret (Ok tt, p2) /\
  parse false (feed_buf parser_new (mjoin demo_pieces)) = Ret (Ok tt, p2) /\
  (get_completed p2).1 = Some (Array 2 (Some [BulkStr 3 (Some "GET"%string); BulkStr 1 (Some "k"%string)])).
Proof.
  assert (unbroken false demo_pieces parser_new = true) as Hun by (vm_compute; reflexivity).
  pose proof (reads_joined false parser_new demo_pieces) as H.
  specialize (H parser_new_wf eq_refl). specialize (H ltac:(discriminate)).
  specialize (H ltac:(vm_compute; discriminate)). specialize (H Hun).
  destruct (parse_reads false demo_pieces parser_new) as [[[[]|e] p2]|] eqn:Hs;
    [|exfalso; vm_compute in Hs; discriminate Hs..].
  exists p2. split; [reflexivity|]. split; [exact H|]. clear H.
  vm_compute in Hs. injection Hs as <-. reflexivity.
Defined.
