(* ===== verification/Bitmap.v ===== *)
(** * Bitmaps ([commands/data_types.rs], [BitOps] and [Bitmap])

    A bitmap is a [Vec<u8>] addressed by bit, offset 0 being the most
    significant bit of the first byte. *)

From S2P Require Import Prelude Text Float64 Resp.

(** ** Data *)

Inductive BitValue := Zero | One.

Definition bit_value_try_from (value : Z) : Result CustomError BitValue :=
  if value =? 1 then Ok One
  else if value =? 0 then Ok Zero
  else Err (ParseError "Input must be either 0 or 1").

Inductive BitUnit := Byte | Bit.

Record BitRange := mk_range { start : Z; end_ : Z; unit_ : BitUnit }.

#[export] Instance bit_unit_eq_dec : EqDecision BitUnit.
Proof. solve_decision. Defined.
#[export] Instance bit_range_eq_dec : EqDecision BitRange.
Proof. solve_decision. Defined.

(** ** [BitOps] *)

Module BitOps.

(** [1u8 << block_offset]. *)
Definition mask (offset : Z) : Z := Z.shiftl 1 (7 - offset mod 8) mod 256.

Definition get (map : bytes) (offset : Z) : Result CustomError Z :=
  let? block := ok_or (vec_get map (offset / 8)) OutOfIndex in
  if Z.land (u8_val block) (mask offset) =? 0 then Ok 0 else Ok 1.

(** [set] works through [&mut \[u8\]]: it returns the updated slice. *)
Definition set (map : bytes) (offset : Z) (value : BitValue) : Result CustomError bytes :=
  let i := offset / 8 in
  let? block := ok_or (vec_get map i) OutOfIndex in
  let v := match value with
           | One => Z.lor (u8_val block) (mask offset)
           | Zero => Z.land (u8_val block) (Z.lxor (mask offset) 255)
           end in
  Ok (<[Z.to_nat i := u8_of v]> map).

(** [u8::count_ones]. *)
Definition count_ones (b : u8) : Z :=
  let v := u8_val b in
  Z.b2z (Z.testbit v 0) + Z.b2z (Z.testbit v 1) + Z.b2z (Z.testbit v 2) +
  Z.b2z (Z.testbit v 3) + Z.b2z (Z.testbit v 4) + Z.b2z (Z.testbit v 5) +
  Z.b2z (Z.testbit v 6) + Z.b2z (Z.testbit v 7).

Definition sum_ones (map : bytes) : Z := foldr (fun b s => count_ones b + s) 0 map.

(** The offsets of an inclusive range of [usize]s. *)
Definition offsets (start end_ : Z) : list Z := seqZ start (end_ - start + 1).

Definition is_set (map : bytes) (i : Z) : bool :=
  match get map i with Ok v => 0 <? v | Err _ => false end.

Definition bit_count (map : bytes) (range : option BitRange) : Z :=
  match range with
  | None => sum_ones map
  | Some r =>
      let l := match unit_ r with Byte => len map | Bit => wrap_i64 (len map * 8) end in
      let s := if start r <? 0 then Z.max (wrap_i64 (l + start r)) 0 else start r in
      let e := if end_ r <? 0 then Z.max (wrap_i64 (l + end_ r)) 0 else end_ r in
      let e := Z.min e (l - 1) in
      if (l =? 0) || (e <? s) then 0
      else match unit_ r with
           | Byte => sum_ones (slice map s (e + 1))
           | Bit => len (List.filter (is_set map) (offsets s e))
           end
  end.

Definition combine (op : Z -> Z -> Z) (map1 map2 : bytes) : bytes :=
  List.map
    (fun i => u8_of (op (u8_val (unwrap_or (vec_get map1 i) "000"%char))
                        (u8_val (unwrap_or (vec_get map2 i) "000"%char))))
    (seqZ 0 (Z.max (len map1) (len map2))).

Definition and (map1 map2 : bytes) : bytes := combine Z.land map1 map2.
Definition or (map1 map2 : bytes) : bytes := combine Z.lor map1 map2.

End BitOps.

(** ** [Bitmap] *)
Definition zero_bytes (n : Z) : bytes := repeat "000"%char (Z.to_nat n).

Definition bitmap_new (length : Z) : bytes :=
  let blocks := div_ceil length 8 in
  if 0 <? length then zero_bytes blocks else [].

(** [(offset + 1).div_ceil(8)] with [offset + 1] computed on [usize]. *)
Definition bitmap_extend (map : bytes) (offset : Z) : bytes :=
  let extend := saturating_sub (div_ceil (wrap_u64 (offset + 1)) 8) (len map) in
  if 0 <? extend then map ++ zero_bytes extend else map.

(** ** The abstract view: a bitmap is the sequence of its bits *)

(** Bit [i], counted from the most significant bit of byte 0; absent is 0. *)
Definition bit (map : bytes) (i : Z) : bool :=
  match vec_get map (i / 8) with
  | Some b => Z.testbit (u8_val b) (7 - i mod 8)
  | None => false
  end.

Lemma mask_pow offset : BitOps.mask offset = 2 ^ (7 - offset mod 8).
Proof.
  unfold BitOps.mask. rewrite Z.shiftl_1_l. apply Z.mod_small. split; [lia|].
  change 256 with (2 ^ 8). apply Z.pow_lt_mono_r; lia.
Qed.

Lemma land_pow2_eqb v k : 0 <= k -> (Z.land v (2 ^ k) =? 0) = negb (Z.testbit v k).
Proof.
  intros Hk. destruct (Z.testbit v k) eqn:Hb; cbn.
  - apply Z.eqb_neq. intros H. apply (f_equal (fun z => Z.testbit z k)) in H.
    rewrite Z.land_spec, Z.pow2_bits_true, Hb in H by lia. by rewrite Z.bits_0 in H.
  - apply Z.eqb_eq, Z.bits_inj'. intros n Hn. rewrite Z.land_spec, Z.bits_0.
    destruct (Z.eq_dec n k) as [->|]; [by rewrite Hb|].
    rewrite Z.pow2_bits_false by lia. apply andb_false_r.
Qed.

(** [get] reads the abstract bit, in range. *)
Lemma get_bit map i :
  BitOps.get map i =
  if (0 <=? i / 8) && (i / 8 <? len map) then Ok (Z.b2z (bit map i)) else Err OutOfIndex.
Proof.
  unfold BitOps.get, bit. unfold vec_get at 1.
  destruct ((0 <=? i / 8) && (i / 8 <? len map)) eqn:Hr; cbn; [|done].
  bools. destruct (vec_get_is_some map (i / 8)) as [b Hb]; [lia|].
  rewrite Hb. rewrite vec_get_nonneg in Hb by lia. rewrite Hb. cbn.
  rewrite mask_pow, land_pow2_eqb by lia. by destruct (Z.testbit _ _).
Qed.

Lemma get_in_range map i :
  0 <= i < 8 * len map -> BitOps.get map i = Ok (Z.b2z (bit map i)).
Proof.
  intros. rewrite get_bit. replace (0 <=? i / 8) with true by (symmetry; apply Z.leb_le; lia).
  by replace (i / 8 <? len map) with true by (symmetry; apply Z.ltb_lt; lia).
Qed.

Lemma bit_out_of_range map i : 8 * len map <= i -> bit map i = false.
Proof. intros. unfold bit. by rewrite vec_get_ge by lia. Qed.

(** ** [set] updates exactly one bit *)
Definition value_bit (v : BitValue) : bool := match v with One => true | Zero => false end.

Lemma testbit_u8_high b k : 8 <= k -> Z.testbit (u8_val b) k = false.
Proof.
  intros. pose proof (u8_val_range b). destruct (Z.eq_dec (u8_val b) 0) as [->|]; [apply Z.bits_0|].
  apply Z.bits_above_log2; [lia|]. apply Z.log2_lt_pow2; [lia|].
  apply Z.lt_le_trans with (2 ^ 8); [lia|]. apply Z.pow_le_mono_r; lia.
Qed.

Lemma testbit_u8_of z k : 0 <= k < 8 -> Z.testbit (u8_val (u8_of z)) k = Z.testbit z k.
Proof.
  intros. rewrite u8_val_of. change 256 with (2 ^ 8). apply Z.mod_pow2_bits_low. lia.
Qed.

(** The byte [set] writes, bit by bit. *)
Lemma set_byte_bit v b k j : 0 <= k < 8 -> 0 <= j < 8 ->
  Z.testbit (match v with
             | One => Z.lor b (2 ^ k)
             | Zero => Z.land b (Z.lxor (2 ^ k) 255)
             end) j = if j =? k then value_bit v else Z.testbit b j.
Proof.
  intros Hk Hj. change 255 with (Z.ones 8).
  destruct v; rewrite ?Z.lor_spec, ?Z.land_spec, ?Z.lxor_spec, ?Z.ones_spec_low by lia;
    rewrite Z.pow2_bits_eqb, (Z.eqb_sym k j) by lia; destruct (Z.eqb_spec j k); cbn.
  - by rewrite andb_false_r.
  - by rewrite andb_true_r.
  - by rewrite orb_true_r.
  - by rewrite orb_false_r.
Qed.

Lemma vec_get_insert {A} (l : list A) i j x : 0 <= i < len l ->
  vec_get (<[Z.to_nat i := x]> l) j = if j =? i then Some x else vec_get l j.
Proof.
  intros Hi. destruct (Z.ltb_spec j 0).
  { rewrite !vec_get_neg by lia. by destruct (Z.eqb_spec j i); [lia|]. }
  rewrite !vec_get_nonneg by lia. destruct (Z.eqb_spec j i) as [->|].
  - apply list_lookup_insert_eq. unfold len in Hi. lia.
  - apply list_lookup_insert_ne. lia.
Qed.

Lemma set_in_range map i v : 0 <= i < 8 * len map ->
  exists map', BitOps.set map i v = Ok map' /\ len map' = len map /\
    forall j, 0 <= j -> bit map' j = if j =? i then value_bit v else bit map j.
Proof.
  intros Hi. unfold BitOps.set.
  destruct (vec_get_is_some map (i / 8)) as [b Hb]; [lia|]. rewrite Hb. cbn.
  rewrite mask_pow. eexists. split; [done|].
  split; [unfold len; by rewrite length_insert|].
  intros j Hj. unfold bit. rewrite vec_get_insert by lia.
  destruct (Z.eqb_spec (j / 8) (i / 8)) as [He|He].
  - rewrite testbit_u8_of, set_byte_bit by lia. rewrite He, Hb.
    destruct (Z.eqb_spec (7 - j mod 8) (7 - i mod 8)), (Z.eqb_spec j i); try lia; done.
  - destruct (Z.eqb_spec j i) as [->|]; [lia|done].
Qed.

Lemma set_out_of_range map i v : 0 <= i -> 8 * len map <= i ->
  BitOps.set map i v = Err OutOfIndex.
Proof. intros. unfold BitOps.set. by rewrite vec_get_ge by lia. Qed.

(** ** Growing keeps the bits *)
Lemma len_zero_bytes n : 0 <= n -> len (zero_bytes n) = n.
Proof. intros. unfold zero_bytes, len. rewrite repeat_length. lia. Qed.

Lemma bit_zero_bytes n i : bit (zero_bytes n) i = false.
Proof.
  unfold bit. destruct (vec_get _ _) as [b|] eqn:Hb; [|done].
  pose proof (vec_get_some_range _ _ _ Hb). rewrite vec_get_nonneg in Hb by lia.
  unfold zero_bytes in Hb. apply list_elem_of_lookup_2 in Hb.
  apply list_elem_of_In, repeat_spec in Hb as ->. apply Z.bits_0.
Qed.

Lemma bit_app_zeros map n i : 0 <= i -> bit (map ++ zero_bytes n) i = bit map i.
Proof.
  intros. destruct (Z.lt_ge_cases (i / 8) (len map)).
  - unfold bit. by rewrite vec_get_app_l.
  - rewrite (bit_out_of_range map) by lia. unfold bit. rewrite vec_get_app_r by lia.
    pose proof (bit_zero_bytes n (i - 8 * len map)) as Hz. unfold bit in Hz.
    replace ((i - 8 * len map) / 8) with (i / 8 - len map) in Hz by lia.
    by replace ((i - 8 * len map) mod 8) with (i mod 8) in Hz by lia.
Qed.

Lemma bitmap_new_spec n : 0 <= n ->
  8 * len (bitmap_new n) - 8 < n <= 8 * len (bitmap_new n) /\ forall i, bit (bitmap_new n) i = false.
Proof.
  intros. unfold bitmap_new, div_ceil. destruct (Z.ltb_spec 0 n).
  - rewrite len_zero_bytes by lia. split; [lia|apply bit_zero_bytes].
  - change (len (@nil ascii)) with 0. split; [lia|]. intros i. unfold bit. by rewrite vec_get_nil.
Qed.

Lemma bitmap_extend_spec map i : 0 <= i < u64_max ->
  i < 8 * len (bitmap_extend map i) /\ len map <= len (bitmap_extend map i) /\
  forall j, 0 <= j -> bit (bitmap_extend map i) j = bit map j.
Proof.
  intros Hi. unfold bitmap_extend. rewrite wrap_u64_id by (unfold is_u64; lia).
  set (e := saturating_sub _ _). unfold saturating_sub, div_ceil in e.
  destruct (Z.ltb_spec 0 e).
  - rewrite len_app, len_zero_bytes by lia. repeat split; [lia..|].
    intros. by apply bit_app_zeros.
  - repeat split; [lia..|done].
Qed.

(** ** [combine] works bit by bit, missing bytes reading as zero *)
Lemma len_combine op m1 m2 : len (BitOps.combine op m1 m2) = Z.max (len m1) (len m2).
Proof.
  unfold BitOps.combine. rewrite len_map. unfold len at 1. rewrite length_seqZ.
  pose proof (len_nonneg m1). lia.
Qed.

Lemma vec_get_map_seqZ {A} (f : Z -> A) n i : 0 <= i < n ->
  vec_get (List.map f (seqZ 0 n)) i = Some (f i).
Proof.
  intros. rewrite vec_get_nonneg by lia. change (List.map f ?l) with (f <$> l).
  rewrite list_lookup_fmap, lookup_seqZ_lt by lia. cbn. f_equal. f_equal. lia.
Qed.

Lemma bit_or_zero map i :
  bit map i = Z.testbit (u8_val (unwrap_or (vec_get map (i / 8)) "000"%char)) (7 - i mod 8).
Proof. unfold bit. destruct (vec_get map (i / 8)); [done|]. symmetry. apply Z.bits_0. Qed.

Lemma combine_bit op bop m1 m2 i :
  (forall a b k, Z.testbit (op a b) k = bop (Z.testbit a k) (Z.testbit b k)) ->
  bop false false = false -> 0 <= i ->
  bit (BitOps.combine op m1 m2) i = bop (bit m1 i) (bit m2 i).
Proof.
  intros Hop Hff Hi. destruct (Z.lt_ge_cases (i / 8) (Z.max (len m1) (len m2))).
  - rewrite !bit_or_zero. unfold BitOps.combine. rewrite vec_get_map_seqZ by lia.
    cbn [unwrap_or]. by rewrite testbit_u8_of, Hop by lia.
  - rewrite !bit_out_of_range; rewrite ?len_combine; lia || done.
Qed.

Lemma and_bit m1 m2 i : 0 <= i -> bit (BitOps.and m1 m2) i = bit m1 i && bit m2 i.
Proof. apply (combine_bit Z.land andb); [apply Z.land_spec|done]. Qed.

Lemma or_bit m1 m2 i : 0 <= i -> bit (BitOps.or m1 m2) i = bit m1 i || bit m2 i.
Proof. apply (combine_bit Z.lor orb); [apply Z.lor_spec|done]. Qed.

(** ** Counting *)

(** The set bits with offsets in [[lo, lo + n)]. *)
Definition ones_in (map : bytes) (lo n : Z) : Z :=
  len (List.filter (bit map) (seqZ lo n)).

Lemma ones_in_split map lo a b : 0 <= a -> 0 <= b ->
  ones_in map lo (a + b) = ones_in map lo a + ones_in map (lo + a) b.
Proof.
  intros. unfold ones_in. rewrite seqZ_app, List.filter_app, len_app by lia. done.
Qed.

Lemma ones_in_byte map j : 0 <= j < len map ->
  ones_in map (8 * j) 8 =
  match vec_get map j with Some b => BitOps.count_ones b | None => 0 end.
Proof.
  intros Hj. destruct (vec_get_is_some map j Hj) as [b Hb]. rewrite Hb.
  assert (forall k, 0 <= k < 8 -> bit map (8 * j + k) = Z.testbit (u8_val b) (7 - k)) as Hbit.
  { intros k Hk. unfold bit. replace ((8 * j + k) / 8) with j by lia.
    rewrite Hb. by replace ((8 * j + k) mod 8) with k by lia. }
  unfold ones_in. change (seqZ (8 * j) 8) with
    (List.map (fun i => i + 8 * j) [0; 1; 2; 3; 4; 5; 6; 7]).
  cbn [List.map List.filter].
  rewrite !(Z.add_comm _ (8 * j)), !Hbit by lia. unfold BitOps.count_ones.
  change (7 - 0) with 7. change (7 - 1) with 6. change (7 - 2) with 5. change (7 - 3) with 4.
  change (7 - 4) with 3. change (7 - 5) with 2. change (7 - 6) with 1. change (7 - 7) with 0.
  generalize (Z.testbit (u8_val b)). intros t.
  destruct (t 0), (t 1), (t 2), (t 3), (t 4), (t 5), (t 6), (t 7); reflexivity.
Qed.

Lemma sum_ones_slice map s n : 0 <= s -> 0 <= n -> s + n <= len map ->
  BitOps.sum_ones (slice map s (s + n)) = ones_in map (8 * s) (8 * n).
Proof.
  intros Hs Hn Hl. revert s Hs Hl. pattern n. apply natlike_ind; [| |done]; clear n Hn.
  - intros s Hs Hl. unfold slice. by replace (s + 0 - s) with 0 by lia.
  - intros n Hn IH s Hs Hl.
    replace (8 * Z.succ n) with (8 + 8 * n) by lia.
    rewrite ones_in_split, ones_in_byte by lia.
    destruct (vec_get_is_some map s) as [b Hb]; [lia|]. rewrite Hb.
    replace (8 * s + 8) with (8 * (s + 1)) by lia. rewrite <- IH by lia.
    unfold slice. replace (s + Z.succ n - s) with (Z.succ n) by lia.
    replace (s + 1 + n - (s + 1)) with n by lia.
    rewrite vec_get_nonneg in Hb by lia.
    rewrite Z2Nat.inj_succ by lia. rewrite (drop_S _ _ _ Hb). cbn.
    do 4 f_equal. lia.
Qed.

(** The index a signed BITCOUNT bound denotes: negative ones count from the
    end, and stop at the beginning. *)
Definition clamp_index (l i : Z) : Z := if i <? 0 then Z.max (l + i) 0 else i.

(** The bits a BITCOUNT range covers: the first, and how many. *)
Definition range_bits (map : bytes) (r : BitRange) : Z * Z :=
  let '(l, w) := match unit_ r with Byte => (len map, 8) | Bit => (8 * len map, 1) end in
  let s := clamp_index l (start r) in
  let e := Z.min (clamp_index l (end_ r)) (l - 1) in
  (w * s, w * (e - s + 1)).

Lemma is_set_bit map i : 0 <= i -> BitOps.is_set map i = bit map i.
Proof.
  intros. unfold BitOps.is_set. rewrite get_bit.
  destruct ((0 <=? i / 8) && (i / 8 <? len map)) eqn:Hr; [by destruct (bit map i)|].
  apply andb_false_iff in Hr as [Hr|Hr]; bools; [lia|].
  by rewrite bit_out_of_range by lia.
Qed.

Lemma filter_is_set map s n : 0 <= s ->
  List.filter (BitOps.is_set map) (seqZ s n) = List.filter (bit map) (seqZ s n).
Proof.
  intros Hs. apply List.filter_ext_in. intros i Hi%list_elem_of_In%elem_of_seqZ.
  apply is_set_bit. lia.
Qed.

Lemma ones_in_nonpos map lo n : n <= 0 -> ones_in map lo n = 0.
Proof. intros. unfold ones_in, seqZ. by rewrite Z2Nat.nonpos. Qed.

(** The bytes of a whole bitmap cover its bits. *)
Lemma sum_ones_all map : BitOps.sum_ones map = ones_in map 0 (8 * len map).
Proof.
  pose proof (len_nonneg map). pose proof (sum_ones_slice map 0 (len map)) as Hs.
  rewrite Z.mul_0_r in Hs. rewrite <- Hs by lia.
  unfold slice. rewrite Z.add_0_l, Z.sub_0_r. change (Z.to_nat 0) with O. rewrite drop_0.
  unfold len. rewrite Nat2Z.id. by rewrite take_ge.
Qed.

(** The wrapped arithmetic of [bit_count] is exact on bitmaps a [Vec] can hold. *)
Lemma wrap_clamp l i : 0 <= l <= i64_max -> is_i64 i ->
  (if i <? 0 then Z.max (wrap_i64 (l + i)) 0 else i) = clamp_index l i.
Proof.
  intros Hl Hi. unfold clamp_index. destruct (Z.ltb_spec i 0); [|done].
  rewrite wrap_i64_id; [done|]. unfold is_i64, i64_min, i64_max in *. lia.
Qed.

(** ** [bit_count] on a range *)
Lemma bit_count_range map r :
  8 * len map <= i64_max -> is_i64 (start r) -> is_i64 (end_ r) ->
  BitOps.bit_count map (Some r) =
  ones_in map (fst (range_bits map r)) (snd (range_bits map r)).
Proof.
  intros Hl Hs He. pose proof (len_nonneg map). unfold BitOps.bit_count, range_bits.
  destruct (unit_ r); cbn [fst snd].
  - rewrite !wrap_clamp by (try done; lia).
    set (s := clamp_index _ (start r)). set (e := Z.min _ _).
    assert (0 <= s) by (unfold s, clamp_index; destruct (Z.ltb_spec (start r) 0); lia).
    destruct ((len map =? 0) || (e <? s)) eqn:Hc.
    + symmetry. apply ones_in_nonpos. apply orb_true_iff in Hc as [Hc|Hc]; [|bools; lia].
      apply Z.eqb_eq in Hc. lia.
    + bools. replace (e + 1) with (s + (e - s + 1)) by lia. apply sum_ones_slice; lia.
  - rewrite (wrap_i64_id (len map * 8)) by (unfold is_i64, i64_min; lia).
    rewrite (Z.mul_comm (len map)), !wrap_clamp by (try done; lia).
    set (s := clamp_index _ (start r)). set (e := Z.min _ _).
    assert (0 <= s) by (unfold s, clamp_index; destruct (Z.ltb_spec (start r) 0); lia).
    rewrite !Z.mul_1_l. destruct ((8 * len map =? 0) || (e <? s)) eqn:Hc.
    + symmetry. apply ones_in_nonpos. apply orb_true_iff in Hc as [Hc|Hc]; [|bools; lia].
      apply Z.eqb_eq in Hc. lia.
    + unfold BitOps.offsets, ones_in. by rewrite filter_is_set by lia.
Qed.
