(* ===== verification/BTree.v ===== *)
(** * Ordered maps ([std::collections::BTreeMap])

    A [BTreeMap] is the list of its entries in key order. Keys are compared by
    an [Ord] instance, a total preorder given by its [cmp]: two keys that
    compare equal are the same key to the map, and [insert] keeps the key that
    is already there. The file gives the operations the server uses, the
    ordering invariant and its preservation, and lookup laws. *)

From S2P Require Import Prelude Text.

(** ** The [Ord] trait *)

Class Ord (K : Type) := {
  cmp : K -> K -> comparison;
  cmp_refl : forall a, cmp a a = Eq;
  cmp_opp : forall a b, cmp b a = CompOpp (cmp a b);
  cmp_trans : forall a b c, cmp a b = Lt -> cmp b c = Lt -> cmp a c = Lt;
  cmp_eq : forall a b c, cmp a b = Eq -> cmp a c = cmp b c;
}.

Section Ord.
Context `{Ord K}.

Lemma cmp_eq_r a b c : cmp a b = Eq -> cmp c a = cmp c b.
Proof. intros He. by rewrite (cmp_opp a c), (cmp_opp b c), (cmp_eq a b c He). Qed.

Lemma cmp_gt_lt a b : cmp a b = Gt <-> cmp b a = Lt.
Proof. rewrite (cmp_opp a b). by destruct (cmp a b). Qed.

Lemma cmp_sym_eq a b : cmp a b = Eq <-> cmp b a = Eq.
Proof. rewrite (cmp_opp a b). by destruct (cmp a b). Qed.

Lemma cmp_lt_irrefl a : cmp a a <> Lt.
Proof. by rewrite cmp_refl. Qed.
End Ord.

#[export] Instance ord_Z : Ord Z.
Proof.
  refine {| cmp := Z.compare |}.
  - apply Z.compare_refl.
  - intros. apply Z.compare_antisym.
  - intros a b c. rewrite !Z.compare_lt_iff. lia.
  - intros a b c. rewrite Z.compare_eq_iff. by intros ->.
Defined.

(** Tuples compare left to right. *)
#[export] Instance ord_prod {A B} `{Ord A, Ord B} : Ord (A * B).
Proof.
  refine {| cmp := fun a b => match cmp a.1 b.1 with Eq => cmp a.2 b.2 | c => c end |}.
  - intros [a b]. cbn. by rewrite !cmp_refl.
  - intros [a b] [c d]. cbn. rewrite (cmp_opp a c). destruct (cmp a c); cbn; try done.
    apply cmp_opp.
  - intros [a b] [c d] [e f]. cbn. destruct (cmp a c) eqn:Hac; [| |done].
    + rewrite (cmp_eq a c e Hac). destruct (cmp c e); [apply cmp_trans|done|done].
    + destruct (cmp c e) eqn:Hce; [| |done].
      * intros _ _. by rewrite <- (cmp_eq_r c e a Hce), Hac.
      * intros _ _. by rewrite (cmp_trans a c e).
  - intros [a b] [c d] [e f]. cbn. destruct (cmp a c) eqn:Hac; [|done..].
    rewrite (cmp_eq a c e Hac). destruct (cmp c e); [apply cmp_eq|done..].
Defined.

(** Keys compared through a projection. *)
Definition ord_on {A B} `{Ord B} (f : A -> B) : Ord A.
Proof.
  refine {| cmp := fun a b => cmp (f a) (f b) |}; intros.
  - apply cmp_refl.
  - apply cmp_opp.
  - by eapply cmp_trans.
  - by apply cmp_eq.
Defined.

(** Sequences compare lexicographically, a proper prefix first. *)
Fixpoint list_cmp {A} `{Ord A} (l k : list A) : comparison :=
  match l, k with
  | [], [] => Eq
  | [], _ :: _ => Lt
  | _ :: _, [] => Gt
  | a :: l', b :: k' => match cmp a b with Eq => list_cmp l' k' | c => c end
  end.

#[export] Instance ord_list {A} `{Ord A} : Ord (list A).
Proof.
  refine {| cmp := list_cmp |}.
  - intros l. induction l as [|a l IH]; cbn; [done|]. by rewrite cmp_refl.
  - intros l. induction l as [|a l IH]; intros [|b k]; cbn; try done.
    rewrite (cmp_opp a b). destruct (cmp a b); cbn; [apply IH|done..].
  - intros l. induction l as [|a l IH]; intros [|b k] [|c j]; cbn; try done.
    destruct (cmp a b) eqn:Hab; [| |done].
    + rewrite (cmp_eq a b c Hab). destruct (cmp b c); [apply IH|done|done].
    + destruct (cmp b c) eqn:Hbc; [| |done]; intros _ _.
      * by rewrite <- (cmp_eq_r b c a Hbc), Hab.
      * by rewrite (cmp_trans a b c).
  - intros l. induction l as [|a l IH]; intros [|b k] [|c j]; cbn; try done.
    destruct (cmp a b) eqn:Hab; [|done..]. intros Hk.
    rewrite (cmp_eq a b c Hab). destruct (cmp b c); [by apply IH|done..].
Defined.

(** [str] compares bytewise. *)
#[export] Instance ord_string : Ord string :=
  ord_on (fun s => List.map u8_val (as_bytes s)).

Lemma list_cmp_eq (l k : list Z) : cmp l k = Eq -> l = k.
Proof.
  revert k. induction l as [|a l IH]; intros [|b k]; cbn; try done.
  destruct (Z.compare_spec a b) as [->| |]; [|done..]. intros H. f_equal. by apply IH.
Qed.

Lemma ord_string_eq s t : cmp s t = Eq -> s = t.
Proof.
  intros H%list_cmp_eq. apply as_bytes_inj.
  apply (f_equal (List.map u8_of)) in H. rewrite !List.map_map in H.
  rewrite <- (List.map_id (as_bytes s)), <- (List.map_id (as_bytes t)).
  erewrite List.map_ext in H; [|intros; apply u8_of_val]. rewrite H.
  apply List.map_ext. intros. apply u8_of_val.
Qed.

(** ** Operations *)
Definition BTreeMap (K V : Type) : Type := list (K * V).

Section BTree.
Context {K V : Type} `{Ord K}.

Fixpoint bt_insert (k : K) (v : V) (m : BTreeMap K V) : BTreeMap K V :=
  match m with
  | [] => [(k, v)]
  | (k', v') :: m' =>
      match cmp k k' with
      | Lt => (k, v) :: m
      | Eq => (k', v) :: m'
      | Gt => (k', v') :: bt_insert k v m'
      end
  end.

Fixpoint bt_remove (k : K) (m : BTreeMap K V) : BTreeMap K V :=
  match m with
  | [] => []
  | (k', v') :: m' =>
      match cmp k k' with
      | Lt => m
      | Eq => m'
      | Gt => (k', v') :: bt_remove k m'
      end
  end.

Fixpoint bt_get (k : K) (m : BTreeMap K V) : option V :=
  match m with
  | [] => None
  | (k', v') :: m' =>
      match cmp k k' with
      | Lt => None
      | Eq => Some v'
      | Gt => bt_get k m'
      end
  end.

Definition bt_contains_key (k : K) (m : BTreeMap K V) : bool :=
  match bt_get k m with Some _ => true | None => false end.

Definition bt_first_key_value (m : BTreeMap K V) : option (K * V) := head m.
Definition bt_last_key_value (m : BTreeMap K V) : option (K * V) := last m.

(** [range(..k)] and [range((Excluded(k), Unbounded))]. *)
Definition bt_range_to (k : K) (m : BTreeMap K V) : BTreeMap K V :=
  List.filter (fun e => match cmp e.1 k with Lt => true | _ => false end) m.
Definition bt_range_above (k : K) (m : BTreeMap K V) : BTreeMap K V :=
  List.filter (fun e => match cmp e.1 k with Gt => true | _ => false end) m.

(** [range(a..=b)], which panics when [a > b]; but a map that never had an entry has
    no tree to search, and the range of it is empty whatever the bounds. (Nothing is
    removed from the maps it is used on.) *)
Definition bt_range (a b : K) (m : BTreeMap K V) : outcome (BTreeMap K V) :=
  match m, cmp a b with
  | [], _ => Ret []
  | _, Gt => Panic
  | _, _ => Ret (List.filter (fun e =>
           match cmp a e.1, cmp e.1 b with
           | Gt, _ | _, Gt => false
           | _, _ => true
           end) m)
  end.

(** ** The ordering invariant *)
Fixpoint above (k : K) (m : BTreeMap K V) : Prop :=
  match m with
  | [] => True
  | (k', _) :: m' => cmp k k' = Lt /\ above k m'
  end.

Fixpoint bt_sorted (m : BTreeMap K V) : Prop :=
  match m with
  | [] => True
  | (k, _) :: m' => above k m' /\ bt_sorted m'
  end.

Lemma above_Forall k m : above k m <-> Forall (fun e => cmp k e.1 = Lt) m.
Proof.
  induction m as [|[k' v'] m IH]; cbn; [split; [constructor|done]|].
  rewrite IH. split; [intros []; by constructor|by inversion 1].
Qed.

Lemma above_trans k k' m : cmp k k' = Lt -> above k' m -> above k m.
Proof.
  intros Hk. rewrite !above_Forall. intros Ha. eapply Forall_impl; [exact Ha|].
  intros e. by apply cmp_trans.
Qed.

Lemma above_insert j k v m : above j m -> cmp j k = Lt -> above j (bt_insert k v m).
Proof.
  induction m as [|[k' v'] m IH]; cbn; [done|]. intros [? ?] ?.
  destruct (cmp k k'); cbn; auto.
Qed.

Lemma above_remove j k m : above j m -> above j (bt_remove k m).
Proof.
  induction m as [|[k' v'] m IH]; cbn; [done|]. intros [? ?]. destruct (cmp k k'); cbn; auto.
Qed.

Lemma bt_insert_sorted k v m : bt_sorted m -> bt_sorted (bt_insert k v m).
Proof.
  induction m as [|[k' v'] m IH]; cbn; [done|]. intros [Ha Hs].
  destruct (cmp k k') eqn:Hc; cbn; [done| |].
  - repeat split; [done| |done..]. by eapply above_trans.
  - split; [|auto]. apply above_insert; [done|]. by apply cmp_gt_lt.
Qed.

Lemma bt_remove_sorted k m : bt_sorted m -> bt_sorted (bt_remove k m).
Proof.
  induction m as [|[k' v'] m IH]; cbn; [done|]. intros [Ha Hs].
  destruct (cmp k k'); cbn; [done..|]. split; [by apply above_remove|auto].
Qed.

Lemma above_filter f k m : above k m -> above k (List.filter f m).
Proof.
  rewrite !above_Forall, !List.Forall_forall. intros Hf e [He _]%filter_In. auto.
Qed.

Lemma filter_sorted f m : bt_sorted m -> bt_sorted (List.filter f m).
Proof.
  induction m as [|[k v] m IH]; cbn; [done|]. intros [Ha Hs].
  destruct (f (k, v)); cbn; [|auto]. split; [by apply above_filter|auto].
Qed.

Lemma above_not_in k m k' v' : above k m -> (k', v') ∈ m -> cmp k k' = Lt.
Proof. rewrite above_Forall, Forall_forall. intros Ha Hin. by apply (Ha _ Hin). Qed.

(** ** Lookup laws *)
Lemma bt_get_above k m : above k m -> bt_get k m = None.
Proof. destruct m as [|[k' v'] m]; [done|]. cbn. by intros [-> _]. Qed.

Lemma bt_get_insert k j v m : bt_sorted m ->
  bt_get j (bt_insert k v m) = match cmp j k with Eq => Some v | _ => bt_get j m end.
Proof.
  induction m as [|[k' v'] m IH]; cbn.
  - by destruct (cmp j k).
  - intros [Ha Hs]. destruct (cmp k k') eqn:Hc; cbn.
    + rewrite (cmp_eq_r k k' j Hc). destruct (cmp j k'); done.
    + destruct (cmp j k) eqn:Hj; [done| |done].
      by rewrite (cmp_trans j k k').
    + rewrite IH by done. destruct (cmp j k) eqn:Hj; [|done..].
      by rewrite (cmp_eq j k k' Hj), Hc.
Qed.

Lemma bt_get_remove k j m : bt_sorted m ->
  bt_get j (bt_remove k m) = match cmp j k with Eq => None | _ => bt_get j m end.
Proof.
  induction m as [|[k' v'] m IH]; cbn; [by destruct (cmp j k)|]. intros [Ha Hs].
  destruct (cmp k k') eqn:Hc; cbn.
  - rewrite <- (cmp_eq_r k k' j Hc). destruct (cmp j k) eqn:Hj; [| |done].
    + apply bt_get_above. apply above_Forall. apply above_Forall in Ha.
      eapply Forall_impl; [exact Ha|]. intros e He.
      by rewrite (cmp_eq j k e.1 Hj), (cmp_eq k k' e.1 Hc).
    + apply bt_get_above. eapply above_trans; [|exact Ha].
      by rewrite <- (cmp_eq_r k k' j Hc).
  - destruct (cmp j k) eqn:Hj; [|done..]. by rewrite (cmp_eq j k k' Hj), Hc.
  - rewrite IH by done. destruct (cmp j k) eqn:Hj; [|done..].
    by rewrite (cmp_eq j k k' Hj), Hc.
Qed.

(** ** Entries *)

(** No two keys of the map compare equal. *)
Lemma bt_sorted_unique m e f : bt_sorted m -> e ∈ m -> f ∈ m -> cmp e.1 f.1 = Eq -> e = f.
Proof.
  induction m as [|[k v] m IH]; cbn; [by intros _ ?%not_elem_of_nil|]. intros [Ha Hs].
  rewrite above_Forall, Forall_forall in Ha.
  intros [->|He]%elem_of_cons [->|Hf]%elem_of_cons Hc; [done|..|by auto].
  - cbn in Hc. by rewrite (Ha f Hf) in Hc.
  - apply cmp_sym_eq in Hc. cbn in Hc. by rewrite (Ha e He) in Hc.
Qed.

Lemma bt_in_remove k m e : bt_sorted m ->
  e ∈ bt_remove k m <-> e ∈ m /\ cmp k e.1 <> Eq.
Proof.
  induction m as [|[k' v'] m IH]; cbn; intros Hs.
  { split; [by intros ?%not_elem_of_nil|by intros [? _]]. }
  destruct Hs as [Ha Hs]. rewrite above_Forall, Forall_forall in Ha.
  destruct (cmp k k') eqn:Hc; rewrite ?elem_of_cons.
  - split.
    + intros He. split; [by right|]. rewrite (cmp_eq k k' e.1 Hc). by rewrite (Ha e He).
    + by intros [[->|?] ?].
  - split; [|tauto]. intros [->|He]; [cbn; rewrite Hc; auto|].
    split; [by right|]. by rewrite (cmp_trans k k' e.1 Hc (Ha e He)).
  - rewrite IH by done. split; [|tauto].
    intros [->|[]]; [cbn; rewrite Hc; auto|by auto].
Qed.

Lemma bt_insert_fresh k v m : (forall e, e ∈ m -> cmp k e.1 <> Eq) ->
  bt_insert k v m ≡ₚ (k, v) :: m.
Proof.
  induction m as [|[k' v'] m IH]; intros Hf; cbn; [done|].
  destruct (cmp k k') eqn:Hc; [|done|].
  - by destruct (Hf (k', v')); [left|].
  - rewrite IH; [by constructor|]. intros e He. apply Hf. by right.
Qed.

Lemma bt_in_insert_fresh k v m e : (forall e, e ∈ m -> cmp k e.1 <> Eq) ->
  e ∈ bt_insert k v m <-> e = (k, v) \/ e ∈ m.
Proof. intros. rewrite bt_insert_fresh by done. apply elem_of_cons. Qed.

Lemma bt_get_some k m v : bt_get k m = Some v -> exists k', (k', v) ∈ m /\ cmp k k' = Eq.
Proof.
  induction m as [|[k' v'] m IH]; cbn; [done|].
  destruct (cmp k k') eqn:Hc; [intros [= <-]|done|].
  - exists k'. by split; [left|].
  - intros [k'' [? ?]]%IH. exists k''. by split; [right|].
Qed.

Lemma bt_get_in k k' v m : bt_sorted m -> (k', v) ∈ m -> cmp k k' = Eq -> bt_get k m = Some v.
Proof.
  induction m as [|[k'' v''] m IH]; cbn; [by intros _ ?%not_elem_of_nil|].
  intros [Ha Hs] [He|Hin]%elem_of_cons Hc; [injection He as -> ->; by rewrite Hc|].
  assert (cmp k'' k' = Lt) as Hlt by by eapply above_not_in.
  rewrite (cmp_eq k k' k'' Hc). apply cmp_gt_lt in Hlt. rewrite Hlt. auto.
Qed.

(** ** The ends of the map *)
Lemma bt_last_above m k v e : bt_sorted m -> last m = Some (k, v) -> e ∈ m ->
  cmp e.1 k = Lt \/ e = (k, v).
Proof.
  induction m as [|[k' v'] m IH]; [done|]. intros [Ha Hs] Hl He.
  destruct m as [|e' m]; [right|].
  - injection Hl as -> ->. by apply list_elem_of_singleton in He.
  - rewrite last_cons_cons in Hl. apply elem_of_cons in He as [->|He]; [left|by auto].
    apply last_Some_elem_of in Hl. by eapply above_not_in.
Qed.

Lemma bt_insert_max k v m : Forall (fun e => cmp e.1 k = Lt) m ->
  bt_insert k v m = m ++ [(k, v)].
Proof.
  induction 1 as [|[k' v'] m Hk Hm IH]; cbn in *; [done|].
  apply cmp_gt_lt in Hk. by rewrite Hk, IH.
Qed.

Lemma bt_insert_above_last k v m k' v' : bt_sorted m ->
  last m = Some (k', v') -> cmp k' k = Lt -> bt_insert k v m = m ++ [(k, v)].
Proof.
  intros Hs Hl Hk. apply bt_insert_max, Forall_forall. intros e He.
  destruct (bt_last_above m k' v' e Hs Hl He) as [Hlt| ->]; [by eapply cmp_trans|done].
Qed.

Lemma bt_first_min m k v e : bt_sorted m -> bt_first_key_value m = Some (k, v) -> e ∈ m ->
  e = (k, v) \/ cmp k e.1 = Lt.
Proof.
  destruct m as [|e' m]; [done|]. cbn. intros Hs [= ->] He. apply elem_of_cons in He as [->|He]; [by left|right].
  destruct Hs as [Ha _]. destruct e. by eapply above_not_in.
Qed.
End BTree.
