(* ===== verification/SortedSet.v ===== *)
(** * Sorted sets ([commands/data_types.rs], [Score] and [SortedSet])

    A sorted set keeps each member's score in a hash map and the pairs of score
    and member in a [BTreeMap]. Module [Score] is the wrapper around [f64] whose
    [cmp] panics on NaN; Module [SortedSet] has the operations. [ss_wf] says that
    the two structures agree; the operations preserve it except [add] on a
    member that changes its score. *)

From S2P Require Import Prelude Text Float64 BTree.

(** ** [Score] *)

Module Score.

(** [self.0.partial_cmp(&other.0).unwrap()]. *)
Definition cmp (a b : f64) : outcome comparison := unwrap (f64_cmp a b).

End Score.

(** The order the comparisons that do not panic follow. *)
#[export] Instance ord_score : Ord f64 := ord_on f64_key.

Lemma score_cmp_ord a b : is_nan a = false -> is_nan b = false -> Score.cmp a b = Ret (cmp a b).
Proof.
  intros. unfold Score.cmp. rewrite f64_cmp_key by done. cbn. f_equal.
  destruct (f64_key a) as [[a1 a2] a3], (f64_key b) as [[b1 b2] b3]. cbn.
  by destruct (a1 ?= b1).
Qed.

Lemma score_cmp_nan a b : is_nan a || is_nan b = true -> Score.cmp a b = Panic.
Proof. destruct a, b; try discriminate; reflexivity. Qed.

(** ** [SortedSet] *)

Module SortedSet.

Definition Scores : Type := BTreeMap (f64 * string) unit.

Record t := mk { members : gmap string f64; scores : Scores }.

(** A search in the tree compares the key with an entry as soon as there is
    one. NaN can only enter an empty tree, so a tree with NaN has one entry and
    every search of it panics, as does every search for NaN in other trees. *)
Definition compares_nan (score : f64) (m : Scores) : bool :=
  match m with
  | [] => false
  | _ => is_nan score || existsb (fun e => is_nan e.1.1) m
  end.

Definition guarded {A} (score : f64) (m : Scores) (r : A) : outcome A :=
  if compares_nan score m then Panic else Ret r.

Definition new : t := mk ∅ [].

Definition add (s : t) (score : f64) (member : string) : outcome (t * Z) :=
  let known := match members s !! member with Some _ => true | None => false end in
  let! scores1 :=
    if known then guarded score (scores s) (bt_remove (score, member) (scores s))
    else Ret (scores s) in
  let! scores2 := guarded score scores1 (bt_insert (score, member) tt scores1) in
  Ret (mk (<[member := score]> (members s)) scores2, if known then 0 else 1).

Definition rank_by_score (s : t) (member : string) : outcome (option Z) :=
  match members s !! member with
  | Some score =>
      let! below := guarded score (scores s) (bt_range_to (score, member) (scores s)) in
      Ret (Some (len below))
  | None => Ret None
  end.

Definition get_members (s : t) (start_idx end_idx : Z) : list string :=
  let member_count := len (scores s) in
  let start_idx := if start_idx <? 0 then Z.max (wrap_i64 (member_count + start_idx)) 0
                   else start_idx in
  let end_idx := if end_idx <? 0 then Z.max (wrap_i64 (member_count + end_idx)) 0
                 else end_idx in
  if end_idx <? start_idx then []
  else List.map (fun e => e.1.2)
         (iter_take (wrap_u64 (wrap_i64 (end_idx - start_idx + 1)))
            (iter_skip start_idx (scores s))).

Definition get_score (s : t) (member : string) : option f64 := members s !! member.

Definition remove (s : t) (member : string) : outcome (t * Z) :=
  match members s !! member with
  | Some score =>
      let! scores' := guarded score (scores s) (bt_remove (score, member) (scores s)) in
      Ret (mk (delete member (members s)) scores', 1)
  | None => Ret (s, 0)
  end.

Definition len (s : t) : Z := Z.of_nat (size (members s)).

End SortedSet.

(** ** The two structures agree *)
Definition no_nan (m : SortedSet.Scores) : Prop := Forall (fun e => is_nan e.1.1 = false) m.

Record ss_wf (s : SortedSet.t) : Prop := {
  ss_sorted : bt_sorted (SortedSet.scores s);
  ss_no_nan : no_nan (SortedSet.scores s);
  ss_agree : forall sc m,
    (sc, m, tt) ∈ SortedSet.scores s <-> SortedSet.members s !! m = Some sc;
}.

Lemma guarded_ok {A} sc m (r : A) :
  is_nan sc = false -> no_nan m -> SortedSet.guarded sc m r = Ret r.
Proof.
  intros Hs Hm. unfold SortedSet.guarded, SortedSet.compares_nan. rewrite Hs. cbn.
  destruct m as [|e m]; [done|].
  assert (existsb (fun e => is_nan e.1.1) (e :: m) = false) as ->; [|done].
  apply not_true_is_false. intros (x & Hx & Hn)%existsb_exists.
  unfold no_nan in Hm. rewrite List.Forall_forall in Hm. by rewrite (Hm x Hx) in Hn.
Qed.

Lemma cmp_score_member (sc sc' : f64) (m m' : string) :
  cmp (sc, m) (sc', m') = Eq -> cmp sc sc' = Eq /\ m = m'.
Proof.
  cbn [cmp ord_prod fst snd]. destruct (cmp sc sc'); [|done..].
  intros H. split; [done|]. by apply ord_string_eq.
Qed.

Lemma cmp_score_member_eq (sc sc' : f64) (m : string) :
  cmp sc sc' = Eq -> cmp (sc, m) (sc', m) = Eq.
Proof. intros H. cbn [cmp ord_prod fst snd]. rewrite H. apply cmp_refl. Qed.

Lemma new_ss_wf : ss_wf SortedSet.new.
Proof.
  split; cbn; [done|constructor|]. intros sc m. rewrite lookup_empty.
  by split; [intros ?%not_elem_of_nil|].
Qed.

Lemma no_nan_remove k m : bt_sorted m -> no_nan m -> no_nan (bt_remove k m).
Proof.
  unfold no_nan. rewrite !Forall_forall. intros Hs Hm e [He _]%bt_in_remove; auto.
Qed.

(** ** Functional behaviour *)

Section Wf.
Context (s : SortedSet.t) (Hwf : ss_wf s).

(** A score of the tree belongs to the member. *)
Lemma ss_entry sc m : (sc, m, tt) ∈ SortedSet.scores s -> SortedSet.members s !! m = Some sc.
Proof. apply (ss_agree s Hwf). Qed.

Lemma ss_not_nan sc m : SortedSet.members s !! m = Some sc -> is_nan sc = false.
Proof.
  intros Hm%(ss_agree s Hwf). pose proof (ss_no_nan s Hwf) as Hn.
  unfold no_nan in Hn. rewrite Forall_forall in Hn. by apply Hn in Hm.
Qed.

(** [add] of a new member, or of one whose score compares equal, keeps the
    structures in agreement. *)
Lemma ss_add sc m :
  is_nan sc = false ->
  (forall old, SortedSet.members s !! m = Some old -> cmp sc old = Eq) ->
  exists s', SortedSet.add s sc m =
      Ret (s', match SortedSet.members s !! m with Some _ => 0 | None => 1 end) /\
    ss_wf s' /\ SortedSet.members s' = <[m := sc]> (SortedSet.members s).
Proof.
  intros Hn Hold. pose proof (ss_sorted s Hwf) as Hs. pose proof (ss_no_nan s Hwf) as Hnn.
  set (scores1 := match SortedSet.members s !! m with
                  | Some _ => bt_remove (sc, m) (SortedSet.scores s)
                  | None => SortedSet.scores s
                  end).
  assert (bt_sorted scores1) as Hs1.
  { unfold scores1. destruct (_ !! m); [by apply bt_remove_sorted|done]. }
  assert (no_nan scores1) as Hn1.
  { unfold scores1. destruct (_ !! m); [by apply no_nan_remove|done]. }
  assert (forall sc' m', (sc', m', tt) ∈ scores1 <->
            SortedSet.members s !! m' = Some sc' /\ m' <> m) as Hin.
  { intros sc' m'. unfold scores1. destruct (_ !! m) as [old|] eqn:Hm.
    - rewrite bt_in_remove, (ss_agree s Hwf) by done. cbn [fst]. split.
      + intros [Hl Hc]. split; [done|]. intros ->. rewrite Hm in Hl. injection Hl as ->.
        apply Hc, cmp_score_member_eq, Hold. done.
      + intros [Hl Hne]. split; [done|]. by intros [_ ?]%cmp_score_member.
    - rewrite (ss_agree s Hwf). split; [|by intros []].
      intros Hl. split; [done|]. by intros ->; rewrite Hm in Hl. }
  assert (forall e, e ∈ scores1 -> cmp (sc, m) e.1 <> Eq) as Hfresh.
  { intros [[sc' m'] []] [_ Hne]%Hin. by intros [_ ?]%cmp_score_member. }
  exists (SortedSet.mk (<[m := sc]> (SortedSet.members s)) (bt_insert (sc, m) tt scores1)).
  split; [|split; [|done]].
  - unfold SortedSet.add, scores1. destruct (_ !! m); cbn.
    + rewrite guarded_ok by done. cbn. rewrite guarded_ok by (done || by apply no_nan_remove).
      done.
    + by rewrite guarded_ok.
  - split; cbn.
    + by apply bt_insert_sorted.
    + unfold no_nan. rewrite bt_insert_fresh by done. by constructor.
    + intros sc' m'. rewrite bt_in_insert_fresh by done. rewrite Hin.
      rewrite lookup_insert_Some. split.
      * intros [[= -> ->]|[]]; [by left|right; split; [congruence|done]].
      * intros [[-> ->]|[]]; [by left|right; split; [done|congruence]].
Qed.

Lemma ss_remove m :
  exists s', SortedSet.remove s m =
      Ret (s', match SortedSet.members s !! m with Some _ => 1 | None => 0 end) /\
    ss_wf s' /\ SortedSet.members s' = delete m (SortedSet.members s).
Proof.
  unfold SortedSet.remove. destruct (SortedSet.members s !! m) as [sc|] eqn:Hm.
  - rewrite guarded_ok by (by apply (ss_no_nan s Hwf) || by eapply ss_not_nan).
    pose proof (ss_sorted s Hwf) as Hs. eexists. split; [done|]. split; [|done].
    split; cbn.
    + by apply bt_remove_sorted.
    + apply no_nan_remove; [done|apply (ss_no_nan s Hwf)].
    + intros sc' m'. rewrite bt_in_remove, (ss_agree s Hwf), lookup_delete_Some by done.
      cbn [fst]. split.
      * intros [Hl Hc]. split; [|done]. intros <-. rewrite Hm in Hl. injection Hl as ->.
        apply Hc, cmp_refl.
      * intros [Hne Hl]. split; [done|]. by intros [_ ?]%cmp_score_member.
  - exists s. split; [done|]. split; [done|]. by rewrite delete_id.
Qed.
End Wf.

(** [add] looks for the old entry under the new score: a member whose score
    changes keeps its old entry, and appears twice in the tree. *)
Lemma ss_add_stale s sc old m : ss_wf s -> is_nan sc = false ->
  SortedSet.members s !! m = Some old -> cmp sc old <> Eq ->
  exists s', SortedSet.add s sc m = Ret (s', 0) /\
    SortedSet.members s' !! m = Some sc /\
    (old, m, tt) ∈ SortedSet.scores s' /\ (sc, m, tt) ∈ SortedSet.scores s'.
Proof.
  intros Hwf Hn Hm Hc. pose proof (ss_sorted s Hwf) as Hs. pose proof (ss_no_nan s Hwf) as Hnn.
  set (scores1 := bt_remove (sc, m) (SortedSet.scores s)).
  assert (no_nan scores1) by by apply no_nan_remove.
  assert (forall e, e ∈ scores1 -> cmp (sc, m) e.1 <> Eq) as Hfresh.
  { intros e [_ He]%bt_in_remove; done. }
  exists (SortedSet.mk (<[m := sc]> (SortedSet.members s)) (bt_insert (sc, m) tt scores1)).
  unfold SortedSet.add. rewrite Hm, guarded_ok by done. cbn [outcome_bind].
  rewrite guarded_ok by done. cbn. repeat split.
  - apply lookup_insert_eq.
  - apply bt_in_insert_fresh; [done|right]. apply bt_in_remove; [done|].
    split; [by apply (ss_agree s Hwf)|]. by intros [? _]%cmp_score_member.
  - apply bt_in_insert_fresh; [done|by left].
Qed.

(** ** Ranks and ranges *)
Lemma filter_below_prefix {K V} `{Ord K} (m : BTreeMap K V) k v :
  bt_sorted m -> (k, v) ∈ m ->
  exists m1 m2, m = m1 ++ (k, v) :: m2 /\ bt_range_to k m = m1.
Proof.
  induction m as [|[k' v'] m IH]; cbn; [by intros _ ?%not_elem_of_nil|].
  intros [Ha Hs] [He|He]%elem_of_cons.
  - injection He as -> ->. exists [], m. split; [done|]. rewrite cmp_refl.
    apply above_Forall in Ha. clear IH. induction Ha as [|[k'' v''] m Hk Ha IHa]; [done|].
    cbn in *. destruct Hs as [_ Hs]. apply cmp_gt_lt in Hk. rewrite Hk.
    by apply IHa.
  - destruct (IH Hs He) as (m1 & m2 & -> & Hr). exists ((k', v') :: m1), m2.
    split; [done|]. rewrite (above_not_in k' _ k v Ha He). by f_equal.
Qed.

(** The members of a sorted set in order, and the slice [get_members] takes. *)
Definition ordered (s : SortedSet.t) : list string := List.map (fun e => e.1.2) (SortedSet.scores s).

Definition clamp (n i : Z) : Z := if i <? 0 then Z.max (n + i) 0 else i.

Lemma get_members_slice s i j :
  len (SortedSet.scores s) <= i64_max -> is_i64 i -> is_i64 j ->
  let n := len (SortedSet.scores s) in
  SortedSet.get_members s i j = slice (ordered s) (clamp n i) (clamp n j + 1).
Proof.
  intros Hn Hi Hj n. unfold SortedSet.get_members. fold n.
  pose proof (len_nonneg (SortedSet.scores s)).
  assert (forall x, is_i64 x ->
    (if x <? 0 then Z.max (wrap_i64 (n + x)) 0 else x) = clamp n x) as Hc.
  { intros x Hx. unfold clamp. destruct (Z.ltb_spec x 0); [|done].
    rewrite wrap_i64_id; [done|]. unfold is_i64, i64_min, i64_max, n in *. lia. }
  rewrite !Hc by done. set (a := clamp n i). set (b := clamp n j).
  assert (0 <= a <= i64_max) by (unfold a, clamp, is_i64, n, i64_max in *;
    destruct (Z.ltb_spec i 0); lia).
  assert (0 <= b <= i64_max) by (unfold b, clamp, is_i64, n, i64_max in *;
    destruct (Z.ltb_spec j 0); lia).
  unfold slice, ordered. destruct (Z.ltb_spec b a).
  { by replace (Z.to_nat (b + 1 - a)) with O by lia. }
  rewrite iter_take_take, iter_skip_drop.
  rewrite <- firstn_map, <- skipn_map.
  destruct (Z.eq_dec (b - a) i64_max) as [He|He].
  - (* the length wraps to [i64::MIN], which [as usize] reads as [2 ^ 63] *)
    rewrite He. change (Z.to_nat (wrap_u64 (wrap_i64 (i64_max + 1)))) with (Z.to_nat (2 ^ 63)).
    f_equal. unfold i64_max in *. lia.
  - rewrite wrap_i64_id by (unfold is_i64, i64_min, i64_max in *; lia).
    rewrite wrap_u64_id by (unfold is_u64, u64_max, i64_max in *; lia).
    do 2 f_equal; lia.
Qed.

(** [ZRANK] is the index [ZRANGE] lists the member at. *)
Lemma rank_get_members s m sc : ss_wf s -> len (SortedSet.scores s) <= i64_max ->
  SortedSet.members s !! m = Some sc ->
  exists r, SortedSet.rank_by_score s m = Ret (Some r) /\ 0 <= r < len (SortedSet.scores s) /\
    SortedSet.get_members s r r = [m].
Proof.
  intros Hwf Hlen Hm. pose proof Hm as Hin. apply (ss_agree s Hwf) in Hin.
  destruct (filter_below_prefix _ (sc, m) tt (ss_sorted s Hwf) Hin) as (m1 & m2 & Heq & Hr).
  exists (len m1). unfold SortedSet.rank_by_score.
  rewrite Hm, guarded_ok, Hr by (by apply (ss_no_nan s Hwf) || by eapply ss_not_nan).
  split; [done|]. pose proof (len_nonneg m1). pose proof (len_nonneg m2).
  assert (0 <= len m1 < len (SortedSet.scores s)) as Hb.
  { rewrite Heq, len_app, len_cons. lia. }
  split; [done|]. rewrite get_members_slice by (unfold is_i64, i64_min in *; lia).
  unfold clamp. destruct (Z.ltb_spec (len m1) 0); [lia|].
  unfold slice, ordered. rewrite Heq, List.map_app.
  replace (len m1 + 1 - len m1) with 1 by lia. unfold len. rewrite Nat2Z.id.
  rewrite drop_app_length' by by rewrite List.length_map. done.
Qed.

(** [ZRANGE key 0 -1] lists every member once. *)
Lemma ordered_members s : ss_wf s -> ordered s ≡ₚ (map_to_list (SortedSet.members s)).*1.
Proof.
  intros Hwf.
  assert (List.map (fun e => (e.1.2, e.1.1)) (SortedSet.scores s) ≡ₚ
          map_to_list (SortedSet.members s)) as Hp.
  { apply NoDup_Permutation.
    - pose proof (ss_sorted s Hwf) as Hs. induction (SortedSet.scores s) as [|[[sc m] []] l IH];
        cbn; constructor.
      + destruct Hs as [Ha _]. intros ([[sc' m'] []] & He & Hi)%list_elem_of_fmap.
        cbn in He. injection He as -> ->. by apply (above_not_in _ _ _ _ Ha), cmp_lt_irrefl in Hi.
      + apply IH. apply Hs.
    - apply NoDup_map_to_list.
    - intros [m sc]. rewrite elem_of_map_to_list, <- (ss_agree s Hwf).
      rewrite list_elem_of_fmap. split.
      + intros ([[sc' m'] []] & He & Hi). cbn in He. by injection He as -> ->.
      + intros Hi. by exists (sc, m, tt). }
  unfold ordered. rewrite <- Hp. change (?l.*1) with (List.map fst l).
  by rewrite List.map_map.
Qed.

Lemma len_scores s : ss_wf s -> len (SortedSet.scores s) = SortedSet.len s.
Proof.
  intros Hwf. unfold SortedSet.len. rewrite <- length_map_to_list.
  apply ordered_members in Hwf. apply Permutation_length in Hwf. unfold ordered in Hwf.
  rewrite List.length_map, length_fmap in Hwf. unfold len. by rewrite Hwf.
Qed.

(** A set with one member. *)
Definition demo_ss : SortedSet.t :=
  SortedSet.mk {["m"%string := f64_of_Z 1]} [(f64_of_Z 1, "m"%string, tt)].

Lemma demo_ss_wf : ss_wf demo_ss.
Proof.
  split.
  - repeat constructor.
  - repeat constructor.
  - intros sc m. cbn. rewrite list_elem_of_singleton, lookup_singleton_Some. naive_solver.
Qed.

Lemma rank_get_members_witness : exists r,
  SortedSet.rank_by_score demo_ss "m" = Ret (Some r) /\
  SortedSet.get_members demo_ss r r = ["m"%string].
Proof.
  destruct (rank_get_members demo_ss "m" (f64_of_Z 1) demo_ss_wf) as (r & H1 & _ & H2);
    [by vm_compute|reflexivity|].
  exists r. split; [exact H1|exact H2].
Defined.
