(* ===== verification/CmdBuilder.v ===== *)
(** * Commands and their parser ([commands/cmd_builder.rs])

    [Cmd.from_resp] turns a RESP value into a command. Modules [AclRules],
    [CmdArg] and [Cmd] follow the enums of the source; the builder functions
    keep their names, and [resp_arg] is the macro of [commands/utils.rs]. The
    file then shows that commands from the network carry integers of their
    machine width, that the only panics are [GEODIST] with fewer than two
    members and a short simple string, and that stream ids round trip. *)

From S2P Require Import Prelude Text Float64 Resp Bitmap.

(** ** [resp_arg!] and the pops of a [VecDeque] *)
Definition resp_arg (values : list RespType) (err_msg : string) :
    Result CustomError (string * list RespType) :=
  match values with
  | [] => Err (MissingArgument err_msg)
  | v :: rest =>
      match get_str v with
      | Some s => Ok (s, rest)
      | None => Err (MissingArgument err_msg)
      end
  end.

(** [while !values.is_empty()] around [resp_arg!]: every value, or an error. *)
Fixpoint resp_args (values : list RespType) (err_msg : string) :
    Result CustomError (list string) :=
  match values with
  | [] => Ok []
  | v :: rest =>
      let? s := ok_or (get_str v) (MissingArgument err_msg) in
      let? l := resp_args rest err_msg in
      Ok (s :: l)
  end.

(** [drain(..).try_for_each(..)] with its error dropped: the strings up to the
    first value that is not one. *)
Fixpoint str_prefix_args (values : list RespType) : list string :=
  match values with
  | v :: rest =>
      match get_str v with
      | Some s => s :: str_prefix_args rest
      | None => []
      end
  | [] => []
  end.

Definition pop_string (values : list string) (e : CustomError) :
    Result CustomError (string * list string) :=
  match values with
  | s :: rest => Ok (s, rest)
  | [] => Err e
  end.

(** ** Keywords *)
Definition KW_PING : string := "PING".
Definition KW_PONG : string := "PONG".
Definition KW_OK : string := "OK".
Definition KW_ECHO : string := "ECHO".
Definition KW_SET : string := "SET".
Definition KW_GET : string := "GET".
Definition KW_PX : string := "PX".
Definition KW_EX : string := "EX".
Definition KW_RPUSH : string := "RPUSH".
Definition KW_LRANGE : string := "LRANGE".
Definition KW_LPUSH : string := "LPUSH".
Definition KW_LLEN : string := "LLEN".
Definition KW_LPOP : string := "LPOP".
Definition KW_BLPOP : string := "BLPOP".
Definition KW_TYPE : string := "TYPE".
Definition KW_XADD : string := "XADD".
Definition KW_XRANGE : string := "XRANGE".
Definition KW_XREAD : string := "XREAD".
Definition KW_STREAMS : string := "STREAMS".
Definition KW_COUNT : string := "COUNT".
Definition KW_BLOCK : string := "BLOCK".
Definition KW_INCR : string := "INCR".
Definition KW_MULTI : string := "MULTI".
Definition KW_QUEUED : string := "QUEUED".
Definition KW_EXEC : string := "EXEC".
Definition KW_DISCARD : string := "DISCARD".
Definition KW_WATCH : string := "WATCH".
Definition KW_UNWATCH : string := "UNWATCH".
Definition KW_INFO : string := "INFO".
Definition KW_REPLICATION : string := "REPLICATION".
Definition KW_REPLCONF : string := "REPLCONF".
Definition KW_PSYNC : string := "PSYNC".
Definition KW_LISTENING_PORT : string := "listening-port".
Definition KW_CAPA : string := "capa".
Definition KW_FULLRESYNC : string := "FULLRESYNC".
Definition KW_GETACK : string := "GETACK".
Definition KW_ACK : string := "ACK".
Definition KW_WAIT : string := "WAIT".
Definition KW_CONFIG : string := "CONFIG".
Definition KW_KEYS : string := "KEYS".
Definition KW_SUBSCRIBE : string := "SUBSCRIBE".
Definition KW_UNSUBSCRIBE : string := "UNSUBSCRIBE".
Definition KW_PSUBSCRIBE : string := "PSUBSCRIBE".
Definition KW_PUNSUBSCRIBE : string := "PUNSUBSCRIBE".
Definition KW_QUIT : string := "QUIT".
Definition KW_PUBLISH : string := "PUBLISH".
Definition KW_ZADD : string := "ZADD".
Definition KW_ZRANK : string := "ZRANK".
Definition KW_ZRANGE : string := "ZRANGE".
Definition KW_ZCARD : string := "ZCARD".
Definition KW_ZSCORE : string := "ZSCORE".
Definition KW_ZREM : string := "ZREM".
Definition KW_GEOADD : string := "GEOADD".
Definition KW_GEOPOS : string := "GEOPOS".
Definition KW_GEODIST : string := "GEODIST".
Definition KW_GEOSEARCH : string := "GEOSEARCH".
Definition KW_ACL : string := "ACL".
Definition KW_WHOAMI : string := "WHOAMI".
Definition KW_GETUSER : string := "GETUSER".
Definition KW_SETUSER : string := "SETUSER".
Definition KW_AUTH : string := "AUTH".
Definition KW_SETBIT : string := "SETBIT".
Definition KW_GETBIT : string := "GETBIT".
Definition KW_STRLEN : string := "STRLEN".
Definition KW_BITCOUNT : string := "BITCOUNT".
Definition KW_BYTE : string := "BYTE".
Definition KW_BIT : string := "BIT".
Definition KW_BITOP : string := "BITOP".
Definition KW_AND : string := "AND".
Definition KW_OR : string := "OR".

(** ** [AclRules] *)

Module AclRules.

Inductive t :=
| AddPassword (s : string)
| NoPass.

Definition set (values : list string) : Result CustomError t :=
  let? (first, _) := pop_string values (MissingArgument "No rule provided") in
  match first with
  | String ">" rest => Ok (AddPassword rest)
  | _ =>
      if String.eqb first "nopass" then Ok NoPass
      else Err (UnsupportedCmd "Not supported")
  end.

End AclRules.

(** ** [CmdArg] *)

Module CmdArg.

Inductive t :=
| EX (x : option Z)
| PX (x : option Z)
| ListeningPort (x : Z)
| Capa (s : string)
| GetAck (s : string)
| Ack (x : Z)
| Get (s : string)
| FromLonLat (p : f64 * f64)
| ByRadius (r : f64)
| WhoAmI
| GetUser (s : string)
| SetUser (key : string) (rules : list AclRules.t)
| AND (dest key1 key2 : string)
| OR (dest key1 key2 : string).

Definition set (key : string) (values : list string) : Result CustomError t :=
  if String.eqb key KW_EX then
    let? (s, _) := pop_string values Dummy in
    let? x := from_parse_int (parse_u64 s) in
    Ok (EX (Some x))
  else if String.eqb key KW_PX then
    let? (s, _) := pop_string values Dummy in
    let? x := from_parse_int (parse_u64 s) in
    Ok (PX (Some x))
  else if String.eqb key KW_LISTENING_PORT then
    let? (s, _) := pop_string values Dummy in
    let? x := from_parse_int (parse_u16 s) in
    Ok (ListeningPort x)
  else if String.eqb key KW_CAPA then
    let? (s, _) := pop_string values Dummy in
    Ok (Capa s)
  else if String.eqb key KW_GETACK then
    let? (s, _) := pop_string values Dummy in
    Ok (GetAck s)
  else if String.eqb key KW_ACK then
    let? (s, _) := pop_string values Dummy in
    let? x := from_parse_int (parse_i64 s) in
    Ok (Ack x)
  else if String.eqb key KW_GET then
    let? (s, _) := pop_string values Dummy in
    Ok (Get s)
  else if String.eqb key KW_WHOAMI then
    Ok WhoAmI
  else if String.eqb key KW_GETUSER then
    let? (username, _) := pop_string values Dummy in
    Ok (GetUser username)
  else if String.eqb key KW_SETUSER then
    let? (username, values) := pop_string values (MissingArgument "No username provided") in
    let? rules := AclRules.set values in
    Ok (SetUser username [rules])
  else if String.eqb key KW_AND || String.eqb key KW_OR then
    let? (dest, values) := pop_string values (MissingArgument "dest not provided") in
    let? (key1, values) := pop_string values (MissingArgument "key1 not provided") in
    let? (key2, values) := pop_string values (MissingArgument "key2 not provided") in
    if String.eqb key KW_AND then Ok (AND dest key1 key2) else Ok (OR dest key1 key2)
  else Err (InvalidArgument ("Invalid arg for " +:+ key)).

End CmdArg.

(** ** [Cmd] *)

Module Cmd.

Inductive t :=
| PING
| PONG
| OK
| ECHO (s : string)
| SET (key value : string) (opt : option CmdArg.t)
| GET (key : string)
| RPUSH (key : string) (value : list string)
| LRANGE (key : string) (start stop : Z)
| LPUSH (key : string) (value : list string)
| LLEN (key : string)
| LPOP (key : string) (length : option Z)
| BLPOP (key : string) (timeout_ms : option Z)
| TYPE (key : string)
| XADD (key : string) (id : option Z * option Z) (value : list string)
| XRANGE (key : string) (start end_ : Z * Z)
| XREAD (count block_ms : option Z) (stream : list (string * Z * Z))
| INCR (key : string)
| MULTI
| EXEC
| DISCARD
| WATCH (keys : list string)
| UNWATCH
| INFO (key : string)
| REPLCONF (arg : CmdArg.t)
| PSYNC (id : string) (offset : Z)
| FULLRESYNC (id : string) (offset : Z)
| RDB (b : bytes)
| WAIT (count : Z) (timeout_ms : option Z)
| CONFIG (arg : CmdArg.t)
| KEYS (arg : string)
| SUBSCRIBE (channels : list string)
| UNSUBSCRIBE (key : string)
| PSUBSCRIBE
| PUNSUBSCRIBE
| QUIT
| PUBLISH (key message : string)
| ZADD (key : string) (score : f64) (member : string)
| ZRANK (key member : string)
| ZRANGE (key : string) (start end_ : Z)
| ZCARD (key : string)
| ZSCORE (key member : string)
| ZREM (key member : string)
| GEOADD (key long lat member : string)
| GEOPOS (key : string) (members : list string)
| GEODIST (key : string) (members : list string)
| GEOSEARCH (key : string) (from_arg by_arg : CmdArg.t)
| Acl (arg : CmdArg.t)
| Auth (username password : string)
| SETBIT (key : string) (offset bit : Z)
| GETBIT (key : string) (offset : Z)
| STRLEN (key : string)
| BITCOUNT (key : string) (range : option BitRange)
| BITOP (arg : CmdArg.t).

Definition to_be_broadcast (c : t) : bool :=
  match c with
  | SET _ _ _ | LPUSH _ _ | RPUSH _ _ | LPOP _ _ | BLPOP _ _ | INCR _
  | XADD _ _ _ | SETBIT _ _ _ | BITOP _ => true
  | _ => false
  end.

Definition is_auth_cmd (c : t) : bool :=
  match c with Auth _ _ => true | _ => false end.

Definition always_response (c : t) : bool :=
  match c with REPLCONF (CmdArg.GetAck _) => true | _ => false end.

Definition is_flag_list (c : t) : bool :=
  match c with LPUSH _ _ | RPUSH _ _ => true | _ => false end.

Definition is_flag_stream (c : t) : bool :=
  match c with XADD _ _ _ => true | _ => false end.

(** *** Builders *)
Definition Parsed : Type := Result CustomError t.

Definition ping : Parsed := Ok PING.
Definition pong : Parsed := Ok PONG.
Definition ok : Parsed := Ok OK.

Definition echo (values : list RespType) : Parsed :=
  let? (s, _) := resp_arg values "No argument provided for ECHO" in
  Ok (ECHO s).

Definition set (values : list RespType) : Parsed :=
  let? (key, values) := resp_arg values "No key provided for SET" in
  let? (value, values) := resp_arg values "No value provided for SET" in
  match values with
  | o :: values =>
      let? expire_key :=
        ok_or (get_str o) (MissingArgument "No arg provided for expiration") in
      let? (expire_value, _) := resp_arg values "No value provided for expiration" in
      let? opt := CmdArg.set expire_key [expire_value] in
      Ok (SET key value (Some opt))
  | [] => Ok (SET key value None)
  end.

Definition get (values : list RespType) : Parsed :=
  let? (key, _) := resp_arg values "No key provided for GET" in
  Ok (GET key).

Definition rpush (values : list RespType) : Parsed :=
  let? (key, values) := resp_arg values "No key provided for RPUSH" in
  let? list_values := resp_args values "No value provided for RPUSH" in
  Ok (RPUSH key list_values).

Definition lrange (values : list RespType) : Parsed :=
  let? (key, values) := resp_arg values "No key provided for LRANGE" in
  let? (s, values) := resp_arg values "No start index provided for LRANGE" in
  let? start := from_parse_int (parse_i64 s) in
  let? (s, _) := resp_arg values "No end index provided for LRANGE" in
  let? stop := from_parse_int (parse_i64 s) in
  Ok (LRANGE key start stop).

Definition lpush (values : list RespType) : Parsed :=
  let? (key, values) := resp_arg values "No key provided for LPUSH" in
  let? list_values := resp_args values "No value provided for LPUSH" in
  Ok (LPUSH key list_values).

Definition llen (values : list RespType) : Parsed :=
  let? (key, _) := resp_arg values "No key provided for LLEN" in
  Ok (LLEN key).

Definition lpop (values : list RespType) : Parsed :=
  let? (key, values) := resp_arg values "No key provided for LPOP" in
  match values with
  | s :: _ =>
      let? s := ok_or (get_str s) (MissingArgument "No length provided for LPOP") in
      let? n := from_parse_int (parse_usize s) in
      Ok (LPOP key (Some n))
  | [] => Ok (LPOP key None)
  end.

Definition blpop (values : list RespType) : Parsed :=
  let? (key, values) := resp_arg values "No key provided for BLPOP" in
  let? (s, _) := resp_arg values "No timeout provided for BLPOP" in
  let? secs := from_parse_float (parse_f64 s) in
  let timeout_ms := f64_mul secs (f64_of_Z 1000) in
  if f64_ltb timeout_ms (f64_of_Z 0) then
    Err (InvalidArgument "Error while parsing expiration for BLPOP")
  else if f64_eqb timeout_ms (f64_of_Z 0) then Ok (BLPOP key None)
  else Ok (BLPOP key (Some (f64_to_u64 timeout_ms))).

Definition ktype (values : list RespType) : Parsed :=
  let? (key, _) := resp_arg values "No key provided for TYPE" in
  Ok (TYPE key).

Definition _parse_stream_id_xadd (value : string) :
    Result CustomError (option Z * option Z) :=
  if String.eqb value "*" then Ok (None, None)
  else
    match split "-" value with
    | [t; i] =>
        let? ts := from_parse_int (parse_u64 t) in
        if String.eqb i "*" then Ok (Some ts, None)
        else
          let? idx := from_parse_int (parse_u64 i) in
          Ok (Some ts, Some idx)
    | _ => Err (InvalidArgument "Error while parsing stream id for XADD")
    end.

Definition xadd (values : list RespType) : Parsed :=
  let? (key, values) := resp_arg values "No key provided for XADD" in
  let? (timestamp_id, values) := resp_arg values "No time id provided for XADD" in
  let? id := _parse_stream_id_xadd timestamp_id in
  let? value := resp_args values "Invalide key-value pair providec" in
  Ok (XADD key id value).

Definition _parse_stream_id (value : string) (end_ : bool) : Result CustomError (Z * Z) :=
  match split "-" value with
  | [t; i] =>
      let? ts := from_parse_int (parse_u64 t) in
      let? idx := from_parse_int (parse_u64 i) in
      Ok (ts, idx)
  | [t] =>
      let? ts := from_parse_int (parse_u64 t) in
      if negb end_ then Ok (ts, 0) else Ok (ts, u64_max)
  | _ => Err (InvalidArgument "Error while parsing stream id")
  end.

Definition _parse_stream_id_xrange (value : string) (end_ : bool) :
    Result CustomError (Z * Z) :=
  if String.eqb value "-" then Ok (0, 0)
  else if String.eqb value "+" then Ok (u64_max, u64_max)
  else _parse_stream_id value end_.

Definition _parse_stream_id_xread (value : string) : Result CustomError (Z * Z) :=
  if String.eqb value "$" then Ok (u64_max, u64_max)
  else _parse_stream_id value false.

Definition xrange (values : list RespType) : Parsed :=
  let? (key, values) := resp_arg values "No key provided for XRANGE" in
  let? (start_id, values) := resp_arg values "No start id provided for XRANGE" in
  let? (end_id, _) := resp_arg values "No start id provided for XRANGE" in
  let? start := _parse_stream_id_xrange start_id false in
  let? end_ := _parse_stream_id_xrange end_id true in
  Ok (XRANGE key start end_).

(** The options of [XREAD] up to [STREAMS]: [count], [block_ms] and the values
    left. [has_count] and [has_block] are the presence of the options. *)
Fixpoint xread_options (values : list RespType) (count block_ms : option Z) :
    Result CustomError (option Z * option Z * list RespType) :=
  match values with
  | [] => Err (MissingArgument "No argument provided for XREAD")
  | v :: rest =>
      let? first := ok_or (get_str v) (MissingArgument "No argument provided for XREAD") in
      let first := to_ascii_uppercase first in
      if String.eqb first KW_COUNT then
        if is_some count then
          Err (UnsupportedCmdStructure "Cannot have more than two COUNT")
        else
          match rest with
          | [] => Err (MissingArgument "No argument provided")
          | w :: rest' =>
              let? s := ok_or (get_str w) (MissingArgument "No argument provided") in
              let? second := from_parse_int (parse_u64 s) in
              xread_options rest' (Some second) block_ms
          end
      else if String.eqb first KW_BLOCK then
        if is_some block_ms then
          Err (UnsupportedCmdStructure "Cannot have more than two BLOCK")
        else
          match rest with
          | [] => Err (MissingArgument "No argument provided")
          | w :: rest' =>
              let? s := ok_or (get_str w) (MissingArgument "No argument provided") in
              let? second := from_parse_int (parse_u64 s) in
              xread_options rest' count (Some second)
          end
      else if negb (String.eqb first KW_STREAMS) then
        Err (UnsupportedCmdStructure "Wrong argument")
      else Ok (count, block_ms, rest)
  end.

Fixpoint xread_ids (values : list RespType) : Result CustomError (list (Z * Z)) :=
  match values with
  | [] => Ok []
  | v :: rest =>
      let? value := ok_or (get_str v) (MissingArgument "Value not provided") in
      let? id := _parse_stream_id_xread value in
      let? ids := xread_ids rest in
      Ok (id :: ids)
  end.

Definition xread (values : list RespType) : Parsed :=
  let? (count, block_ms, values) := xread_options values None None in
  if Z.land (len values) 1 =? 1 then
    Err (UnsupportedCmdStructure "Not sufficient key-pair values")
  else
    let pair_len := Z.to_nat (len values / 2) in
    let? keys := resp_args (take pair_len values) "Key not provided" in
    let? ids := xread_ids (take pair_len (drop pair_len values)) in
    Ok (XREAD count block_ms (zip_with (fun k id => (k, fst id, snd id)) keys ids)).

Definition incr (values : list RespType) : Parsed :=
  let? (key, _) := resp_arg values "No key provided for INCR" in
  Ok (INCR key).

Definition multi : Parsed := Ok MULTI.
Definition exec : Parsed := Ok EXEC.
Definition discard : Parsed := Ok DISCARD.

Definition watch (values : list RespType) : Parsed :=
  let keys := str_prefix_args values in
  match keys with
  | [] => Err (MissingArgument "No key provided for WATCH")
  | _ => Ok (WATCH keys)
  end.

Definition unwatch : Parsed := Ok UNWATCH.

Definition info (values : list RespType) : Parsed :=
  let? (key, _) := resp_arg values "No key provided for INFO" in
  Ok (INFO key).

Definition replconf (values : list RespType) : Parsed :=
  let? (arg, values) := resp_arg values "No key provided for REPLCONF" in
  let? (value, _) := resp_arg values "No value provided for REPLCONF" in
  let? opt := CmdArg.set arg [value] in
  Ok (REPLCONF opt).

Definition psync (values : list RespType) : Parsed :=
  let? (id, values) := resp_arg values "No id provided for PSYNC" in
  let? (s, _) := resp_arg values "No offset provided for PSYNC" in
  let? offset := from_parse_int (parse_i64 s) in
  Ok (PSYNC id offset).

Definition fullresync (s : string) : Parsed :=
  let s_iter := split " " s in
  let? id := ok_or (s_iter !! 1%nat) (MissingArgument "No id provided for FULLRESYNC") in
  let? o := ok_or (s_iter !! 2%nat) (MissingArgument "No offset provided for FULLRESYNC") in
  let? offset := from_parse_int (parse_i64 o) in
  Ok (FULLRESYNC id offset).

Definition rdb (v : option bytes) : Parsed :=
  match v with
  | Some b => Ok (RDB b)
  | None => Err (UnprocessableError "RBD stream is empty")
  end.

Definition wait (values : list RespType) : Parsed :=
  let? (s, values) := resp_arg values "No count provided for WAIT" in
  let? count := from_parse_int (parse_u64 s) in
  let? (s, _) := resp_arg values "No timeout provided for WAIT" in
  let? timeout_ms := from_parse_int (parse_u64 s) in
  if timeout_ms <=? 0 then Ok (WAIT count None)
  else Ok (WAIT count (Some timeout_ms)).

Definition config (values : list RespType) : Parsed :=
  let? (arg, values) := resp_arg values "No arg provided for CONFIG" in
  let? (value, _) := resp_arg values "No value provided for CONFIG" in
  let? opt := CmdArg.set arg [value] in
  Ok (CONFIG opt).

Definition keys (values : list RespType) : Parsed :=
  let? (arg, _) := resp_arg values "No arg provided for KEYS" in
  Ok (KEYS arg).

Definition subscribe (values : list RespType) : Parsed :=
  Ok (SUBSCRIBE (str_prefix_args values)).

Definition unsubscribe (values : list RespType) : Parsed :=
  let? (key, _) := resp_arg values "No arg provided for UNSUBSCRIBE" in
  Ok (UNSUBSCRIBE key).

Definition psubscribe : Parsed := Ok PSUBSCRIBE.
Definition punsubscribe : Parsed := Ok PUNSUBSCRIBE.
Definition quit : Parsed := Ok QUIT.

Definition publish (values : list RespType) : Parsed :=
  let? (key, values) := resp_arg values "No channel name provided for PUBLISH" in
  let? (message, _) := resp_arg values "No message provided for PUBLISH" in
  Ok (PUBLISH key message).

Definition zadd (values : list RespType) : Parsed :=
  let? (key, values) := resp_arg values "No key provided for ZADD" in
  let? (s, values) := resp_arg values "No score provided for ZADD" in
  let? score := from_parse_float (parse_f64 s) in
  let? (member, _) := resp_arg values "No member provided for ZADD" in
  Ok (ZADD key score member).

Definition zrank (values : list RespType) : Parsed :=
  let? (key, values) := resp_arg values "No key provided for ZRANK" in
  let? (member, _) := resp_arg values "No member provided for ZRANK" in
  Ok (ZRANK key member).

Definition zrange (values : list RespType) : Parsed :=
  let? (key, values) := resp_arg values "No key provided for ZRANGE" in
  let? (s, values) := resp_arg values "No start index provided for ZRANGE" in
  let? start := from_parse_int (parse_i64 s) in
  let? (s, _) := resp_arg values "No end index provided for ZRANGE" in
  let? end_ := from_parse_int (parse_i64 s) in
  Ok (ZRANGE key start end_).

Definition zcard (values : list RespType) : Parsed :=
  let? (key, _) := resp_arg values "No key provided for ZCARD" in
  Ok (ZCARD key).

Definition zscore (values : list RespType) : Parsed :=
  let? (key, values) := resp_arg values "No key provided for ZSCORE" in
  let? (member, _) := resp_arg values "No member provided for ZSCORE" in
  Ok (ZSCORE key member).

Definition zrem (values : list RespType) : Parsed :=
  let? (key, values) := resp_arg values "No key provided for ZREM" in
  let? (member, _) := resp_arg values "No member provided for ZREM" in
  Ok (ZREM key member).

Definition geoadd (values : list RespType) : Parsed :=
  let? (key, values) := resp_arg values "No key provided for GEOADD" in
  let? (s, values) := resp_arg values "No longitude provided for GEOADD" in
  let? long := from_parse_float (parse_f64 s) in
  let? (s, values) := resp_arg values "No latitude provided for GEOADD" in
  let? lat := from_parse_float (parse_f64 s) in
  let? (member, _) := resp_arg values "No member provided for GEOADD" in
  Ok (GEOADD key (f64_display long) (f64_display lat) member).

Definition geopos (values : list RespType) : Parsed :=
  let? (key, values) := resp_arg values "No key provided for GEOPOS" in
  Ok (GEOPOS key (str_prefix_args values)).

(** [values.drain(..2)] panics on fewer than two values. *)
Definition geodist (values : list RespType) : outcome Parsed :=
  let?! (key, values) := Ret (resp_arg values "No key provided for GEODIST") in
  if len values <? 2 then Panic
  else Ret (Ok (GEODIST key (str_prefix_args (take 2 values)))).

Definition geosearch (values : list RespType) : Parsed :=
  let? (key, values) := resp_arg values "No key provided for GEOSEARCH" in
  let? (_, values) := resp_arg values "No FROM arg provided" in
  let? (s, values) := resp_arg values "No long/lat provided" in
  let? long := from_parse_float (parse_f64 s) in
  let? (s, values) := resp_arg values "No long/lat provided" in
  let? lat := from_parse_float (parse_f64 s) in
  let? (_, values) := resp_arg values "No BY arg provided" in
  let? (s, values) := resp_arg values "No radius provided" in
  let? radius := from_parse_float (parse_f64 s) in
  let? (_, _) := resp_arg values "No radius provided" in
  Ok (GEOSEARCH key (CmdArg.FromLonLat (long, lat)) (CmdArg.ByRadius radius)).

Definition acl (values : list RespType) : Parsed :=
  let? (kw, values) := resp_arg values "No arg provided for ACL" in
  let? kw_values := resp_args values "No arg value provided for ACL" in
  let? opt := CmdArg.set kw kw_values in
  Ok (Acl opt).

Definition auth (values : list RespType) : Parsed :=
  let? (username, values) := resp_arg values "Username not provided" in
  let? (password, _) := resp_arg values "Password not provided" in
  Ok (Auth username password).

Definition setbit (values : list RespType) : Parsed :=
  let? (key, values) := resp_arg values "Bit key not provided" in
  let? (s, values) := resp_arg values "Bit offset not provided" in
  let? offset := from_parse_int (parse_usize s) in
  let? (s, _) := resp_arg values "Bit value not provided" in
  let? bit := from_parse_int (parse_u8 s) in
  Ok (SETBIT key offset bit).

Definition getbit (values : list RespType) : Parsed :=
  let? (key, values) := resp_arg values "Bit key not provided" in
  let? (s, _) := resp_arg values "Bit offset not provided" in
  let? offset := from_parse_int (parse_usize s) in
  Ok (GETBIT key offset).

Definition strlen (values : list RespType) : Parsed :=
  let? (key, _) := resp_arg values "Bit key not provided" in
  Ok (STRLEN key).

Definition bitcount (values : list RespType) : Parsed :=
  let? (key, values) := resp_arg values "Bit key not provided" in
  match values with
  | [] => Ok (BITCOUNT key None)
  | _ =>
      let? (s, values) := resp_arg values "Start index not provided" in
      let? start := from_parse_int (parse_i64 s) in
      let? (s, values) := resp_arg values "End index not provided" in
      let? end_ := from_parse_int (parse_i64 s) in
      let? (unit, values) :=
        match values with
        | [] => Ok (Byte, [])
        | v :: values =>
            let? s := ok_or (get_str v) (InvalidArgument "ERR syntax error") in
            let s := to_ascii_uppercase s in
            if String.eqb s KW_BYTE then Ok (Byte, values)
            else if String.eqb s KW_BIT then Ok (Bit, values)
            else Err (InvalidArgument "ERR syntax error")
        end in
      match values with
      | [] => Ok (BITCOUNT key (Some (mk_range start end_ unit)))
      | _ => Err (InvalidArgument "ERR syntax error")
      end
  end.

Definition bitop (values : list RespType) : Parsed :=
  let? (op, values) := resp_arg values "BITOP operation not provided" in
  let op := to_ascii_uppercase op in
  let? (dest, values) := resp_arg values "BITOP dest not provided" in
  let? (key1, values) := resp_arg values "BITOP key1 not provided" in
  let? (key2, _) := resp_arg values "BITOP key2 not provided" in
  let? cmd_arg := CmdArg.set op [dest; key1; key2] in
  Ok (BITOP cmd_arg).

(** *** [from_resp] *)

(** The [match] on the upper-cased name of a command. *)
Definition from_name (s : string) (v : list RespType) : outcome Parsed :=
  if String.eqb s KW_PING then Ret ping
  else if String.eqb s KW_ECHO then Ret (echo v)
  else if String.eqb s KW_SET then Ret (set v)
  else if String.eqb s KW_GET then Ret (get v)
  else if String.eqb s KW_RPUSH then Ret (rpush v)
  else if String.eqb s KW_LRANGE then Ret (lrange v)
  else if String.eqb s KW_LPUSH then Ret (lpush v)
  else if String.eqb s KW_LLEN then Ret (llen v)
  else if String.eqb s KW_LPOP then Ret (lpop v)
  else if String.eqb s KW_BLPOP then Ret (blpop v)
  else if String.eqb s KW_TYPE then Ret (ktype v)
  else if String.eqb s KW_XADD then Ret (xadd v)
  else if String.eqb s KW_XRANGE then Ret (xrange v)
  else if String.eqb s KW_XREAD then Ret (xread v)
  else if String.eqb s KW_INCR then Ret (incr v)
  else if String.eqb s KW_MULTI then Ret multi
  else if String.eqb s KW_EXEC then Ret exec
  else if String.eqb s KW_DISCARD then Ret discard
  else if String.eqb s KW_WATCH then Ret (watch v)
  else if String.eqb s KW_UNWATCH then Ret unwatch
  else if String.eqb s KW_INFO then Ret (info v)
  else if String.eqb s KW_REPLCONF then Ret (replconf v)
  else if String.eqb s KW_PSYNC then Ret (psync v)
  else if String.eqb s KW_WAIT then Ret (wait v)
  else if String.eqb s KW_CONFIG then Ret (config v)
  else if String.eqb s KW_KEYS then Ret (keys v)
  else if String.eqb s KW_SUBSCRIBE then Ret (subscribe v)
  else if String.eqb s KW_UNSUBSCRIBE then Ret (unsubscribe v)
  else if String.eqb s KW_PSUBSCRIBE then Ret psubscribe
  else if String.eqb s KW_PUNSUBSCRIBE then Ret punsubscribe
  else if String.eqb s KW_QUIT then Ret quit
  else if String.eqb s KW_PUBLISH then Ret (publish v)
  else if String.eqb s KW_ZADD then Ret (zadd v)
  else if String.eqb s KW_ZRANK then Ret (zrank v)
  else if String.eqb s KW_ZRANGE then Ret (zrange v)
  else if String.eqb s KW_ZCARD then Ret (zcard v)
  else if String.eqb s KW_ZSCORE then Ret (zscore v)
  else if String.eqb s KW_ZREM then Ret (zrem v)
  else if String.eqb s KW_GEOADD then Ret (geoadd v)
  else if String.eqb s KW_GEOPOS then Ret (geopos v)
  else if String.eqb s KW_GEODIST then geodist v
  else if String.eqb s KW_GEOSEARCH then Ret (geosearch v)
  else if String.eqb s KW_ACL then Ret (acl v)
  else if String.eqb s KW_AUTH then Ret (auth v)
  else if String.eqb s KW_SETBIT then Ret (setbit v)
  else if String.eqb s KW_GETBIT then Ret (getbit v)
  else if String.eqb s KW_STRLEN then Ret (strlen v)
  else if String.eqb s KW_BITCOUNT then Ret (bitcount v)
  else if String.eqb s KW_BITOP then Ret (bitop v)
  else Ret (Err (InvalidArgument "Invalid command")).

(** [p\[..n\]]: panics past the end and inside a multi-byte character. *)
Definition str_take (p : string) (n : Z) : outcome string :=
  let b := as_bytes p in
  if len b <? n then Panic
  else match vec_get b n with
       | Some c => if Z.land (u8_val c) 192 =? 128 then Panic
                   else Ret (from_bytes (slice b 0 n))
       | None => Ret p
       end.

Definition from_resp (resp_type : RespType) : outcome Parsed :=
  match resp_type with
  | Array length value =>
      if length =? 0 then Ret (Err (NoCmdError "No command"))
      else
        match value with
        | Some (o :: v) =>
            match o with
            | BulkStr length value =>
                if length =? 0 then Ret (Err (NoCmdError "No command"))
                else
                  let! s := unwrap value in
                  from_name (to_ascii_uppercase s) v
            | _ => Ret (Err (InvalidArgument "Invalid command"))
            end
        | Some [] => Ret (Err (NoCmdError "No command provided"))
        | None => Ret (Err (NoCmdError "No command provided"))
        end
  | SimpleStr o =>
      let! s := unwrap o in
      if String.eqb s KW_PONG then Ret pong
      else if String.eqb s KW_OK then Ret ok
      else
        let! p := str_take s 10 in
        if String.eqb p KW_FULLRESYNC then Ret (fullresync s)
        else Ret (Err (InvalidArgument "Invalid command"))
  | Resp.RDB o => Ret (rdb o)
  | _ => Ret (Err (UnsupportedCmdStructure "Unsupported structure"))
  end.

End Cmd.

(** ** Integers of commands have their machine width *)
Definition opt_all (P : Z -> Prop) (o : option Z) : Prop :=
  match o with Some z => P z | None => True end.

Definition arg_wf (a : CmdArg.t) : Prop :=
  match a with
  | CmdArg.EX x | CmdArg.PX x => opt_all is_u64 x
  | CmdArg.ListeningPort x => 0 <= x < 2 ^ 16
  | CmdArg.Ack x => is_i64 x
  | _ => True
  end.

Definition id_wf (id : Z * Z) : Prop := is_u64 (fst id) /\ is_u64 (snd id).

Definition cmd_wf (c : Cmd.t) : Prop :=
  match c with
  | Cmd.SET _ _ (Some a) | Cmd.REPLCONF a | Cmd.CONFIG a | Cmd.Acl a | Cmd.BITOP a => arg_wf a
  | Cmd.LRANGE _ a b | Cmd.ZRANGE _ a b => is_i64 a /\ is_i64 b
  | Cmd.LPOP _ n => opt_all is_u64 n
  | Cmd.BLPOP _ t => opt_all is_u64 t
  | Cmd.XADD _ (t, i) _ => opt_all is_u64 t /\ opt_all is_u64 i
  | Cmd.XRANGE _ a b => id_wf a /\ id_wf b
  | Cmd.XREAD c b s =>
      opt_all is_u64 c /\ opt_all is_u64 b /\
      Forall (fun '(_, t, i) => id_wf (t, i)) s
  | Cmd.PSYNC _ o | Cmd.FULLRESYNC _ o => is_i64 o
  | Cmd.WAIT n t => is_u64 n /\ opt_all (fun t => 0 < t <= u64_max) t
  | Cmd.SETBIT _ o b => is_u64 o /\ 0 <= b < 256
  | Cmd.GETBIT _ o => is_u64 o
  | Cmd.BITCOUNT _ (Some r) => is_i64 (start r) /\ is_i64 (end_ r)
  | _ => True
  end.

Lemma result_bind_ok {E A B} (r : Result E A) (k : A -> Result E B) b :
  result_bind r k = Ok b -> exists a, r = Ok a /\ k a = Ok b.
Proof. destruct r; [by eexists|done]. Qed.

Lemma from_parse_int_u64 s x : from_parse_int (parse_u64 s) = Ok x -> is_u64 x.
Proof.
  unfold from_parse_int. destruct (parse_u64 s) eqn:H; [|done]. intros [= ->].
  apply parse_unsigned_range in H; [done|done].
Qed.

Lemma from_parse_int_usize s x : from_parse_int (parse_usize s) = Ok x -> is_u64 x.
Proof. apply from_parse_int_u64. Qed.

Lemma from_parse_int_u16 s x : from_parse_int (parse_u16 s) = Ok x -> 0 <= x < 2 ^ 16.
Proof.
  unfold from_parse_int. destruct (parse_u16 s) eqn:H; [|done]. intros [= ->].
  apply parse_unsigned_range in H; lia.
Qed.

Lemma from_parse_int_u8 s x : from_parse_int (parse_u8 s) = Ok x -> 0 <= x < 256.
Proof.
  unfold from_parse_int. destruct (parse_u8 s) eqn:H; [|done]. intros [= ->].
  apply parse_unsigned_range in H; lia.
Qed.

Lemma from_parse_int_i64 s x : from_parse_int (parse_i64 s) = Ok x -> is_i64 x.
Proof.
  unfold from_parse_int. destruct (parse_i64 s) eqn:H; [|done]. intros [= ->].
  apply parse_signed_range in H; [done|done].
Qed.

#[export] Hint Resolve from_parse_int_u64 from_parse_int_usize from_parse_int_u16
  from_parse_int_u8 from_parse_int_i64 : redis.

(** Take a successful builder apart, one bind at a time. *)
Ltac unbind :=
  repeat match goal with
  | H : result_bind ?e _ = Ok _ |- _ => apply result_bind_ok in H as (? & ? & H)
  | H : (let (_, _) := ?x in _) = Ok _ |- _ => destruct x
  | H : (if ?b then _ else _) = Ok _ |- _ => destruct b eqn:?; try discriminate H
  | H : (match ?x with _ => _ end) = Ok _ |- _ => destruct x eqn:?; try discriminate H
  | H : Ok _ = Ok _ |- _ => injection H; clear H; intros; subst
  end; simplify_eq.

Lemma cmd_arg_set_wf k l a : CmdArg.set k l = Ok a -> arg_wf a.
Proof. unfold CmdArg.set. intros H. unbind; cbn; eauto with redis. Qed.

Lemma u64_max_is_u64 : is_u64 u64_max.
Proof. unfold is_u64, u64_max. lia. Qed.
Lemma zero_is_u64 : is_u64 0.
Proof. unfold is_u64, u64_max. lia. Qed.

#[export] Hint Resolve cmd_arg_set_wf u64_max_is_u64 zero_is_u64 : redis.

Lemma parse_stream_id_wf v e id : Cmd._parse_stream_id v e = Ok id -> id_wf id.
Proof.
  unfold Cmd._parse_stream_id. intros H. unbind; split; cbn; eauto with redis.
Qed.

#[export] Hint Resolve parse_stream_id_wf : redis.

Lemma parse_stream_id_xrange_wf v e id : Cmd._parse_stream_id_xrange v e = Ok id -> id_wf id.
Proof. unfold Cmd._parse_stream_id_xrange. intros H. unbind; first [by eauto with redis | split; cbn; eauto with redis]. Qed.

Lemma parse_stream_id_xread_wf v id : Cmd._parse_stream_id_xread v = Ok id -> id_wf id.
Proof. unfold Cmd._parse_stream_id_xread. intros H. unbind; first [by eauto with redis | split; cbn; eauto with redis]. Qed.

Lemma parse_stream_id_xadd_wf v id : Cmd._parse_stream_id_xadd v = Ok id ->
  opt_all is_u64 (fst id) /\ opt_all is_u64 (snd id).
Proof. unfold Cmd._parse_stream_id_xadd. intros H. unbind; split; cbn; eauto with redis. Qed.

Lemma xread_options_wf l : forall c b c' b' l',
  Cmd.xread_options l c b = Ok (c', b', l') ->
  opt_all is_u64 c -> opt_all is_u64 b -> opt_all is_u64 c' /\ opt_all is_u64 b'.
Proof.
  induction l as [l IH] using (induction_ltof1 _ (@List.length RespType)); unfold ltof in IH.
  intros c b c' b' l' H Hc Hb. destruct l as [|v l]; [done|]. cbn in H. unbind.
  - eapply (IH l0); [cbn; lia|exact H|cbn; eauto with redis|done].
  - eapply (IH l0); [cbn; lia|exact H|done|cbn; eauto with redis].
  - done.
Qed.

Lemma xread_ids_wf l ids : Cmd.xread_ids l = Ok ids -> Forall id_wf ids.
Proof.
  revert ids. induction l as [|v l IH]; intros ids H; cbn in H; unbind; constructor; auto.
  by eapply parse_stream_id_xread_wf.
Qed.

Lemma zip_ids_wf ks ids : Forall id_wf ids ->
  Forall (fun '(_, t, i) => id_wf (t, i))
    (zip_with (fun (k : string) id => (k, fst id, snd id)) ks ids).
Proof.
  intros H. revert ks. induction H as [|[] ids Hi H IH]; intros [|k ks]; cbn; constructor; auto.
Qed.

#[export] Hint Resolve parse_stream_id_xrange_wf xread_ids_wf zip_ids_wf : redis.

Lemma f64_to_u64_range x : is_u64 (f64_to_u64 x).
Proof.
  unfold f64_to_u64, f64_to_uint, is_u64. pose proof (eq_refl : u64_max = 18446744073709551615).
  destruct x as [|[]| |[] m e]; try lia.
  assert (0 <= Z.shiftl (Z.pos m) e) by (apply Z.shiftl_nonneg; lia). lia.
Qed.

#[export] Hint Resolve f64_to_u64_range : redis.

(** Every builder's command is well-formed. *)
Ltac builder_wf :=
  intros c H; unbind; simplify_eq/=; cbn [cmd_wf arg_wf opt_all start end_]; try exact I;
  eauto with redis.

Lemma blpop_wf v : forall c, Cmd.blpop v = Ok c -> cmd_wf c.
Proof. unfold Cmd.blpop. builder_wf. Qed.
Lemma set_wf v : forall c, Cmd.set v = Ok c -> cmd_wf c.
Proof. unfold Cmd.set. builder_wf. Qed.
Lemma bitcount_wf v : forall c, Cmd.bitcount v = Ok c -> cmd_wf c.
Proof. unfold Cmd.bitcount. builder_wf. Qed.
Lemma wait_wf v : forall c, Cmd.wait v = Ok c -> cmd_wf c.
Proof.
  unfold Cmd.wait. intros c H. unbind; cbn [cmd_wf opt_all]; split; eauto with redis.
  bools. split; [done|]. by eapply from_parse_int_u64.
Qed.

Lemma xread_wf v : forall c, Cmd.xread v = Ok c -> cmd_wf c.
Proof.
  unfold Cmd.xread. intros c H. unbind. cbn.
  eapply xread_options_wf in H0 as [Hc Hb]; [|exact I..]. eauto with redis.
Qed.

#[export] Hint Unfold Cmd.ping Cmd.pong Cmd.ok Cmd.echo Cmd.get Cmd.rpush Cmd.lrange Cmd.lpush
  Cmd.llen Cmd.lpop Cmd.ktype Cmd.xadd Cmd.xrange Cmd.incr Cmd.multi Cmd.exec Cmd.discard
  Cmd.watch Cmd.unwatch Cmd.info Cmd.replconf Cmd.psync Cmd.fullresync Cmd.rdb Cmd.config
  Cmd.keys Cmd.subscribe Cmd.unsubscribe Cmd.psubscribe Cmd.punsubscribe Cmd.quit Cmd.publish
  Cmd.zadd Cmd.zrank Cmd.zrange Cmd.zcard Cmd.zscore Cmd.zrem Cmd.geoadd Cmd.geopos
  Cmd.geodist Cmd.geosearch Cmd.acl Cmd.auth Cmd.setbit Cmd.getbit Cmd.strlen Cmd.bitop : redis.

Lemma xadd_wf v : forall c, Cmd.xadd v = Ok c -> cmd_wf c.
Proof.
  unfold Cmd.xadd. intros c H. unbind. cbn.
  match goal with H : Cmd._parse_stream_id_xadd _ = _ |- _ =>
    apply parse_stream_id_xadd_wf in H end.
  by case_match.
Qed.

Lemma geodist_wf v c : Cmd.geodist v = Ret (Ok c) -> cmd_wf c.
Proof.
  unfold Cmd.geodist. destruct (resp_arg _ _) as [[]|]; cbn; [|done].
  case_match; [done|]. by intros [= <-].
Qed.

Lemma from_name_wf s v c : Cmd.from_name s v = Ret (Ok c) -> cmd_wf c.
Proof.
  unfold Cmd.from_name. intros H.
  repeat match type of H with
  | (if ?b then _ else _) = _ => destruct b
  end.
  all: try (apply geodist_wf in H; exact H).
  all: injection H as H; revert H.
  all: first [apply blpop_wf|apply set_wf|apply bitcount_wf|apply wait_wf|apply xread_wf
             |apply xadd_wf|autounfold with redis; revert c; builder_wf].
Qed.

(** C36: Commands from the network have integers of their machine width. *)
Lemma from_resp_wf r c : Cmd.from_resp r = Ret (Ok c) -> cmd_wf c.
Proof.
  unfold Cmd.from_resp. intros H.
  repeat match type of H with
  | (if ?b then _ else _) = _ => destruct b
  | match ?x with _ => _ end = _ => destruct x
  | outcome_bind ?e _ = _ => destruct e; [cbn [outcome_bind] in H|done]
  end; simplify_eq.
  all: first [exact I | by eapply from_name_wf | revert H; autounfold with redis; revert c; builder_wf].
Qed.

(** ** Requests: arrays of bulk strings *)
Definition bulk (s : string) : RespType := BulkStr (str_len s) (Some s).

(** What a client sends for a command line. *)
Definition request (args : list string) : RespType :=
  Array (len args) (Some (List.map bulk args)).

Lemma resp_args_bulk l msg : resp_args (List.map bulk l) msg = Ok l.
Proof. induction l as [|s l IH]; [done|]. cbn. by rewrite IH. Qed.

Lemma str_prefix_args_bulk l : str_prefix_args (List.map bulk l) = l.
Proof. induction l as [|s l IH]; [done|]. cbn. by rewrite IH. Qed.

#[export] Hint Rewrite resp_args_bulk str_prefix_args_bulk : redis_rw.

Lemma str_len_zero s : str_len s = 0 -> s = EmptyString.
Proof. destruct s; [done|]. unfold str_len. cbn [String.length]. lia. Qed.

(** [from_resp] on a request dispatches on the upper-cased name. *)
Lemma from_resp_request name args :
  name <> EmptyString ->
  Cmd.from_resp (request (name :: args)) =
  Cmd.from_name (to_ascii_uppercase name) (List.map bulk args).
Proof.
  intros Hn. unfold Cmd.from_resp, request. cbn [List.map].
  rewrite len_cons. pose proof (len_nonneg args).
  destruct (Z.eqb_spec (1 + len args) 0); [lia|].
  unfold bulk at 1. destruct (Z.eqb_spec (str_len name) 0) as [He%str_len_zero|]; [done|].
  done.
Qed.

Lemma from_name_panic s v : Cmd.from_name s v = Panic -> s = KW_GEODIST /\ Cmd.geodist v = Panic.
Proof.
  unfold Cmd.from_name. intros H.
  repeat match type of H with
  | (if ?b then _ else _) = _ => destruct b eqn:?; try discriminate H
  end.
  split; [by apply String.eqb_eq|done].
Qed.

(** The only request that panics is [GEODIST] with a key and fewer than two
    members. *)
Lemma from_resp_request_panic name args :
  Cmd.from_resp (request (name :: args)) = Panic <->
  to_ascii_uppercase name = KW_GEODIST /\ 1 <= len args <= 2.
Proof.
  assert (Cmd.geodist (List.map bulk args) = Panic <-> 1 <= len args <= 2) as Hg.
  { destruct args as [|key args]; cbn.
    { split; [done|]. change (len (@nil string)) with 0. lia. }
    rewrite len_cons, len_map. pose proof (len_nonneg args).
    destruct (Z.ltb_spec (len args) 2); split; (done || lia). }
  destruct (decide (name = EmptyString)) as [->|Hn].
  { split; [|by intros [? _]].
    unfold Cmd.from_resp, request. rewrite len_cons. cbn.
    by destruct (1 + len args =? 0). }
  rewrite from_resp_request by done. rewrite <- Hg. split.
  - apply from_name_panic.
  - intros [-> H]. exact H.
Qed.

Lemma from_resp_request_case name name' args :
  to_ascii_uppercase name = to_ascii_uppercase name' ->
  Cmd.from_resp (request (name :: args)) = Cmd.from_resp (request (name' :: args)).
Proof.
  intros H. destruct (decide (name = EmptyString)) as [->|Hn].
  { by destruct name'. }
  rewrite !from_resp_request; [by rewrite H| |done].
  intros ->. by destruct name.
Qed.

(** ** Stream ids *)
Definition show_id (id : Z * Z) : string := show_Z (fst id) +:+ "-" +:+ show_Z (snd id).

Lemma no_char_forall d s : Forall (fun c => c <> d) (as_bytes s) -> no_char d s = true.
Proof.
  induction s as [|c s IH]; [done|]. cbn. intros H. inversion H; subst.
  destruct (ascii_dec c d); [done|]. cbn. auto.
Qed.

Lemma no_dash_show_Z n : 0 <= n -> no_char "-" (show_Z n) = true.
Proof. intros. apply no_char_forall, show_Z_forall; [lia|done..]. Qed.

Lemma split_show_id t i : 0 <= t -> 0 <= i ->
  split "-" (show_id (t, i)) = [show_Z t; show_Z i].
Proof.
  intros. unfold show_id. cbn [fst snd].
  change ("-" +:+ show_Z i) with (String "-" (show_Z i)).
  rewrite split_join by by apply no_dash_show_Z.
  by rewrite split_no_char by by apply no_dash_show_Z.
Qed.

Lemma parse_show_u64 n : is_u64 n -> parse_u64 (show_Z n) = Ok n.
Proof. apply parse_show_usize. Qed.

(** Printed ids parse back, as range bounds and as explicit [XADD] ids. *)
Lemma parse_stream_id_show id e : id_wf id -> Cmd._parse_stream_id (show_id id) e = Ok id.
Proof.
  destruct id as [t i]. intros [Ht Hi]. unfold Cmd._parse_stream_id.
  unfold id_wf, is_u64 in *. cbn [fst snd] in *.
  rewrite split_show_id by lia. by rewrite !parse_show_u64.
Qed.

Lemma show_Z_not_star n : 0 <= n -> String.eqb (show_Z n) "*" = false.
Proof.
  intros. apply String.eqb_neq. intros He.
  assert (Forall (fun c => c <> "*"%char) (as_bytes (show_Z n))) as HF.
  { apply show_Z_forall; [lia|done..]. }
  rewrite He in HF. by inversion HF.
Qed.

Lemma parse_stream_id_xadd_show t i : id_wf (t, i) ->
  Cmd._parse_stream_id_xadd (show_id (t, i)) = Ok (Some t, Some i).
Proof.
  intros [Ht Hi]. unfold Cmd._parse_stream_id_xadd, is_u64 in *. cbn [fst snd] in *.
  assert (String.eqb (show_id (t, i)) "*" = false) as ->.
  { apply String.eqb_neq. intros He. pose proof (split_show_id t i ltac:(lia) ltac:(lia)) as Hs.
    rewrite He in Hs. by injection Hs. }
  rewrite split_show_id, show_Z_not_star by lia. by rewrite !parse_show_u64.
Qed.

(** ** [XREAD] *)
Lemma xread_options_count c rest b :
  Cmd.xread_options (bulk "COUNT" :: bulk c :: rest) None b =
  let? n := from_parse_int (parse_u64 c) in Cmd.xread_options rest (Some n) b.
Proof. reflexivity. Qed.

Lemma xread_options_block t rest c :
  Cmd.xread_options (bulk "BLOCK" :: bulk t :: rest) c None =
  let? n := from_parse_int (parse_u64 t) in Cmd.xread_options rest c (Some n).
Proof. reflexivity. Qed.

Lemma xread_options_streams rest c b :
  Cmd.xread_options (bulk "STREAMS" :: rest) c b = Ok (c, b, rest).
Proof. reflexivity. Qed.

(** [COUNT] and [BLOCK] may come in either order. *)
Lemma xread_count_block c t n m rest :
  from_parse_int (parse_u64 c) = Ok n -> from_parse_int (parse_u64 t) = Ok m ->
  Cmd.xread (List.map bulk ("COUNT" :: c :: "BLOCK" :: t :: "STREAMS" :: rest)) =
  Cmd.xread (List.map bulk ("BLOCK" :: t :: "COUNT" :: c :: "STREAMS" :: rest)).
Proof.
  intros Hc Ht. unfold Cmd.xread. cbn [List.map].
  rewrite xread_options_count, Hc. cbn [result_bind].
  rewrite xread_options_block, Ht. cbn [result_bind].
  rewrite xread_options_block, Ht. cbn [result_bind].
  by rewrite xread_options_count, Hc.
Qed.

Lemma xread_ids_bulk ids : Forall id_wf ids ->
  Cmd.xread_ids (List.map bulk (List.map show_id ids)) = Ok ids.
Proof.
  induction 1 as [|[t i] ids Hid H IH]; [done|]. cbn.
  unfold Cmd._parse_stream_id_xread.
  assert (String.eqb (show_id (t, i)) "$" = false) as ->.
  { destruct Hid as [Ht Hi]. unfold is_u64 in *. cbn [fst snd] in *. apply String.eqb_neq.
    intros He. pose proof (split_show_id t i ltac:(lia) ltac:(lia)) as Hs.
    rewrite He in Hs. by injection Hs. }
  rewrite (parse_stream_id_show (t, i)) by done. cbn. by rewrite IH.
Qed.

(** Keys and ids pair up in order. *)
Lemma xread_streams keys ids :
  List.length keys = List.length ids -> Forall id_wf ids ->
  Cmd.xread (List.map bulk ("STREAMS" :: keys ++ List.map show_id ids)) =
  Ok (Cmd.XREAD None None (zip_with (fun k id => (k, fst id, snd id)) keys ids)).
Proof.
  intros Hlen Hids. unfold Cmd.xread. cbn [List.map].
  rewrite xread_options_streams. cbn [result_bind]. rewrite List.map_app.
  set (n := List.length keys).
  assert (len (List.map bulk keys ++ List.map bulk (List.map show_id ids)) = 2 * Z.of_nat n) as Hl.
  { rewrite len_app, !len_map. unfold len, n. lia. }
  rewrite Hl. change (Z.land (2 * Z.of_nat n) 1) with (Z.land (2 * Z.of_nat n) (Z.ones 1)).
  rewrite Z.land_ones by lia. change (2 ^ 1) with 2.
  destruct (Z.eqb_spec ((2 * Z.of_nat n) mod 2) 1); [lia|].
  replace (Z.to_nat (2 * Z.of_nat n / 2)) with n by lia.
  rewrite take_app_length', drop_app_length' by by rewrite List.length_map.
  rewrite take_ge by (rewrite !List.length_map; lia).
  rewrite resp_args_bulk, xread_ids_bulk by done. done.
Qed.

Lemma from_resp_wf_witness : exists c,
  Cmd.from_resp (request ["BLPOP"; "q"; "1.5"]) = Ret (Ok c) /\ cmd_wf c.
Proof.
  destruct (Cmd.from_resp (request ["BLPOP"; "q"; "1.5"])) as [[c|e]|] eqn:Hc;
    [|exfalso; vm_compute in Hc; discriminate|exfalso; vm_compute in Hc; discriminate].
  exists c. split; [reflexivity|]. exact (from_resp_wf _ c Hc).
Defined.
