(* ===== verification/Geohash.v ===== *)
(** * Geohashes ([geohash.rs])

    [encode] normalizes a longitude and a latitude to 26-bit grid coordinates
    and interleaves their bits; [decode] returns the centre of a cell. The
    trigonometric functions of [distance] are parameters ([Libm]): their
    precision is not specified. The bit tricks are shown to be inverse to each
    other: all of them distribute over bitwise or, so it suffices to look at
    single bits. *)

From Stdlib Require Import SpecFloat.
From S2P Require Import Prelude Text Float64 Resp.

Class Libm := {
  f64_sin : f64 -> f64;
  f64_cos : f64 -> f64;
  f64_asin : f64 -> f64;
}.

(** [format!("{:.6}", x)]: rounded half to even at the sixth decimal. *)
Definition f64_fixed6 (x : f64) : string :=
  match x with
  | S754_nan => "NaN"
  | S754_infinity s => if s then "-inf" else "inf"
  | S754_zero s => (if s then "-" else "") +:+ "0.000000"
  | S754_finite s m e =>
      let num := (if 0 <=? e then Zpos m * 2 ^ e else Zpos m) * 10 ^ 6 in
      let den := if 0 <=? e then 1 else 2 ^ (- e) in
      let q := num / den in
      let r := num - q * den in
      let q := if (den <? 2 * r) || ((2 * r =? den) && Z.odd q) then q + 1 else q in
      let frac := as_bytes (show_Z (q mod 10 ^ 6)) in
      (if s then "-" else "") +:+ show_Z (q / 10 ^ 6) +:+ "." +:+
      zeros (6 - len frac) +:+ from_bytes frac
  end.

(** ** Constants *)
Definition LAT_MIN : f64 := f64_lit "-85.05112878".
Definition LAT_MAX : f64 := f64_lit "85.05112878".
Definition LONG_MIN : f64 := f64_lit "-180.0".
Definition LONG_MAX : f64 := f64_lit "180.0".
Definition LAT_RANGE : f64 := f64_sub LAT_MAX LAT_MIN.
Definition LONG_RANGE : f64 := f64_sub LONG_MAX LONG_MIN.
Definition STEP : Z := 26.
Definition RADIUS : f64 := f64_lit "6372797.560856".

(** ** Bit interleaving *)
Definition shl64 (x k : Z) : Z := Z.land (Z.shiftl x k) (Z.ones 64).

Definition spread_u32_to_u64 (x : Z) : Z :=
  let x := Z.land (Z.lor x (shl64 x 16)) 0x0000FFFF0000FFFF in
  let x := Z.land (Z.lor x (shl64 x 8)) 0x00FF00FF00FF00FF in
  let x := Z.land (Z.lor x (shl64 x 4)) 0x0F0F0F0F0F0F0F0F in
  let x := Z.land (Z.lor x (shl64 x 2)) 0x3333333333333333 in
  Z.land (Z.lor x (shl64 x 1)) 0x5555555555555555.

Definition compact_u64_to_u32 (x : Z) : Z :=
  let x := Z.land x 0x5555555555555555 in
  let x := Z.land (Z.lor x (Z.shiftr x 1)) 0x3333333333333333 in
  let x := Z.land (Z.lor x (Z.shiftr x 2)) 0x0F0F0F0F0F0F0F0F in
  let x := Z.land (Z.lor x (Z.shiftr x 4)) 0x00FF00FF00FF00FF in
  let x := Z.land (Z.lor x (Z.shiftr x 8)) 0x0000FFFF0000FFFF in
  Z.land (Z.lor x (Z.shiftr x 16)) 0x00000000FFFFFFFF.

Definition interleave (long lat : Z) : Z :=
  let long := spread_u32_to_u64 long in
  let lat := spread_u32_to_u64 lat in
  Z.lor lat (shl64 long 1).

Definition deinterleave (score : Z) : Z * Z :=
  let lat := score in
  let long := Z.shiftr score 1 in
  (compact_u64_to_u32 long, compact_u64_to_u32 lat).

(** ** [encode] and [decode] *)
Definition contains (lo hi x : f64) : bool := f64_leb lo x && f64_leb x hi.

Definition cells : f64 := f64_of_Z (2 ^ STEP).

Definition encode (long lat : f64) : Result CustomError Z :=
  if negb (contains LAT_MIN LAT_MAX lat) || negb (contains LONG_MIN LONG_MAX long) then
    Err (UnprocessableError
      ("ERR invalid longitude,latitude pair " +:+ f64_fixed6 long +:+ "," +:+ f64_fixed6 lat))
  else
    let norm_long := f64_mul (f64_div (f64_sub long LONG_MIN) LONG_RANGE) cells in
    let norm_lat := f64_mul (f64_div (f64_sub lat LAT_MIN) LAT_RANGE) cells in
    Ok (interleave (f64_to_u32 norm_long) (f64_to_u32 norm_lat)).

(** The lower edge of grid line [n]. *)
Definition grid (n : Z) (range min : f64) : f64 :=
  f64_add (f64_mul (f64_div (f64_of_Z n) cells) range) min.

Definition decode (score : Z) : Result CustomError (f64 * f64) :=
  let (norm_long, norm_lat) := deinterleave score in
  let long_min := grid norm_long LONG_RANGE LONG_MIN in
  let long_max := grid (norm_long + 1) LONG_RANGE LONG_MIN in
  let lat_min := grid norm_lat LAT_RANGE LAT_MIN in
  let lat_max := grid (norm_lat + 1) LAT_RANGE LAT_MIN in
  let two := f64_of_Z 2 in
  let long := f64_div (f64_add long_min long_max) two in
  let lat := f64_div (f64_add lat_min lat_max) two in
  Ok (long, lat).

(** ** [distance] *)

(** [f64::to_radians]. *)
Definition to_radians (x : f64) : f64 :=
  f64_mul x (f64_div (f64_lit "3.14159265358979323846264338327950288") (f64_of_Z 180)).

(** [Vec::pop]. *)
Definition vec_pop {A} (l : list A) : option (A * list A) :=
  match rev l with
  | [] => None
  | x :: r => Some (x, rev r)
  end.

Definition distance `{Libm} (locations : list (f64 * f64)) : Result CustomError f64 :=
  let msg_err := "No location provided for distance calculation" in
  let? (p1, locations) := ok_or (vec_pop locations) (InternalError msg_err) in
  let (long1, lat1) := (to_radians p1.1, to_radians p1.2) in
  let? (p2, _) := ok_or (vec_pop locations) (InternalError msg_err) in
  let (long2, lat2) := (to_radians p2.1, to_radians p2.2) in
  let two := f64_of_Z 2 in
  let v := f64_sin (f64_div (f64_sub long2 long1) two) in
  if f64_eqb v (f64_of_Z 0) then
    Ok (f64_mul RADIUS (f64_abs (f64_sub lat2 lat1)))
  else
    let u := f64_sin (f64_div (f64_sub lat2 lat1) two) in
    let a := f64_add (f64_mul u u)
      (f64_mul (f64_mul (f64_mul (f64_cos lat1) (f64_cos lat2)) v) v) in
    Ok (f64_mul (f64_mul two RADIUS) (f64_asin (f64_sqrt a))).

(** ** The repository's examples *)
Example encode_bangkok :
  encode (f64_lit "100.5252") (f64_lit "13.7220") = Ok 3962257306574459.
Proof. vm_compute. reflexivity. Qed.

Example encode_out_of_range :
  encode (f64_lit "200") (f64_lit "100") =
  Err (UnprocessableError "ERR invalid longitude,latitude pair 200.000000,100.000000").
Proof. vm_compute. reflexivity. Qed.

Example decode_bangkok :
  match decode 3962257306574459 with
  | Ok (long, lat) => (f64_fixed6 long, f64_fixed6 lat)
  | Err _ => ("", "")%string
  end = ("100.525200", "13.722001")%string.
Proof. vm_compute. reflexivity. Qed.

(** ** Bit functions that distribute over [or] *)
Definition lor_hom (f : Z -> Z) : Prop :=
  f 0 = 0 /\ forall a b, f (Z.lor a b) = Z.lor (f a) (f b).

Lemma lor_hom_id : lor_hom (fun x => x).
Proof. done. Qed.

Lemma lor_hom_land f m : lor_hom f -> lor_hom (fun x => Z.land (f x) m).
Proof. intros [H0 H]. split; [by rewrite H0|]. intros. by rewrite H, Z.land_lor_distr_l. Qed.

Lemma lor_hom_lor f g : lor_hom f -> lor_hom g -> lor_hom (fun x => Z.lor (f x) (g x)).
Proof.
  intros [Hf0 Hf] [Hg0 Hg]. split; [by rewrite Hf0, Hg0|]. intros. rewrite Hf, Hg.
  rewrite <- !Z.lor_assoc. f_equal. rewrite !Z.lor_assoc. f_equal. apply Z.lor_comm.
Qed.

Lemma lor_hom_shiftl f k : lor_hom f -> lor_hom (fun x => Z.shiftl (f x) k).
Proof. intros [H0 H]. split; [by rewrite H0, Z.shiftl_0_l|]. intros. by rewrite H, Z.shiftl_lor. Qed.

Lemma lor_hom_shiftr f k : lor_hom f -> lor_hom (fun x => Z.shiftr (f x) k).
Proof. intros [H0 H]. split; [by rewrite H0, Z.shiftr_0_l|]. intros. by rewrite H, Z.shiftr_lor. Qed.

Lemma lor_hom_comp f g : lor_hom f -> lor_hom g -> lor_hom (fun x => f (g x)).
Proof. intros [Hf0 Hf] [Hg0 Hg]. split; [by rewrite Hg0, Hf0|]. intros. by rewrite Hg, Hf. Qed.

Lemma lor_hom_spread : lor_hom spread_u32_to_u64.
Proof.
  unfold spread_u32_to_u64, shl64.
  repeat first [apply lor_hom_land|apply lor_hom_lor|apply lor_hom_shiftl|apply lor_hom_id].
Qed.

Lemma lor_hom_compact : lor_hom compact_u64_to_u32.
Proof.
  unfold compact_u64_to_u32.
  repeat first [apply lor_hom_land|apply lor_hom_lor|apply lor_hom_shiftr|apply lor_hom_id].
Qed.

(** Two such functions that agree on the single bits below [n] agree on every
    number below [2 ^ n]. *)
Lemma lor_hom_ext f g n : lor_hom f -> lor_hom g ->
  (forall k, (k < n)%nat -> f (2 ^ Z.of_nat k) = g (2 ^ Z.of_nat k)) ->
  forall x, 0 <= x < 2 ^ Z.of_nat n -> f x = g x.
Proof.
  intros [Hf0 Hf] [Hg0 Hg]. induction n as [|n IH]; intros Hk x Hx.
  - replace x with 0 by (cbn in Hx; lia). by rewrite Hf0, Hg0.
  - set (p := 2 ^ Z.of_nat n).
    assert (2 ^ Z.of_nat (S n) = 2 * p) as Hp.
    { unfold p. rewrite Nat2Z.inj_succ, Z.pow_succ_r; lia. }
    assert (0 < p) by (unfold p; apply Z.pow_pos_nonneg; lia).
    destruct (Z.lt_ge_cases x p); [apply IH; [auto|lia]|].
    assert (x = Z.lor p (x - p)) as ->.
    { rewrite <- Z.add_nocarry_lor; [lia|]. apply Z.bits_inj'. intros i Hi.
      rewrite Z.land_spec, Z.bits_0. unfold p.
      destruct (Z.eq_dec i (Z.of_nat n)) as [->|];
        [|by rewrite Z.pow2_bits_false by lia].
      rewrite Z.pow2_bits_true by lia. cbn. fold p.
      destruct (Z.eq_dec (x - p) 0) as [->|]; [apply Z.bits_0|].
      apply Z.bits_above_log2; [lia|]. apply Z.log2_lt_pow2; [lia|]. fold p. lia. }
    rewrite Hf, Hg. f_equal; [by apply Hk; lia|]. apply IH; [auto|lia].
Qed.

(** The same, with the single bits checked by computation. *)
Lemma lor_hom_check f g n : lor_hom f -> lor_hom g ->
  forallb (fun k => f (2 ^ Z.of_nat k) =? g (2 ^ Z.of_nat k)) (seq 0 n) = true ->
  forall x, 0 <= x < 2 ^ Z.of_nat n -> f x = g x.
Proof.
  intros Hf Hg Hc. apply lor_hom_ext; [done..|]. intros k Hk.
  rewrite forallb_forall in Hc. apply Z.eqb_eq, Hc, in_seq. lia.
Qed.

Definition is_u32 (z : Z) : Prop := 0 <= z < 2 ^ 32.

Lemma lor_hom_zero : lor_hom (fun _ => 0).
Proof. done. Qed.

Lemma compact_spread x : is_u32 x -> compact_u64_to_u32 (spread_u32_to_u64 x) = x.
Proof.
  apply (lor_hom_check (fun x => compact_u64_to_u32 (spread_u32_to_u64 x)) (fun x => x) 32).
  - apply lor_hom_comp; [apply lor_hom_compact|apply lor_hom_spread].
  - apply lor_hom_id.
  - vm_compute. reflexivity.
Qed.

(** The odd bits of a spread number are clear: shifted either way, it leaves no
    even bit. *)
Lemma compact_spread_shl x : is_u32 x -> compact_u64_to_u32 (shl64 (spread_u32_to_u64 x) 1) = 0.
Proof.
  apply (lor_hom_check (fun x => compact_u64_to_u32 (shl64 (spread_u32_to_u64 x) 1))
           (fun _ => 0) 32).
  - apply (lor_hom_comp compact_u64_to_u32); [apply lor_hom_compact|].
    apply lor_hom_land, lor_hom_shiftl, lor_hom_spread.
  - apply lor_hom_zero.
  - vm_compute. reflexivity.
Qed.

Lemma compact_spread_shr x : is_u32 x -> compact_u64_to_u32 (Z.shiftr (spread_u32_to_u64 x) 1) = 0.
Proof.
  apply (lor_hom_check (fun x => compact_u64_to_u32 (Z.shiftr (spread_u32_to_u64 x) 1))
           (fun _ => 0) 32).
  - apply (lor_hom_comp compact_u64_to_u32); [apply lor_hom_compact|].
    apply lor_hom_shiftr, lor_hom_spread.
  - apply lor_hom_zero.
  - vm_compute. reflexivity.
Qed.

Lemma compact_spread_shl_shr x : is_u32 x ->
  compact_u64_to_u32 (Z.shiftr (shl64 (spread_u32_to_u64 x) 1) 1) = x.
Proof.
  apply (lor_hom_check (fun x => compact_u64_to_u32 (Z.shiftr (shl64 (spread_u32_to_u64 x) 1) 1))
           (fun x => x) 32).
  - apply (lor_hom_comp compact_u64_to_u32); [apply lor_hom_compact|].
    apply lor_hom_shiftr, lor_hom_land, lor_hom_shiftl, lor_hom_spread.
  - apply lor_hom_id.
  - vm_compute. reflexivity.
Qed.

(** C35: splitting the interleaved code of two 32-bit cell numbers gives them back. *)
Lemma deinterleave_interleave long lat : is_u32 long -> is_u32 lat ->
  deinterleave (interleave long lat) = (long, lat).
Proof.
  intros Hlong Hlat. unfold deinterleave, interleave. rewrite Z.shiftr_lor.
  destruct lor_hom_compact as [_ ->]. destruct lor_hom_compact as [_ ->].
  by rewrite compact_spread, compact_spread_shl, compact_spread_shr,
    compact_spread_shl_shr, Z.lor_0_r.
Qed.

(** Conversely every 64-bit score is the interleaving of its coordinates. *)
Lemma interleave_deinterleave score : is_u64 score ->
  interleave (deinterleave score).1 (deinterleave score).2 = score.
Proof.
  intros Hs. apply (lor_hom_check
    (fun s => interleave (deinterleave s).1 (deinterleave s).2) (fun s => s) 64).
  - apply lor_hom_lor; [|apply lor_hom_land, lor_hom_shiftl].
    + apply (lor_hom_comp spread_u32_to_u64 (fun s => compact_u64_to_u32 s));
        [apply lor_hom_spread|apply lor_hom_compact].
    + apply (lor_hom_comp spread_u32_to_u64 (fun s => compact_u64_to_u32 (Z.shiftr s 1)));
        [apply lor_hom_spread|].
      apply (lor_hom_comp compact_u64_to_u32); [apply lor_hom_compact|].
      apply lor_hom_shiftr, lor_hom_id.
  - apply lor_hom_id.
  - vm_compute. reflexivity.
  - unfold is_u64, u64_max in Hs. change (Z.of_nat 64) with 64. lia.
Qed.

(** A score is within 52 bits, so [as f64] and back is exact, when the grid
    coordinates are. *)
Lemma interleave_bound long lat : 0 <= long < 2 ^ 26 -> 0 <= lat < 2 ^ 26 ->
  0 <= interleave long lat < 2 ^ 52.
Proof.
  intros Hl Ha.
  assert (Z.land (interleave long lat) (Z.ones 52) = interleave long lat) as He.
  { unfold interleave. rewrite Z.land_lor_distr_l. f_equal.
    - apply (lor_hom_check (fun x => Z.land (spread_u32_to_u64 x) (Z.ones 52))
               spread_u32_to_u64 26); [| |vm_compute; reflexivity|done].
      + apply lor_hom_land, lor_hom_spread.
      + apply lor_hom_spread.
    - apply (lor_hom_check (fun x => Z.land (shl64 (spread_u32_to_u64 x) 1) (Z.ones 52))
               (fun x => shl64 (spread_u32_to_u64 x) 1) 26); [| |vm_compute; reflexivity|done].
      + apply lor_hom_land, lor_hom_land, lor_hom_shiftl, lor_hom_spread.
      + apply lor_hom_land, lor_hom_shiftl, lor_hom_spread. }
  rewrite <- He, Z.land_ones by lia. apply Z.mod_pos_bound. lia.
Qed.

Lemma deinterleave_interleave_witness : deinterleave (interleave 3 5) = (3, 5).
Proof. apply (deinterleave_interleave 3 5); by vm_compute. Defined.
