(* ===== verification/Store.v ===== *)
(** * The key space ([commands/data_types.rs], [StoreValue] and [StoreItem])

    The values a key can hold, the key space, the shapes of the replies the
    command handlers build, and the iteration order of hash tables. *)

From S2P Require Import Prelude Text Float64 Resp CmdBuilder Bitmap BTree SortedSet.

(** ** Values *)

(** A stream: entries by id. *)
Definition Stream : Type := BTreeMap (Z * Z) (list string).

Inductive StoreValue : Type :=
| Str (s : string)
| List (l : list string)
| SetV (s : gset string)
| ZSet (s : SortedSet.t)
| Hash (h : gmap string string)
| StreamV (b : Stream)
| VectorSet (s : string)
| BitmapV (map : bytes)
| NoneV.

Definition get_type (v : StoreValue) : string :=
  match v with
  | Str _ => "string"
  | List _ => "list"
  | SetV _ => "set"
  | ZSet _ => "zset"
  | Hash _ => "hash"
  | StreamV _ => "stream"
  | VectorSet _ => "vectorset"
  | BitmapV _ => "bitmap"
  | NoneV => "none"
  end.

Record StoreItem := item { value : StoreValue; expired_at : option Z }.

(** [HashMap<String, StoreItem>]. *)
Abbreviation Data := (gmap string StoreItem) (only parsing).

(** [data.get(&key)], [entry(key).or_insert(new)]. *)
Definition or_insert (data : Data) (key : string) (new : StoreItem) : Data * StoreItem :=
  match data !! key with
  | Some i => (data, i)
  | None => (<[key := new]> data, new)
  end.

(** Writing through the [&mut StoreValue] of an entry. *)
Definition set_value_of (data : Data) (key : string) (i : StoreItem) (v : StoreValue) : Data :=
  <[key := item v (expired_at i)]> data.

(** ** Replies *)
Definition Reply : Type := Result CustomError (option RespType).

Definition response_ok : option RespType := Some (SimpleStr (Some "OK")).
Definition null_bulk : RespType := BulkStr 0 None.
Definition empty_array : RespType := Array 0 (Some []).
Definition null_array : RespType := Array 0 None.

(** [RespType::Array { length, value: None }] followed by [add_item]s. *)
Definition build_array (length : Z) (items : list RespType) : RespType :=
  fold_left add_item items (Array length None).

(** The same from [value: Some(VecDeque::new())]. *)
Definition build_array_some (length : Z) (items : list RespType) : RespType :=
  fold_left add_item items (Array length (Some [])).

Lemma add_items n v items :
  fold_left add_item items (Array n (Some v)) = Array n (Some (v ++ items)).
Proof.
  revert v. induction items as [|x items IH]; intros v; cbn; [by rewrite app_nil_r|].
  rewrite IH. by rewrite <- app_assoc.
Qed.

Lemma build_array_some_eq n items : build_array_some n items = Array n (Some items).
Proof. apply add_items. Qed.

Lemma build_array_cons n x items : build_array n (x :: items) = Array n (Some (x :: items)).
Proof. unfold build_array. cbn. by rewrite add_items. Qed.

Lemma build_array_nil n : build_array n [] = Array n None.
Proof. reflexivity. Qed.

Definition unsupported (key : string) : CustomError :=
  UnsupportedCmd ("Unsupported command " +:+ key).
Definition wrong_type : CustomError := UnprocessableError "Wrong type".
Definition wrong_data_type : CustomError := UnprocessableError "Wrong data type".

(** ** Iteration order of hash tables

    [HashMap] and [HashSet] iterate in an unspecified order: any permutation of
    the entries. Theorems hold for every order; examples use the order of the
    keys. *)

Class HashOrder := {
  hash_order : forall {A : Type}, list A -> list A;
  hash_order_perm : forall A (l : list A), hash_order l ≡ₚ l;
}.

Definition iter_map `{HashOrder} {K A} `{Countable K} (m : gmap K A) : list (K * A) :=
  hash_order (map_to_list m).

Definition iter_set `{HashOrder} {K} `{Countable K} (s : gset K) : list K :=
  hash_order (elements s).

Lemma elem_of_iter_set `{HashOrder} {K} `{Countable K} (s : gset K) x : x ∈ iter_set s <-> x ∈ s.
Proof. unfold iter_set. rewrite hash_order_perm. apply elem_of_elements. Qed.

Lemma NoDup_iter_set `{HashOrder} {K} `{Countable K} (s : gset K) : NoDup (iter_set s).
Proof. unfold iter_set. rewrite hash_order_perm. apply NoDup_elements. Qed.

Lemma elem_of_iter_map `{HashOrder} {K A} `{Countable K} (m : gmap K A) k a :
  (k, a) ∈ iter_map m <-> m !! k = Some a.
Proof. unfold iter_map. rewrite hash_order_perm. apply elem_of_map_to_list. Qed.

(** The order the examples use. *)
Definition key_order : HashOrder := {| hash_order _ l := l; hash_order_perm _ l := reflexivity l |}.
