(* ===== verification/StringCmds.v ===== *)
(** * String, counter and key commands ([commands/cmd_handler.rs])

    [PING], [ECHO], [SET], [GET], [INCR], [TYPE] and [KEYS], as functions of the
    key space and the clock. *)

From S2P Require Import Prelude Text Float64 Resp CmdBuilder Bitmap BTree SortedSet Store.

(** ** Handlers *)
Definition cmd_ping (is_subscriber : bool) : Reply :=
  if negb is_subscriber then Ok (Some (SimpleStr (Some KW_PONG)))
  else
    Ok (Some (build_array 2
      [BulkStr (str_len KW_PONG) (Some (to_ascii_lowercase KW_PONG)); BulkStr 0 (Some "")])).

Definition cmd_echo (s : string) : Reply := Ok (Some (bulk s)).

(** The expiration time; [x.unwrap()] panics on an option without a number. *)
Definition extract_deadline (now : Z) (opt : option CmdArg.t) : outcome (option Z) :=
  match opt with
  | Some (CmdArg.EX x) => let! x := unwrap x in Ret (Some (wrap_u64 (now / 1000 + x)))
  | Some (CmdArg.PX x) => let! x := unwrap x in Ret (Some (wrap_u64 (now + x)))
  | Some _ => Ret None
  | None => Ret None
  end.

Definition cmd_set (now : Z) (data : Data) (key value : string) (opt : option CmdArg.t) :
    outcome (Data * Reply) :=
  let! exp := extract_deadline now opt in
  Ret (<[key := item (Str value) exp]> data, Ok response_ok).

Definition cmd_get (now : Z) (data : Data) (key : string) : Reply :=
  match data !! key with
  | Some it =>
      match value it with
      | Str s =>
          let expired := match expired_at it with Some x => x <? now | None => false end in
          let v := if expired then None else Some s in
          Ok (Some (BulkStr (match v with Some s => str_len s | None => 0 end) v))
      | BitmapV x => Ok (Some (bulk_bytes x))
      | _ => Err (unsupported key)
      end
  | None => Ok (Some null_bulk)
  end.

Definition cmd_type (data : Data) (key : string) : Reply :=
  let ktype := match data !! key with
               | Some it => get_type (value it)
               | None => "none"%string
               end in
  Ok (Some (SimpleStr (Some ktype))).

Definition err_out_of_range : CustomError :=
  UnprocessableError "ERR value is not an integer or out of range".

Definition cmd_incr (data : Data) (key : string) : Data * Reply :=
  let (data, it) := or_insert data key (item (Str "0") None) in
  match value it with
  | Str s =>
      match parse_i64 s with
      | Ok i =>
          if i <? i64_max then
            (set_value_of data key it (Str (show_Z (i + 1))), Ok (Some (Integer (Some (i + 1)))))
          else (data, Err (UnprocessableError "Integer overflow"))
      | Err _ => (data, Err err_out_of_range)
      end
  | _ => (data, Err err_out_of_range)
  end.

Definition cmd_keys `{HashOrder} (data : Data) (arg : string) : Reply :=
  if String.eqb arg "*" then
    Ok (Some (build_array (Z.of_nat (size data)) (List.map (fun e => bulk e.1) (iter_map data))))
  else Err (InvalidArgument "Invalid arg for KEYS").

(** ** [SET] and [GET] *)

(** When a string item is visible. *)
Definition live (now : Z) (exp : option Z) : bool :=
  match exp with Some x => negb (x <? now) | None => true end.

Lemma cmd_get_str now data key s exp :
  data !! key = Some (item (Str s) exp) ->
  cmd_get now data key = Ok (Some (if live now exp then bulk s else null_bulk)).
Proof. intros Hk. unfold cmd_get, live. rewrite Hk. cbn. destruct exp as [x|]; [|done].
  by destruct (x <? now). Qed.

(** A value set is the value read, until its expiration time has passed; other
    keys are untouched. *)
Lemma set_get now data key v opt exp :
  extract_deadline now opt = Ret exp ->
  exists data', cmd_set now data key v opt = Ret (data', Ok response_ok) /\
    (forall later, cmd_get later data' key =
       Ok (Some (if live later exp then bulk v else null_bulk))) /\
    (forall later key', key' <> key -> cmd_get later data' key' = cmd_get later data key').
Proof.
  intros He. unfold cmd_set. rewrite He. cbn. eexists. split; [done|]. split.
  - intros later. eapply cmd_get_str. apply lookup_insert_eq.
  - intros later key' Hne. unfold cmd_get. by rewrite lookup_insert_ne.
Qed.

(** [PX]: visible for [ms] milliseconds and not after. *)
Lemma set_px_expiry now data key v ms later :
  0 <= now -> 0 <= ms -> now + ms <= u64_max ->
  exists data', cmd_set now data key v (Some (CmdArg.PX (Some ms))) = Ret (data', Ok response_ok) /\
    cmd_get later data' key = Ok (Some (if later <=? now + ms then bulk v else null_bulk)).
Proof.
  intros. edestruct (set_get now data key v (Some (CmdArg.PX (Some ms)))) as (d & Hs & Hg & _).
  { reflexivity. }
  exists d. split; [done|]. rewrite Hg. unfold live.
  rewrite wrap_u64_id by (unfold is_u64; lia). by rewrite Z.leb_antisym.
Qed.

(** [EX] adds seconds to seconds, and the sum is compared with milliseconds: the
    key is gone in the millisecond it is set. *)
Lemma set_ex_expires_at_once now data key v secs :
  0 <= secs -> secs + now / 1000 < now -> now <= u64_max ->
  exists data', cmd_set now data key v (Some (CmdArg.EX (Some secs))) = Ret (data', Ok response_ok) /\
    cmd_get now data' key = Ok (Some null_bulk).
Proof.
  intros. edestruct (set_get now data key v (Some (CmdArg.EX (Some secs)))) as (d & Hs & Hg & _).
  { reflexivity. }
  exists d. split; [done|]. rewrite Hg. unfold live.
  assert (0 <= now / 1000) by (apply Z.div_pos; lia).
  rewrite wrap_u64_id by (unfold is_u64; lia).
  by replace (now / 1000 + secs <? now) with true by (symmetry; apply Z.ltb_lt; lia).
Qed.

(** ** [INCR] *)
Definition incr_wf (data : Data) (key : string) (n : Z) : Prop :=
  match data !! key with
  | Some it => value it = Str (show_Z n)
  | None => n = 0
  end.

Lemma cmd_incr_step data key n :
  incr_wf data key n -> i64_min <= n < i64_max ->
  exists data', cmd_incr data key = (data', Ok (Some (Integer (Some (n + 1))))) /\
    incr_wf data' key (n + 1) /\ forall k, k <> key -> data' !! k = data !! k.
Proof.
  unfold incr_wf, cmd_incr, or_insert. intros Hk Hn.
  assert (parse_i64 (show_Z n) = Ok n) as Hp.
  { apply parse_show_i64. unfold is_i64. lia. }
  destruct (Z.ltb_spec n i64_max) as [_|]; [|lia].
  destruct (data !! key) as [it|] eqn:Hd.
  - rewrite Hk, Hp. replace (n <? i64_max) with true by (symmetry; apply Z.ltb_lt; lia).
    eexists. split; [done|]. unfold set_value_of. rewrite lookup_insert_eq.
    split; [done|]. intros. by apply lookup_insert_ne.
  - subst n. cbn [value]. change "0"%string with (show_Z 0) at 1. rewrite Hp.
    replace (0 <? i64_max) with true by done.
    eexists. split; [done|]. unfold set_value_of. rewrite lookup_insert_eq.
    split; [done|]. intros. by rewrite !lookup_insert_ne.
Qed.

Fixpoint incr_times (n : nat) (data : Data) (key : string) : Data :=
  match n with
  | O => data
  | S m => (cmd_incr (incr_times m data key) key).1
  end.

(** [n] increments of an absent key count to [n]. *)
Lemma incr_counts n data key : data !! key = None -> Z.of_nat n < i64_max ->
  incr_wf (incr_times n data key) key (Z.of_nat n) /\
  (cmd_incr (incr_times n data key) key).2 = Ok (Some (Integer (Some (Z.of_nat n + 1)))).
Proof.
  intros Hk Hn.
  assert (incr_wf (incr_times n data key) key (Z.of_nat n)) as Hwf.
  { induction n as [|n IH]; [by unfold incr_wf; cbn; rewrite Hk|].
    cbn [incr_times].
    edestruct (cmd_incr_step (incr_times n data key) key (Z.of_nat n)) as (d & -> & Hd & _).
    { apply IH. lia. }
    { unfold i64_min. lia. }
    by replace (Z.of_nat (S n)) with (Z.of_nat n + 1) by lia. }
  split; [done|].
  edestruct (cmd_incr_step (incr_times n data key) key (Z.of_nat n)) as (d & -> & _ & _);
    [done| |done].
  unfold i64_min. lia.
Qed.

(** Errors leave the key space alone, an existing key at least. *)
Lemma cmd_incr_error data key it e :
  data !! key = Some it -> (cmd_incr data key).2 = Err e -> (cmd_incr data key).1 = data.
Proof.
  intros Hk. unfold cmd_incr, or_insert. rewrite Hk.
  destruct (value it); try done. destruct (parse_i64 s); [|done].
  by destruct (a <? i64_max).
Qed.

Lemma cmd_incr_overflow data key it :
  data !! key = Some it -> value it = Str (show_Z i64_max) ->
  cmd_incr data key = (data, Err (UnprocessableError "Integer overflow")).
Proof.
  intros Hk Hv. unfold cmd_incr, or_insert. rewrite Hk, Hv.
  by rewrite parse_show_i64 by (unfold is_i64, i64_min, i64_max; lia).
Qed.

Lemma set_px_expiry_witness : exists data',
  cmd_set 1000 ∅ "k" "v" (Some (CmdArg.PX (Some 5))) = Ret (data', Ok response_ok) /\
  cmd_get 1005 data' "k" = Ok (Some (bulk "v")).
Proof. apply (set_px_expiry 1000 ∅ "k" "v" 5 1005); [done|done|by vm_compute]. Defined.

Lemma incr_counts_witness :
  incr_wf (incr_times 3 ∅ "k") "k" 3 /\
  (cmd_incr (incr_times 3 ∅ "k") "k").2 = Ok (Some (Integer (Some 4))).
Proof. apply (incr_counts 3 ∅ "k"); [reflexivity|by vm_compute]. Defined.
