(* ===== verification/ListCmds.v ===== *)
(** * List commands ([commands/cmd_handler.rs])

    [RPUSH], [LPUSH], [LRANGE], [LLEN] and [LPOP]. A [VecDeque] is a list with
    its front at the head. *)

From S2P Require Import Prelude Text Float64 Resp CmdBuilder Bitmap BTree SortedSet Store.

(** ** Handlers *)
Definition cmd_rpush (data : Data) (key : string) (vs : list string) : Data * Reply :=
  let (data, it) := or_insert data key (item (List []) None) in
  match value it with
  | List l =>
      let l := l ++ vs in
      (set_value_of data key it (List l), Ok (Some (Integer (Some (len l)))))
  | _ => (data, Err (unsupported key))
  end.

Definition cmd_lpush (data : Data) (key : string) (vs : list string) : Data * Reply :=
  let (data, it) := or_insert data key (item (List []) None) in
  match value it with
  | List l =>
      let l := fold_left (fun l v => v :: l) vs l in
      (set_value_of data key it (List l), Ok (Some (Integer (Some (len l)))))
  | _ => (data, Err (unsupported key))
  end.

(** [i as usize] of an [i64]. *)
Definition as_usize (i : Z) : Z := wrap_u64 i.

Definition lrange_list (l : list string) (start stop : Z) : RespType :=
  let n := len l in
  if (stop <? start) && (0 <? start) && (0 <? stop) then empty_array
  else if (0 <=? start) && (wrap_u64 (n - 1) <? start) then empty_array
  else
    let start_abs := if start <? 0 then Z.max (wrap_i64 (n + start)) 0 else start in
    let stop_abs := if stop <? 0 then Z.max (wrap_i64 (n + stop)) 0 else stop in
    let max_index := as_usize (Z.min stop_abs (n - 1)) in
    let min_index := as_usize (Z.min start_abs (n - 1)) in
    let output_len :=
      if max_index <? min_index then 0
      else wrap_u64 (max_index - Z.min min_index max_index + 1) in
    if output_len =? 0 then Array output_len (Some [])
    else
      build_array_some output_len
        (List.map bulk (iter_take output_len (iter_skip min_index l))).

Definition cmd_lrange (data : Data) (key : string) (start stop : Z) : Reply :=
  match data !! key with
  | Some it =>
      match value it with
      | List l => Ok (Some (lrange_list l start stop))
      | _ => Err (unsupported key)
      end
  | None => Ok (Some empty_array)
  end.

Definition cmd_llen (data : Data) (key : string) : Reply :=
  match data !! key with
  | Some it =>
      match value it with
      | List l => Ok (Some (Integer (Some (len l))))
      | _ => Err (unsupported key)
      end
  | None => Ok (Some (Integer (Some 0)))
  end.

Definition cmd_lpop (data : Data) (key : string) (length : option Z) : Data * Reply :=
  match data !! key with
  | Some it =>
      match value it with
      | List l =>
          match length with
          | Some x =>
              let take_nbr := Z.min x (len l) in
              (set_value_of data key it (List (iter_skip take_nbr l)),
               Ok (Some (build_array take_nbr (List.map bulk (iter_take take_nbr l)))))
          | None =>
              match l with
              | s :: l' => (set_value_of data key it (List l'), Ok (Some (bulk s)))
              | [] => (data, Ok (Some null_bulk))
              end
          end
      | _ => (data, Err (unsupported key))
      end
  | None => (data, Ok (Some null_bulk))
  end.

(** ** The abstract view: the list at a key *)

(** The elements of a key that holds a list or nothing. *)
Definition list_at (data : Data) (key : string) : option (list string) :=
  match data !! key with
  | Some it => match value it with List l => Some l | _ => None end
  | None => Some []
  end.

Lemma or_insert_list data key l :
  list_at data key = Some l ->
  exists it, or_insert data key (item (List []) None) =
    (<[key := it]> data, it) /\ value it = List l.
Proof.
  unfold list_at, or_insert. destruct (data !! key) as [it|] eqn:Hk.
  - destruct (value it) eqn:Hv; try done. intros [= ->]. exists it.
    by rewrite insert_id.
  - intros [= <-]. by exists (item (List []) None).
Qed.

Lemma list_at_set data key it l k :
  list_at (set_value_of data key it (List l)) k = if decide (k = key) then Some l else list_at data k.
Proof.
  unfold list_at, set_value_of. destruct (decide (k = key)) as [->|].
  - by rewrite lookup_insert_eq.
  - by rewrite lookup_insert_ne.
Qed.

Lemma list_at_insert_other data key it k : k <> key -> list_at (<[key := it]> data) k = list_at data k.
Proof. intros. unfold list_at. by rewrite lookup_insert_ne. Qed.

(** [RPUSH] appends and replies with the new length. *)
Lemma cmd_rpush_spec data key l vs : list_at data key = Some l ->
  exists data', cmd_rpush data key vs = (data', Ok (Some (Integer (Some (len (l ++ vs)))))) /\
    list_at data' key = Some (l ++ vs) /\ forall k, k <> key -> list_at data' k = list_at data k.
Proof.
  intros (it & Ho & Hv)%or_insert_list. unfold cmd_rpush. rewrite Ho, Hv.
  eexists. split; [done|]. rewrite list_at_set, decide_True by done. split; [done|].
  intros k Hk. by rewrite list_at_set, decide_False, list_at_insert_other.
Qed.

Lemma fold_push_front {A} (vs l : list A) : fold_left (fun l v => v :: l) vs l = rev vs ++ l.
Proof.
  revert l. induction vs as [|v vs IH]; intros l; cbn; [done|]. rewrite IH. by rewrite <- app_assoc.
Qed.

(** [LPUSH] pushes one by one, so the values end up reversed at the front. *)
Lemma cmd_lpush_spec data key l vs : list_at data key = Some l ->
  exists data', cmd_lpush data key vs = (data', Ok (Some (Integer (Some (len (rev vs ++ l)))))) /\
    list_at data' key = Some (rev vs ++ l) /\ forall k, k <> key -> list_at data' k = list_at data k.
Proof.
  intros (it & Ho & Hv)%or_insert_list. unfold cmd_lpush. rewrite Ho, Hv, fold_push_front.
  eexists. split; [done|]. rewrite list_at_set, decide_True by done. split; [done|].
  intros k Hk. by rewrite list_at_set, decide_False, list_at_insert_other.
Qed.

(** [LPOP key n] takes the first [n] elements, all of them when fewer. *)
Lemma cmd_lpop_count data key it l n : data !! key = Some it -> value it = List l -> 0 <= n ->
  exists data', cmd_lpop data key (Some n) =
      (data', Ok (Some (build_array (Z.min n (len l)) (List.map bulk (take (Z.to_nat n) l))))) /\
    list_at data' key = Some (drop (Z.to_nat n) l) /\
    forall k, k <> key -> list_at data' k = list_at data k.
Proof.
  intros Hk Hv Hn. unfold cmd_lpop. rewrite Hk, Hv. eexists.
  rewrite iter_take_take, iter_skip_drop.
  assert (take (Z.to_nat (Z.min n (len l))) l = take (Z.to_nat n) l) as ->.
  { rewrite <- (iter_take_take n l). done. }
  assert (drop (Z.to_nat (Z.min n (len l))) l = drop (Z.to_nat n) l) as ->.
  { rewrite <- (iter_skip_drop n l). done. }
  split; [done|]. rewrite list_at_set, decide_True by done. split; [done|].
  intros k Hne. by rewrite list_at_set, decide_False.
Qed.

Lemma cmd_lpop_one data key it l : data !! key = Some it -> value it = List l ->
  exists data', cmd_lpop data key None =
      (data', Ok (Some match l with s :: _ => bulk s | [] => null_bulk end)) /\
    list_at data' key = Some (tail l).
Proof.
  intros Hk Hv. unfold cmd_lpop. rewrite Hk, Hv. destruct l as [|s l]; eexists; (split; [done|]).
  - unfold list_at. by rewrite Hk, Hv.
  - by rewrite list_at_set, decide_True.
Qed.

(** A list is a queue: what [RPUSH] appends to an absent key, [LPOP] returns in
    order, one element at a time. *)
Fixpoint lpop_times (n : nat) (data : Data) (key : string) : Data * list Reply :=
  match n with
  | O => (data, [])
  | S m =>
      let (data', r) := cmd_lpop data key None in
      let (data'', rs) := lpop_times m data' key in
      (data'', r :: rs)
  end.

Lemma lpop_drains vs : forall data key it, data !! key = Some it -> value it = List vs ->
  (lpop_times (List.length vs) data key).2 = List.map (fun v => Ok (Some (bulk v))) vs.
Proof.
  induction vs as [|v vs IH]; intros data key it Hk Hv; [done|]. cbn [List.length lpop_times].
  unfold cmd_lpop at 1. rewrite Hk, Hv.
  destruct (lpop_times _ _ _) as [d rs] eqn:Hr. cbn. f_equal.
  change rs with (d, rs).2. rewrite <- Hr.
  by eapply IH; [apply lookup_insert_eq|].
Qed.

(** elements pushed on the right of an absent key with [RPUSH] are
    popped from the left in the order they were pushed. *)
Lemma rpush_lpop_fifo data key vs : data !! key = None ->
  let (data', _) := cmd_rpush data key vs in
  (lpop_times (List.length vs) data' key).2 = List.map (fun v => Ok (Some (bulk v))) vs.
Proof.
  intros Hk. unfold cmd_rpush, or_insert. rewrite Hk. cbn [value].
  by eapply lpop_drains; [apply lookup_insert_eq|].
Qed.

(** ** [LRANGE] *)

(** The closed interval of indices a pair of bounds denotes in a list of [n]. *)
Definition index_of (n i : Z) : Z := if i <? 0 then Z.max (n + i) 0 else i.

(** On a non-empty list, [LRANGE] is the slice between the two indices. *)
Lemma lrange_slice l start stop :
  0 < len l <= i64_max -> is_i64 start -> is_i64 stop ->
  let n := len l in
  let vs := slice l (index_of n start) (Z.min (index_of n stop) (n - 1) + 1) in
  lrange_list l start stop = Array (len vs) (Some (List.map bulk vs)).
Proof.
  intros Hn Hs He n vs. unfold lrange_list. fold n.
  assert (forall x, is_i64 x ->
    (if x <? 0 then Z.max (wrap_i64 (n + x)) 0 else x) = index_of n x) as Hix.
  { intros x Hx. unfold index_of. destruct (Z.ltb_spec x 0); [|done].
    rewrite wrap_i64_id; [done|]. unfold is_i64, i64_min, i64_max, n in *. lia. }
  rewrite !Hix by done.
  assert (forall x, is_i64 x -> 0 <= index_of n x) as Hpos.
  { intros x Hx. unfold index_of. destruct (Z.ltb_spec x 0); lia. }
  pose proof (Hpos _ Hs). pose proof (Hpos _ He).
  assert (vs = slice l (index_of n start) (Z.min (index_of n stop) (n - 1) + 1)) as Hvs by done.
  destruct ((stop <? start) && (0 <? start) && (0 <? stop)) eqn:Hedge.
  { bools. assert (vs = []) as ->; [|done]. rewrite Hvs. unfold slice, index_of.
    destruct (Z.ltb_spec start 0), (Z.ltb_spec stop 0); [lia..|].
    by replace (Z.to_nat _) with O by lia. }
  rewrite (wrap_u64_id (n - 1)) by (unfold is_u64, u64_max, i64_max in *; lia).
  destruct ((0 <=? start) && (n - 1 <? start)) eqn:Hbig.
  { bools. assert (vs = []) as ->; [|done]. rewrite Hvs. unfold slice, index_of.
    destruct (Z.ltb_spec start 0); [lia|]. rewrite drop_ge by (unfold len in *; lia).
    by rewrite take_nil. }
  assert (index_of n start <= n - 1) as Hle.
  { unfold index_of. destruct (Z.ltb_spec start 0); [lia|].
    apply andb_false_iff in Hbig as [Hb|Hb]; bools; lia. }
  unfold as_usize. rewrite !wrap_u64_id by (unfold is_u64, u64_max, i64_max in *; lia).
  rewrite (Z.min_l (index_of n start)) by done.
  set (a := index_of n start) in *. set (b := Z.min (index_of n stop) (n - 1)) in *.
  destruct (Z.ltb_spec b a).
  { rewrite Z.eqb_refl. assert (vs = []) as ->; [|done]. rewrite Hvs. unfold slice.
    by replace (Z.to_nat _) with O by lia. }
  rewrite Z.min_l by lia.
  destruct (Z.eqb_spec (b - a + 1) 0); [lia|].
  rewrite build_array_some_eq, iter_take_take, iter_skip_drop.
  replace (b - a + 1) with (b + 1 - a) by lia. fold (slice l a (b + 1)). rewrite <- Hvs.
  f_equal. rewrite Hvs. unfold slice, len in *. rewrite length_take, length_drop. lia.
Qed.

(** A list emptied by [LPOP] stays in the key space; [LRANGE key 0 -1] on it
    announces one element and sends none. *)
Lemma lrange_emptied : lrange_list [] 0 (-1) = Array 1 (Some []).
Proof. reflexivity. Qed.

Lemma rpush_lpop_fifo_witness :
  let (data', _) := cmd_rpush ∅ "q" ["a"; "b"] in
  (lpop_times 2 data' "q").2 = [Ok (Some (bulk "a")); Ok (Some (bulk "b"))].
Proof. apply (rpush_lpop_fifo ∅ "q" ["a"; "b"]%string). reflexivity. Defined.

Lemma lrange_slice_witness :
  lrange_list ["a"; "b"; "c"] (-2) 7 = Array 2 (Some [bulk "b"; bulk "c"]).
Proof. apply (lrange_slice ["a"; "b"; "c"]%string (-2) 7); by vm_compute. Defined.
