(* ===== verification/Refinement.v ===== *)
(** * Implementations and their specifications

    An operation of the server takes the key space and may panic; its
    specification is a function on an abstract state that always answers.
    [Implements] is what a component promises: from related states, an operation
    that the specification admits does not panic, gives the specified reply and
    leaves related states. [run_implements] lifts it to sequences. *)

From S2P Require Import Prelude.

Section Implements.
Context {Op C A Out : Type}.
Context (step : Op -> C -> outcome (C * Out)) (spec : Op -> A -> A * Out).
Context (admits : Op -> A -> bool) (rel : C -> A -> Prop).

Class Implements : Prop :=
  implements op c a : rel c a -> admits op a = true ->
    exists c', step op c = Ret (c', (spec op a).2) /\ rel c' (spec op a).1.

(** Operations one after the other. *)
Fixpoint run_all (ops : list Op) (c : C) : outcome (C * list Out) :=
  match ops with
  | [] => Ret (c, [])
  | op :: ops' =>
      let! (c1, r) := step op c in
      let! (c2, rs) := run_all ops' c1 in
      Ret (c2, r :: rs)
  end.

Fixpoint spec_all (ops : list Op) (a : A) : A * list Out :=
  match ops with
  | [] => (a, [])
  | op :: ops' => let (a1, r) := spec op a in let (a2, rs) := spec_all ops' a1 in (a2, r :: rs)
  end.

(** Every operation is admitted in the state it is reached in. *)
Fixpoint admits_all (ops : list Op) (a : A) : bool :=
  match ops with
  | [] => true
  | op :: ops' => admits op a && admits_all ops' (spec op a).1
  end.

Lemma run_implements `{!Implements} ops : forall c a, rel c a -> admits_all ops a = true ->
  exists c', run_all ops c = Ret (c', (spec_all ops a).2) /\ rel c' (spec_all ops a).1.
Proof.
  induction ops as [|op ops IH]; intros c a Hrel Hok; [by exists c|].
  cbn in Hok. bools. destruct (implements op c a) as (c1 & Hc1 & Hrel1); [done..|].
  destruct (IH c1 (spec op a).1) as (c2 & Hc2 & Hrel2); [done..|].
  exists c2. cbn. rewrite Hc1. cbn. rewrite Hc2. cbn.
  destruct (spec op a) as [a1 r]. cbn in *. by destruct (spec_all ops a1).
Qed.
Lemma run_all_app l1 l2 : forall c,
  run_all (l1 ++ l2) c =
  let! (c1, r1) := run_all l1 c in
  let! (c2, r2) := run_all l2 c1 in
  Ret (c2, r1 ++ r2).
Proof.
  induction l1 as [|op l1 IH]; intros c; cbn; [by destruct (run_all l2 c) as [[]|]|].
  destruct (step op c) as [[c1 r]|]; cbn; [|done]. rewrite IH. destruct (run_all l1 c1) as [[c2 r1]|]; cbn; [|done].
  by destruct (run_all l2 c2) as [[]|].
Qed.

Lemma spec_all_app_out l1 l2 : forall a,
  (spec_all (l1 ++ l2) a).2 = (spec_all l1 a).2 ++ (spec_all l2 (spec_all l1 a).1).2.
Proof.
  induction l1 as [|op l1 IH]; intros a; [done|]. cbn. destruct (spec op a) as [a1 r].
  specialize (IH a1). destruct (spec_all (l1 ++ l2) a1), (spec_all l1 a1). cbn in *. by rewrite IH.
Qed.

Lemma spec_all_app l1 l2 : forall a,
  (spec_all (l1 ++ l2) a).1 = (spec_all l2 (spec_all l1 a).1).1.
Proof.
  induction l1 as [|op l1 IH]; intros a; [done|]. cbn. destruct (spec op a) as [a1 r].
  specialize (IH a1). destruct (spec_all (l1 ++ l2) a1), (spec_all l1 a1). exact IH.
Qed.

Lemma admits_all_app l1 l2 : forall a,
  admits_all (l1 ++ l2) a = admits_all l1 a && admits_all l2 (spec_all l1 a).1.
Proof.
  induction l1 as [|op l1 IH]; intros a; [done|]. cbn. rewrite IH, andb_assoc.
  destruct (spec op a) as [a1 r]. cbn. by destruct (spec_all l1 a1).
Qed.
End Implements.
