(* ===== verification/KeySpec.v ===== *)
(** * What a component promises of the keys of its type

    The commands on lists, strings, bitmaps, streams and sorted sets each keep one
    type of value. [KeyType] is the interface between such a component and the key
    space as a whole: its commands implement a specification of one key, leave the
    other keys alone, and answer an error on a key of another type. *)

From S2P Require Import Prelude Text Float64 Resp CmdBuilder Bitmap BTree SortedSet Store Refinement.

(** ** Vocabulary of the specifications *)
Definition int_answer (n : Z) : Reply := Ok (Some (Integer (Some n))).

Definition i64b (x : Z) : bool := (i64_min <=? x) && (x <=? i64_max).

Lemma i64b_spec x : i64b x = true -> is_i64 x.
Proof. unfold i64b, is_i64. intros. bools. lia. Qed.

(** ** One key *)
Section AtKey.
Context {A : Type} (holds : option StoreItem -> option A -> Prop).

(** The key holds the abstract value, and the rest of the key space is [data0]. *)
Definition at_key (key : string) (data0 data : Data) (o : option A) : Prop :=
  (forall k, k <> key -> data !! k = data0 !! k) /\ holds (data !! key) o.

Lemma at_key_insert key data0 data it o o' : at_key key data0 data o -> holds (Some it) o' ->
  at_key key data0 (<[key := it]> data) o'.
Proof.
  intros [Hother _] Hit. split.
  - intros k Hk. rewrite lookup_insert_ne by done. by apply Hother.
  - by rewrite lookup_insert_eq.
Qed.

Lemma at_key_set key data0 data it v o o' : at_key key data0 data o ->
  holds (Some (item v (expired_at it))) o' -> at_key key data0 (set_value_of data key it v) o'.
Proof. apply at_key_insert. Qed.

(** The item a command finds, made when the key is absent. *)
Lemma at_key_or_insert key data0 data o new (a0 : A) :
  (forall i, holds i None <-> i = None) -> (forall a, ~ holds None (Some a)) ->
  at_key key data0 data o -> holds (Some new) (Some a0) ->
  exists data1 it, or_insert data key new = (data1, it) /\
    holds (Some it) (Some (unwrap_or o a0)) /\ at_key key data0 data1 (Some (unwrap_or o a0)).
Proof.
  intros Habs Hsome Hrel Hnew. pose proof Hrel as [Hother Hkey]. unfold or_insert. destruct o as [a|].
  - destruct (data !! key) as [it|] eqn:Hk; [|by apply Hsome in Hkey].
    exists data, it. split_and!; [done|done|]. split; [done|by rewrite Hk].
  - apply Habs in Hkey as ->. eexists _, new. split_and!; [done|done|]. by eapply at_key_insert.
Qed.
End AtKey.

(** ** The interface *)

(** [foreign] is what a command answers on a key of another type, where it changes
    nothing; [None] when the component makes no promise. *)
Class KeyType {Op A : Type}
    (step : string -> Op -> Data -> outcome (Data * Reply))
    (spec : Op -> option A -> option A * Reply) (admits : Op -> option A -> bool)
    (holds : option StoreItem -> option A -> Prop)
    (type : string) (foreign : string -> Op -> string -> option Reply) : Prop := {
  kt_implements :: forall key data0, Implements (step key) spec admits (at_key holds key data0);
  kt_absent : forall i, holds i None <-> i = None;
  kt_type : forall i a, holds i (Some a) -> exists it, i = Some it /\ get_type (value it) = type;
  kt_foreign : forall key op data it r, data !! key = Some it -> get_type (value it) <> type ->
    foreign key op (get_type (value it)) = Some r -> step key op data = Ret (data, r);
}.

(** What holds nothing or one value. *)
Definition holds_value {A} (is_value : StoreItem -> A -> Prop) (i : option StoreItem) (o : option A) : Prop :=
  match o with
  | Some a => exists it, i = Some it /\ is_value it a
  | None => i = None
  end.

Section HoldsValue.
Context {A : Type} (is_value : StoreItem -> A -> Prop).

Lemma holds_absent i : holds_value is_value i None <-> i = None.
Proof. done. Qed.

Lemma holds_none a : ~ holds_value is_value None (Some a).
Proof. by intros (it & ? & _). Qed.

Lemma holds_some it a : holds_value is_value (Some it) (Some a) <-> is_value it a.
Proof. split; [by intros (it' & [= <-] & ?)|intros ?; by exists it]. Qed.

Lemma at_value_or_insert key data0 data o new a0 :
  at_key (holds_value is_value) key data0 data o -> is_value new a0 ->
  exists data1 it, or_insert data key new = (data1, it) /\ is_value it (unwrap_or o a0) /\
    at_key (holds_value is_value) key data0 data1 (Some (unwrap_or o a0)).
Proof.
  intros Hrel Hnew. destruct (at_key_or_insert (holds_value is_value) key data0 data o new a0)
    as (data1 & it & H1 & H2%holds_some & H3); [apply holds_absent|apply holds_none|done| |eauto].
  by apply holds_some.
Qed.

Lemma at_value_set key data0 data it v o a : at_key (holds_value is_value) key data0 data o ->
  is_value (item v (expired_at it)) a ->
  at_key (holds_value is_value) key data0 (set_value_of data key it v) (Some a).
Proof. intros Hrel Hv. eapply at_key_set; [exact Hrel|by apply holds_some]. Qed.
End HoldsValue.
