(* ===== verification/StringSpec.v ===== *)
(** * What the string commands promise

    The specification of a key with a string is a text and the time it is visible
    until. [string_refines]: any sequence of [SET], [GET] and [INCR], each at the
    time it arrives, answers what the specification does. *)

From S2P Require Import Prelude Text Float64 Resp CmdBuilder Bitmap BTree SortedSet Store StringCmds.
From S2P Require Import Refinement KeySpec.

(** An operation carries the clock it runs at. *)
Inductive string_op : Type :=
| SSet (now : Z) (v : string) (opt : option CmdArg.t)
| SGet (now : Z)
| SIncr.

(** The command of the source. *)
Definition string_step (key : string) (op : string_op) (data : Data) : outcome (Data * Reply) :=
  match op with
  | SSet now v opt => cmd_set now data key v opt
  | SGet now => Ret (data, cmd_get now data key)
  | SIncr => Ret (cmd_incr data key)
  end.

(** ** The specification *)

(** The last millisecond a value is visible in: [PX] counts from now in
    milliseconds; [EX] adds seconds to the clock in seconds. *)
Definition deadline (now : Z) (opt : option CmdArg.t) : option Z :=
  match opt with
  | Some (CmdArg.PX (Some ms)) => Some (now + ms)
  | Some (CmdArg.EX (Some s)) => Some (now / 1000 + s)
  | _ => None
  end.

(** The number a text denotes, when it has room for one more. *)
Definition next_number (s : string) : Result CustomError Z :=
  match parse_i64 s with
  | Ok i => if i <? i64_max then Ok (i + 1) else Err (UnprocessableError "Integer overflow")
  | Err _ => Err err_out_of_range
  end.

Definition string_spec (op : string_op) (o : option (string * option Z)) :
    option (string * option Z) * Reply :=
  match op with
  | SSet now v opt => (Some (v, deadline now opt), Ok response_ok)
  | SGet now =>
      (o, Ok (Some match o with
                   | Some (s, exp) => if live now exp then bulk s else null_bulk
                   | None => null_bulk
                   end))
  | SIncr =>
      let '(s, exp) := unwrap_or o ("0"%string, None) in
      match next_number s with
      | Ok i => (Some (show_Z i, exp), int_answer i)
      | Err e => (o, Err e)
      end
  end.

(** A time that fits its type, with a number. *)
Definition string_admits (op : string_op) (o : option (string * option Z)) : bool :=
  match op with
  | SSet now _ (Some (CmdArg.PX ms)) => match ms with Some ms => (0 <=? now + ms) && (now + ms <=? u64_max) | None => false end
  | SSet now _ (Some (CmdArg.EX s)) =>
      match s with Some s => (0 <=? now / 1000 + s) && (now / 1000 + s <=? u64_max) | None => false end
  | _ => true
  end.

Definition is_string (it : StoreItem) (a : string * option Z) : Prop :=
  value it = Str a.1 /\ expired_at it = a.2.

(** What another type answers: [SET] overwrites it, and [GET] reads a bitmap. *)
Definition string_foreign (key : string) (op : string_op) (type : string) : option Reply :=
  match op with
  | SSet _ _ _ => None
  | SGet _ => if String.eqb type "bitmap" then None else Some (Err (unsupported key))
  | SIncr => Some (Err err_out_of_range)
  end.

(** ** The commands implement it *)
Lemma extract_deadline_spec now v opt o : string_admits (SSet now v opt) o = true ->
  extract_deadline now opt = Ret (deadline now opt).
Proof.
  assert (forall x, (0 <=? x) && (x <=? u64_max) = true -> wrap_u64 x = x) as Hid.
  { intros x Hx. bools. apply wrap_u64_id. by split. }
  destruct opt as [[[x|]|[x|]| | | | | | | | | | | |]|]; cbn; try done; by intros ->%Hid.
Qed.

(** [SET] does not look at what the key held. *)
Lemma set_overwrites key now v opt data : string_admits (SSet now v opt) None = true ->
  string_step key (SSet now v opt) data =
  Ret (<[key := item (Str v) (deadline now opt)]> data, Ok response_ok).
Proof. intros Hok. cbn. unfold cmd_set. by rewrite (extract_deadline_spec now v opt None). Qed.

Lemma incr_zero : next_number "0" = Ok 1.
Proof. reflexivity. Qed.

Lemma cmd_incr_present data key it s : data !! key = Some it -> value it = Str s ->
  cmd_incr data key =
  match next_number s with
  | Ok i => (set_value_of data key it (Str (show_Z i)), int_answer i)
  | Err e => (data, Err e)
  end.
Proof.
  intros Hk Hv. unfold cmd_incr, or_insert, next_number. rewrite Hk, Hv.
  destruct (parse_i64 s) as [i|]; [|done]. by destruct (i <? i64_max).
Qed.

Lemma string_implements key data0 :
  Implements (string_step key) string_spec string_admits (at_key (holds_value is_string) key data0).
Proof.
  intros op data o Hrel Hok. pose proof Hrel as [_ Hkey]. destruct op as [now v opt|now|].
  - rewrite set_overwrites by done. eexists. split; [done|]. eapply at_key_insert; [done|].
    by apply holds_some.
  - exists data. split; [|done]. cbn [string_step string_spec snd]. destruct o as [[s exp]|].
    + destruct Hkey as (it & Hk & Hv & He). cbn in Hv, He. do 2 f_equal. apply cmd_get_str.
      rewrite Hk. destruct it. cbn in *. by subst.
    + unfold cmd_get. by rewrite Hkey.
  - cbn [string_step string_spec]. destruct o as [[s exp]|]; cbn [unwrap_or].
    + destruct Hkey as (it & Hk & Hv & He). cbn in Hv, He. rewrite (cmd_incr_present _ _ _ _ Hk Hv).
      destruct (next_number s) as [i|e]; [|by exists data]. eexists. split; [done|].
      eapply at_value_set; [done|]. by split.
    + rewrite incr_zero. unfold cmd_incr, or_insert. rewrite Hkey. eexists. split; [reflexivity|].
      unfold set_value_of. rewrite insert_insert_eq. eapply at_key_insert; [done|]. by apply holds_some.
Qed.

#[export] Instance string_key_type :
  KeyType string_step string_spec string_admits (holds_value is_string) "string" string_foreign.
Proof.
  split; [exact string_implements|done| |].
  - intros i a (it & -> & Hv & _). exists it. by rewrite Hv.
  - intros key op data it r Hk Hty. unfold string_step, cmd_get, cmd_incr, or_insert.
    rewrite Hk. destruct op as [| |]; cbn [string_foreign]; [done| |].
    + destruct (value it) eqn:Hv; cbn; try done; by intros [= <-].
    + destruct (value it) eqn:Hv; cbn in *; try done; by intros [= <-].
Qed.

(** Any sequence of [SET], [GET] and [INCR] on a key, each at its own time,
    answers, command by command, what the same operations on a text with a deadline
    answer: a value is visible up to its deadline and not after, [SET] replaces
    both, [INCR] counts in decimal, keeps the deadline and refuses what is no number
    or has no successor; and no other key changes. *)
Theorem string_refines key data ops o : at_key (holds_value is_string) key data data o ->
  admits_all string_spec string_admits ops o = true ->
  exists data', run_all (string_step key) ops data = Ret (data', (spec_all string_spec ops o).2) /\
    at_key (holds_value is_string) key data data' (spec_all string_spec ops o).1.
Proof. intros Hrel Hok. by apply (run_implements _ _ string_admits (at_key (holds_value is_string) key data)). Qed.

Lemma string_refines_witness :
  let ops := [SIncr; SSet 1000 "41" (Some (CmdArg.PX (Some 5))); SIncr; SGet 1005; SGet 1006;
              SSet 1006 "x" None; SIncr; SGet 9999]%string in
  exists data', run_all (string_step "k") ops ∅ = Ret (data',
    [int_answer 1; Ok response_ok; int_answer 42; Ok (Some (bulk "42")); Ok (Some null_bulk);
     Ok response_ok; Err err_out_of_range; Ok (Some (bulk "x"))]%string) /\
  at_key (holds_value is_string) "k" ∅ data' (Some ("x"%string, None)).
Proof.
  intros ops. apply (string_refines "k" ∅ ops None); [split; [done|apply lookup_empty]|by vm_compute].
Defined.
