(* ===== verification/ListSpec.v ===== *)
(** * What the list commands promise

    The specification of a key with a list is a sequence that grows and shrinks at
    its two ends, or nothing while the key is absent. [list_refines]: any sequence
    of list commands answers what the specification does. *)

From S2P Require Import Prelude Text Float64 Resp CmdBuilder Bitmap BTree SortedSet Store ListCmds Refinement KeySpec.

Inductive list_op : Type :=
| RPush (vs : list string)
| LPush (vs : list string)
| LPop (count : option Z)
| LLen
| LRange (start stop : Z).

(** The command of the source. *)
Definition list_step (key : string) (op : list_op) (data : Data) : outcome (Data * Reply) :=
  Ret match op with
      | RPush vs => cmd_rpush data key vs
      | LPush vs => cmd_lpush data key vs
      | LPop count => cmd_lpop data key count
      | LLen => (data, cmd_llen data key)
      | LRange start stop => (data, cmd_lrange data key start stop)
      end.

(** An array of no elements that items were to be added to is the null array. *)
Definition popped (vs : list string) : Reply :=
  Ok (Some match vs with [] => null_array | _ => Array (len vs) (Some (List.map bulk vs)) end).

Definition list_spec (op : list_op) (o : option (list string)) : option (list string) * Reply :=
  let l := unwrap_or o [] in
  match op with
  | RPush vs => (Some (l ++ vs), int_answer (len (l ++ vs)))
  | LPush vs => (Some (rev vs ++ l), int_answer (len (rev vs ++ l)))
  | LPop None =>
      match l with
      | v :: l' => (Some l', Ok (Some (bulk v)))
      | [] => (o, Ok (Some null_bulk))
      end
  | LPop (Some n) =>
      match o with
      | Some l => (Some (drop (Z.to_nat n) l), popped (take (Z.to_nat n) l))
      | None => (None, Ok (Some null_bulk))
      end
  | LLen => (o, int_answer (len l))
  | LRange i j =>
      let n := len l in
      let vs := slice l (index_of n i) (Z.min (index_of n j) (n - 1) + 1) in
      (o, Ok (Some (Array (len vs) (Some (List.map bulk vs)))))
  end.

(** Arguments of their machine width; and no [LRANGE] on a list that was emptied
    but is still there. *)
Definition list_admits (op : list_op) (o : option (list string)) : bool :=
  match op with
  | LPop (Some n) => 0 <=? n
  | LRange i j =>
      i64b i && i64b j &&
      match o with Some l => (0 <? len l) && (len l <=? i64_max) | None => true end
  | _ => true
  end.

Definition is_list (it : StoreItem) (l : list string) : Prop := value it = List l.

(** What another type answers. *)
Definition list_foreign (key : string) (op : list_op) (type : string) : option Reply :=
  Some (Err (unsupported key)).

Lemma popped_build vs n : n = len vs -> Ok (Some (build_array n (List.map bulk vs))) = popped vs.
Proof. intros ->. unfold popped. destruct vs; [done|]. cbn [List.map]. by rewrite build_array_cons. Qed.

Lemma list_foreign_ok key op data it : data !! key = Some it -> get_type (value it) <> "list"%string ->
  list_step key op data = Ret (data, Err (unsupported key)).
Proof.
  intros Hk Hty. unfold list_step, cmd_rpush, cmd_lpush, cmd_lpop, cmd_llen, cmd_lrange, or_insert.
  rewrite Hk. by destruct op, (value it).
Qed.

Lemma list_implements key data0 :
  Implements (list_step key) list_spec list_admits (at_key (holds_value is_list) key data0).
Proof.
  intros op data o Hrel Hok. unfold list_step. destruct op as [vs|vs|[n|]| |i j].
  - destruct (at_value_or_insert _ _ _ _ _ (item (List []) None) [] Hrel) as (data1 & it & Ho & Hv & Hrel1); [done|].
    unfold cmd_rpush. rewrite Ho, Hv. eexists. split; [done|]. by eapply at_value_set.
  - destruct (at_value_or_insert _ _ _ _ _ (item (List []) None) [] Hrel) as (data1 & it & Ho & Hv & Hrel1); [done|].
    unfold cmd_lpush. rewrite Ho, Hv, fold_push_front. eexists. split; [done|]. by eapply at_value_set.
  - pose proof Hrel as [_ Hkey]. apply Z.leb_le in Hok. unfold cmd_lpop. destruct o as [l|].
    + destruct Hkey as (it & -> & ->). rewrite iter_take_take, iter_skip_drop.
      assert (take (Z.to_nat (Z.min n (len l))) l = take (Z.to_nat n) l) as ->.
      { rewrite <- (iter_take_take n l). done. }
      assert (drop (Z.to_nat (Z.min n (len l))) l = drop (Z.to_nat n) l) as ->.
      { rewrite <- (iter_skip_drop n l). done. }
      rewrite popped_build; [eexists; split; [done|]; by eapply at_value_set|].
      unfold len. rewrite length_take. lia.
    + rewrite Hkey. by exists data.
  - pose proof Hrel as [_ Hkey]. unfold cmd_lpop. destruct o as [l|].
    + destruct Hkey as (it & Hk & Hv). rewrite Hk, Hv. destruct l as [|v l]; [by exists data|].
      eexists. split; [done|]. by eapply at_value_set.
    + rewrite Hkey. by exists data.
  - exists data. split; [|done]. unfold cmd_llen. pose proof Hrel as [_ Hkey]. destruct o as [l|].
    + by destruct Hkey as (it & -> & ->).
    + by rewrite Hkey.
  - exists data. split; [|done]. unfold cmd_lrange. pose proof Hrel as [_ Hkey]. cbn in Hok. bools.
    destruct o as [l|].
    + destruct Hkey as (it & -> & ->). bools. cbn [unwrap_or list_spec snd].
      rewrite lrange_slice; [done|lia|by apply i64b_spec..].
    + rewrite Hkey. cbn. unfold slice. by rewrite drop_nil, take_nil.
Qed.

#[export] Instance list_key_type :
  KeyType list_step list_spec list_admits (holds_value is_list) "list" list_foreign.
Proof.
  split; [exact list_implements|done| |].
  - intros i l (it & -> & Hv). exists it. by rewrite Hv.
  - intros key op data it r Hk Hty [= <-]. by apply (list_foreign_ok key op data it).
Qed.

(** C33: any sequence of [RPUSH], [LPUSH], [LPOP], [LLEN] and [LRANGE] on a key
    answers, command by command, what the same operations on a sequence answer:
    pushes extend an end, pops take from the front, a range is the slice between
    its bounds; and no other key changes. *)
Theorem list_refines key data ops o : at_key (holds_value is_list) key data data o ->
  admits_all list_spec list_admits ops o = true ->
  exists data', run_all (list_step key) ops data = Ret (data', (spec_all list_spec ops o).2) /\
    at_key (holds_value is_list) key data data' (spec_all list_spec ops o).1.
Proof. intros Hrel Hok. by apply (run_implements _ _ list_admits (at_key (holds_value is_list) key data)). Qed.

Lemma list_refines_witness :
  let ops := [RPush ["a"; "b"; "c"]; LPush ["x"; "y"]; LRange 0 (-1); LPop None; LPop (Some 2); LLen] in
  exists data', run_all (list_step "q") ops ∅ = Ret (data',
    [int_answer 3; int_answer 5;
     Ok (Some (Array 5 (Some (List.map bulk ["y"; "x"; "a"; "b"; "c"]))));
     Ok (Some (bulk "y")); Ok (Some (Array 2 (Some [bulk "x"; bulk "a"]))); int_answer 2]%string) /\
  at_key (holds_value is_list) "q" ∅ data' (Some ["b"; "c"]%string).
Proof.
  intros ops. apply (list_refines "q" ∅ ops None); [split; [done|apply lookup_empty]|by vm_compute].
Defined.
