(* ===== verification/BitmapCmds.v ===== *)
(** * Bitmap commands ([commands/cmd_handler.rs])

    [SETBIT], [GETBIT], [STRLEN], [BITCOUNT] and [BITOP] on the key space, with
    their behaviour in terms of the abstract bits of a key. *)

From S2P Require Import Prelude Text Float64 Resp CmdBuilder Bitmap BTree SortedSet Store.

(** ** Handlers *)

(** [u8] results as [i64] integers. *)
Definition int_reply (n : Z) : Reply := Ok (Some (Integer (Some n))).

Definition cmd_setbit (data : Data) (key : string) (offset bit : Z) : Data * Reply :=
  let (data, it) :=
    or_insert data key (item (BitmapV (bitmap_new (wrap_u64 (offset + 1)))) None) in
  match value it with
  | BitmapV map =>
      let old_bit := match BitOps.get map offset with Ok b => b | Err _ => 0 end in
      if old_bit =? bit then (data, int_reply old_bit)
      else
        match bit_value_try_from bit with
        | Err e => (data, Err e)
        | Ok bit_value =>
            match BitOps.set map offset bit_value with
            | Ok map => (set_value_of data key it (BitmapV map), int_reply old_bit)
            | Err _ =>
                let map := bitmap_extend map offset in
                match BitOps.set map offset bit_value with
                | Ok map => (set_value_of data key it (BitmapV map), int_reply old_bit)
                | Err e => (set_value_of data key it (BitmapV map), Err e)
                end
            end
        end
  | _ => (data, Err Dummy)
  end.

Definition cmd_getbit (data : Data) (key : string) (offset : Z) : Reply :=
  match data !! key with
  | Some it =>
      match value it with
      | BitmapV map => int_reply (match BitOps.get map offset with Ok b => b | Err _ => 0 end)
      | Str s => int_reply (match BitOps.get (as_bytes s) offset with Ok b => b | Err _ => 0 end)
      | _ => Err wrong_data_type
      end
  | None => int_reply 0
  end.

Definition cmd_strlen (data : Data) (key : string) : Reply :=
  match data !! key with
  | Some it =>
      match value it with
      | BitmapV map => int_reply (len map)
      | _ => Err wrong_data_type
      end
  | None => int_reply 0
  end.

Definition cmd_bitcount (data : Data) (key : string) (range : option BitRange) : Reply :=
  match data !! key with
  | Some it =>
      match value it with
      | BitmapV map => int_reply (BitOps.bit_count map range)
      | Str s => int_reply (BitOps.bit_count (as_bytes s) range)
      | _ => Err wrong_data_type
      end
  | None => int_reply 0
  end.

(** The bytes of an operand of [BITOP]. *)
Definition bitop_map (data : Data) (key : string) : Result CustomError bytes :=
  match data !! key with
  | Some it =>
      match value it with
      | BitmapV map => Ok map
      | Str s => Ok (as_bytes s)
      | _ => Err wrong_data_type
      end
  | None => Ok []
  end.

Definition cmd_bitop (data : Data) (args : CmdArg.t) : Data * Reply :=
  let parsed :=
    match args with
    | CmdArg.AND dest key1 key2 => Ok (true, dest, key1, key2)
    | CmdArg.OR dest key1 key2 => Ok (false, dest, key1, key2)
    | _ => Err (InvalidArgument "Invalid args for BITOP")
    end in
  let result :=
    let? (and, dest, key1, key2) := parsed in
    let? map1 := bitop_map data key1 in
    let? map2 := bitop_map data key2 in
    Ok (dest, if and : bool then BitOps.and map1 map2 else BitOps.or map1 map2) in
  match result with
  | Ok (dest, output) =>
      let data :=
        match output with
        | [] => delete dest data
        | _ => <[dest := item (BitmapV output) None]> data
        end in
      (data, int_reply (len output))
  | Err e => (data, Err e)
  end.

(** ** Behaviour on bits *)
Lemma get_or_zero map i : 0 <= i ->
  match BitOps.get map i with Ok b => b | Err _ => 0 end = Z.b2z (bit map i).
Proof.
  intros. rewrite get_bit. destruct ((0 <=? i / 8) && (i / 8 <? len map)) eqn:Hr; [done|].
  apply andb_false_iff in Hr as [Hr|Hr]; bools; [lia|]. by rewrite bit_out_of_range by lia.
Qed.

(** [GETBIT] is the abstract bit of the key's bytes. *)
Lemma cmd_getbit_spec data key map i : bitop_map data key = Ok map -> 0 <= i ->
  cmd_getbit data key i = int_reply (Z.b2z (bit map i)).
Proof.
  unfold bitop_map, cmd_getbit. intros Hm Hi. destruct (data !! key) as [it|].
  - destruct (value it); try done; injection Hm as <-; by rewrite get_or_zero.
  - injection Hm as <-. unfold bit. by rewrite vec_get_nil.
Qed.

(** The key holds a bitmap, or nothing. *)
Definition bitmap_at (data : Data) (key : string) : option bytes :=
  match data !! key with
  | Some it => match value it with BitmapV map => Some map | _ => None end
  | None => Some []
  end.

Lemma bitmap_at_map data key map : bitmap_at data key = Some map -> bitop_map data key = Ok map.
Proof.
  unfold bitmap_at, bitop_map. destruct (data !! key) as [it|]; [|by intros [= <-]].
  destruct (value it); try done. by intros [= <-].
Qed.

Definition bit_of (b : Z) : bool := b =? 1.

(** Writing one bit of a map that may have to grow. *)
Lemma set_growing map i v : 0 <= i < u64_max ->
  exists map', match BitOps.set map i v with
    | Ok m => Ok m
    | Err _ => BitOps.set (bitmap_extend map i) i v
    end = Ok map' /\
    forall j, 0 <= j -> bit map' j = if j =? i then value_bit v else bit map j.
Proof.
  intros Hi. destruct (Z.lt_ge_cases i (8 * len map)).
  - destruct (set_in_range map i v) as (m & -> & _ & Hb); [lia|]. by exists m.
  - rewrite set_out_of_range by lia.
    destruct (bitmap_extend_spec map i Hi) as (Hlt & _ & He).
    destruct (set_in_range (bitmap_extend map i) i v) as (m & -> & _ & Hb); [lia|].
    exists m. split; [done|]. intros j Hj. rewrite Hb by done.
    destruct (j =? i); [done|by apply He].
Qed.

Lemma bitmap_at_set data key it map : bitmap_at (set_value_of data key it (BitmapV map)) key = Some map.
Proof. unfold bitmap_at, set_value_of. by rewrite lookup_insert_eq. Qed.

(** [SETBIT] with a bit replies with the old bit and changes that bit only. *)
Lemma cmd_setbit_spec data key map i b :
  bitmap_at data key = Some map -> 0 <= i < u64_max -> b = 0 \/ b = 1 ->
  exists data' map', cmd_setbit data key i b = (data', int_reply (Z.b2z (bit map i))) /\
    bitmap_at data' key = Some map' /\
    (forall j, 0 <= j -> bit map' j = if j =? i then bit_of b else bit map j) /\
    forall k, k <> key -> data' !! k = data !! k.
Proof.
  intros Hat Hi Hb. unfold cmd_setbit.
  (* the item the entry ends up with, and its bits *)
  assert (exists data1 it map1, or_insert data key
      (item (BitmapV (bitmap_new (wrap_u64 (i + 1)))) None) = (data1, it) /\
    value it = BitmapV map1 /\ (forall j, 0 <= j -> bit map1 j = bit map j) /\
    bitmap_at data1 key = Some map1 /\ forall k, k <> key -> data1 !! k = data !! k)
    as (data1 & it & map1 & -> & Hv & Hbits & Hat1 & Hother).
  { unfold or_insert, bitmap_at in *. destruct (data !! key) as [it|] eqn:Hk.
    - exists data, it. destruct (value it) eqn:Hv; try done. injection Hat as <-.
      exists map0. by rewrite Hk, Hv.
    - injection Hat as <-. rewrite wrap_u64_id by (unfold is_u64; lia).
      do 3 eexists. split; [done|]. split; [done|]. rewrite lookup_insert_eq.
      split; [|split; [done|intros; by rewrite lookup_insert_ne]].
      intros j Hj. destruct (bitmap_new_spec (i + 1)) as [_ Hz]; [lia|]. rewrite Hz.
      unfold bit. by rewrite vec_get_nil. }
  rewrite Hv, get_or_zero, Hbits by lia.
  destruct (Z.eqb_spec (Z.b2z (bit map i)) b) as [He|Hne].
  - exists data1, map1. split; [done|]. split; [done|]. split; [|done].
    intros j Hj. rewrite Hbits by done. destruct (Z.eqb_spec j i) as [->|]; [|done].
    unfold bit_of. rewrite <- He. by destruct (bit map i).
  - assert (exists v, bit_value_try_from b = Ok v /\ value_bit v = bit_of b) as (v & -> & Hval).
    { destruct Hb as [-> | ->]; [by exists Zero|by exists One]. }
    destruct (set_growing map1 i v Hi) as (map' & Hset & Hbit).
    exists (set_value_of data1 key it (BitmapV map')), map'.
    split; [|split; [apply bitmap_at_set|split]].
    + destruct (BitOps.set map1 i v); [by injection Hset as ->|]. by rewrite Hset.
    + intros j Hj. rewrite Hbit, Hbits by done. by rewrite Hval.
    + intros k Hk. unfold set_value_of. rewrite lookup_insert_ne by done. by apply Hother.
Qed.

(** [SETBIT] then [GETBIT]: the bit written, every other bit as before. *)
Lemma setbit_getbit data key map i b :
  bitmap_at data key = Some map -> 0 <= i < u64_max -> b = 0 \/ b = 1 ->
  let (data', reply) := cmd_setbit data key i b in
  reply = cmd_getbit data key i /\
  cmd_getbit data' key i = int_reply b /\
  forall j, 0 <= j -> j <> i -> cmd_getbit data' key j = cmd_getbit data key j.
Proof.
  intros Hat Hi Hb.
  destruct (cmd_setbit_spec data key map i b Hat Hi Hb) as (data' & map' & -> & Hat' & Hbit & _).
  assert (forall j, 0 <= j -> cmd_getbit data key j = int_reply (Z.b2z (bit map j))) as Hg.
  { intros. by apply cmd_getbit_spec; [apply bitmap_at_map|]. }
  assert (forall j, 0 <= j -> cmd_getbit data' key j = int_reply (Z.b2z (bit map' j))) as Hg'.
  { intros. by apply cmd_getbit_spec; [apply bitmap_at_map|]. }
  split; [by rewrite Hg by lia|]. split.
  - rewrite Hg', Hbit, Z.eqb_refl by lia. by destruct Hb as [-> | ->].
  - intros j Hj Hne. rewrite Hg, Hg', Hbit by done. by destruct (Z.eqb_spec j i).
Qed.

(** A bit other than 0 and 1 on an absent key is an error that leaves a zeroed
    bitmap behind. *)
Lemma setbit_bad_bit_creates data key i b : data !! key = None -> 0 <= i < u64_max -> 1 < b ->
  cmd_setbit data key i b =
  (<[key := item (BitmapV (bitmap_new (i + 1))) None]> data,
   Err (ParseError "Input must be either 0 or 1")).
Proof.
  intros Hk Hi Hb. unfold cmd_setbit, or_insert. rewrite Hk, wrap_u64_id by (unfold is_u64; lia).
  cbn [value]. rewrite get_or_zero by lia.
  destruct (bitmap_new_spec (i + 1)) as [_ ->]; [lia|]. cbn [Z.b2z].
  destruct (Z.eqb_spec 0 b); [lia|]. unfold bit_value_try_from.
  destruct (Z.eqb_spec b 1); [lia|]. by destruct (Z.eqb_spec b 0); [lia|].
Qed.

(** [BITCOUNT] counts the set bits, all of them or those of the range. *)
Lemma cmd_bitcount_spec data key map range : bitop_map data key = Ok map ->
  8 * len map <= i64_max ->
  match range with Some r => is_i64 (start r) /\ is_i64 (end_ r) | None => True end ->
  cmd_bitcount data key range = int_reply
    (match range with
     | Some r => ones_in map (range_bits map r).1 (range_bits map r).2
     | None => ones_in map 0 (8 * len map)
     end).
Proof.
  intros Hm Hl Hr.
  assert (cmd_bitcount data key range = int_reply (BitOps.bit_count map range)) as ->.
  { unfold bitop_map, cmd_bitcount in *. destruct (data !! key) as [it|].
    - destruct (value it); try done; by injection Hm as <-.
    - injection Hm as <-. destruct range as [[s e []]|]; [|done..]. done. }
  destruct range as [r|]; [|by rewrite <- sum_ones_all].
  destruct Hr. by rewrite bit_count_range.
Qed.

(** [BITOP] combines the two operands bit by bit; a result without bytes
    deletes the destination. *)
Lemma cmd_bitop_spec data (is_and : bool) dest key1 key2 map1 map2 :
  bitop_map data key1 = Ok map1 -> bitop_map data key2 = Ok map2 ->
  let args := if is_and then CmdArg.AND dest key1 key2 else CmdArg.OR dest key1 key2 in
  let op := if is_and then andb else orb in
  exists data' output, cmd_bitop data args = (data', int_reply (Z.max (len map1) (len map2))) /\
    bitop_map data' dest = Ok output /\ len output = Z.max (len map1) (len map2) /\
    (forall i, 0 <= i -> bit output i = op (bit map1 i) (bit map2 i)) /\
    (data' !! dest = None <-> map1 = [] /\ map2 = []) /\
    forall k, k <> dest -> data' !! k = data !! k.
Proof.
  intros H1 H2 args op.
  set (output := if is_and then BitOps.and map1 map2 else BitOps.or map1 map2).
  assert (len output = Z.max (len map1) (len map2)) as Hlen.
  { unfold output. destruct is_and; apply len_combine. }
  assert (output = [] <-> map1 = [] /\ map2 = []) as Hempty.
  { split.
    - intros He. rewrite He in Hlen. pose proof (len_nonneg map1). pose proof (len_nonneg map2).
      unfold len in Hlen. cbn in Hlen. destruct map1, map2; cbn in Hlen; [done|lia..].
    - intros [-> ->]. by destruct is_and. }
  set (data' := match output with
                | [] => delete dest data
                | _ => <[dest := item (BitmapV output) None]> data
                end).
  exists data', output. split; [|split; [|split; [done|split; [|split]]]].
  - unfold cmd_bitop, args. destruct is_and; cbn -[BitOps.and BitOps.or len]; rewrite H1, H2;
      cbn -[BitOps.and BitOps.or len]; change (BitOps.and map1 map2) with output || change (BitOps.or map1 map2) with output;
      by rewrite Hlen.
  - unfold bitop_map, data'. destruct output.
    + by rewrite lookup_delete_eq.
    + by rewrite lookup_insert_eq.
  - intros i Hi. unfold output, op. destruct is_and; [by apply and_bit|by apply or_bit].
  - rewrite <- Hempty. unfold data'. destruct output.
    + by rewrite lookup_delete_eq.
    + by rewrite lookup_insert_eq.
  - intros k Hk. unfold data'. destruct output; [by apply lookup_delete_ne|by apply lookup_insert_ne].
Qed.

Lemma setbit_getbit_witness :
  let (data', reply) := cmd_setbit ∅ "k" 11 1 in
  reply = cmd_getbit ∅ "k" 11 /\ cmd_getbit data' "k" 11 = int_reply 1 /\
  forall j, 0 <= j -> j <> 11 -> cmd_getbit data' "k" j = cmd_getbit ∅ "k" j.
Proof. apply (setbit_getbit ∅ "k" [] 11 1); [reflexivity|by vm_compute|by right]. Defined.

(** A key space with one string. *)
Definition demo_bits : Data := {["k"%string := item (Str "ab"%string) None]}.

Lemma cmd_bitcount_spec_witness :
  cmd_bitcount demo_bits "k" None = int_reply (ones_in (as_bytes "ab") 0 16).
Proof. apply (cmd_bitcount_spec demo_bits "k" (as_bytes "ab") None); [reflexivity|by vm_compute|exact I]. Defined.

Lemma cmd_bitop_spec_witness : exists data' output,
  cmd_bitop demo_bits (CmdArg.AND "d" "k" "none") = (data', int_reply 2) /\
  bitop_map data' "d" = Ok output /\ len output = 2.
Proof.
  destruct (cmd_bitop_spec demo_bits true "d" "k" "none" (as_bytes "ab") [])
    as (data' & output & H1 & H2 & H3 & _); [reflexivity|reflexivity|].
  exists data', output. split; [exact H1|]. split; [exact H2|exact H3].
Defined.
