(* ===== verification/BitmapSpec.v ===== *)
(** * What the bitmap commands promise

    The specification of a key with a bitmap is the set of the offsets of its ones
    and its length in bytes. [bitmap_refines]: any sequence of [SETBIT], [GETBIT],
    [BITCOUNT] and [STRLEN] answers what the specification does: a count is the size
    of a set. *)

From S2P Require Import Prelude Text Float64 Resp CmdBuilder Bitmap BTree SortedSet Store BitmapCmds.
From S2P Require Import Refinement KeySpec.

(** A length in bytes, and the offsets of the ones. *)
Definition BitSet : Type := Z * gset Z.

Inductive bitmap_op : Type :=
| BSet (i b : Z)
| BGet (i : Z)
| BCount (range : option BitRange)
| BLen.

(** The command of the source. *)
Definition bitmap_step (key : string) (op : bitmap_op) (data : Data) : outcome (Data * Reply) :=
  Ret match op with
      | BSet i b => cmd_setbit data key i b
      | BGet i => (data, cmd_getbit data key i)
      | BCount range => (data, cmd_bitcount data key range)
      | BLen => (data, cmd_strlen data key)
      end.

(** ** The bits of a byte string *)
Definition ones (map : bytes) : gset Z := list_to_set (List.filter (bit map) (seqZ 0 (8 * len map))).

Definition bits_of (map : bytes) : BitSet := (len map, ones map).

Lemma bit_neg map i : i < 0 -> bit map i = false.
Proof. intros. unfold bit. by rewrite vec_get_neg by lia. Qed.

Lemma elem_of_ones map i : i ∈ ones map <-> bit map i = true.
Proof.
  unfold ones. rewrite elem_of_list_to_set, list_elem_of_In, filter_In, <- list_elem_of_In, elem_of_seqZ.
  split; [tauto|]. intros Hb. split; [|done]. split.
  - destruct (Z.lt_ge_cases i 0); [|done]. by rewrite bit_neg in Hb.
  - destruct (Z.lt_ge_cases i (8 * len map)); [lia|]. by rewrite bit_out_of_range in Hb.
Qed.

Lemma ones_bit map i : bool_decide (i ∈ ones map) = bit map i.
Proof.
  destruct (bit map i) eqn:Hb; [by apply bool_decide_eq_true_2, elem_of_ones|].
  apply bool_decide_eq_false_2. rewrite elem_of_ones, Hb. done.
Qed.

Lemma ones_nil : ones [] = ∅.
Proof. reflexivity. Qed.

(** The ones of an interval. *)
Definition within (lo n : Z) (S : gset Z) : gset Z := filter (fun i => lo <= i < lo + n) S.

Lemma ones_in_size map lo n : 0 <= lo -> ones_in map lo n = Z.of_nat (size (within lo n (ones map))).
Proof.
  intros Hlo. unfold ones_in, len. f_equal. set (l := List.filter (bit map) (seqZ lo n)).
  assert (NoDup l) as Hnd by (apply NoDup_ListNoDup, List.NoDup_filter, NoDup_ListNoDup, NoDup_seqZ).
  rewrite <- (size_list_to_set (C:=gset Z) l Hnd). f_equal. apply set_eq. intros i.
  unfold within, l. rewrite elem_of_list_to_set, elem_of_filter, elem_of_ones, list_elem_of_In, filter_In,
    <- list_elem_of_In, elem_of_seqZ. done.
Qed.

Lemma within_all map : within 0 (8 * len map) (ones map) = ones map.
Proof.
  apply set_eq. intros i. unfold within. rewrite elem_of_filter, elem_of_ones. split; [tauto|].
  intros Hb. split; [|done]. destruct (Z.lt_ge_cases i 0); [by rewrite bit_neg in Hb|].
  destruct (Z.lt_ge_cases i (8 * len map)); [lia|]. by rewrite bit_out_of_range in Hb.
Qed.

(** ** The specification *)

(** The first bit of a range, and how many bits it has; bounds below zero count
    from the end. *)
Definition interval (n : Z) (r : BitRange) : Z * Z :=
  let '(l, w) := match unit_ r with Byte => (n, 8) | Bit => (8 * n, 1) end in
  let s := clamp_index l (start r) in
  let e := Z.min (clamp_index l (end_ r)) (l - 1) in
  (w * s, w * (e - s + 1)).

Definition count (range : option BitRange) (b : BitSet) : Z :=
  Z.of_nat (size match range with
                 | Some r => within (interval b.1 r).1 (interval b.1 r).2 b.2
                 | None => b.2
                 end).

Definition bitmap_spec (op : bitmap_op) (o : option BitSet) : option BitSet * Reply :=
  let '(n, bs) := unwrap_or o (0, ∅) in
  match op with
  | BSet i b =>
      let '(n, bs) := unwrap_or o (i / 8 + 1, ∅) in
      let old := Z.b2z (bool_decide (i ∈ bs)) in
      if old =? b then (Some (n, bs), int_answer old)
      else if b =? 1 then (Some (Z.max n (i / 8 + 1), {[i]} ∪ bs), int_answer old)
      else if b =? 0 then (Some (n, bs ∖ {[i]}), int_answer old)
      else (Some (n, bs), Err (ParseError "Input must be either 0 or 1"))
  | BGet i => (o, int_answer (Z.b2z (bool_decide (i ∈ bs))))
  | BCount range => (o, int_answer (count range (n, bs)))
  | BLen => (o, int_answer n)
  end.

(** Offsets and bounds of their machine width, on a bitmap whose bits can be
    numbered. *)
Definition bitmap_admits (op : bitmap_op) (o : option BitSet) : bool :=
  match op with
  | BSet i b => (0 <=? i) && (i <? u64_max)
  | BGet i => 0 <=? i
  | BCount range =>
      (8 * (unwrap_or o (0, ∅)).1 <=? i64_max) &&
      match range with Some r => i64b (start r) && i64b (end_ r) | None => true end
  | BLen => true
  end.

Definition is_bitmap (it : StoreItem) (b : BitSet) : Prop :=
  exists map, value it = BitmapV map /\ bits_of map = b.

(** What another type answers: the bits of a string can be read. *)
Definition bitmap_foreign (key : string) (op : bitmap_op) (type : string) : option Reply :=
  match op with
  | BSet _ _ => Some (Err Dummy)
  | BGet _ | BCount _ => if String.eqb type "string" then None else Some (Err wrong_data_type)
  | BLen => Some (Err wrong_data_type)
  end.

(** ** The commands implement it *)
Lemma div_ceil_next i : 0 <= i -> div_ceil (i + 1) 8 = i / 8 + 1.
Proof. intros. unfold div_ceil. lia. Qed.

Lemma len_bitmap_new i : 0 <= i < u64_max -> bits_of (bitmap_new (wrap_u64 (i + 1))) = (i / 8 + 1, ∅).
Proof.
  intros Hi. rewrite wrap_u64_id by (unfold is_u64; lia).
  destruct (bitmap_new_spec (i + 1)) as [Hl Hz]; [lia|]. unfold bits_of. f_equal; [lia|].
  apply set_eq. intros j. rewrite elem_of_ones, Hz. set_solver.
Qed.

Lemma len_bitmap_extend map i : 0 <= i < u64_max -> len (bitmap_extend map i) = Z.max (len map) (i / 8 + 1).
Proof.
  intros Hi. unfold bitmap_extend. rewrite wrap_u64_id by (unfold is_u64; lia).
  rewrite div_ceil_next by lia. set (e := saturating_sub _ _). unfold saturating_sub in e.
  destruct (Z.ltb_spec 0 e); [|lia].
  rewrite len_app, len_zero_bytes by lia. lia.
Qed.

(** The write of a bit, on a bitmap that grows when it has to. *)
Lemma write_bit map i v : 0 <= i < u64_max ->
  exists map', match BitOps.set map i v with
    | Ok m => Ok m
    | Err _ => BitOps.set (bitmap_extend map i) i v
    end = Ok map' /\
    bits_of map' = (Z.max (len map) (i / 8 + 1), if value_bit v then {[i]} ∪ ones map else ones map ∖ {[i]}).
Proof.
  intros Hi. destruct (set_growing map i v Hi) as (map' & Hset & Hbit).
  exists map'. split; [done|]. unfold bits_of. f_equal.
  - destruct (Z.lt_ge_cases i (8 * len map)).
    + destruct (set_in_range map i v) as (m & Hm & Hl & _); [lia|]. rewrite Hm in Hset.
      injection Hset as ->. lia.
    + rewrite set_out_of_range in Hset by lia.
      destruct (bitmap_extend_spec map i Hi) as (Hlt & _).
      destruct (set_in_range (bitmap_extend map i) i v) as (m & Hm & Hl & _); [lia|].
      rewrite Hm in Hset. injection Hset as ->. by rewrite Hl, len_bitmap_extend.
  - apply set_eq. intros j. rewrite elem_of_ones. destruct (Z.lt_ge_cases j 0).
    + rewrite bit_neg by done. assert (j <> i) by lia. assert (j ∉ ones map) by (rewrite elem_of_ones, bit_neg; done).
      destruct (value_bit v); set_solver.
    + rewrite Hbit by done. destruct (Z.eqb_spec j i) as [->|Hne], (value_bit v);
        rewrite <- ?(elem_of_ones map); set_solver.
Qed.

Lemma setbit_present data key it map i b : data !! key = Some it -> value it = BitmapV map ->
  0 <= i < u64_max -> exists data', cmd_setbit data key i b =
    (data', (bitmap_spec (BSet i b) (Some (bits_of map))).2) /\
    forall data0 o, at_key (holds_value is_bitmap) key data0 data o ->
      at_key (holds_value is_bitmap) key data0 data' (bitmap_spec (BSet i b) (Some (bits_of map))).1.
Proof.
  intros Hk Hv Hi. unfold cmd_setbit, or_insert. rewrite Hk, Hv. cbn -[Z.div].
  rewrite get_or_zero, ones_bit by lia.
  assert (forall data0 o, at_key (holds_value is_bitmap) key data0 data o ->
    at_key (holds_value is_bitmap) key data0 data (Some (bits_of map))) as Hsame.
  { intros data0 o [Hother _]. split; [done|]. rewrite Hk. apply holds_some. by exists map. }
  destruct (Z.eqb_spec (Z.b2z (bit map i)) b) as [He|Hne]; [by exists data|].
  unfold bit_value_try_from.
  assert (forall v data0 o map', at_key (holds_value is_bitmap) key data0 data o -> bits_of map' = v ->
    at_key (holds_value is_bitmap) key data0 (set_value_of data key it (BitmapV map')) (Some v)) as Hset.
  { intros v data0 o map' Hrel Hb. eapply at_value_set; [done|]. by exists map'. }
  destruct (Z.eqb_spec b 1) as [->|H1]; [|destruct (Z.eqb_spec b 0) as [->|H0]; [|by exists data]].
  - destruct (write_bit map i One Hi) as (map' & Hw & Hb). cbn [value_bit] in Hb. rewrite <- Hb.
    exists (set_value_of data key it (BitmapV map')). split; [|intros; by eapply Hset].
    destruct (BitOps.set map i One); [by injection Hw as ->|]. by rewrite Hw.
  - destruct (write_bit map i Zero Hi) as (map' & Hw & Hb). cbn [value_bit] in Hb.
    assert (Z.max (len map) (i / 8 + 1) = len map) as Hmax.
    { assert (bit map i = true) as Hbit by (by destruct (bit map i)).
      destruct (Z.lt_ge_cases i (8 * len map)); [lia|]. by rewrite bit_out_of_range in Hbit. }
    rewrite Hmax in Hb. rewrite <- Hb.
    exists (set_value_of data key it (BitmapV map')). split; [|intros; by eapply Hset].
    destruct (BitOps.set map i Zero); [by injection Hw as ->|]. by rewrite Hw.
Qed.

(** A key that is absent is given zeros up to the bit first. *)
Lemma setbit_absent data key i b : data !! key = None ->
  cmd_setbit data key i b =
  cmd_setbit (<[key := item (BitmapV (bitmap_new (wrap_u64 (i + 1)))) None]> data) key i b.
Proof. intros Hk. unfold cmd_setbit, or_insert. by rewrite Hk, lookup_insert_eq. Qed.

(** The bits of a key with a bitmap or a string. *)
Lemma getbit_bits data key map i : bitop_map data key = Ok map -> 0 <= i ->
  cmd_getbit data key i = int_answer (Z.b2z (bool_decide (i ∈ ones map))).
Proof. intros Hm Hi. by rewrite (cmd_getbit_spec _ _ _ _ Hm Hi), ones_bit. Qed.

Lemma interval_nonneg n r : 0 <= n -> 0 <= (interval n r).1.
Proof.
  intros Hn. unfold interval, clamp_index. destruct (unit_ r); cbn [fst]; destruct (start r <? 0) eqn:E; bools; lia.
Qed.

Lemma bitcount_bits data key map range : bitop_map data key = Ok map ->
  bitmap_admits (BCount range) (Some (bits_of map)) = true ->
  cmd_bitcount data key range = int_answer (count range (bits_of map)).
Proof.
  intros Hm Hok. unfold bitmap_admits in Hok. cbn [unwrap_or bits_of fst] in Hok. bools.
  unfold cmd_bitcount. unfold bitop_map in Hm.
  assert (BitOps.bit_count map range = count range (bits_of map)) as Hc.
  { unfold count. pose proof (len_nonneg map). destruct range as [r|].
    - bools. rewrite bit_count_range by first [done|by apply i64b_spec].
      apply (ones_in_size map (interval (len map) r).1 (interval (len map) r).2). by apply interval_nonneg.
    - cbn [BitOps.bit_count]. rewrite sum_ones_all, ones_in_size by done. by rewrite within_all. }
  destruct (data !! key) as [it|]; [destruct (value it); try done; by injection Hm as ->; rewrite Hc|].
  injection Hm as <-. rewrite <- Hc. destruct range as [[s e []]|]; done.
Qed.

Lemma is_bitmap_map data key o : holds_value is_bitmap (data !! key) o ->
  exists map, bitop_map data key = Ok map /\ unwrap_or o (0, ∅) = bits_of map /\
    match o with Some _ => exists it, data !! key = Some it /\ value it = BitmapV map | None => data !! key = None end.
Proof.
  unfold bitop_map. destruct o as [b|].
  - intros (it & Hk & map & Hv & <-). rewrite Hk, Hv. exists map. eauto.
  - intros Hk. rewrite Hk. by exists [].
Qed.

Lemma bitmap_implements key data0 :
  Implements (bitmap_step key) bitmap_spec bitmap_admits (at_key (holds_value is_bitmap) key data0).
Proof.
  intros op data o Hrel Hok. destruct (is_bitmap_map data key o (proj2 Hrel)) as (map & Hm & Ho & Hk).
  unfold bitmap_step. destruct op as [i b|i|range|].
  - cbn [bitmap_admits] in Hok. bools. destruct o as [bs|].
    + destruct Hk as (it & Hk & Hv). cbn [unwrap_or] in Ho. subst bs.
      destruct (setbit_present data key it map i b Hk Hv) as (data' & -> & Hrel'); [done|].
      exists data'. split; [done|]. by eapply Hrel'.
    + rewrite setbit_absent by done. set (it := item _ None).
      destruct (setbit_present (<[key := it]> data) key it (bitmap_new (wrap_u64 (i + 1))) i b)
        as (data' & -> & Hrel'); [by rewrite lookup_insert_eq|done|done|].
      rewrite len_bitmap_new in * by done. exists data'. split; [done|]. eapply Hrel'.
      eapply (at_key_insert _ _ _ _ _ _ (Some (i / 8 + 1, ∅))); [done|]. apply holds_some.
      eexists. split; [done|]. by apply len_bitmap_new.
  - exists data. cbn [bitmap_admits] in Hok. bools. unfold bitmap_spec. rewrite Ho. split; [|done].
    by rewrite (getbit_bits _ _ _ _ Hm).
  - exists data. unfold bitmap_spec. rewrite Ho. split; [|done]. rewrite (bitcount_bits _ _ _ _ Hm); [done|].
    cbn [bitmap_admits] in *. by rewrite Ho in Hok.
  - exists data. unfold bitmap_spec. rewrite Ho. split; [|done]. unfold cmd_strlen. destruct o as [bs|].
    + destruct Hk as (it & -> & ->). done.
    + rewrite Hk. cbn in Ho. injection Ho as -> _. done.
Qed.

#[export] Instance bitmap_key_type :
  KeyType bitmap_step bitmap_spec bitmap_admits (holds_value is_bitmap) "bitmap" bitmap_foreign.
Proof.
  split; [exact bitmap_implements|done| |].
  - intros i b (it & -> & map & Hv & _). exists it. by rewrite Hv.
  - intros key op data it r Hk Hty. unfold bitmap_step, cmd_setbit, cmd_getbit, cmd_bitcount, cmd_strlen, or_insert.
    rewrite Hk. destruct op, (value it) eqn:Hv; cbn in *; try done; by intros [= <-].
Qed.

(** C34: any sequence of [SETBIT], [GETBIT], [BITCOUNT] and [STRLEN] on a key
    answers, command by command, what the set of the offsets of the ones answers:
    a write adds or removes one offset and answers whether it was there, a count is
    the number of elements, of all or of those in the range; the length grows with
    the ones only; and no other key changes. *)
Theorem bitmap_refines key data ops o : at_key (holds_value is_bitmap) key data data o ->
  admits_all bitmap_spec bitmap_admits ops o = true ->
  exists data', run_all (bitmap_step key) ops data = Ret (data', (spec_all bitmap_spec ops o).2) /\
    at_key (holds_value is_bitmap) key data data' (spec_all bitmap_spec ops o).1.
Proof. intros Hrel Hok. by apply (run_implements _ _ bitmap_admits (at_key (holds_value is_bitmap) key data)). Qed.

Lemma bitmap_refines_witness :
  let ops := [BSet 9 1; BSet 2 1; BSet 9 1; BGet 9; BSet 2 0; BCount None; BSet 100 0; BLen; BSet 23 1; BLen;
              BCount (Some (mk_range (-1) (-1) Byte)); BSet 0 7] in
  exists data', run_all (bitmap_step "b") ops ∅ = Ret (data',
    [int_answer 0; int_answer 0; int_answer 1; int_answer 1; int_answer 1; int_answer 1; int_answer 0;
     int_answer 2; int_answer 0; int_answer 3; int_answer 1; Err (ParseError "Input must be either 0 or 1")]) /\
  at_key (holds_value is_bitmap) "b" ∅ data' (Some (3, {[9; 23]})).
Proof.
  intros ops. destruct (bitmap_refines "b" ∅ ops None) as (data' & Hrun & Hrel);
    [split; [done|apply lookup_empty]|by vm_compute|].
  exists data'. split; [rewrite Hrun; vm_compute; reflexivity|].
  replace (Some (3, {[9; 23]})) with (spec_all bitmap_spec ops None).1; [exact Hrel|].
  apply (bool_decide_unpack _). vm_compute. exact I.
Defined.
