(* ===== verification/StreamCmds.v ===== *)
(** * Stream commands ([commands/cmd_handler.rs])

    [XADD], [XRANGE] and the parts of [XREAD] that read the key space. A stream
    is a [BTreeMap] from ids to entries; the blocking part of [XREAD] is in the
    handler. *)

From S2P Require Import Prelude Text Float64 Resp CmdBuilder Bitmap BTree SortedSet Store.

(** ** [XADD] *)
Definition msg_invalid_last : CustomError := InvalidArgument
  "ERR The ID specified in XADD is equal or smaller than the target stream top item".
Definition msg_invalid_00 : CustomError := InvalidArgument
  "ERR The ID specified in XADD must be greater than 0-0".
Definition msg_invalid_format : CustomError := InvalidArgument "ERR Invalid stream id format".

(** The id an entry gets, [id_valid]. *)
Definition xadd_id (now : Z) (b : Stream) (id : option Z * option Z) :
    Result CustomError (Z * Z) :=
  match id with
  | (Some t, Some i) =>
      if (t =? 0) && (i =? 0) then Err msg_invalid_00
      else
        match bt_last_key_value b with
        | Some ((t_last, i_last), _) =>
            if (t_last <? t) || ((t =? t_last) && (i_last <? i)) then Ok (t, i)
            else Err msg_invalid_last
        | None => Ok (t, i)
        end
  | (Some t, None) =>
      match bt_last_key_value b with
      | Some ((t_last, i_last), _) =>
          if t =? t_last then Ok (t, wrap_u64 (i_last + 1))
          else if t_last <? t then Ok (t, 0)
          else Err msg_invalid_format
      | None => if t =? 0 then Ok (t, 1) else Ok (t, 0)
      end
  | (None, None) => Ok (now, 0)
  | (None, Some _) => Err msg_invalid_format
  end.

Definition cmd_xadd (now : Z) (data : Data) (key : string) (id : option Z * option Z)
    (vs : list string) : Data * Reply :=
  let (data, it) := or_insert data key (item (StreamV []) None) in
  match value it with
  | StreamV b =>
      match xadd_id now b id with
      | Ok id_valid =>
          (set_value_of data key it (StreamV (bt_insert id_valid vs b)),
           Ok (Some (bulk (show_id id_valid))))
      | Err e => (data, Err e)
      end
  | _ => (data, Err (unsupported key))
  end.

(** ** [XRANGE] *)

(** An entry as its id and its strings. *)
Definition _get_resp_stream_entity (kv : list (Z * Z * list string)) : list RespType :=
  List.map (fun '(k, v) =>
    build_array_some 2 [bulk (show_id k); build_array_some (len v) (List.map bulk v)]) kv.

Definition cmd_xrange (data : Data) (key : string) (start end_ : Z * Z) : outcome Reply :=
  match data !! key with
  | Some it =>
      match value it with
      | StreamV b =>
          let! kv_vec := bt_range start end_ b in
          Ret (Ok (Some (build_array_some (len kv_vec) (_get_resp_stream_entity kv_vec))))
      | _ => Ret (Err (unsupported key))
      end
  | None => Ret (Ok (Some empty_array))
  end.

(** ** [XREAD] *)

(** The entries above [(timestamp, seq)], at most [count]; nothing when there
    are none, or no key. *)
Definition _extract_stream_entries (data : Data) (key : string) (count timestamp seq : Z) :
    option RespType :=
  match data !! key with
  | Some it =>
      let entries :=
        match value it with
        | StreamV b => iter_take count (bt_range_above (timestamp, seq) b)
        | _ => []
        end in
      match entries with
      | [] => None
      | _ =>
          Some (build_array_some (len entries)
            (List.map (fun '(k, v) =>
               build_array 2 [bulk (show_id k); build_array (len v) (List.map bulk v)]) entries))
      end
  | None => None
  end.

Definition _is_stream_avail (data : Data) (key : string) (start_ts seq : Z) : bool :=
  match data !! key with
  | Some it =>
      match value it with
      | StreamV b => match bt_range_above (start_ts, seq) b with [] => false | _ => true end
      | _ => false
      end
  | None => false
  end.

(** The type check [XREAD] starts with: the first key that is not a stream. *)
Fixpoint xread_check (data : Data) (stream : list (string * Z * Z)) : Result CustomError () :=
  match stream with
  | [] => Ok tt
  | (key, _, _) :: rest =>
      match data !! key with
      | Some it =>
          match value it with
          | StreamV _ => xread_check data rest
          | _ => Err (unsupported key)
          end
      | None => xread_check data rest
      end
  end.

(** The id [$] stands for, [(u64::MAX, u64::MAX)], is the last id of the stream. *)
Definition resolve_last (data : Data) (s : string * Z * Z) : string * Z * Z :=
  let '(key, ts, seq) := s in
  if (ts =? u64_max) && (seq =? u64_max) then
    let id := match data !! key with
              | Some it =>
                  match value it with
                  | StreamV b => match bt_last_key_value b with Some (k, _) => k | None => (0, 0) end
                  | _ => (0, 0)
                  end
              | None => (0, 0)
              end in
    (key, id.1, id.2)
  else s.

(** The streams that have entries, with the entries. *)
Definition stream_replies (data : Data) (count : option Z) (stream : list (string * Z * Z)) :
    list (string * RespType) :=
  omap (fun '(key, ts, seq) =>
    match _extract_stream_entries data key (unwrap_or count u64_max) ts seq with
    | Some b => Some (key, b)
    | None => None
    end) stream.

(** [*N \[*2 \[key, entries\], ...\]]. *)
Definition stream_array (stream_vec : list (string * RespType)) : RespType :=
  build_array (len stream_vec)
    (List.map (fun '(key, entries) => build_array 2 [bulk key; entries]) stream_vec).

(** ** Streams stay ordered *)
Definition stream_at (data : Data) (key : string) : option Stream :=
  match data !! key with
  | Some it => match value it with StreamV b => Some b | _ => None end
  | None => Some []
  end.

(** Ids compare as pairs of numbers. *)
Definition id_lt (a b : Z * Z) : Prop := a.1 < b.1 \/ (a.1 = b.1 /\ a.2 < b.2).

Lemma id_cmp_lt (a b : Z * Z) : cmp a b = Lt <-> id_lt a b.
Proof.
  destruct a as [a1 a2], b as [b1 b2]. unfold id_lt. cbn.
  destruct (Z.compare_spec a1 b1); [|split; [lia|done]|split; [done|lia]].
  rewrite Z.compare_lt_iff. lia.
Qed.

Definition last_id (b : Stream) : option (Z * Z) :=
  match bt_last_key_value b with Some (k, _) => Some k | None => None end.

(** An explicit id is accepted exactly when it is positive and above the last. *)
Lemma xadd_id_explicit now b t i :
  let ok := (t, i) <> (0, 0) /\ match last_id b with Some l => id_lt l (t, i) | None => True end in
  match xadd_id now b (Some t, Some i) with
  | Ok id => id = (t, i) /\ ok
  | Err _ => ~ ok
  end.
Proof.
  unfold xadd_id, last_id, id_lt. destruct (Z.eqb_spec t 0), (Z.eqb_spec i 0); cbn;
    [intros []; congruence|..];
    destruct (bt_last_key_value b) as [[[tl il] ?]|]; cbn;
    try (split; [done|]; split; [congruence|done]);
    destruct (Z.ltb_spec tl t), (Z.eqb_spec t tl), (Z.ltb_spec il i); cbn;
    first [intros [_ ?]; lia | split; [done|]; split; [congruence|lia]].
Qed.

(** The id an accepted entry gets is above the last one: always for an explicit
    id, unless the sequence wraps for [t-*], and when the clock has moved on for
    [*]. *)
Lemma xadd_id_above now b id r : xadd_id now b id = Ok r ->
  (id = (None, None) -> forall l, last_id b = Some l -> l.1 < now) ->
  (id.2 = None -> forall l, last_id b = Some l -> 0 <= l.2 < u64_max) ->
  forall l, last_id b = Some l -> id_lt l r.
Proof.
  intros Hr Hstar Hseq l Hl. unfold xadd_id, last_id, id_lt in *.
  destruct id as [[t|] [i|]].
  - destruct ((t =? 0) && (i =? 0)); [done|].
    destruct (bt_last_key_value b) as [[[tl il] ?]|]; [|done].
    injection Hl as <-. destruct ((tl <? t) || ((t =? tl) && (il <? i))) eqn:Hc; [|done].
    injection Hr as <-. apply orb_true_iff in Hc as [Hc|Hc]; bools; cbn; lia.
  - destruct (bt_last_key_value b) as [[[tl il] ?]|]; [|done].
    injection Hl as <-. specialize (Hseq eq_refl _ eq_refl). cbn in Hseq.
    destruct (Z.eqb_spec t tl) as [->|].
    + injection Hr as <-. rewrite wrap_u64_id by (unfold is_u64; lia). cbn. lia.
    + destruct (Z.ltb_spec tl t); [|done]. injection Hr as <-. cbn. lia.
  - done.
  - injection Hr as <-. specialize (Hstar eq_refl _ Hl). cbn. lia.
Qed.

(** [XADD] of an id above the last appends the entry, and the stream stays
    ordered; other keys are untouched. *)
Lemma cmd_xadd_appends now data key b id r vs :
  stream_at data key = Some b -> bt_sorted b ->
  xadd_id now b id = Ok r -> (forall l, last_id b = Some l -> id_lt l r) ->
  exists data', cmd_xadd now data key id vs = (data', Ok (Some (bulk (show_id r)))) /\
    stream_at data' key = Some (b ++ [(r, vs)]) /\ bt_sorted (b ++ [(r, vs)]) /\
    forall k, k <> key -> data' !! k = data !! k.
Proof.
  intros Hat Hs Hr Habove.
  assert (bt_insert r vs b = b ++ [(r, vs)]) as Hins.
  { unfold last_id, bt_last_key_value in Habove. destruct (last b) as [[k v]|] eqn:Hl.
    - eapply bt_insert_above_last; [done|done|]. by apply id_cmp_lt, Habove.
    - apply last_None in Hl. by subst b. }
  rewrite <- Hins. unfold cmd_xadd, or_insert, stream_at in *.
  destruct (data !! key) as [it|] eqn:Hk.
  - destruct (value it) eqn:Hv; try done. injection Hat as ->. rewrite Hr.
    eexists. split; [done|]. unfold set_value_of. rewrite lookup_insert_eq.
    split; [done|]. split; [by apply bt_insert_sorted|]. intros. by rewrite lookup_insert_ne.
  - injection Hat as <-. cbn [value]. rewrite Hr.
    eexists. split; [done|]. unfold set_value_of. rewrite lookup_insert_eq.
    split; [done|]. split; [by apply bt_insert_sorted|]. intros. by rewrite !lookup_insert_ne.
Qed.

(** A refused [XADD] on an existing stream changes nothing. *)
Lemma cmd_xadd_refused now data key it b id vs e :
  data !! key = Some it -> value it = StreamV b -> xadd_id now b id = Err e ->
  cmd_xadd now data key id vs = (data, Err e).
Proof. intros Hk Hv He. unfold cmd_xadd, or_insert. by rewrite Hk, Hv, He. Qed.

(** On an absent key it leaves an empty stream behind. *)
Lemma cmd_xadd_refused_creates now data key vs : data !! key = None ->
  cmd_xadd now data key (Some 0, Some 0) vs =
  (<[key := item (StreamV []) None]> data, Err msg_invalid_00).
Proof. intros Hk. unfold cmd_xadd, or_insert. by rewrite Hk. Qed.

(** [XADD *] takes [now-0] without looking at the last entry: a second one in
    the same millisecond replaces the first. *)
Lemma cmd_xadd_star_overwrites now data key vs vs' : data !! key = None ->
  let (data1, _) := cmd_xadd now data key (None, None) vs in
  let (data2, r) := cmd_xadd now data1 key (None, None) vs' in
  r = Ok (Some (bulk (show_id (now, 0)))) /\ stream_at data2 key = Some [((now, 0), vs')].
Proof.
  intros Hk. unfold cmd_xadd, or_insert, set_value_of, stream_at. rewrite Hk. cbn [value xadd_id].
  rewrite lookup_insert_eq. cbn [value expired_at]. rewrite lookup_insert_eq. cbn [value].
  split; [done|]. cbn. by rewrite !Z.compare_refl.
Qed.

(** ** [XRANGE] and [XREAD] *)

(** The reply form of an entry. *)
Definition entry_resp (e : Z * Z * list string) : RespType :=
  Array 2 (Some [bulk (show_id e.1); Array (len e.2) (Some (List.map bulk e.2))]).

Lemma get_resp_stream_entity_eq kv : _get_resp_stream_entity kv = List.map entry_resp kv.
Proof.
  apply List.map_ext. intros [k v]. unfold entry_resp. cbn [fst snd].
  by rewrite !build_array_some_eq.
Qed.

Definition between (a b k : Z * Z) : Prop := ~ id_lt k a /\ ~ id_lt b k.

Lemma id_lt_dec a b : {id_lt a b} + {~ id_lt a b}.
Proof. destruct (cmp a b) eqn:Hc; [right|left|right]; rewrite <- id_cmp_lt, Hc; done. Qed.

(** The range between bounds that are not crossed. *)
Lemma range_of_log lo hi (b : Stream) : cmp lo hi <> Gt ->
  bt_range lo hi b = Ret (List.filter (fun e =>
    match cmp lo e.1, cmp e.1 hi with Gt, _ | _, Gt => false | _, _ => true end) b).
Proof. intros Hc. unfold bt_range. by destruct b, (cmp lo hi). Qed.

(** C31: [XRANGE] on a stream replies with the entries between the bounds, in order;
    when the first bound is above the second it panics, unless the stream is empty. *)
Lemma cmd_xrange_spec data key it b lo hi :
  data !! key = Some it -> value it = StreamV b -> bt_sorted b ->
  if id_lt_dec hi lo then
    cmd_xrange data key lo hi = match b with [] => Ret (Ok (Some (Array 0 (Some [])))) | _ => Panic end
  else exists kv, cmd_xrange data key lo hi =
      Ret (Ok (Some (Array (len kv) (Some (List.map entry_resp kv))))) /\
    bt_sorted kv /\ forall e, e ∈ kv <-> e ∈ b /\ between lo hi e.1.
Proof.
  intros Hk Hv Hs. unfold cmd_xrange. rewrite Hk, Hv.
  destruct (id_lt_dec hi lo) as [Hlt|Hlt]; rewrite <- id_cmp_lt, <- cmp_gt_lt in Hlt.
  - unfold bt_range. rewrite Hlt. by destruct b.
  - rewrite range_of_log by done. eexists. split.
    { cbn [outcome_bind]. rewrite build_array_some_eq, get_resp_stream_entity_eq. reflexivity. }
    split; [by apply filter_sorted|]. intros e. rewrite !list_elem_of_In, filter_In.
    unfold between. rewrite <- !id_cmp_lt. rewrite <- !cmp_gt_lt.
    split; intros [Hi Hc]; (split; [done|]).
    + destruct (cmp lo e.1), (cmp e.1 hi); done.
    + destruct Hc as [Hc1 Hc2]. destruct (cmp lo e.1), (cmp e.1 hi); done.
Qed.

(** [XREAD] from an id sees exactly the entries added above it. *)
Lemma stream_above_appended (b new : Stream) id :
  Forall (fun e => ~ id_lt id e.1) b -> Forall (fun e => id_lt id e.1) new ->
  bt_range_above id (b ++ new) = new.
Proof.
  intros Hb Hn. unfold bt_range_above. rewrite List.filter_app.
  assert (List.filter (fun e => match cmp e.1 id with Gt => true | _ => false end) b = []) as ->.
  { induction Hb as [|e b He Hb IH]; [done|]. cbn -[cmp]. rewrite <- id_cmp_lt, <- cmp_gt_lt in He.
    by destruct (cmp e.1 id). }
  induction Hn as [|e new He Hn IH]; [done|]. cbn -[cmp] in *.
  rewrite <- id_cmp_lt, <- cmp_gt_lt in He. rewrite He. by f_equal.
Qed.

(** [XREAD] from the last id after an [XADD]: just the new entry. *)
Lemma xread_after_xadd now data key b r vs id count :
  stream_at data key = Some b -> bt_sorted b -> xadd_id now b id = Ok r ->
  (forall l, last_id b = Some l -> id_lt l r) -> id_lt (0, 0) r -> 1 <= count -> vs <> [] ->
  let start := match last_id b with Some l => l | None => (0, 0) end in
  let (data', _) := cmd_xadd now data key id vs in
  _extract_stream_entries data' key count start.1 start.2 = Some (Array 1 (Some [entry_resp (r, vs)])).
Proof.
  intros Hat Hs Hr Habove Hpos Hc Hvs start.
  destruct (cmd_xadd_appends now data key b id r vs Hat Hs Hr Habove) as (data' & -> & Hat' & _ & _).
  unfold _extract_stream_entries, stream_at in *.
  destruct (data' !! key) as [it|]; [|by destruct b].
  destruct (value it); try done. injection Hat' as ->.
  replace (start.1, start.2) with start by by destruct start.
  rewrite stream_above_appended.
  - unfold iter_take. change (len [(r, vs)]) with 1. rewrite Z.min_r by lia.
    change (take (Z.to_nat 1) [(r, vs)]) with [(r, vs)].
    rewrite build_array_some_eq. cbn [List.map]. unfold entry_resp. cbn [fst snd].
    destruct vs as [|v vs]; [done|]. cbn [List.map]. by rewrite !build_array_cons.
  - apply Forall_forall. intros e He. unfold start, last_id, bt_last_key_value in *.
    destruct (last b) as [[k v]|] eqn:Hl.
    + rewrite <- id_cmp_lt, <- cmp_gt_lt.
      destruct (bt_last_above b k v e Hs Hl He) as [Hlt| ->]; [by rewrite Hlt|].
      cbn [fst]. by rewrite cmp_refl.
    + apply last_None in Hl. subst b. by apply not_elem_of_nil in He.
  - constructor; [|constructor]. cbn [fst]. unfold start. destruct (last_id b) as [l|]; [by apply Habove|done].
Qed.

Lemma xadd_id_above_witness : id_lt (5, 2) (5, 3).
Proof.
  apply (xadd_id_above 9 [((5, 2), ["f"; "v"]%string)] (Some 5, None) (5, 3));
    [reflexivity|done| |reflexivity].
  intros _ l [= <-]. by vm_compute.
Defined.

(** A key space with a stream of two entries. *)
Definition demo_stream : Stream := [((5, 2), ["f"; "v"]%string); ((6, 0), ["f"; "w"]%string)].
Definition demo_streams : Data := {["s"%string := item (StreamV demo_stream) None]}.

Lemma demo_stream_sorted : bt_sorted demo_stream.
Proof. repeat constructor; vm_compute; reflexivity. Qed.

Lemma cmd_xrange_spec_witness :
  if id_lt_dec (6, 0) (5, 3) then
    cmd_xrange demo_streams "s" (5, 3) (6, 0) = match demo_stream with [] => Ret (Ok (Some (Array 0 (Some [])))) | _ => Panic end
  else exists kv, cmd_xrange demo_streams "s" (5, 3) (6, 0) =
      Ret (Ok (Some (Array (len kv) (Some (List.map entry_resp kv))))) /\
    bt_sorted kv /\ forall e, e ∈ kv <-> e ∈ demo_stream /\ between (5, 3) (6, 0) e.1.
Proof.
  apply (cmd_xrange_spec demo_streams "s" (item (StreamV demo_stream) None));
    [reflexivity|reflexivity|exact demo_stream_sorted].
Defined.

Lemma xread_after_xadd_witness :
  let (data', _) := cmd_xadd 9 demo_streams "s" (Some 7, None) ["g"; "x"] in
  _extract_stream_entries data' "s" 1 6 0 = Some (Array 1 (Some [entry_resp ((7, 0), ["g"; "x"]%string)])).
Proof.
  apply (xread_after_xadd 9 demo_streams "s" demo_stream (7, 0) ["g"; "x"]%string (Some 7, None) 1);
    [reflexivity|exact demo_stream_sorted|reflexivity| |by left|done|done].
  intros l [= <-]. by left.
Defined.
