(* ===== verification/StreamSpec.v ===== *)
(** * What the stream commands promise

    The specification of a key with a stream is a log that only grows at its end,
    with ids in strictly increasing order. [stream_refines]: any sequence of [XADD],
    [XRANGE] and reads after an id answers what the log does. *)

From S2P Require Import Prelude Text Float64 Resp CmdBuilder Bitmap BTree SortedSet Store StreamCmds Refinement KeySpec.

Inductive stream_op : Type :=
| XAdd (now : Z) (id : option Z * option Z) (vs : list string)
| XRange (lo hi : Z * Z)
| XReadAfter (count : Z) (id : Z * Z).

(** The command of the source; of [XREAD], the part that reads one key. *)
Definition stream_step (key : string) (op : stream_op) (data : Data) : outcome (Data * Reply) :=
  match op with
  | XAdd now id vs => Ret (cmd_xadd now data key id vs)
  | XRange lo hi => let! r := cmd_xrange data key lo hi in Ret (data, r)
  | XReadAfter count id => Ret (data, Ok (_extract_stream_entries data key count id.1 id.2))
  end.

(** ** The specification *)
Definition above_id (a b : Z * Z) : bool := bool_decide (cmp a b = Lt).

(** The id of the last entry; [0-0] before there is one. *)
Definition top (l : Stream) : Z * Z := unwrap_or (last_id l) (0, 0).

(** The id a new entry gets: the one asked for when it is above the top, the next
    one of a millisecond, or the time. *)
Definition next_id (now : Z) (l : Stream) (id : option Z * option Z) : Result CustomError (Z * Z) :=
  match id with
  | (Some t, Some i) =>
      if above_id (top l) (t, i) then Ok (t, i)
      else if bool_decide ((t, i) = (0, 0)) then Err msg_invalid_00 else Err msg_invalid_last
  | (Some t, None) =>
      match t ?= (top l).1 with
      | Eq => Ok (t, (top l).2 + 1)
      | Gt => Ok (t, 0)
      | Lt => Err msg_invalid_format
      end
  | (None, None) => Ok (now, 0)
  | (None, Some _) => Err msg_invalid_format
  end.

Definition entries_reply (es : list (Z * Z * list string)) : RespType :=
  Array (len es) (Some (List.map entry_resp es)).

Definition stream_spec (op : stream_op) (o : option Stream) : option Stream * Reply :=
  let l := unwrap_or o [] in
  match op with
  | XAdd now id vs =>
      match next_id now l id with
      | Ok r => (Some (l ++ [(r, vs)]), Ok (Some (bulk (show_id r))))
      | Err e => (Some l, Err e)
      end
  | XRange lo hi =>
      (o, Ok (Some (entries_reply
        (List.filter (fun e => negb (above_id e.1 lo) && negb (above_id hi e.1)) l))))
  | XReadAfter count id =>
      (o, Ok match take (Z.to_nat count) (List.filter (fun e => above_id id e.1) l) with
             | [] => None
             | es => Some (entries_reply es)
             end)
  end.

(** Numbers of their machine width, a sequence that has room, a clock that has
    moved on, a bound not above the other. *)
Definition stream_admits (op : stream_op) (o : option Stream) : bool :=
  let l := unwrap_or o [] in
  match op with
  | XAdd now id vs =>
      negb (bool_decide (vs = [])) &&
      match id with
      | (Some t, Some i) => (0 <=? t) && (0 <=? i)
      | (Some t, None) => (0 <=? t) && ((top l).2 <? u64_max)
      | (None, None) => (top l).1 <? now
      | (None, Some _) => true
      end
  | XRange lo hi => match o with Some _ => negb (above_id hi lo) | None => true end
  | XReadAfter count id => 0 <=? count
  end.

(** A log in order, its ids from [0-0] on, without empty entries. *)
Definition log_wf (l : Stream) : Prop :=
  bt_sorted l /\ Forall (fun e => 0 <= e.1.1 /\ 0 <= e.1.2 /\ e.2 <> []) l.

Definition is_stream (it : StoreItem) (l : Stream) : Prop := value it = StreamV l /\ log_wf l.

(** What another type answers; the reads after an id look at streams only. *)
Definition stream_foreign (key : string) (op : stream_op) (type : string) : option Reply :=
  Some match op with XReadAfter _ _ => Ok None | _ => Err (unsupported key) end.

Lemma above_id_lt a b : above_id a b = true <-> id_lt a b.
Proof. unfold above_id. by rewrite bool_decide_eq_true, id_cmp_lt. Qed.

Lemma above_id_not_lt a b : above_id a b = false <-> ~ id_lt a b.
Proof. rewrite <- above_id_lt. by destruct (above_id a b). Qed.

Lemma top_nonneg l : log_wf l -> 0 <= (top l).1 /\ 0 <= (top l).2.
Proof.
  intros [_ Hl]. unfold top, last_id, bt_last_key_value. destruct (last l) as [[k v]|] eqn:Hlast; [|cbn; lia].
  apply last_Some in Hlast as [l' ->]. apply Forall_app in Hl as [_ Hl].
  inversion Hl as [|? ? Hk]; subst. cbn in *. lia.
Qed.

(** [xadd_id] picks the id of the specification. *)
Lemma xadd_next_id now l id : log_wf l ->
  match id with (Some t, Some i) => 0 <= t /\ 0 <= i | (Some t, None) => 0 <= t /\ (top l).2 < u64_max | _ => True end ->
  xadd_id now l id = next_id now l id.
Proof.
  intros Hwf Hid. pose proof (top_nonneg l Hwf) as Htop.
  unfold xadd_id, next_id, top, last_id in *. destruct id as [[t|] [i|]]; try done.
  - destruct (above_id _ (t, i)) eqn:E; [apply above_id_lt in E|apply above_id_not_lt in E];
      unfold id_lt in E; destruct (bt_last_key_value l) as [[[tl il] v]|]; cbn in E, Htop;
      destruct (Z.eqb_spec t 0), (Z.eqb_spec i 0); cbn [andb];
      repeat case_bool_decide; try done; try lia; try congruence;
      destruct (Z.ltb_spec tl t), (Z.eqb_spec t tl), (Z.ltb_spec il i); cbn; try done; lia.
  - destruct (bt_last_key_value l) as [[[tl il] v]|]; cbn in *.
    + destruct (Z.compare_spec t tl), (Z.eqb_spec t tl), (Z.ltb_spec tl t); try lia; try done.
      rewrite wrap_u64_id by (unfold is_u64; lia). done.
    + destruct (Z.compare_spec t 0), (Z.eqb_spec t 0); try lia; try done.
Qed.

(** An entry above the top extends the log. *)
Lemma log_extend now l id r vs : log_wf l -> next_id now l id = Ok r -> vs <> [] ->
  match id with (Some t, Some i) => 0 <= t /\ 0 <= i | (Some t, None) => 0 <= t | (None, None) => (top l).1 < now | _ => True end ->
  log_wf (l ++ [(r, vs)]) /\ bt_insert r vs l = l ++ [(r, vs)].
Proof.
  intros Hwf Hr Hvs Hid. pose proof (top_nonneg l Hwf) as Htop.
  assert (0 <= r.1 /\ 0 <= r.2) as Hpos.
  { unfold next_id in Hr. destruct id as [[t|] [i|]]; [|..|done|].
    - destruct (above_id _ _); [by injection Hr as <-|]. by case_bool_decide.
    - destruct (t ?= _); try done; injection Hr as <-; cbn; lia.
    - injection Hr as <-. cbn. lia. }
  assert (forall k, last_id l = Some k -> id_lt k r) as Habove.
  { intros k Hk. unfold top in *. rewrite Hk in *. cbn [unwrap_or] in *. unfold next_id in Hr.
    unfold top in Hr. rewrite Hk in Hr. cbn [unwrap_or] in Hr.
    destruct id as [[t|] [i|]]; [| |done|].
    - destruct (above_id k (t, i)) eqn:E; [|by case_bool_decide]. injection Hr as <-. by apply above_id_lt.
    - destruct (Z.compare_spec t k.1); try done; injection Hr as <-; unfold id_lt; cbn; lia.
    - injection Hr as <-. unfold id_lt. cbn. lia. }
  destruct Hwf as [Hs Hall].
  assert (bt_insert r vs l = l ++ [(r, vs)]) as Hins.
  { unfold last_id, bt_last_key_value in Habove. destruct (last l) as [[k v]|] eqn:Hl.
    - eapply bt_insert_above_last; [done|done|]. by apply id_cmp_lt, Habove.
    - apply last_None in Hl. by subst l. }
  split; [|done]. split; [rewrite <- Hins; by apply bt_insert_sorted|].
  apply Forall_app. split; [done|]. constructor; [cbn; tauto|constructor].
Qed.

Lemma log_filter f (l : Stream) : log_wf l -> log_wf (List.filter f l).
Proof.
  intros [Hs Hl]. split; [by apply filter_sorted|]. rewrite List.Forall_forall in *.
  intros e [He _]%filter_In. by apply Hl.
Qed.

Lemma range_filter lo hi (l : Stream) : above_id hi lo = false ->
  bt_range lo hi l = Ret (List.filter (fun e => negb (above_id e.1 lo) && negb (above_id hi e.1)) l).
Proof.
  intros Hlt%above_id_not_lt. rewrite <- id_cmp_lt, <- cmp_gt_lt in Hlt. rewrite range_of_log by done.
  assert (forall e : Z * Z * list string,
    match cmp lo e.1, cmp e.1 hi with Gt, _ | _, Gt => false | _, _ => true end =
    negb (above_id e.1 lo) && negb (above_id hi e.1)) as Heq.
  { intros e. unfold above_id. rewrite (cmp_opp lo e.1), (cmp_opp e.1 hi).
    by destruct (cmp lo e.1), (cmp e.1 hi). }
  f_equal. apply List.filter_ext. intros e. by rewrite <- Heq.
Qed.

Lemma above_filter_id id (l : Stream) :
  bt_range_above id l = List.filter (fun e => above_id id e.1) l.
Proof.
  apply List.filter_ext. intros e. unfold above_id. rewrite (cmp_opp id e.1).
  by destruct (cmp id e.1).
Qed.

Lemma entries_build (es : Stream) : Forall (fun e => e.2 <> []) es ->
  build_array_some (len es) (List.map (fun '(k, v) =>
    build_array 2 [bulk (show_id k); build_array (len v) (List.map bulk v)]) es) = entries_reply es.
Proof.
  intros Hes. rewrite build_array_some_eq. unfold entries_reply. do 2 f_equal.
  induction Hes as [|[k v] es Hv Hes IH]; [done|]. cbn [List.map]. f_equal; [|done].
  unfold entry_resp. cbn [fst snd] in *. destruct v as [|x v]; [done|].
  cbn [List.map]. by rewrite !build_array_cons.
Qed.

Lemma stream_foreign_ok key op data it r : data !! key = Some it -> get_type (value it) <> "stream"%string ->
  stream_foreign key op (get_type (value it)) = Some r -> stream_step key op data = Ret (data, r).
Proof.
  intros Hk Hty. unfold stream_step, cmd_xadd, cmd_xrange, _extract_stream_entries, or_insert.
  rewrite Hk. destruct op, (value it); try done; by intros [= <-].
Qed.

Lemma stream_implements key data0 :
  Implements (stream_step key) stream_spec stream_admits (at_key (holds_value is_stream) key data0).
Proof.
  intros op data o Hrel Hok. pose proof Hrel as [_ Hkey].
  destruct op as [now id vs|lo hi|count id]; cbn [stream_step].
  - destruct (at_value_or_insert (A:=Stream) _ _ _ _ _ (item (StreamV []) None) [] Hrel)
      as (data1 & it & Ho & (Hv & Hwf) & Hrel1); [by split|].
    set (l := unwrap_or o []) in *.
    unfold stream_admits in Hok. fold l in Hok. apply andb_true_iff in Hok as [Hvs Hid].
    apply negb_true_iff, bool_decide_eq_false in Hvs.
    unfold cmd_xadd. rewrite Ho, Hv, xadd_next_id; [|done|by destruct id as [[t|] [i|]]; bools; try done; lia].
    cbn [stream_spec]. fold l. destruct (next_id now l id) as [r|e] eqn:Hr; [|by exists data1].
    eexists. split; [done|]. destruct (log_extend now l id r vs Hwf Hr Hvs) as [Hwf' Hins].
    { destruct id as [[t|] [i|]]; bools; try done; lia. }
    rewrite Hins. by eapply at_value_set.
  - exists data. unfold cmd_xrange. destruct o as [l|].
    + destruct Hkey as (it & -> & -> & Hwf). cbn in Hok. apply negb_true_iff in Hok.
      rewrite (range_filter lo hi l Hok). cbn [outcome_bind].
      by rewrite build_array_some_eq, get_resp_stream_entity_eq.
    + by rewrite Hkey.
  - exists data. split; [|done]. unfold _extract_stream_entries. cbn in Hok. apply Z.leb_le in Hok.
    destruct o as [l|].
    + destruct Hkey as (it & -> & -> & Hwf). cbn [stream_spec unwrap_or snd].
      replace (id.1, id.2) with id by by destruct id. rewrite iter_take_take, above_filter_id.
      assert (Forall (fun e : Z * Z * list string => e.2 <> []) (take (Z.to_nat count) (List.filter (fun e => above_id id e.1) l))) as Hes.
      { apply Forall_take. apply (log_filter (fun e => above_id id e.1)) in Hwf as [_ Hwf].
        eapply Forall_impl; [exact Hwf|]. by intros e (_ & _ & ?). }
      destruct (take _ _) as [|e es]; [done|]. by rewrite entries_build.
    + rewrite Hkey. cbn. by rewrite take_nil.
Qed.

#[export] Instance stream_key_type :
  KeyType stream_step stream_spec stream_admits (holds_value is_stream) "stream" stream_foreign.
Proof.
  split; [exact stream_implements|done| |exact stream_foreign_ok].
  intros i l (it & -> & Hv & _). exists it. by rewrite Hv.
Qed.

(** C30: any sequence of [XADD], [XRANGE] and reads after an id on a key answers,
    command by command, what an append-only log answers: an entry is accepted
    exactly when its id is above the last one, ranges are the entries between their
    bounds and reads the first ones above the id, in order; the ids stay strictly
    increasing; and no other key changes. *)
Theorem stream_refines key data ops o : at_key (holds_value is_stream) key data data o ->
  admits_all stream_spec stream_admits ops o = true ->
  exists data', run_all (stream_step key) ops data = Ret (data', (spec_all stream_spec ops o).2) /\
    at_key (holds_value is_stream) key data data' (spec_all stream_spec ops o).1.
Proof. intros Hrel Hok. by apply (run_implements _ _ stream_admits (at_key (holds_value is_stream) key data)). Qed.

Lemma stream_refines_witness :
  let ops := [XAdd 9 (Some 5, None) ["f"; "v"]; XAdd 9 (Some 5, Some 0) ["g"; "w"]; XAdd 9 (None, None) ["f"; "x"];
              XRange (5, 0) (8, 0); XReadAfter 10 (5, 0)]%string in
  exists data' l, run_all (stream_step "s") ops ∅ = Ret (data',
    [Ok (Some (bulk "5-0")); Err msg_invalid_last; Ok (Some (bulk "9-0"));
     Ok (Some (entries_reply [((5, 0), ["f"; "v"])])); Ok (Some (entries_reply [((9, 0), ["f"; "x"])]))]%string) /\
  at_key (holds_value is_stream) "s" ∅ data' (Some l).
Proof.
  intros ops. destruct (stream_refines "s" ∅ ops None) as (data' & Hrun & Hrepr).
  - split; [done|apply lookup_empty].
  - vm_compute. reflexivity.
  - exists data'. eexists. split; [|exact Hrepr]. rewrite Hrun. vm_compute. reflexivity.
Defined.
