(* ===== verification/ZsetCmds.v ===== *)
(** * Sorted set and geo commands ([commands/cmd_handler.rs])

    [ZADD], [ZRANK], [ZRANGE], [ZCARD], [ZSCORE], [ZREM], [GEOADD], [GEOPOS],
    [GEODIST] and [GEOSEARCH]. A location is a member whose score is its
    geohash. *)

From Stdlib Require Import SpecFloat.
From S2P Require Import Prelude Text Float64 Resp CmdBuilder Bitmap BTree SortedSet Geohash Store.

(** ** Sorted sets *)
Definition cmd_zadd (data : Data) (key : string) (score : f64) (member : string) :
    outcome (Data * Reply) :=
  let (data, it) := or_insert data key (item (ZSet SortedSet.new) None) in
  match value it with
  | ZSet set =>
      let! (set, count) := SortedSet.add set score member in
      Ret (set_value_of data key it (ZSet set), Ok (Some (Integer (Some count))))
  | _ => Ret (data, Err wrong_type)
  end.

Definition cmd_zrank (data : Data) (key member : string) : outcome Reply :=
  match data !! key with
  | None => Ret (Ok (Some null_bulk))
  | Some it =>
      match value it with
      | ZSet set =>
          let! rank := SortedSet.rank_by_score set member in
          Ret (Ok (Some (match rank with
                         | Some r => Integer (Some r)
                         | None => null_bulk
                         end)))
      | _ => Ret (Err wrong_type)
      end
  end.

Definition cmd_zrange (data : Data) (key : string) (start end_ : Z) : Reply :=
  match data !! key with
  | None => Ok (Some empty_array)
  | Some it =>
      match value it with
      | ZSet set =>
          match SortedSet.get_members set start end_ with
          | [] => Ok (Some empty_array)
          | members => Ok (Some (build_array (len members) (List.map bulk members)))
          end
      | _ => Err wrong_type
      end
  end.

Definition cmd_zcard (data : Data) (key : string) : Reply :=
  match data !! key with
  | None => Ok (Some (Integer (Some 0)))
  | Some it =>
      match value it with
      | ZSet set => Ok (Some (Integer (Some (SortedSet.len set))))
      | _ => Err wrong_type
      end
  end.

Definition cmd_zscore (data : Data) (key member : string) : Reply :=
  match data !! key with
  | None => Ok (Some empty_array)
  | Some it =>
      match value it with
      | ZSet set =>
          match SortedSet.get_score set member with
          | Some score => Ok (Some (bulk (f64_display score)))
          | None => Ok (Some null_bulk)
          end
      | _ => Err wrong_type
      end
  end.

Definition cmd_zrem (data : Data) (key member : string) : outcome (Data * Reply) :=
  match data !! key with
  | None => Ret (data, Ok (Some (Integer (Some 0))))
  | Some it =>
      match value it with
      | ZSet set =>
          let! (set, count) := SortedSet.remove set member in
          Ret (set_value_of data key it (ZSet set), Ok (Some (Integer (Some count))))
      | _ => Ret (data, Err wrong_type)
      end
  end.

(** ** Locations *)
Definition cmd_geoadd (data : Data) (key long lat member : string) : outcome (Data * Reply) :=
  let (data, it) := or_insert data key (item (ZSet SortedSet.new) None) in
  let score :=
    let? long := from_parse_float (parse_f64 long) in
    let? lat := from_parse_float (parse_f64 lat) in
    let? h := encode long lat in
    Ok (f64_of_Z h) in
  match score with
  | Err e => Ret (data, Err e)
  | Ok score =>
      match value it with
      | ZSet set =>
          let! (set, count) := SortedSet.add set score member in
          Ret (set_value_of data key it (ZSet set), Ok (Some (Integer (Some count))))
      | _ => Ret (data, Err wrong_type)
      end
  end.

(** [try_for_each] pushing onto a vector, its result dropped: the values up to
    the first error. *)
Fixpoint collect_until {A B E} (f : A -> Result E B) (l : list A) : list B :=
  match l with
  | [] => []
  | a :: l' => match f a with Ok b => b :: collect_until f l' | Err _ => [] end
  end.

(** The same, with the error returned. *)
Fixpoint collect_all {A B E} (f : A -> Result E B) (l : list A) : Result E (list B) :=
  match l with
  | [] => Ok []
  | a :: l' =>
      let? b := f a in
      let? bs := collect_all f l' in
      Ok (b :: bs)
  end.

Definition geopos_item (o : option f64) : Result CustomError RespType :=
  match o with
  | Some s =>
      let? (long, lat) := decode (f64_to_u64 s) in
      Ok (build_array 2 [bulk (f64_display long); bulk (f64_display lat)])
  | None => Ok null_array
  end.

Definition cmd_geopos (data : Data) (key : string) (members : list string) : Reply :=
  match data !! key with
  | None => Ok (Some (build_array (len members) (List.map (fun _ => null_array) members)))
  | Some it =>
      match value it with
      | ZSet set =>
          let scores := List.map (SortedSet.get_score set) members in
          Ok (Some (build_array (len scores) (collect_until geopos_item scores)))
      | _ => Err wrong_type
      end
  end.

Section Distance.
Context `{Libm}.

Definition cmd_geodist (data : Data) (key : string) (members : list string) : Reply :=
  match data !! key with
  | None => Ok (Some null_bulk)
  | Some it =>
      match value it with
      | ZSet set =>
          let locations := collect_until (fun s =>
            let? score := ok_or (SortedSet.get_score set s)
                            (UnprocessableError "Location not exists") in
            decode (f64_to_u64 score)) members in
          let? d := distance locations in
          Ok (Some (bulk (f64_display d)))
      | _ => Err wrong_type
      end
  end.

Definition cmd_geosearch `{HashOrder} (data : Data) (key : string)
    (from_arg by_arg : CmdArg.t) : Reply :=
  match data !! key with
  | None => Ok (Some null_array)
  | Some it =>
      match value it with
      | ZSet set =>
          let? (long0, lat0) :=
            match from_arg with
            | CmdArg.FromLonLat p => Ok p
            | _ => Err (UnsupportedCmdStructure "Must be FROMLONLAT")
            end in
          let? radius :=
            match by_arg with
            | CmdArg.ByRadius r => Ok r
            | _ => Err (UnsupportedCmdStructure "Must be radius")
            end in
          let? dist_members := collect_all (fun '(k, v) =>
            let? p := decode (f64_to_u64 v) in
            let? d := distance [(long0, lat0); p] in
            Ok (d, k)) (iter_map (SortedSet.members set)) in
          let members :=
            List.map snd (List.filter (fun '(d, _) => f64_leb d radius) dist_members) in
          match members with
          | [] => Ok (Some (Array 0 (Some [])))
          | _ => Ok (Some (build_array (len members) (List.map bulk members)))
          end
      | _ => Ok None
      end
  end.
End Distance.

(** ** Behaviour *)

(** The sorted set of a key, as a map from members to scores. *)
Definition zset_at (data : Data) (key : string) : option SortedSet.t :=
  match data !! key with
  | Some it => match value it with ZSet s => Some s | _ => None end
  | None => Some SortedSet.new
  end.

(** [ZADD] of a new member, or with an equal score, updates the map; the reply
    counts new members. *)
Lemma cmd_zadd_spec data key s sc m :
  zset_at data key = Some s -> ss_wf s -> is_nan sc = false ->
  (forall old, SortedSet.members s !! m = Some old -> cmp sc old = Eq) ->
  exists data' s', cmd_zadd data key sc m = Ret (data',
      Ok (Some (Integer (Some (match SortedSet.members s !! m with Some _ => 0 | None => 1 end))))) /\
    zset_at data' key = Some s' /\ ss_wf s' /\
    SortedSet.members s' = <[m := sc]> (SortedSet.members s).
Proof.
  intros Hat Hwf Hn Hold. destruct (ss_add s Hwf sc m Hn Hold) as (s' & Hadd & Hwf' & Hm).
  assert (exists data1 it, or_insert data key (item (ZSet SortedSet.new) None) = (data1, it) /\
    value it = ZSet s) as (data1 & it & Ho & Hv).
  { unfold or_insert, zset_at in *. destruct (data !! key) as [it|].
    - exists data, it. split; [done|]. destruct (value it); try done. by injection Hat as ->.
    - injection Hat as <-. by do 2 eexists. }
  unfold cmd_zadd. rewrite Ho, Hv, Hadd. cbn [outcome_bind].
  do 2 eexists. split; [done|]. split; [|split; [exact Hwf'|exact Hm]].
  unfold zset_at, set_value_of. by rewrite lookup_insert_eq.
Qed.

(** [ZREM] deletes the member. *)
Lemma cmd_zrem_spec data key it s m :
  data !! key = Some it -> value it = ZSet s -> ss_wf s ->
  exists data' s', cmd_zrem data key m = Ret (data',
      Ok (Some (Integer (Some (match SortedSet.members s !! m with Some _ => 1 | None => 0 end))))) /\
    zset_at data' key = Some s' /\ ss_wf s' /\
    SortedSet.members s' = delete m (SortedSet.members s).
Proof.
  intros Hk Hv Hwf. destruct (ss_remove s Hwf m) as (s' & Hrem & Hwf' & Hm).
  unfold cmd_zrem. rewrite Hk, Hv, Hrem. cbn [outcome_bind].
  do 2 eexists. split; [done|]. split; [|split; [exact Hwf'|exact Hm]].
  unfold zset_at, set_value_of. by rewrite lookup_insert_eq.
Qed.

(** [ZADD k s m] of a member that has another score leaves both entries: the
    member is listed twice, though the set has it once. *)
Lemma cmd_zadd_duplicates key m :
  let one := f64_of_Z 1 in
  let two := f64_of_Z 2 in
  exists d1 d2, cmd_zadd ∅ key one m = Ret (d1, Ok (Some (Integer (Some 1)))) /\
    cmd_zadd d1 key two m = Ret (d2, Ok (Some (Integer (Some 0)))) /\
    cmd_zcard d2 key = Ok (Some (Integer (Some 1))) /\
    cmd_zrange d2 key 0 (-1) = Ok (Some (Array 2 (Some [bulk m; bulk m]))).
Proof.
  intros one two. unfold cmd_zadd at 1, or_insert. rewrite lookup_empty. cbn [value].
  unfold SortedSet.add at 1. cbn [SortedSet.members SortedSet.new].
  rewrite lookup_empty. cbn -[set_value_of one two].
  do 2 eexists. split; [done|].
  unfold cmd_zadd, or_insert, set_value_of at 1. rewrite lookup_insert_eq. cbn [value].
  unfold SortedSet.add. cbn [SortedSet.members]. rewrite lookup_insert_eq.
  cbn -[set_value_of one two].
  change (cmp two one) with Gt. cbn -[set_value_of one two].
  change (cmp two one) with Gt. cbn -[set_value_of one two].
  split; [done|]. unfold cmd_zcard, cmd_zrange, set_value_of. rewrite lookup_insert_eq. cbn.
  split; [|done]. unfold SortedSet.len. cbn. rewrite insert_insert_eq.
  by rewrite map_size_insert_None by apply lookup_empty.
Qed.

(** NaN passes [parse::<f64>] and [ZADD] accepts it on a fresh set; the next
    command that compares scores panics. *)
Lemma zadd_nan_panics key m m' :
  exists d1, cmd_zadd ∅ key S754_nan m = Ret (d1, Ok (Some (Integer (Some 1)))) /\
    forall sc, cmd_zadd d1 key sc m' = Panic.
Proof.
  unfold cmd_zadd at 1, or_insert. rewrite lookup_empty. cbn [value].
  unfold SortedSet.add at 1. cbn [SortedSet.members SortedSet.new].
  rewrite lookup_empty. cbn -[set_value_of]. eexists. split; [done|]. intros sc.
  unfold cmd_zadd, or_insert, set_value_of at 1. rewrite lookup_insert_eq. cbn [value].
  unfold SortedSet.add. cbn [SortedSet.members SortedSet.scores].
  assert (forall A (r : A), SortedSet.guarded sc [(S754_nan, m, tt)] r = Panic) as Hg.
  { intros. unfold SortedSet.guarded. cbn. by destruct (is_nan sc). }
  destruct (_ !! m'); cbn [outcome_bind]; by rewrite Hg.
Qed.

Lemma cmd_zadd_spec_witness : exists data' s',
  cmd_zadd ∅ "z" (f64_of_Z 1) "m" = Ret (data', Ok (Some (Integer (Some 1)))) /\
  zset_at data' "z" = Some s' /\ ss_wf s' /\ SortedSet.members s' = <["m"%string := f64_of_Z 1]> ∅.
Proof. apply (cmd_zadd_spec ∅ "z" SortedSet.new (f64_of_Z 1) "m"); [reflexivity|apply new_ss_wf|reflexivity|done]. Defined.
