(* ===== verification/ZsetSpec.v ===== *)
(** * What the sorted set commands promise

    The specification of a key with a sorted set is a map from members to scores;
    positions are those of the members sorted by score and then by name.
    [zset_refines]: any sequence of sorted set commands answers what the
    specification does, as long as no member changes its score and no score is NaN
    (see [ZsetCmds] for what happens otherwise). *)

From stdpp Require Import sorting.
From S2P Require Import Prelude Text Float64 Resp CmdBuilder Bitmap BTree SortedSet Geohash Store ZsetCmds Refinement KeySpec.

Inductive zset_op : Type :=
| ZAdd (score : f64) (member : string)
| ZRem (member : string)
| ZCard
| ZScore (member : string)
| ZRank (member : string)
| ZRange (start stop : Z).

(** The command of the source. *)
Definition zset_step (key : string) (op : zset_op) (data : Data) : outcome (Data * Reply) :=
  match op with
  | ZAdd score member => cmd_zadd data key score member
  | ZRem member => cmd_zrem data key member
  | ZCard => Ret (data, cmd_zcard data key)
  | ZScore member => Ret (data, cmd_zscore data key member)
  | ZRank member => let! r := cmd_zrank data key member in Ret (data, r)
  | ZRange start stop => Ret (data, cmd_zrange data key start stop)
  end.

(** ** The order of the members *)
Section Order.
Context (S : gmap string f64).

Definition sort_key (m : string) : f64 * string := (unwrap_or (S !! m) (f64_of_Z 0), m).
Definition not_after (a b : string) : Prop := cmp (sort_key a) (sort_key b) <> Gt.
#[export] Instance not_after_dec : RelDecision not_after.
Proof. intros a b. unfold not_after. solve_decision. Defined.

Definition ranking : list string := merge_sort not_after (map_to_list S).*1.

(** How many members come before. *)
Definition rank_of (m : string) : Z :=
  len (List.filter (fun x => match cmp (sort_key x) (sort_key m) with Lt => true | _ => false end)
         (map_to_list S).*1).

Lemma not_after_trans : Transitive not_after.
Proof.
  intros a b c Hab Hbc. unfold not_after in *.
  destruct (cmp (sort_key a) (sort_key b)) eqn:E1; [|clear Hab|done].
  - by rewrite (cmp_eq _ _ _ E1).
  - destruct (cmp (sort_key b) (sort_key c)) eqn:E2; [| |done].
    + by rewrite <- (cmp_eq_r _ _ (sort_key a) E2), E1.
    + by rewrite (cmp_trans _ _ _ E1 E2).
Qed.

Lemma not_after_total : Total not_after.
Proof.
  intros a b. unfold not_after. rewrite (cmp_opp (sort_key a) (sort_key b)).
  destruct (cmp (sort_key a) (sort_key b)); cbn; auto.
Qed.

Lemma not_after_antisymm a b : not_after a b -> not_after b a -> a = b.
Proof.
  unfold not_after. rewrite (cmp_opp (sort_key a) (sort_key b)).
  destruct (cmp (sort_key a) (sort_key b)) eqn:E; cbn; [|done..].
  intros _ _. by apply cmp_score_member in E as [_ ?].
Qed.
End Order.

(** The tree lists the members in that order. *)
Lemma sort_key_entry s sc m : ss_wf s -> (sc, m, tt) ∈ SortedSet.scores s ->
  sort_key (SortedSet.members s) m = (sc, m).
Proof. intros Hwf Hin%(ss_entry s Hwf). unfold sort_key. by rewrite Hin. Qed.

Lemma ordered_ranking s : ss_wf s -> ordered s = ranking (SortedSet.members s).
Proof.
  intros Hwf. set (S := SortedSet.members s). pose proof (not_after_trans S).
  pose proof (not_after_total S).
  apply (StronglySorted_unique_strong (not_after S)).
  - intros x1 x2 _ _. apply not_after_antisymm.
  - unfold ordered. pose proof (ss_sorted s Hwf) as Hs.
    assert (forall sc m, (sc, m, tt) ∈ SortedSet.scores s -> sort_key S m = (sc, m)) as Hkey.
    { intros. by apply sort_key_entry. }
    induction (SortedSet.scores s) as [|[[sc m] []] l IH]; cbn; constructor.
    + apply IH; [apply Hs|]. intros. apply Hkey. by right.
    + destruct Hs as [Ha _]. apply List.Forall_forall. intros x (([sc' m'] & []) & <- & Hin)%in_map_iff.
      apply list_elem_of_In in Hin. cbn. unfold not_after.
      rewrite (Hkey sc m) by by left. rewrite (Hkey sc' m') by by right.
      by rewrite (above_not_in _ _ _ _ Ha Hin).
  - by apply StronglySorted_merge_sort.
  - unfold ranking. rewrite merge_sort_Permutation. by apply ordered_members.
Qed.

Lemma filter_length_perm {A} (f : A -> bool) l k : l ≡ₚ k ->
  List.length (List.filter f l) = List.length (List.filter f k).
Proof. induction 1; cbn; repeat case_match; cbn; congruence. Qed.

Lemma rank_spec s m sc : ss_wf s -> SortedSet.members s !! m = Some sc ->
  SortedSet.rank_by_score s m = Ret (Some (rank_of (SortedSet.members s) m)).
Proof.
  intros Hwf Hm. unfold SortedSet.rank_by_score.
  rewrite Hm, guarded_ok by (by apply (ss_no_nan s Hwf) || by eapply ss_not_nan). cbn [outcome_bind].
  do 2 f_equal. unfold rank_of, bt_range_to, len. f_equal.
  rewrite <- (filter_length_perm _ _ _ (ordered_members s Hwf)).
  assert (sort_key (SortedSet.members s) m = (sc, m)) as -> by (unfold sort_key; by rewrite Hm).
  assert (forall sc m, (sc, m, tt) ∈ SortedSet.scores s -> sort_key (SortedSet.members s) m = (sc, m)) as Hkey.
  { intros. by apply sort_key_entry. }
  unfold ordered. induction (SortedSet.scores s) as [|[[sc' m'] []] l IH]; [done|].
  cbn [List.filter List.map fst snd]. rewrite (Hkey sc' m') by by left.
  specialize (IH ltac:(intros; apply Hkey; by right)).
  destruct (cmp (sc', m') (sc, m)); cbn [List.length]; by rewrite ?IH.
Qed.

(** ** The specification *)
Definition zset_spec (op : zset_op) (o : option (gmap string f64)) : option (gmap string f64) * Reply :=
  let S := unwrap_or o ∅ in
  match op with
  | ZAdd sc m => (Some (<[m := sc]> S), int_answer match S !! m with Some _ => 0 | None => 1 end)
  | ZRem m => ((fun S => delete m S) <$> o, int_answer match S !! m with Some _ => 1 | None => 0 end)
  | ZCard => (o, int_answer (Z.of_nat (size S)))
  | ZScore m =>
      (o, Ok (Some match o with
                   | Some sm => match sm !! m with Some sc => bulk (f64_display sc) | None => null_bulk end
                   | None => empty_array
                   end))
  | ZRank m => (o, match S !! m with Some _ => int_answer (rank_of S m) | None => Ok (Some null_bulk) end)
  | ZRange i j =>
      let n := Z.of_nat (size S) in
      let ms := slice (ranking S) (clamp n i) (clamp n j + 1) in
      (o, Ok (Some (Array (len ms) (Some (List.map bulk ms)))))
  end.

(** No NaN, no new score for a member, and indices of their machine width. *)
Definition zset_admits (op : zset_op) (o : option (gmap string f64)) : bool :=
  let S := unwrap_or o ∅ in
  match op with
  | ZAdd sc m =>
      negb (is_nan sc) &&
      match S !! m with Some old => match cmp sc old with Eq => true | _ => false end | None => true end
  | ZRange i j => i64b i && i64b j && (Z.of_nat (size S) <=? i64_max)
  | _ => true
  end.

Definition is_zset (it : StoreItem) (S : gmap string f64) : Prop :=
  exists s, value it = ZSet s /\ ss_wf s /\ SortedSet.members s = S.

(** What another type answers. *)
Definition zset_foreign (key : string) (op : zset_op) (type : string) : option Reply :=
  Some (Err wrong_type).

Lemma range_spec s i j : ss_wf s -> Z.of_nat (size (SortedSet.members s)) <= i64_max -> is_i64 i -> is_i64 j ->
  SortedSet.get_members s i j =
  slice (ranking (SortedSet.members s)) (clamp (Z.of_nat (size (SortedSet.members s))) i)
    (clamp (Z.of_nat (size (SortedSet.members s))) j + 1).
Proof.
  intros Hwf Hn Hi Hj. pose proof (len_scores s Hwf) as Hlen. unfold SortedSet.len in Hlen.
  rewrite <- Hlen in *. by rewrite get_members_slice, ordered_ranking.
Qed.

Lemma zset_foreign_ok key op data it : data !! key = Some it -> get_type (value it) <> "zset"%string ->
  zset_step key op data = Ret (data, Err wrong_type).
Proof.
  intros Hk Hty. unfold zset_step, cmd_zadd, cmd_zrem, cmd_zcard, cmd_zscore, cmd_zrank, cmd_zrange, or_insert.
  rewrite Hk. by destruct op, (value it).
Qed.

Lemma zset_implements key data0 :
  Implements (zset_step key) zset_spec zset_admits (at_key (holds_value is_zset) key data0).
Proof.
  intros op data o Hrel Hok. destruct op as [sc m|m| |m|m|i j]; cbn [zset_step].
  - destruct (at_value_or_insert _ _ _ _ _ (item (ZSet SortedSet.new) None) ∅ Hrel)
      as (data1 & it & Ho & (s & Hv & Hwf & HS) & Hrel1).
    { exists SortedSet.new. split_and!; [done|apply new_ss_wf|done]. }
    unfold zset_admits in Hok. cbv zeta in Hok. rewrite <- HS in *. bools.
    destruct (ss_add s Hwf sc m) as (s' & Hadd & Hwf' & Hm); [done| |].
    { intros old Hold. rewrite Hold in *. by destruct (cmp sc old). }
    unfold cmd_zadd. rewrite Ho, Hv, Hadd. cbn. eexists. rewrite <- HS.
    split; [done|]. eapply at_value_set; [done|]. by exists s'.
  - pose proof Hrel as [Hother Hkey]. unfold cmd_zrem. destruct o as [S|].
    + destruct Hkey as (it & -> & s & -> & Hwf & <-).
      destruct (ss_remove s Hwf m) as (s' & -> & Hwf' & Hm). cbn. eexists. split; [done|].
      eapply at_value_set; [done|]. by exists s'.
    + rewrite Hkey. cbn. rewrite lookup_empty. by exists data.
  - exists data. split; [|done]. pose proof Hrel as [_ Hkey]. unfold cmd_zcard. destruct o as [S|].
    + by destruct Hkey as (it & -> & s & -> & _ & <-).
    + rewrite Hkey. cbn. by rewrite map_size_empty.
  - exists data. split; [|done]. pose proof Hrel as [_ Hkey]. unfold cmd_zscore. destruct o as [S|].
    + destruct Hkey as (it & -> & s & -> & _ & <-). cbn. unfold SortedSet.get_score.
      by destruct (SortedSet.members s !! m).
    + by rewrite Hkey.
  - exists data. pose proof Hrel as [_ Hkey]. unfold cmd_zrank. destruct o as [S|].
    + destruct Hkey as (it & -> & s & -> & Hwf & <-). cbn. destruct (SortedSet.members s !! m) as [sc|] eqn:Hm.
      * by rewrite (rank_spec s m sc Hwf Hm).
      * unfold SortedSet.rank_by_score. by rewrite Hm.
    + rewrite Hkey. cbn. by rewrite lookup_empty.
  - exists data. split; [|done]. pose proof Hrel as [_ Hkey]. cbn in Hok. bools. unfold cmd_zrange.
    destruct o as [S|].
    + destruct Hkey as (it & -> & s & -> & Hwf & <-). rewrite range_spec by (done || by apply i64b_spec).
      cbn [zset_spec snd unwrap_or]. destruct (slice _ _ _); [done|]. cbn [List.map]. by rewrite build_array_cons.
    + rewrite Hkey. cbn. rewrite map_size_empty. unfold slice, ranking.
      rewrite map_to_list_empty. change (merge_sort _ _) with (@nil string). by rewrite drop_nil, take_nil.
Qed.

#[export] Instance zset_key_type :
  KeyType zset_step zset_spec zset_admits (holds_value is_zset) "zset" zset_foreign.
Proof.
  split; [exact zset_implements|done| |].
  - intros i l (it & -> & s & Hv & _). exists it. by rewrite Hv.
  - intros key op data it r Hk Hty [= <-]. by apply (zset_foreign_ok key op data it).
Qed.

(** C32: any sequence of [ZADD], [ZREM], [ZCARD], [ZSCORE], [ZRANK] and [ZRANGE] on a
    key answers, command by command, what the same operations on a map from
    members to scores answer, ranks and ranges by score and then by name; and no
    other key changes. The scores must not be NaN, and a member keeps its score. *)
Theorem zset_refines key data ops o : at_key (holds_value is_zset) key data data o ->
  admits_all zset_spec zset_admits ops o = true ->
  exists data', run_all (zset_step key) ops data = Ret (data', (spec_all zset_spec ops o).2) /\
    at_key (holds_value is_zset) key data data' (spec_all zset_spec ops o).1.
Proof. intros Hrel Hok. by apply (run_implements _ _ zset_admits (at_key (holds_value is_zset) key data)). Qed.

Lemma zset_refines_witness :
  let ops := [ZAdd (f64_of_Z 2) "b"; ZAdd (f64_of_Z 1) "c"; ZAdd (f64_of_Z 2) "a"; ZRange 0 (-1);
              ZRank "b"; ZRem "c"; ZCard; ZRange 0 0]%string in
  exists data' S, run_all (zset_step "z") ops ∅ = Ret (data',
    [int_answer 1; int_answer 1; int_answer 1;
     Ok (Some (Array 3 (Some (List.map bulk ["c"; "a"; "b"])))); int_answer 2; int_answer 1; int_answer 2;
     Ok (Some (Array 1 (Some [bulk "a"])))]%string) /\
  at_key (holds_value is_zset) "z" ∅ data' (Some S).
Proof.
  intros ops. destruct (zset_refines "z" ∅ ops None) as (data' & Hrun & Hrepr).
  - split; [done|apply lookup_empty].
  - vm_compute. reflexivity.
  - exists data'. eexists. split; [|exact Hrepr]. rewrite Hrun. vm_compute. reflexivity.
Defined.
