(* ===== verification/KeyspaceSpec.v ===== *)
(** * The key space as a whole

    The abstract key space maps keys to values of the five types. A command is
    specified by the specification of its type ([KeyType]) on a key that holds that
    type or nothing, and by what a key of another type answers. [keyspace_refines]:
    any sequence of commands on any keys, each at its own time, answers what the
    abstract key space answers. *)

From S2P Require Import Prelude Text Float64 Resp CmdBuilder Bitmap BTree SortedSet Geohash Store.
From S2P Require Import StringCmds ListCmds BitmapCmds StreamCmds ZsetCmds.
From S2P Require Import Refinement KeySpec StringSpec ListSpec BitmapSpec StreamSpec ZsetSpec.

(** ** Abstract values *)
Inductive AbsValue : Type :=
| AString (a : string * option Z)
| AList (l : list string)
| ABits (b : BitSet)
| AStream (l : Stream)
| AZset (sc : gmap string f64).

Abbreviation Keyspace := (gmap string AbsValue) (only parsing).

Definition abs_type (v : AbsValue) : string :=
  match v with
  | AString _ => "string"
  | AList _ => "list"
  | ABits _ => "bitmap"
  | AStream _ => "stream"
  | AZset _ => "zset"
  end.

Definition is_abs (it : StoreItem) (v : AbsValue) : Prop :=
  match v with
  | AString a => is_string it a
  | AList l => is_list it l
  | ABits b => is_bitmap it b
  | AStream l => is_stream it l
  | AZset sc => is_zset it sc
  end.

(** The key space of the server represents the abstract one. *)
Definition represents (data : Data) (ks : Keyspace) : Prop :=
  forall k, holds_value is_abs (data !! k) (ks !! k).

Lemma is_abs_type it v : is_abs it v -> get_type (value it) = abs_type v.
Proof.
  destruct v; cbn.
  - by intros [-> _].
  - by intros ->.
  - by intros (? & -> & _).
  - by intros [-> _].
  - by intros (? & -> & _).
Qed.

Lemma represents_insert data ks key it v : represents data ks -> is_abs it v ->
  represents (<[key := it]> data) (<[key := v]> ks).
Proof.
  intros Hrep Hit k. destruct (decide (k = key)) as [->|Hne].
  - rewrite !lookup_insert_eq. by apply holds_some.
  - rewrite !lookup_insert_ne by done. apply Hrep.
Qed.

Lemma represents_delete data ks key : represents data ks -> represents (delete key data) (delete key ks).
Proof.
  intros Hrep k. destruct (decide (k = key)) as [->|Hne].
  - by rewrite !lookup_delete_eq.
  - rewrite !lookup_delete_ne by done. apply Hrep.
Qed.

(** ** Commands of one type *)

(** A type of values among the abstract ones. *)
Class Embeds {A} (is_value : StoreItem -> A -> Prop) (inj : A -> AbsValue) (prj : AbsValue -> option A)
    (type : string) : Prop := {
  emb_prj : forall v a, prj v = Some a <-> v = inj a;
  emb_is : forall it a, is_abs it (inj a) <-> is_value it a;
  emb_type : forall v, prj v = None -> abs_type v <> type;
}.

Section OneType.
Context {Op A : Type} (spec : Op -> option A -> option A * Reply) (admits : Op -> option A -> bool).
Context (foreign : string -> Op -> string -> option Reply).
Context (inj : A -> AbsValue) (prj : AbsValue -> option A).

Definition put (key : string) (o : option A) (ks : Keyspace) : Keyspace :=
  match o with
  | Some a => <[key := inj a]> ks
  | None => delete key ks
  end.

Definition on_key (key : string) (op : Op) (ks : Keyspace) : Keyspace * Reply :=
  match ks !! key with
  | None => let (o, r) := spec op None in (put key o ks, r)
  | Some v =>
      match prj v with
      | Some a => let (o, r) := spec op (Some a) in (put key o ks, r)
      | None => (ks, unwrap_or (foreign key op (abs_type v)) (Ok None))
      end
  end.

Definition key_admits (key : string) (op : Op) (ks : Keyspace) : bool :=
  match ks !! key with
  | None => admits op None
  | Some v =>
      match prj v with
      | Some a => admits op (Some a)
      | None => is_some (foreign key op (abs_type v))
      end
  end.

Context (step : string -> Op -> Data -> outcome (Data * Reply)) (is_value : StoreItem -> A -> Prop) (type : string).
Context `{!KeyType step spec admits (holds_value is_value) type foreign, !Embeds is_value inj prj type}.

Lemma represents_put data ks key data' o : represents data ks ->
  at_key (holds_value is_value) key data data' o -> represents data' (put key o ks).
Proof.
  intros Hrep [Hother Hkey] k. destruct (decide (k = key)) as [->|Hne].
  - destruct o as [a|]; cbn [put].
    + rewrite lookup_insert_eq. destruct Hkey as (it & -> & Hit). apply holds_some. by apply emb_is.
    + rewrite lookup_delete_eq. exact Hkey.
  - rewrite Hother by done. destruct o as [a|]; cbn [put];
      rewrite ?lookup_insert_ne, ?lookup_delete_ne by done; apply Hrep.
Qed.

Lemma on_key_implements key op data ks : represents data ks -> key_admits key op ks = true ->
  exists data', step key op data = Ret (data', (on_key key op ks).2) /\
    represents data' (on_key key op ks).1.
Proof.
  intros Hrep. pose proof (Hrep key) as Hkey. unfold key_admits, on_key.
  assert (forall o, holds_value is_value (data !! key) o -> admits op o = true ->
    exists data', step key op data = Ret (data', (spec op o).2) /\ represents data' (put key (spec op o).1 ks)) as Himpl.
  { intros o Hrel Hok. pose proof (kt_implements (KeyType := KeyType0) key data) as Hi.
    destruct (Hi op data o) as (data' & Hstep & Hrel'); [by split|done|].
    exists data'. split; [done|]. by eapply represents_put. }
  destruct (ks !! key) as [v|].
  - destruct Hkey as (it & Hk & Hit). destruct (prj v) as [a|] eqn:Hp.
    + intros Hok. apply emb_prj in Hp as ->. destruct (Himpl (Some a)) as (data' & ? & ?).
      * rewrite Hk. apply holds_some. by apply emb_is.
      * done.
      * exists data'. by destruct (spec op (Some a)).
    + intros Hf. destruct (foreign key op (abs_type v)) as [r|] eqn:Hr; [|done].
      exists data. split; [|done]. eapply (kt_foreign (KeyType := KeyType0)); [exact Hk| |].
      * rewrite (is_abs_type it v Hit). by apply emb_type.
      * by rewrite (is_abs_type it v Hit).
  - intros Hok. destruct (Himpl None Hkey Hok) as (data' & ? & ?). exists data'. by destruct (spec op None).
Qed.
End OneType.

(** ** The five types *)
Definition as_string (v : AbsValue) := match v with AString a => Some a | _ => None end.
Definition as_list (v : AbsValue) := match v with AList l => Some l | _ => None end.
Definition as_bits (v : AbsValue) := match v with ABits b => Some b | _ => None end.
Definition as_stream (v : AbsValue) := match v with AStream l => Some l | _ => None end.
Definition as_zset (v : AbsValue) := match v with AZset sc => Some sc | _ => None end.

Ltac embeds := split; [intros [] ?; cbn; split; congruence|done|intros []; cbn; intros ?; congruence].

#[export] Instance string_embeds : Embeds is_string AString as_string "string". Proof. embeds. Qed.
#[export] Instance list_embeds : Embeds is_list AList as_list "list". Proof. embeds. Qed.
#[export] Instance bits_embeds : Embeds is_bitmap ABits as_bits "bitmap". Proof. embeds. Qed.
#[export] Instance stream_embeds : Embeds is_stream AStream as_stream "stream". Proof. embeds. Qed.
#[export] Instance zset_embeds : Embeds is_zset AZset as_zset "zset". Proof. embeds. Qed.

Definition on_string := on_key string_spec string_foreign AString as_string.
Definition on_list := on_key list_spec list_foreign AList as_list.
Definition on_bits := on_key bitmap_spec bitmap_foreign ABits as_bits.
Definition on_stream := on_key stream_spec stream_foreign AStream as_stream.
Definition on_zset := on_key zset_spec zset_foreign AZset as_zset.

(** ** The specification *)

(** The bits a key has for the commands that read them: those of a bitmap, of the
    text of a string, or none. *)
Definition operand (key : string) (ks : Keyspace) : Result CustomError BitSet :=
  match ks !! key with
  | None => Ok (0, ∅)
  | Some (ABits b) => Ok b
  | Some (AString a) => Ok (bits_of (as_bytes a.1))
  | Some _ => Err wrong_data_type
  end.

Definition read_bits (f : BitSet -> Z) (key : string) (ks : Keyspace) : Keyspace * Reply :=
  (ks, match operand key ks with Ok b => int_answer (f b) | Err e => Err e end).

Definition bitop_spec (args : CmdArg.t) (ks : Keyspace) : Keyspace * Reply :=
  let result :=
    let? (op, dest, key1, key2) :=
      match args with
      | CmdArg.AND dest key1 key2 => Ok (intersection (A := gset Z), dest, key1, key2)
      | CmdArg.OR dest key1 key2 => Ok (union (A := gset Z), dest, key1, key2)
      | _ => Err (InvalidArgument "Invalid args for BITOP")
      end in
    let? b1 := operand key1 ks in
    let? b2 := operand key2 ks in
    Ok (dest, (Z.max b1.1 b2.1, op b1.2 b2.2)) in
  match result with
  | Ok (dest, b) => (if b.1 =? 0 then delete dest ks else <[dest := ABits b]> ks, int_answer b.1)
  | Err e => (ks, Err e)
  end.

(** The score of a location. *)
Definition geo_score (long lat : string) : Result CustomError f64 :=
  let? long := from_parse_float (parse_f64 long) in
  let? lat := from_parse_float (parse_f64 lat) in
  let? h := encode long lat in
  Ok (f64_of_Z h).

(** A command at a time. *)
Definition keyspace_spec (op : Z * Cmd.t) (ks : Keyspace) : Keyspace * Reply :=
  let now := op.1 in
  match op.2 with
  | Cmd.PING => (ks, Ok (Some (SimpleStr (Some "PONG"%string))))
  | Cmd.ECHO s => (ks, Ok (Some (bulk s)))
  | Cmd.TYPE key => (ks, Ok (Some (SimpleStr (Some
      match ks !! key with Some v => abs_type v | None => "none"%string end))))
  | Cmd.SET key v opt => (<[key := AString (v, deadline now opt)]> ks, Ok response_ok)
  | Cmd.GET key => on_string key (SGet now) ks
  | Cmd.INCR key => on_string key SIncr ks
  | Cmd.RPUSH key vs => on_list key (RPush vs) ks
  | Cmd.LPUSH key vs => on_list key (LPush vs) ks
  | Cmd.LPOP key n => on_list key (LPop n) ks
  | Cmd.LLEN key => on_list key LLen ks
  | Cmd.LRANGE key i j => on_list key (LRange i j) ks
  | Cmd.SETBIT key i b => on_bits key (BSet i b) ks
  | Cmd.GETBIT key i => read_bits (fun b => Z.b2z (bool_decide (i ∈ b.2))) key ks
  | Cmd.STRLEN key => on_bits key BLen ks
  | Cmd.BITCOUNT key range => read_bits (count range) key ks
  | Cmd.BITOP args => bitop_spec args ks
  | Cmd.XADD key id vs => on_stream key (XAdd now id vs) ks
  | Cmd.XRANGE key lo hi => on_stream key (XRange lo hi) ks
  | Cmd.ZADD key sc m => on_zset key (ZAdd sc m) ks
  | Cmd.ZREM key m => on_zset key (ZRem m) ks
  | Cmd.ZCARD key => on_zset key ZCard ks
  | Cmd.ZSCORE key m => on_zset key (ZScore m) ks
  | Cmd.ZRANK key m => on_zset key (ZRank m) ks
  | Cmd.ZRANGE key i j => on_zset key (ZRange i j) ks
  | Cmd.GEOADD key long lat m =>
      match geo_score long lat with
      | Ok sc => on_zset key (ZAdd sc m) ks
      | Err e => (match ks !! key with Some _ => ks | None => <[key := AZset ∅]> ks end, Err e)
      end
  | _ => (ks, Ok None)
  end.

(** [KEYS] and the geo queries iterate over hash tables; the commands that are not
    about values are not here. *)
Definition keyspace_admits (op : Z * Cmd.t) (ks : Keyspace) : bool :=
  let now := op.1 in
  let string_admits' := key_admits string_admits string_foreign as_string in
  let list_admits' := key_admits list_admits list_foreign as_list in
  let stream_admits' := key_admits stream_admits stream_foreign as_stream in
  let zset_admits' := key_admits zset_admits zset_foreign as_zset in
  match op.2 with
  | Cmd.PING | Cmd.ECHO _ | Cmd.TYPE _ | Cmd.BITOP _ => true
  | Cmd.SET key v opt => string_admits (SSet now v opt) None
  | Cmd.GET key => string_admits' key (SGet now) ks
  | Cmd.INCR key => string_admits' key SIncr ks
  | Cmd.RPUSH key vs => list_admits' key (RPush vs) ks
  | Cmd.LPUSH key vs => list_admits' key (LPush vs) ks
  | Cmd.LPOP key n => list_admits' key (LPop n) ks
  | Cmd.LLEN key => list_admits' key LLen ks
  | Cmd.LRANGE key i j => list_admits' key (LRange i j) ks
  | Cmd.SETBIT key i b => bitmap_admits (BSet i b) None
  | Cmd.GETBIT key i => 0 <=? i
  | Cmd.STRLEN key => true
  | Cmd.BITCOUNT key range =>
      match operand key ks with Ok b => bitmap_admits (BCount range) (Some b) | Err _ => true end
  | Cmd.XADD key id vs => stream_admits' key (XAdd now id vs) ks
  | Cmd.XRANGE key lo hi => stream_admits' key (XRange lo hi) ks
  | Cmd.ZADD key sc m => zset_admits' key (ZAdd sc m) ks
  | Cmd.ZREM key m => zset_admits' key (ZRem m) ks
  | Cmd.ZCARD key => zset_admits' key ZCard ks
  | Cmd.ZSCORE key m => zset_admits' key (ZScore m) ks
  | Cmd.ZRANK key m => zset_admits' key (ZRank m) ks
  | Cmd.ZRANGE key i j => zset_admits' key (ZRange i j) ks
  | Cmd.GEOADD key long lat m =>
      match geo_score long lat with Ok sc => zset_admits' key (ZAdd sc m) ks | Err _ => true end
  | _ => false
  end.

(** ** The commands implement it *)

(** What the dispatcher runs for these commands. *)
Definition keyspace_step (op : Z * Cmd.t) (data : Data) : outcome (Data * Reply) :=
  let now := op.1 in
  let reads (r : Reply) := Ret (data, r) in
  match op.2 with
  | Cmd.PING => reads (cmd_ping false)
  | Cmd.ECHO s => reads (cmd_echo s)
  | Cmd.TYPE key => reads (cmd_type data key)
  | Cmd.SET key v opt => cmd_set now data key v opt
  | Cmd.GET key => reads (cmd_get now data key)
  | Cmd.INCR key => Ret (cmd_incr data key)
  | Cmd.RPUSH key vs => Ret (cmd_rpush data key vs)
  | Cmd.LPUSH key vs => Ret (cmd_lpush data key vs)
  | Cmd.LPOP key n => Ret (cmd_lpop data key n)
  | Cmd.LLEN key => reads (cmd_llen data key)
  | Cmd.LRANGE key i j => reads (cmd_lrange data key i j)
  | Cmd.SETBIT key i b => Ret (cmd_setbit data key i b)
  | Cmd.GETBIT key i => reads (cmd_getbit data key i)
  | Cmd.STRLEN key => reads (cmd_strlen data key)
  | Cmd.BITCOUNT key range => reads (cmd_bitcount data key range)
  | Cmd.BITOP args => Ret (cmd_bitop data args)
  | Cmd.XADD key id vs => Ret (cmd_xadd now data key id vs)
  | Cmd.XRANGE key lo hi => let! r := cmd_xrange data key lo hi in reads r
  | Cmd.ZADD key sc m => cmd_zadd data key sc m
  | Cmd.ZREM key m => cmd_zrem data key m
  | Cmd.ZCARD key => reads (cmd_zcard data key)
  | Cmd.ZSCORE key m => reads (cmd_zscore data key m)
  | Cmd.ZRANK key m => let! r := cmd_zrank data key m in reads r
  | Cmd.ZRANGE key i j => reads (cmd_zrange data key i j)
  | Cmd.GEOADD key long lat m => cmd_geoadd data key long lat m
  | _ => reads (Ok None)
  end.

(** One lemma per command whose type is not alone concerned. *)
Definition done_as (data : Data) (o : outcome (Data * Reply)) (x : Keyspace * Reply) : Prop :=
  exists data', o = Ret (data', x.2) /\ represents data' x.1.

Lemma reads_as data ks r : represents data ks -> done_as data (Ret (data, r)) (ks, r).
Proof. intros Hrep. by exists data. Qed.

Lemma set_as data ks now key v opt : represents data ks -> string_admits (SSet now v opt) None = true ->
  done_as data (cmd_set now data key v opt) (<[key := AString (v, deadline now opt)]> ks, Ok response_ok).
Proof.
  intros Hrep Hok. change (cmd_set now data key v opt) with (string_step key (SSet now v opt) data).
  rewrite set_overwrites by done. eexists. split; [done|]. by apply represents_insert.
Qed.

Lemma type_as data ks key : represents data ks ->
  cmd_type data key = Ok (Some (SimpleStr (Some
    match ks !! key with Some v => abs_type v | None => "none"%string end))).
Proof.
  intros Hrep. unfold cmd_type. pose proof (Hrep key) as Hkey. destruct (ks !! key) as [v|].
  - destruct Hkey as (it & -> & Hit). by rewrite (is_abs_type it v Hit).
  - by rewrite Hkey.
Qed.

(** The operands of the bit commands. *)
Lemma operand_map data ks key : represents data ks ->
  match bitop_map data key with
  | Ok map => operand key ks = Ok (bits_of map)
  | Err e => operand key ks = Err e
  end.
Proof.
  intros Hrep. unfold bitop_map, operand. pose proof (Hrep key) as Hkey. destruct (ks !! key) as [v|].
  - destruct Hkey as (it & -> & Hit). destruct v; cbn in Hit.
    + by destruct Hit as [-> _].
    + by rewrite Hit.
    + by destruct Hit as (map & -> & <-).
    + by destruct Hit as [-> _].
    + by destruct Hit as (s & -> & _).
  - by rewrite Hkey.
Qed.

Lemma bits_reply data ks key (g : BitSet -> Z) (cmd : Reply) : represents data ks ->
  (forall map, bitop_map data key = Ok map -> cmd = int_answer (g (bits_of map))) ->
  (forall e, bitop_map data key = Err e -> cmd = Err e) ->
  done_as data (Ret (data, cmd)) (read_bits g key ks).
Proof.
  intros Hrep Hok Herr. unfold read_bits. pose proof (operand_map data ks key Hrep) as Hop.
  destruct (bitop_map data key) as [map|e]; rewrite Hop.
  - rewrite (Hok map) by done. by apply reads_as.
  - rewrite (Herr e) by done. by apply reads_as.
Qed.

Lemma getbit_err data key i e : bitop_map data key = Err e -> cmd_getbit data key i = Err e.
Proof.
  unfold bitop_map, cmd_getbit. destruct (data !! key) as [it|]; [|done]. by destruct (value it); intros [= <-].
Qed.

Lemma bitcount_err data key range e : bitop_map data key = Err e -> cmd_bitcount data key range = Err e.
Proof.
  unfold bitop_map, cmd_bitcount. destruct (data !! key) as [it|]; [|done]. by destruct (value it); intros [= <-].
Qed.

Lemma combine_bits (is_and : bool) m1 m2 :
  bits_of (if is_and then BitOps.and m1 m2 else BitOps.or m1 m2) =
  (Z.max (bits_of m1).1 (bits_of m2).1,
   (if is_and then intersection (A := gset Z) else union) (bits_of m1).2 (bits_of m2).2).
Proof.
  unfold bits_of. cbn [fst snd]. f_equal; [destruct is_and; apply len_combine|]. apply set_eq. intros i.
  rewrite elem_of_ones. destruct (Z.lt_ge_cases i 0).
  - rewrite bit_neg by done. destruct is_and; [rewrite elem_of_intersection|rewrite elem_of_union];
      rewrite !elem_of_ones, !bit_neg by done; naive_solver.
  - destruct is_and; [rewrite and_bit, elem_of_intersection by done|rewrite or_bit, elem_of_union by done];
      rewrite !elem_of_ones; [apply andb_true_iff|apply orb_true_iff].
Qed.

Lemma bitop_as data ks args : represents data ks ->
  done_as data (Ret (cmd_bitop data args)) (bitop_spec args ks).
Proof.
  intros Hrep. unfold cmd_bitop, bitop_spec.
  assert (forall (is_and : bool) dest key1 key2,
    done_as data
      (Ret match (let? map1 := bitop_map data key1 in let? map2 := bitop_map data key2 in
                  Ok (dest, if is_and then BitOps.and map1 map2 else BitOps.or map1 map2)) with
           | Ok (dest, output) =>
               (match output with [] => delete dest data | _ => <[dest := item (BitmapV output) None]> data end,
                int_reply (len output))
           | Err e => (data, Err e)
           end)
      match (let? b1 := operand key1 ks in let? b2 := operand key2 ks in
             Ok (dest, (Z.max b1.1 b2.1, (if is_and then intersection (A := gset Z) else union) b1.2 b2.2))) with
      | Ok (dest, b) => (if b.1 =? 0 then delete dest ks else <[dest := ABits b]> ks, int_answer b.1)
      | Err e => (ks, Err e)
      end) as Hcomb.
  { intros is_and dest key1 key2. pose proof (operand_map data ks key1 Hrep) as H1.
    pose proof (operand_map data ks key2 Hrep) as H2.
    destruct (bitop_map data key1) as [m1|e]; rewrite H1; [|by apply reads_as].
    destruct (bitop_map data key2) as [m2|e]; rewrite H2; [|by apply reads_as].
    cbn [result_bind]. rewrite <- combine_bits.
    set (output := if is_and : bool then BitOps.and m1 m2 else BitOps.or m1 m2). cbn [bits_of fst].
    eexists. split; [reflexivity|]. cbn [fst]. destruct output as [|x l] eqn:Ho.
    - by apply represents_delete.
    - destruct (Z.eqb_spec (len (x :: l)) 0) as [Hz|]; [rewrite len_cons in Hz; pose proof (len_nonneg l); lia|].
      apply represents_insert; [done|]. by exists (x :: l). }
  destruct args; try (by apply reads_as); [apply (Hcomb true)|apply (Hcomb false)].
Qed.

(** [GEOADD] makes the set before it looks at the location. *)
Lemma geoadd_as data ks key long lat m : represents data ks ->
  match geo_score long lat with
  | Ok sc => key_admits zset_admits zset_foreign as_zset key (ZAdd sc m) ks
  | Err _ => true
  end = true ->
  done_as data (cmd_geoadd data key long lat m)
    match geo_score long lat with
    | Ok sc => on_zset key (ZAdd sc m) ks
    | Err e => (match ks !! key with Some _ => ks | None => <[key := AZset ∅]> ks end, Err e)
    end.
Proof.
  intros Hrep. unfold cmd_geoadd. fold (geo_score long lat). destruct (geo_score long lat) as [sc|e].
  - intros Hok. change (done_as data (zset_step key (ZAdd sc m) data) (on_zset key (ZAdd sc m) ks)).
    by apply (on_key_implements zset_spec zset_admits zset_foreign AZset as_zset zset_step is_zset "zset").
  - intros _. unfold or_insert. pose proof (Hrep key) as Hkey. destruct (ks !! key) as [v|].
    + destruct Hkey as (it & -> & Hit). by exists data.
    + rewrite Hkey. eexists. split; [done|]. apply represents_insert; [done|]. exists SortedSet.new.
      split_and!; [done|apply new_ss_wf|done].
Qed.

(** A command on one type of value. *)
Ltac one_type :=
  match goal with
  | Hrep : represents ?data ?ks |- done_as ?data _ (on_string ?key ?op ?ks) =>
      change (done_as data (string_step key op data) (on_string key op ks)); by apply (on_key_implements string_spec string_admits string_foreign AString as_string string_step is_string "string")
  | Hrep : represents ?data ?ks |- done_as ?data _ (on_list ?key ?op ?ks) =>
      change (done_as data (list_step key op data) (on_list key op ks)); by apply (on_key_implements list_spec list_admits list_foreign AList as_list list_step is_list "list")
  | Hrep : represents ?data ?ks |- done_as ?data _ (on_bits ?key ?op ?ks) =>
      change (done_as data (bitmap_step key op data) (on_bits key op ks)); by apply (on_key_implements bitmap_spec bitmap_admits bitmap_foreign ABits as_bits bitmap_step is_bitmap "bitmap")
  | Hrep : represents ?data ?ks |- done_as ?data _ (on_stream ?key ?op ?ks) =>
      change (done_as data (stream_step key op data) (on_stream key op ks)); by apply (on_key_implements stream_spec stream_admits stream_foreign AStream as_stream stream_step is_stream "stream")
  | Hrep : represents ?data ?ks |- done_as ?data _ (on_zset ?key ?op ?ks) =>
      change (done_as data (zset_step key op data) (on_zset key op ks)); by apply (on_key_implements zset_spec zset_admits zset_foreign AZset as_zset zset_step is_zset "zset")
  end.

Lemma setbit_admitted key i b ks : bitmap_admits (BSet i b) None = true ->
  key_admits bitmap_admits bitmap_foreign as_bits key (BSet i b) ks = true.
Proof. intros Hok. unfold key_admits. destruct (ks !! key) as [v|]; [|done]. by destruct (as_bits v). Qed.

Lemma strlen_admitted key ks : key_admits bitmap_admits bitmap_foreign as_bits key BLen ks = true.
Proof. unfold key_admits. destruct (ks !! key) as [v|]; [|done]. by destruct (as_bits v). Qed.

#[export] Instance keyspace_implements :
  Implements keyspace_step keyspace_spec keyspace_admits represents.
Proof.
  intros [now c] data ks Hrep Hok. change (done_as data (keyspace_step (now, c) data) (keyspace_spec (now, c) ks)).
  destruct c; try (cbn in Hok; discriminate); unfold keyspace_step, keyspace_spec, keyspace_admits in *;
    cbn [fst snd] in *; try one_type.
  - by apply reads_as.
  - by apply reads_as.
  - by apply set_as.
  - rewrite (type_as data ks) by done. by apply reads_as.
  - by apply geoadd_as.
  - pose proof (setbit_admitted key offset bit ks Hok). one_type.
  - apply (bits_reply data ks key); [done| |intros e; apply getbit_err].
    intros map Hm. bools. by apply getbit_bits.
  - pose proof (strlen_admitted key ks). one_type.
  - apply (bits_reply data ks key); [done| |intros e; apply bitcount_err].
    intros map Hm. apply bitcount_bits; [done|]. pose proof (operand_map data ks key Hrep) as Hop.
    rewrite Hm in Hop. by rewrite Hop in Hok.
  - by apply bitop_as.
Qed.

(** C8: any sequence of admitted commands on the values of any keys
    ([keyspace_admits]), each at its own time, is answered, command by command, as
    the abstract key space answers it: a string with a deadline, a list, a set of
    bit offsets, a log and a map from members to scores, each under its key; a
    command on a key of another type answers an error and changes nothing, except
    [SET] and the destination of [BITOP], which are replaced. Admitted are: [PING],
    [ECHO], [TYPE], [SET], [GET] (not of a bitmap), [INCR], [RPUSH], [LPUSH],
    [LPOP], [LLEN], [LRANGE] (not of a list that was emptied but is still there),
    [SETBIT], [GETBIT], [BITCOUNT], [BITOP], [STRLEN], [XADD] (with fields, room for
    a sequence number it has to find, and for [*] a millisecond later than the last
    entry's), [XRANGE] (of a stream, with bounds that are not crossed), [ZADD] and
    [GEOADD] (of a number, and for a member that is there the score it has), [ZREM],
    [ZCARD], [ZSCORE], [ZRANK] and [ZRANGE]; with integers of their machine width,
    deadlines that fit it, and sizes an [i64] can count. *)
Theorem keyspace_refines data ks ops : represents data ks ->
  admits_all keyspace_spec keyspace_admits ops ks = true ->
  exists data', run_all keyspace_step ops data = Ret (data', (spec_all keyspace_spec ops ks).2) /\
    represents data' (spec_all keyspace_spec ops ks).1.
Proof. intros Hrep Hok. by apply (run_implements _ _ keyspace_admits represents). Qed.

Lemma represents_empty : represents ∅ ∅.
Proof. intros k. rewrite !lookup_empty. done. Qed.

Definition demo_ops : list (Z * Cmd.t) :=
  [(1000, Cmd.SET "n" "41" (Some (CmdArg.PX (Some 5)))); (1001, Cmd.INCR "n"); (1001, Cmd.RPUSH "n" ["x"]);
   (1001, Cmd.RPUSH "q" ["a"; "b"]); (1002, Cmd.LRANGE "q" 0 (-1)); (1002, Cmd.GETBIT "n" 2);
   (1006, Cmd.GET "n"); (1006, Cmd.SETBIT "b" 7 1); (1006, Cmd.BITOP (CmdArg.OR "d" "b" "n"));
   (1007, Cmd.BITCOUNT "d" None); (1007, Cmd.TYPE "d"); (1007, Cmd.ZADD "z" (f64_of_Z 1) "m");
   (1007, Cmd.ZCARD "z"); (1007, Cmd.XADD "s" (Some 5, None) ["f"; "v"])]%string.

Lemma keyspace_refines_witness : exists data' ks',
  run_all keyspace_step demo_ops ∅ = Ret (data',
    [Ok response_ok; int_answer 42; Err (unsupported "n"); int_answer 2;
     Ok (Some (Array 2 (Some [bulk "a"; bulk "b"]))); int_answer 1; Ok (Some null_bulk); int_answer 0;
     int_answer 2; int_answer 7; Ok (Some (SimpleStr (Some "bitmap"))); int_answer 1; int_answer 1;
     Ok (Some (bulk "5-0"))]%string) /\
  represents data' ks'.
Proof.
  destruct (keyspace_refines ∅ ∅ demo_ops represents_empty) as (data' & Hrun & Hrep); [vm_compute; reflexivity|].
  exists data'. eexists. split; [|exact Hrep]. rewrite Hrun. vm_compute. reflexivity.
Defined.
