(* ===== verification/AppState.v ===== *)
(** * Configuration and replication statistics ([app_state.rs])

    The command line, the configuration read from it, and the replication
    offset. [OnceLock] statics and atomics are plain values of the model: the
    server is single threaded. *)

From S2P Require Import Prelude Text Float64 Resp.

(** ** [AppendFsync] and [Configs] *)

Inductive AppendFsync := Always | EverySec.

Definition fsync_get_str (a : AppendFsync) : string :=
  match a with Always => "always" | EverySec => "everysec" end.

Definition fsync_try_from (v : string) : Result CustomError AppendFsync :=
  if String.eqb v "always" then Ok Always
  else if String.eqb v "everysec" then Ok EverySec
  else Err (InvalidArgument "Invalid arg").

Record Configs := mk_configs {
  path : option string;
  dbfilename : option string;
  appendonly : bool;
  appenddirname : string;
  appendfilename : string;
  appendfsync : AppendFsync;
}.

Definition configs_new : Configs :=
  mk_configs (Some "/app"%string) None false "appendonlydir" "appendonly.aof" EverySec.

Definition get_attr (c : Configs) (key : string) : Result CustomError string :=
  if String.eqb key "dir" then Ok (unwrap_or (path c) "none"%string)
  else if String.eqb key "dbfilename" then Ok (unwrap_or (dbfilename c) ""%string)
  else if String.eqb key "appendonly" then Ok (if appendonly c then "yes" else "no")%string
  else if String.eqb key "appenddirname" then Ok (appenddirname c)
  else if String.eqb key "appendfilename" then Ok (appendfilename c)
  else if String.eqb key "appendfsync" then Ok (fsync_get_str (appendfsync c))
  else Err (UnsupportedCmd "Unsupported").

Definition set_path (c : Configs) (s : string) : Configs :=
  mk_configs (Some s) (dbfilename c) (appendonly c) (appenddirname c) (appendfilename c) (appendfsync c).
Definition set_dbfilename (c : Configs) (s : string) : Configs :=
  mk_configs (path c) (Some s) (appendonly c) (appenddirname c) (appendfilename c) (appendfsync c).
Definition set_appendonly (c : Configs) (v : bool) : Configs :=
  mk_configs (path c) (dbfilename c) v (appenddirname c) (appendfilename c) (appendfsync c).
Definition set_appenddirname (c : Configs) (s : string) : Configs :=
  mk_configs (path c) (dbfilename c) (appendonly c) s (appendfilename c) (appendfsync c).
Definition set_appendfilename (c : Configs) (s : string) : Configs :=
  mk_configs (path c) (dbfilename c) (appendonly c) (appenddirname c) s (appendfsync c).
Definition set_appendfsync (c : Configs) (v : AppendFsync) : Configs :=
  mk_configs (path c) (dbfilename c) (appendonly c) (appenddirname c) (appendfilename c) v.

(** ** The command line

    Both loops read [args\[i\]] and [args\[i + 1\]] for odd [i], and panic when a
    known flag comes last. *)
Definition yes_no_to_bool (s : string) : outcome bool :=
  if String.eqb s "yes" then Ret true
  else if String.eqb s "no" then Ret false
  else Panic.

(** One flag and its value, absent at the end of the line. *)
Definition parse_flag (c : Configs) (flag : string) (v : option string) : outcome Configs :=
  if String.eqb flag "--dir" then let! s := unwrap v in Ret (set_path c s)
  else if String.eqb flag "--dbfilename" then let! s := unwrap v in Ret (set_dbfilename c s)
  else if String.eqb flag "--appendonly" then
    let! s := unwrap v in
    let! b := yes_no_to_bool s in
    Ret (set_appendonly c b)
  else if String.eqb flag "--appenddirname" then let! s := unwrap v in Ret (set_appenddirname c s)
  else if String.eqb flag "--appendfilename" then let! s := unwrap v in Ret (set_appendfilename c s)
  else if String.eqb flag "--appendfsync" then
    let! s := unwrap v in
    match fsync_try_from s with
    | Ok a => Ret (set_appendfsync c a)
    | Err _ => Panic
    end
  else Ret c.

Fixpoint parse_config_from (c : Configs) (args : list string) : outcome Configs :=
  match args with
  | [] => Ret c
  | [flag] => parse_flag c flag None
  | flag :: v :: rest =>
      let! c := parse_flag c flag (Some v) in
      parse_config_from c rest
  end.

(** [args] with the program name first. *)
Definition with_parse_config (c : Configs) (args : list string) : outcome Configs :=
  parse_config_from c (tail args).

(** ** [ReplStats] *)

Record ReplStats := mk_stats { host : option string; port : option Z; id : string; offset : Z }.

Definition stats_new (host : option string) (port : option Z) : ReplStats :=
  mk_stats host port "?" (-1).

(** [AtomicI64::fetch_add] wraps; it returns the previous value. *)
Definition offset_add (s : ReplStats) (v : Z) : ReplStats * Z :=
  (mk_stats (host s) (port s) (id s) (wrap_i64 (offset s + v)), offset s).

Definition start_bytes_count (s : ReplStats) : ReplStats * Z :=
  if offset s =? -1 then offset_add s 1 else (s, -1).

Definition add_bytes_count (s : ReplStats) (count : Z) : ReplStats * Z :=
  if -1 <? offset s then offset_add s count else (s, -1).

Definition parse_replicaof (s : option string) : outcome (option ReplStats) :=
  match s with
  | Some v =>
      let splitted := split " " v in
      let! host := unwrap (splitted !! 0%nat) in
      let! p := unwrap (splitted !! 1%nat) in
      match parse_u16 p with
      | Ok port => Ret (Some (stats_new (Some host) (Some port)))
      | Err _ => Panic
      end
  | None => Ret None
  end.

(** ** [AppStates] *)

Record AppStates := mk_states { host_stats : option ReplStats; master_stats : option ReplStats }.

(** What the flags of the command line set. [to_lowercase] is only compared with
    flags that no non-ASCII letter lower-cases into. *)
Record InitArgs := mk_init { i_host : option string; i_port : option Z; i_replica : option string }.

Definition init_flag (a : InitArgs) (flag : string) (v : option string) : outcome InitArgs :=
  let arg := to_ascii_lowercase flag in
  if String.eqb arg "--host" then
    let! s := unwrap v in
    Ret (mk_init (Some s) (i_port a) (i_replica a))
  else if String.eqb arg "--port" || String.eqb arg "-p" then
    let! s := unwrap v in
    match parse_u16 s with
    | Ok p => Ret (mk_init (i_host a) (Some p) (i_replica a))
    | Err _ => Panic
    end
  else if String.eqb arg "--replicaof" then
    let! s := unwrap v in
    Ret (mk_init (i_host a) (i_port a) (Some s))
  else Ret a.

Fixpoint init_args (a : InitArgs) (args : list string) : outcome InitArgs :=
  match args with
  | [] => Ret a
  | [flag] => init_flag a flag None
  | flag :: v :: rest =>
      let! a := init_flag a flag (Some v) in
      init_args a rest
  end.

Definition init (args : list string) : outcome AppStates :=
  let! a := init_args (mk_init None None None) (tail args) in
  let host_resp := stats_new (Some (unwrap_or (i_host a) "127.0.0.1"%string))
                             (Some (unwrap_or (i_port a) 6379)) in
  let! master_repl := parse_replicaof (i_replica a) in
  let (host_resp, _) := start_bytes_count host_resp in
  Ret (mk_states (Some host_resp) master_repl).

Definition app_is_slave (s : AppStates) : bool :=
  match master_stats s with Some _ => true | None => false end.

Definition host_add_bytes_count (s : AppStates) (count : Z) : AppStates :=
  match host_stats s with
  | Some h => mk_states (Some (add_bytes_count h count).1) (master_stats s)
  | None => s
  end.

(** ** Behaviour *)

(** Counting starts once. *)
Lemma start_bytes_count_once s : offset s = -1 ->
  offset (start_bytes_count s).1 = 0 /\
  start_bytes_count (start_bytes_count s).1 = ((start_bytes_count s).1, -1).
Proof. intros H. unfold start_bytes_count. rewrite H. cbn. by rewrite H. Qed.

(** Once started, the offset is the sum of what was added. *)
Lemma add_bytes_count_sum s ns : -1 < offset s -> Forall (fun n => 0 <= n) ns ->
  offset s + foldr Z.add 0 ns <= i64_max ->
  offset (fold_left (fun s n => (add_bytes_count s n).1) ns s) = offset s + foldr Z.add 0 ns.
Proof.
  intros Hs Hn. revert s Hs. induction Hn as [|n ns Hn Hns IH]; intros s Hs Hb; cbn; [lia|].
  assert (0 <= foldr Z.add 0 ns).
  { clear -Hns. induction Hns; cbn; lia. }
  cbn in Hb.
  assert (offset (add_bytes_count s n).1 = offset s + n) as Ho.
  { unfold add_bytes_count. destruct (Z.ltb_spec (-1) (offset s)); [|lia]. cbn.
    apply wrap_i64_id. unfold is_i64, i64_min, i64_max in *. lia. }
  rewrite IH; rewrite ?Ho; lia.
Qed.

Definition add_all (s : ReplStats) (ns : list Z) : ReplStats := fold_left (fun s n => (add_bytes_count s n).1) ns s.

(** One addition: it counts, or wraps to a negative number. *)
Lemma add_bytes_count_once s n : is_i64 (offset s) -> 0 <= n <= i64_max ->
  let s' := (add_bytes_count s n).1 in
  (offset s < 0 -> s' = s) /\
  (0 <= offset s -> offset s + n <= i64_max -> offset s' = offset s + n) /\
  (0 <= offset s -> i64_max < offset s + n -> i64_min <= offset s' < 0).
Proof.
  unfold add_bytes_count, is_i64, i64_min, i64_max. intros Hs Hn. cbv zeta. destruct (Z.ltb_spec (-1) (offset s)); cbn.
  - split_and!; [lia|intros _ Hle; apply wrap_i64_id; unfold is_i64, i64_min, i64_max; lia|]. intros _ Hlt. unfold wrap_i64. lia.
  - split_and!; [done|lia|lia].
Qed.

Lemma add_all_stopped ns s : is_i64 (offset s) -> Forall (fun n => 0 <= n <= i64_max) ns -> offset s < 0 -> add_all s ns = s.
Proof.
  intros Hs Hn Hneg. induction Hn as [|n ns Hn _ IH]; [done|]. unfold add_all in *. cbn [fold_left].
  by rewrite (proj1 (add_bytes_count_once s n Hs Hn) Hneg).
Qed.

Lemma sum_nonneg ns : Forall (fun n => 0 <= n <= i64_max) ns -> 0 <= foldr Z.add 0 ns.
Proof. induction 1; cbn; lia. Qed.

(** C24: the replication offset is exact as long as it fits a signed 64-bit integer;
    the addition that passes the largest one makes it negative, and it never moves
    again. *)
Theorem offset_bounds ns : forall s, is_i64 (offset s) -> Forall (fun n => 0 <= n <= i64_max) ns ->
  is_i64 (offset (add_all s ns)) /\
  (offset s < 0 -> offset (add_all s ns) = offset s) /\
  (0 <= offset s -> offset s + foldr Z.add 0 ns <= i64_max -> offset (add_all s ns) = offset s + foldr Z.add 0 ns) /\
  (0 <= offset s -> i64_max < offset s + foldr Z.add 0 ns -> offset (add_all s ns) < 0).
Proof.
  induction ns as [|n ns IH]; intros s Hs Hn; [unfold is_i64 in *; cbn; split_and!; intros; lia|].
  apply Forall_cons in Hn as [Hn Hns]. pose proof (sum_nonneg ns Hns) as Hsum.
  destruct (add_bytes_count_once s n Hs Hn) as (Hneg & Hfit & Hwrap).
  change (add_all s (n :: ns)) with (add_all (add_bytes_count s n).1 ns). cbn [foldr].
  destruct (decide (offset s < 0)) as [Hlt|Hge]; [|destruct (decide (offset s + n <= i64_max)) as [Hle|Hgt]].
  - rewrite Hneg, add_all_stopped by done. split_and!; [done|done|lia|lia].
  - specialize (Hfit ltac:(lia) Hle). destruct (IH (add_bytes_count s n).1) as (H1 & H2 & H3 & H4);
      [rewrite Hfit; unfold is_i64, i64_min, i64_max in *; lia|done|].
    rewrite Hfit in *. split_and!; [done|lia|intros; rewrite H3; lia|intros; apply H4; lia].
  - specialize (Hwrap ltac:(lia) ltac:(lia)).
    rewrite add_all_stopped by (done || (unfold is_i64, i64_min, i64_max in *; lia)).
    unfold is_i64, i64_min, i64_max in *. split_and!; lia.
Qed.

(** Two bytes more than fit: the offset is the least number, and one more byte is
    not counted. *)
Lemma offset_bounds_witness :
  offset (add_all (mk_stats None None "?" 1) [i64_max; 1]) < 0 /\ offset (add_all (mk_stats None None "?" 1) [5; 7]) = 13.
Proof.
  split.
  - apply (offset_bounds [i64_max; 1]); [by split; vm_compute|by repeat constructor; vm_compute|by vm_compute|by vm_compute].
  - apply (offset_bounds [5; 7]); [by split; vm_compute|by repeat constructor; vm_compute|by vm_compute|by vm_compute].
Defined.

(** A replica's command line: the replica listens on its own port, remembers its
    master's address, and counts from zero. *)
Lemma init_replica prog p h mp :
  0 <= p < 2 ^ 16 -> 0 <= mp < 2 ^ 16 -> no_char " " h = true ->
  init [prog; "--port"; show_Z p; "--replicaof"; h +:+ " " +:+ show_Z mp] =
  Ret (mk_states (Some (mk_stats (Some "127.0.0.1"%string) (Some p) "?" 0))
                 (Some (mk_stats (Some h) (Some mp) "?" (-1)))).
Proof.
  intros Hp Hmp Hh.
  assert (forall n, 0 <= n < 2 ^ 16 -> parse_u16 (show_Z n) = Ok n) as Hport.
  { intros n Hn. apply parse_show_unsigned. lia. }
  assert (no_char " " (show_Z mp) = true) as Hd.
  { assert (Forall (fun c => c <> " "%char) (as_bytes (show_Z mp))) as HF.
    { apply show_Z_forall; [lia|done..]. }
    clear -HF. induction (show_Z mp) as [|c s IH]; [done|]. cbn in *. inversion HF; subst.
    destruct (ascii_dec c " "); [done|]. cbn. auto. }
  unfold init. cbn [tail init_args].
  change (init_flag ?a "--port" ?v) with
    (let! s := unwrap v in
     match parse_u16 s with Ok p => Ret (mk_init (i_host a) (Some p) (i_replica a)) | Err _ => Panic end).
  cbn [unwrap outcome_bind]. rewrite Hport by done. cbn [outcome_bind].
  change (init_flag ?a "--replicaof" ?v) with
    (let! s := unwrap v in Ret (mk_init (i_host a) (i_port a) (Some s))).
  cbn [unwrap outcome_bind i_host i_port i_replica unwrap_or parse_replicaof].
  change (" " +:+ show_Z mp) with (String " " (show_Z mp)).
  rewrite split_join, (split_no_char _ _ Hd) by done. cbn [lookup list_lookup unwrap outcome_bind].
  by rewrite Hport.
Qed.
