(* ===== verification/Rdb.v ===== *)
(** * Snapshots ([rdb.rs])

    The reader of an RDB file, over the bytes of the file: [read_exact] takes from
    the front and fails when too few are left ([FileReadingError]); in [read]
    itself such a failure panics. Only string values are supported; [read_file] reads
    back files in every form of entry the reader knows. *)

From S2P Require Import Prelude Text Float64 Resp CmdBuilder Store.

(** ** Reading *)

(** What a parsing function returns: a panic, an error, or a value and the bytes
    left. *)
Definition Read (A : Type) : Type := bytes -> Result CustomError (A * bytes).

Definition read_exact (n : nat) : Read bytes := fun b =>
  if (n <=? List.length b)%nat then Ok (take n b, drop n b) else Err FileReadingError.

Definition read_byte : Read Z := fun b =>
  match b with
  | [] => Err FileReadingError
  | c :: rest => Ok (u8_val c, rest)
  end.

Definition then_ {A B} (m : Read A) (k : A -> Read B) : Read B := fun b =>
  match m b with
  | Ok (a, b') => k a b'
  | Err e => Err e
  end.
Definition give {A} (a : A) : Read A := fun b => Ok (a, b).
Definition refuse {A} (e : CustomError) : Read A := fun _ => Err e.

Notation "'let*' x := m 'in' k" := (then_ m (fun x => k))
  (at level 10, x pattern, k at level 200) : rust_scope.

(** [from_le_bytes], [from_be_bytes]. *)
Fixpoint le (b : bytes) : Z :=
  match b with
  | [] => 0
  | c :: rest => u8_val c + 256 * le rest
  end.
Definition be (b : bytes) : Z := le (rev b).

(** The same bits as a signed integer of [w] bits. *)
Definition signed (w : Z) (n : Z) : Z := if n <? 2 ^ (w - 1) then n else n - 2 ^ w.

Definition parse_length : Read Z :=
  let* byte_0 := read_byte in
  let tag := Z.land byte_0 192 in
  if tag =? 0 then give byte_0
  else if tag =? 64 then
    let len_0 := Z.land byte_0 63 in
    let* len_1 := read_byte in
    give (Z.lor (Z.shiftl len_0 8) len_1)
  else if tag =? 128 then
    let* byte_1 := read_exact 4 in
    give (be byte_1)
  else refuse RDBParsingError.

Definition utf8_or_error (b : bytes) : Read string :=
  match from_utf8 b with
  | Some s => give s
  | None => refuse from_utf8_error
  end.

Definition parse_string : Read string :=
  let* byte_0 := read_byte in
  if Z.land byte_0 192 =? 0 then
    let* output := read_exact (Z.to_nat (Z.land byte_0 63)) in
    utf8_or_error output
  else if byte_0 =? 192 then
    let* byte_1 := read_byte in
    give (show_Z byte_1)
  else if byte_0 =? 193 then
    let* byte_1 := read_exact 2 in
    give (show_Z (signed 16 (le byte_1)))
  else if byte_0 =? 194 then
    let* byte_1 := read_exact 4 in
    give (show_Z (signed 32 (le byte_1)))
  else refuse RDBParsingError.

Definition parse_exp_ms : Read Z := let* b := read_exact 8 in give (le b).
Definition parse_exp_s : Read Z := let* b := read_exact 4 in give (le b).

Definition parse_type_string : Read (string * string) :=
  let* data_type := read_byte in
  if data_type =? 0 then
    let* key := parse_string in
    let* v := parse_string in
    give (key, v)
  else refuse RDBParsingError.

Definition store_str (data : Data) (key v : string) (exp : option Z) : Data :=
  <[key := item (Str v) exp]> data.

(** What one opcode does: go on, or the end. *)
Definition read_op (data : Data) (opcode : Z) : Read (Data * bool) :=
  if opcode =? 250 then
    let* _ := parse_string in
    let* _ := parse_string in
    give (data, true)
  else if opcode =? 254 then
    let* _ := parse_length in give (data, true)
  else if opcode =? 251 then
    let* _ := parse_length in
    let* _ := parse_length in
    give (data, true)
  else if opcode =? 252 then
    let* exp_ms := parse_exp_ms in
    let* kv := parse_type_string in
    give (store_str data kv.1 kv.2 (Some exp_ms), true)
  else if opcode =? 253 then
    let* exp_s := parse_exp_s in
    let* kv := parse_type_string in
    give (store_str data kv.1 kv.2 (Some exp_s), true)
  else if opcode =? 255 then give (data, false)
  else
    let* key := parse_string in
    let* v := parse_string in
    give (store_str data key v None, true).

(** The [loop] of [read]; each turn takes the byte of its opcode. *)
Fixpoint read_loop (fuel : nat) (data : Data) (b : bytes) : option (outcome (Result CustomError Data)) :=
  match fuel with
  | O => None
  | S f =>
      match read_byte b with
      | Err _ => Some Panic
      | Ok (opcode, b) =>
          match read_op data opcode b with
          | Err e => Some (Ret (Err e))
          | Ok ((data, true), b) => read_loop f data b
          | Ok ((data, false), _) => Some (Ret (Ok data))
          end
      end
  end.

(** [read]: the magic string and the version are skipped. *)
Definition read (b : bytes) : outcome (Result CustomError Data) :=
  match read_exact 9 b with
  | Err _ => Panic
  | Ok (_, b) => unwrap_or (read_loop (S (List.length b)) ∅ b) Panic
  end.

(** ** The reader ends on every file *)
Definition shrinks {A} (m : Read A) : Prop :=
  forall b a b', m b = Ok (a, b') -> (List.length b' <= List.length b)%nat.

Lemma shrinks_byte : shrinks read_byte.
Proof. intros [|c b] a b'; cbn; [done|]. intros [= _ <-]. lia. Qed.
Lemma shrinks_exact n : shrinks (read_exact n).
Proof. intros b a b'. unfold read_exact. case_match; [|done]. intros [= _ <-]. rewrite length_drop. lia. Qed.
Lemma shrinks_then {A B} (m : Read A) (k : A -> Read B) :
  shrinks m -> (forall a, shrinks (k a)) -> shrinks (then_ m k).
Proof.
  intros Hm Hk b x b'. unfold then_. destruct (m b) as [[a b1]|] eqn:Hb; [|done].
  intros H1%Hk. apply Hm in Hb. lia.
Qed.
Lemma shrinks_give {A} (a : A) : shrinks (give a).
Proof. intros b x b' [= _ <-]. lia. Qed.
Lemma shrinks_refuse {A} e : shrinks (refuse (A := A) e).
Proof. done. Qed.
#[export] Hint Resolve shrinks_byte shrinks_exact shrinks_then shrinks_give shrinks_refuse : redis.

Ltac shrink :=
  repeat first [progress intros | solve [auto with redis] | apply shrinks_then
               | match goal with |- shrinks (if ?c then _ else _) => destruct c end
               | match goal with |- shrinks (match ?c with _ => _ end) => destruct c end].

Lemma shrinks_length : shrinks parse_length.
Proof. unfold parse_length. shrink. Qed.
Lemma shrinks_string : shrinks parse_string.
Proof. unfold parse_string, utf8_or_error. shrink. Qed.
#[export] Hint Resolve shrinks_length shrinks_string : redis.
Lemma shrinks_op d o : shrinks (read_op d o).
Proof. unfold read_op, parse_exp_ms, parse_exp_s, parse_type_string. shrink. Qed.

(** The reader ends on the bytes of every file: one turn of its loop per byte
    is enough. *)
Theorem read_ends b : read_loop (S (List.length b)) ∅ b <> None.
Proof.
  enough (forall f b d, (List.length b < f)%nat -> read_loop f d b <> None) as H by (apply H; lia).
  clear b. induction f as [|f IH]; intros b d Hf; [lia|]. cbn [read_loop].
  destruct b as [|c b]; [done|]. cbn in Hf. cbn [read_byte].
  destruct (read_op d (u8_val c) b) as [[[d' []] b']|] eqn:Ho; [|done|done].
  apply shrinks_op in Ho. apply IH. eapply Nat.le_lt_trans; [exact Ho|].
  by apply Nat.succ_lt_mono.
Qed.

(** ** Only strings are read *)
Definition strings_only (d : Data) : Prop := forall k it, d !! k = Some it -> exists s, value it = Str s.

Lemma store_str_only d key v exp : strings_only d -> strings_only (store_str d key v exp).
Proof.
  intros Hd k it. unfold store_str. intros [[<- <-]|[_ Hk]]%lookup_insert_Some; [by exists v|]. by eapply Hd.
Qed.

(** What a successful reader gives satisfies [P]. *)
Definition gives {A} (P : A -> Prop) (m : Read A) : Prop := forall b a b', m b = Ok (a, b') -> P a.

Lemma gives_then {A B} P (m : Read A) (k : A -> Read B) : (forall a, gives P (k a)) -> gives P (then_ m k).
Proof. intros Hk b x b'. unfold then_. destruct (m b) as [[a b1]|]; [apply Hk|done]. Qed.

Lemma gives_give {A} (P : A -> Prop) a : P a -> gives P (give a).
Proof. by intros ? b x b' [= <- _]. Qed.

Lemma read_op_only d o : strings_only d -> gives (fun x => strings_only x.1) (read_op d o).
Proof.
  intros Hd. unfold read_op.
  repeat match goal with
  | |- gives _ (if ?c then _ else _) => destruct c
  | |- gives _ (then_ _ _) => apply gives_then; intros
  | |- gives _ (give _) => apply gives_give; cbn
  end; auto using store_str_only.
Qed.

(** The key space of a snapshot holds strings. *)
Lemma read_strings b d : read b = Ret (Ok d) -> strings_only d.
Proof.
  unfold read. destruct (read_exact 9 b) as [[? b1]|]; [|done].
  enough (forall f b d0, strings_only d0 ->
    forall o, read_loop f d0 b = Some o -> o = Ret (Ok d) -> strings_only d) as Hl.
  { destruct (read_loop _ ∅ b1) as [o|] eqn:Hr; [|done]. apply (Hl _ _ _) with (2 := Hr).
    intros k it. by rewrite lookup_empty. }
  clear b b1. induction f as [|f IH]; intros b d0 Hd o; [done|]. cbn [read_loop].
  destruct (read_byte b) as [[op b']|]; [|by intros [= <-]].
  destruct (read_op d0 op b') as [[[d1 []] b2]|] eqn:Hop; [| |by intros [= <-]].
  - apply IH. by apply (read_op_only d0 op Hd) in Hop.
  - intros [= <-] [= <-]. by apply (read_op_only d0 op Hd) in Hop.
Qed.

(** ** Lengths *)

(** The encoding of lengths: six bits, fourteen bits, or four bytes. *)
Definition length_bytes (n : Z) : bytes :=
  if n <? 64 then [u8_of n]
  else if n <? 16384 then [u8_of (64 + n / 256); u8_of (n mod 256)]
  else [u8_of 128; u8_of (n / 2 ^ 24); u8_of (n / 2 ^ 16); u8_of (n / 2 ^ 8); u8_of n].

Lemma land_tag v : 0 <= v < 256 -> Z.land v 192 = 64 * (v / 64) /\ Z.land v 63 = v mod 64.
Proof.
  intros Hv. assert (Forall (fun n => Z.land (Z.of_nat n) 192 = 64 * (Z.of_nat n / 64) /\
    Z.land (Z.of_nat n) 63 = Z.of_nat n mod 64) (seq 0 256)) as Hall.
  { apply Forall_forall. intros x Hx%elem_of_seq.
    assert (forallb (fun n => (Z.land (Z.of_nat n) 192 =? 64 * (Z.of_nat n / 64)) &&
      (Z.land (Z.of_nat n) 63 =? Z.of_nat n mod 64)) (seq 0 256) = true) as Hb by (vm_compute; done).
    rewrite forallb_forall in Hb. specialize (Hb x). rewrite andb_true_iff, !Z.eqb_eq in Hb.
    apply Hb, in_seq. lia. }
  rewrite Forall_forall in Hall. specialize (Hall (Z.to_nat v)).
  rewrite Z2Nat.id in Hall by lia. apply Hall, elem_of_seq. lia.
Qed.

Lemma lor_shift a b : 0 <= a -> 0 <= b < 256 -> Z.lor (Z.shiftl a 8) b = 256 * a + b.
Proof.
  intros Ha Hb. rewrite Z.shiftl_mul_pow2 by lia.
  pose proof (Z.add_lor_land (a * 2 ^ 8) b) as Hadd. enough (Z.land (a * 2 ^ 8) b = 0) as H by lia. apply Z.bits_inj'. intros n Hn.
  rewrite Z.land_spec, Z.bits_0, <- Z.shiftl_mul_pow2, Z.shiftl_spec by lia.
  destruct (Z.ltb_spec n 8); [by rewrite Z.testbit_neg_r by lia|].
  rewrite andb_comm. rewrite (Z.bits_above_log2 b n); [done|lia|].
  destruct (decide (b = 0)) as [->|]; [cbn; lia|]. apply Z.log2_lt_pow2; [lia|].
  assert (2 ^ 8 <= 2 ^ n) by (apply Z.pow_le_mono_r; lia). lia.
Qed.

(** A length of 32 bits is read back from each of its encodings. *)
Theorem parse_length_bytes n rest : 0 <= n < 2 ^ 32 ->
  parse_length (length_bytes n ++ rest) = Ok (n, rest).
Proof.
  intros Hn. unfold length_bytes, parse_length.
  destruct (Z.ltb_spec n 64); [|destruct (Z.ltb_spec n 16384)]; cbn [app then_ read_byte].
  - unfold then_. cbn [read_byte app]. rewrite u8_val_of, Z.mod_small by lia.
    destruct (land_tag n) as [-> _]; [lia|]. rewrite Z.div_small by lia. done.
  - unfold then_. cbn [read_byte app]. rewrite u8_val_of, (Z.mod_small (64 + n / 256)) by lia.
    destruct (land_tag (64 + n / 256)) as [-> ->]; [lia|].
    replace (64 * ((64 + n / 256) / 64)) with 64 by lia.
    change (64 =? 0) with false. change (64 =? 64) with true. cbv iota. cbn [read_byte app].
    rewrite u8_val_of. replace ((64 + n / 256) mod 64) with (n / 256) by lia.
    unfold give. rewrite Z.mod_mod by lia. rewrite lor_shift by lia. do 2 f_equal. lia.
  - unfold then_. cbn [read_byte app]. rewrite u8_val_of.
    change (Z.land (128 mod 256) 192) with 128. change (128 =? 0) with false.
    change (128 =? 64) with false. change (128 =? 128) with true. cbv iota.
    unfold read_exact. cbn [List.length Nat.leb take drop]. unfold give, be.
    change (take 0 rest) with (@nil u8). change (drop 0 rest) with rest.
    cbn [rev List.app le]. rewrite !u8_val_of. do 2 f_equal. lia.
Qed.

(** ** Reading back a file *)
Fixpoint le_bytes (n : nat) (v : Z) : bytes :=
  match n with
  | O => []
  | S n => u8_of v :: le_bytes n (v / 256)
  end.

(** The forms of a string that are read: a short one as it is, or an integer in one,
    two or four bytes. *)
Inductive Enc := Plain (s : string) | Int8 (n : Z) | Int16 (n : Z) | Int32 (n : Z).

Definition enc_bytes (e : Enc) : bytes :=
  match e with
  | Plain s => u8_of (str_len s) :: as_bytes s
  | Int8 n => [u8_of 192; u8_of n]
  | Int16 n => u8_of 193 :: le_bytes 2 (n mod 2 ^ 16)
  | Int32 n => u8_of 194 :: le_bytes 4 (n mod 2 ^ 32)
  end.

Definition enc_text (e : Enc) : string :=
  match e with Plain s => s | Int8 n | Int16 n | Int32 n => show_Z n end.

(** The eight-bit integers are read as unsigned ([int8_unsigned]). *)
Definition enc_ok (e : Enc) : Prop :=
  match e with
  | Plain s => str_len s < 64 /\ utf8_valid (as_bytes s) = true
  | Int8 n => 0 <= n < 2 ^ 8
  | Int16 n => - 2 ^ 15 <= n < 2 ^ 15
  | Int32 n => - 2 ^ 31 <= n < 2 ^ 31
  end.

(** No expiry time, or one in eight bytes of milliseconds, or in four of seconds: the
    number of seconds is stored as it is. *)
Inductive Expiry := Never | Millis (ms : Z) | Seconds (s : Z).

Definition expiry_bytes (x : Expiry) : bytes :=
  match x with
  | Never => []
  | Millis ms => u8_of 252 :: le_bytes 8 ms
  | Seconds s => u8_of 253 :: le_bytes 4 s
  end.

Definition expiry_time (x : Expiry) : option Z :=
  match x with Never => None | Millis n | Seconds n => Some n end.

(** What a file is made of: facts about the file, the number of the database, the
    sizes of its tables, and keys with their values. *)
Inductive Entry :=
| Aux (name v : Enc)
| SelectDb (n : Z)
| ResizeDb (keys expires : Z)
| Stored (key v : Enc) (x : Expiry).

Definition entry_bytes (e : Entry) : bytes :=
  match e with
  | Aux name v => u8_of 250 :: enc_bytes name ++ enc_bytes v
  | SelectDb n => u8_of 254 :: length_bytes n
  | ResizeDb n m => u8_of 251 :: length_bytes n ++ length_bytes m
  | Stored key v x => expiry_bytes x ++ u8_of 0 :: enc_bytes key ++ enc_bytes v
  end.

Definition store_entry (d : Data) (e : Entry) : Data :=
  match e with
  | Stored key v x => store_str d (enc_text key) (enc_text v) (expiry_time x)
  | _ => d
  end.

Definition entry_ok (e : Entry) : Prop :=
  match e with
  | Aux name v => enc_ok name /\ enc_ok v
  | SelectDb n => 0 <= n < 2 ^ 32
  | ResizeDb n m => 0 <= n < 2 ^ 32 /\ 0 <= m < 2 ^ 32
  | Stored key v x => enc_ok key /\ enc_ok v /\
      match x with Never => True | Millis n => is_u64 n | Seconds n => 0 <= n < 2 ^ 32 end
  end.

(** The header, the entries, and the end-of-file opcode. *)
Definition rdb_file (es : list Entry) : bytes :=
  as_bytes "REDIS0011" ++ mjoin (List.map entry_bytes es) ++ [u8_of 255].

Lemma le_le_bytes n : forall v, 0 <= v < 256 ^ Z.of_nat n -> le (le_bytes n v) = v.
Proof.
  induction n as [|n IH]; intros v Hv; cbn [le_bytes le].
  - change (256 ^ Z.of_nat 0) with 1 in Hv. lia.
  - rewrite Nat2Z.inj_succ, Z.pow_succ_r in Hv by lia.
    rewrite u8_val_of, IH; [lia|]. split; [lia|]. apply Z.div_lt_upper_bound; lia.
Qed.

Lemma length_le_bytes n : forall v, List.length (le_bytes n v) = n.
Proof. induction n as [|n IH]; intros v; cbn; [done|]. by rewrite IH. Qed.

Lemma read_exact_app n b rest : List.length b = n -> read_exact n (b ++ rest) = Ok (b, rest).
Proof.
  intros <-. unfold read_exact. rewrite (proj2 (Nat.leb_le _ _)) by (rewrite length_app; lia).
  by rewrite take_app_length, drop_app_length.
Qed.

(** A little-endian integer of [n] bytes. *)
Lemma read_le n v rest : 0 <= v < 256 ^ Z.of_nat n ->
  then_ (read_exact n) (fun b => give (le b)) (le_bytes n v ++ rest) = Ok (v, rest).
Proof.
  intros Hv. unfold then_. rewrite read_exact_app by apply length_le_bytes. unfold give. by rewrite le_le_bytes.
Qed.

Lemma signed_mod w n : 0 < w -> - 2 ^ (w - 1) <= n < 2 ^ (w - 1) -> signed w (n mod 2 ^ w) = n.
Proof.
  intros Hw Hn. unfold signed. assert (2 ^ w = 2 * 2 ^ (w - 1)) as Hp.
  { rewrite <- Z.pow_succ_r by lia. f_equal. lia. }
  assert (n mod 2 ^ w = if n <? 0 then n + 2 ^ w else n) as ->.
  { destruct (Z.ltb_spec n 0); [|by apply Z.mod_small; lia].
    symmetry. apply (Z.mod_unique_pos _ _ (-1)); lia. }
  destruct (Z.ltb_spec n 0), (Z.ltb_spec (n + 2 ^ w) (2 ^ (w - 1))), (Z.ltb_spec n (2 ^ (w - 1))); lia.
Qed.

Lemma parse_string_plain s rest : str_len s < 64 -> utf8_valid (as_bytes s) = true ->
  parse_string (enc_bytes (Plain s) ++ rest) = Ok (s, rest).
Proof.
  intros Hl Hu. unfold parse_string, enc_bytes. unfold then_ at 1. cbn [read_byte app].
  assert (0 <= str_len s) as H0 by (unfold str_len; lia).
  rewrite u8_val_of, Z.mod_small by lia. destruct (land_tag (str_len s)) as [-> ->]; [lia|].
  rewrite Z.div_small, Z.mod_small by lia. change (64 * 0 =? 0) with true. cbv iota.
  unfold then_. rewrite read_exact_app.
  - unfold utf8_or_error. by rewrite from_utf8_valid.
  - rewrite <- len_as_bytes. unfold len. lia.
Qed.

Lemma parse_string_int n (w : Z) (k : nat) tag rest : 0 <= n < 256 ^ Z.of_nat k ->
  (tag = 193 /\ k = 2%nat /\ w = 16) \/ (tag = 194 /\ k = 4%nat /\ w = 32) ->
  parse_string (u8_of tag :: le_bytes k n ++ rest) = Ok (show_Z (signed w n), rest).
Proof.
  intros Hn Htag. pose proof (read_le k n rest Hn) as Hr. unfold then_ in Hr.
  unfold parse_string. unfold then_ at 1. cbn [read_byte]. rewrite u8_val_of.
  destruct (read_exact k (le_bytes k n ++ rest)) as [[b b']|] eqn:Hb; [|done]. unfold give in Hr. injection Hr as Hle ->.
  destruct Htag as [(-> & -> & ->)|(-> & -> & ->)].
  - change (193 mod 256) with 193. change (Z.land 193 192 =? 0) with false. change (193 =? 192) with false.
    change (193 =? 193) with true. cbv iota. unfold then_. rewrite Hb. unfold give. by rewrite Hle.
  - change (194 mod 256) with 194. change (Z.land 194 192 =? 0) with false. change (194 =? 192) with false.
    change (194 =? 193) with false. change (194 =? 194) with true. cbv iota. unfold then_. rewrite Hb. unfold give. by rewrite Hle.
Qed.

Lemma parse_string_bytes e rest : enc_ok e -> parse_string (enc_bytes e ++ rest) = Ok (enc_text e, rest).
Proof.
  destruct e as [s|n|n|n]; cbn [enc_ok enc_text]; intros He.
  - destruct He. by apply parse_string_plain.
  - unfold parse_string, enc_bytes. unfold then_ at 1. cbn [read_byte app]. rewrite u8_val_of.
    change (192 mod 256) with 192. change (Z.land 192 192 =? 0) with false. change (192 =? 192) with true. cbv iota.
    unfold then_. cbn [read_byte]. rewrite u8_val_of, Z.mod_small by lia. done.
  - rewrite <- (signed_mod 16 n) at 2 by lia. apply (parse_string_int _ 16 2 193); [|by left].
    change (256 ^ Z.of_nat 2) with (2 ^ 16). apply Z.mod_pos_bound. lia.
  - rewrite <- (signed_mod 32 n) at 2 by lia. apply (parse_string_int _ 32 4 194); [|by right].
    change (256 ^ Z.of_nat 4) with (2 ^ 32). apply Z.mod_pos_bound. lia.
Qed.

Lemma parse_type_string_bytes key v rest : enc_ok key -> enc_ok v ->
  parse_type_string (u8_of 0 :: enc_bytes key ++ enc_bytes v ++ rest) = Ok ((enc_text key, enc_text v), rest).
Proof.
  intros Hk Hv. unfold parse_type_string. unfold then_ at 1. cbn [read_byte]. rewrite u8_val_of.
  change (0 mod 256 =? 0) with true. cbv iota. unfold then_ at 1. rewrite parse_string_bytes by done.
  unfold then_. by rewrite parse_string_bytes.
Qed.

Lemma read_op_stored d key v x rest : entry_ok (Stored key v x) -> exists o b, entry_bytes (Stored key v x) = o :: b /\
  read_op d (u8_val o) (b ++ rest) = Ok ((store_entry d (Stored key v x), true), rest).
Proof.
  intros (Hk & Hv & He). destruct x as [|ms|sec]; cbn [entry_bytes expiry_bytes app]; eexists _, _; (split; [reflexivity|]);
    rewrite u8_val_of; unfold read_op.
  - change (0 mod 256) with 0. cbn [Z.eqb]. rewrite <- !app_assoc. unfold then_ at 1. rewrite parse_string_bytes by done.
    unfold then_. by rewrite parse_string_bytes.
  - change (252 mod 256) with 252. cbn [Z.eqb Pos.eqb]. unfold then_ at 1, parse_exp_ms.
    rewrite <- app_assoc. cbn [app]. rewrite <- app_assoc. rewrite (read_le 8 ms).
    + unfold then_. by rewrite parse_type_string_bytes.
    + unfold is_u64, u64_max in He. change (256 ^ Z.of_nat 8) with (2 ^ 64). lia.
  - change (253 mod 256) with 253. cbn [Z.eqb Pos.eqb]. unfold then_ at 1, parse_exp_s.
    rewrite <- app_assoc. cbn [app]. rewrite <- app_assoc. rewrite (read_le 4 sec) by exact He.
    unfold then_. by rewrite parse_type_string_bytes.
Qed.

Lemma read_op_entry d e rest : entry_ok e -> exists o b, entry_bytes e = o :: b /\
  read_op d (u8_val o) (b ++ rest) = Ok ((store_entry d e, true), rest).
Proof.
  destruct e as [name v|n|n m|key v x]; [| | |by apply read_op_stored]; intros He;
    eexists _, _; (split; [reflexivity|]); rewrite u8_val_of; unfold read_op.
  - change (250 mod 256) with 250. cbn [Z.eqb Pos.eqb]. destruct He. rewrite <- app_assoc.
    unfold then_. by rewrite !parse_string_bytes.
  - change (254 mod 256) with 254. cbn [Z.eqb Pos.eqb]. unfold then_. by rewrite parse_length_bytes.
  - change (251 mod 256) with 251. cbn [Z.eqb Pos.eqb]. destruct He. rewrite <- app_assoc.
    unfold then_. by rewrite !parse_length_bytes.
Qed.

Lemma read_loop_entries es : Forall entry_ok es -> forall f d rest, (List.length es <= f)%nat ->
  read_loop f d (mjoin (List.map entry_bytes es) ++ rest) =
  read_loop (f - List.length es) (fold_left store_entry es d) rest.
Proof.
  induction 1 as [|e es He _ IH]; intros f d rest Hf; cbn [List.length fold_left].
  - by rewrite Nat.sub_0_r.
  - cbn [List.length] in Hf. destruct f as [|f]; [lia|].
    change (mjoin (List.map entry_bytes (e :: es))) with
      (entry_bytes e ++ mjoin (List.map entry_bytes es)).
    rewrite <- app_assoc.
    destruct (read_op_entry d e (mjoin (List.map entry_bytes es) ++ rest) He) as (o & b & -> & Hop).
    cbn [app read_loop read_byte]. rewrite Hop, IH by lia. done.
Qed.

Lemma entries_bytes_length es :
  (List.length es <= List.length (mjoin (List.map entry_bytes es)))%nat.
Proof.
  induction es as [|e es IH]; [done|].
  change (mjoin (List.map entry_bytes (e :: es))) with
    (entry_bytes e ++ mjoin (List.map entry_bytes es)).
  rewrite length_app. cbn [List.length].
  assert (0 < List.length (entry_bytes e))%nat; [|lia].
  destruct e as [| | |key v []]; cbn [entry_bytes expiry_bytes List.length app]; lia.
Qed.

(** C29: a file of metadata, database numbers, table sizes and string entries, with
    expiry times in milliseconds, in seconds or none, is read back: the data hold
    exactly its entries, later ones in place of earlier ones of the same key, and an
    expiry time in seconds is taken as if it were in milliseconds. Keys and values are
    UTF-8 of less than 64 bytes, or integers in the encodings of 16 and 32 bits, or of 8
    bits when not negative; numbers and sizes are below 2^32, each in the shortest of the
    three encodings of lengths. *)
Theorem read_file es : Forall entry_ok es ->
  read (rdb_file es) = Ret (Ok (fold_left store_entry es ∅)).
Proof.
  intros Hes. unfold read, rdb_file.
  change (read_exact 9 (as_bytes "REDIS0011" ++ ?r)) with (Ok (E := CustomError) (as_bytes "REDIS0011", r)).
  cbv iota. pose proof (entries_bytes_length es) as Hlen.
  rewrite read_loop_entries; [|done|rewrite length_app; lia].
  set (b := mjoin (List.map entry_bytes es)) in *. rewrite length_app. cbn [List.length].
  replace (S (List.length b + 1) - List.length es)%nat with (S (S (List.length b - List.length es)))
    by lia.
  reflexivity.
Qed.

(** A file that stops after an entry, without the end-of-file opcode, panics
    the server as it starts: the opcode is read with [expect]. *)
Theorem truncated_file_panics es : Forall entry_ok es ->
  read (as_bytes "REDIS0011" ++ mjoin (List.map entry_bytes es)) = Panic.
Proof.
  intros Hes. unfold read.
  change (read_exact 9 (as_bytes "REDIS0011" ++ ?r)) with (Ok (E := CustomError) (as_bytes "REDIS0011", r)).
  cbv iota. pose proof (entries_bytes_length es) as Hlen.
  rewrite <- (app_nil_r (mjoin (List.map entry_bytes es))) at 2.
  rewrite read_loop_entries; [|done|lia].
  set (b := mjoin (List.map entry_bytes es)) in *.
  replace (S (List.length b) - List.length es)%nat with (S (List.length b - List.length es)) by lia.
  reflexivity.
Qed.

(** An eight-bit integer is read as unsigned: what is saved as -1 is loaded as
    255. *)
Example int8_unsigned : parse_string [u8_of 192; u8_of 255] = Ok ("255"%string, []).
Proof. reflexivity. Qed.

Definition demo_entries : list Entry :=
  [Aux (Plain "redis-bits") (Int8 64); SelectDb 0; ResizeDb 300 1; Stored (Plain "foo") (Plain "bar") Never;
   Stored (Plain "k") (Int16 (-1)) (Millis 1700000000000); Stored (Int32 70000) (Plain "v") (Seconds 1700000000)]%string.

Lemma demo_entries_ok : Forall entry_ok demo_entries.
Proof. unfold demo_entries. repeat apply Forall_cons_2; try apply Forall_nil_2; by vm_compute. Qed.

Lemma read_file_witness : exists d, read (rdb_file demo_entries) = Ret (Ok d) /\
  d !! "k"%string = Some (item (Str "-1") (Some 1700000000000)) /\
  d !! "70000"%string = Some (item (Str "v") (Some 1700000000)).
Proof.
  exists (fold_left store_entry demo_entries ∅). split; [exact (read_file demo_entries demo_entries_ok)|].
  split; vm_compute; reflexivity.
Defined.

Lemma truncated_file_panics_witness :
  read (as_bytes "REDIS0011" ++ mjoin (List.map entry_bytes demo_entries)) = Panic.
Proof. exact (truncated_file_panics demo_entries demo_entries_ok). Defined.

Lemma parse_length_bytes_witness : parse_length (length_bytes 16383 ++ []) = Ok (16383, []).
Proof. apply (parse_length_bytes 16383 []). lia. Defined.
