(* ===== verification/Replication.v ===== *)
(** * The table of special clients ([replication.rs])

    The master this server replicates from, if any, and the replicas connected
    to it, by client id. *)

From S2P Require Import Prelude Text.

Record ClientTable := mk_clients { master : option Z; slaves : option (gset Z) }.

Definition clients_new : ClientTable := mk_clients None None.

Definition remove_client (t : ClientTable) (client_id : Z) : ClientTable :=
  let m := match master t with
           | Some x => if x =? client_id then None else Some x
           | None => None
           end in
  let s := match slaves t with
           | Some h => Some (h ∖ {[client_id]})
           | None => None
           end in
  mk_clients m s.

Definition is_master (t : ClientTable) (client_id : Z) : bool :=
  match master t with Some x => x =? client_id | None => false end.

Definition is_slave (t : ClientTable) (client_id : Z) : bool :=
  match slaves t with Some h => bool_decide (client_id ∈ h) | None => false end.

Definition set_master (t : ClientTable) (client_id : Z) : ClientTable :=
  mk_clients (Some client_id) (slaves t).

Definition set_slave (t : ClientTable) (client_id : Z) : ClientTable :=
  mk_clients (master t) (Some (unwrap_or (slaves t) ∅ ∪ {[client_id]})).

Definition remove_slave (t : ClientTable) (client_id : Z) : ClientTable :=
  mk_clients (master t) (match slaves t with Some l => Some (l ∖ {[client_id]}) | None => None end).

(** The replicas, none when no table was made. *)
Definition slave_set (t : ClientTable) : gset Z := unwrap_or (slaves t) ∅.

Lemma is_slave_set t c : is_slave t c = bool_decide (c ∈ slave_set t).
Proof.
  unfold is_slave, slave_set. destruct (slaves t); cbn; [done|].
  symmetry. apply bool_decide_eq_false. set_solver.
Qed.

(** A removed client has no role left; the roles of the others are kept. *)
Lemma remove_client_spec t c d :
  is_master (remove_client t c) d = is_master t d && negb (c =? d) /\
  is_slave (remove_client t c) d = is_slave t d && negb (c =? d).
Proof.
  split.
  - unfold is_master, remove_client. cbn. destruct (master t) as [x|]; [|done].
    destruct (Z.eqb_spec x c) as [->|]; [by destruct (c =? d)|].
    destruct (Z.eqb_spec x d) as [->|]; [|done].
    by destruct (Z.eqb_spec c d).
  - rewrite !is_slave_set. unfold remove_client, slave_set. cbn.
    destruct (slaves t) as [h|]; cbn [unwrap_or];
      destruct (Z.eqb_spec c d) as [->|]; rewrite ?andb_false_r, ?andb_true_r;
      first [apply bool_decide_eq_false; set_solver | apply bool_decide_ext; set_solver].
Qed.

Lemma set_slave_spec t c d : is_slave (set_slave t c) d = is_slave t d || (c =? d).
Proof.
  rewrite !is_slave_set. unfold set_slave, slave_set. cbn.
  destruct (Z.eqb_spec c d) as [->|].
  - rewrite orb_true_r. apply bool_decide_eq_true. set_solver.
  - rewrite orb_false_r. apply bool_decide_ext. set_solver.
Qed.
