(* ===== verification/Auth.v ===== *)
(** * Authentication ([auth.rs])

    Users, their hashed passwords, and the clients that have authenticated. The
    hash is the [sha2] crate's; it is a parameter, [Sha256]. *)

From S2P Require Import Prelude Text Float64 Resp Store.
From S2P Require Import CmdBuilder.

(** [hex::encode(Sha256::digest(..))]. *)
Class Sha256 := sha256_hex : string -> string.

Section Auth.
Context `{Sha256}.

(** ** [Credential] *)

Inductive AuthFlags := NoPass.

#[local] Instance auth_flags_eq_dec : EqDecision AuthFlags.
Proof. solve_decision. Defined.

Definition flag_display (f : AuthFlags) : string := match f with NoPass => "nopass" end.

(** The flags are a set of one possible element. *)
Record Credential := mk_cred { username : string; passwords : gset string; nopass : bool }.

Definition cred_new : Credential := mk_cred "default" ∅ true.

Definition flags (c : Credential) : list AuthFlags := if nopass c then [NoPass] else [].

Definition hash_password (password : string) : string := sha256_hex password.

Definition set_password (c : Credential) (password : string) : Credential :=
  mk_cred (username c) ({[hash_password password]} ∪ passwords c) false.

Definition check_password (c : Credential) (password : string) : bool :=
  bool_decide (hash_password password ∈ passwords c).

(** [HashSet::insert]: whether the flag is new. *)
Definition add_flag (c : Credential) (f : AuthFlags) : Credential * bool :=
  match f with NoPass => (mk_cred (username c) (passwords c) true, negb (nopass c)) end.

Definition has_nopass (c : Credential) : bool := nopass c.

(** ** [Auth] *)

Record Auth := mk_auth { credentials : gmap string Credential; auth_clients : gmap Z string }.

Definition auth_new : Auth := mk_auth {["default"%string := cred_new]} ∅.

Definition wrongpass : CustomError :=
  WrongUsernamePassword "WRONGPASS invalid username-password pair or user is disabled.".

Definition authenticate (a : Auth) (client_id : Z) (user password : option string) :
    Auth * Result CustomError unit :=
  match user, password with
  | Some u, Some s =>
      match credentials a !! u with
      | Some credential =>
          if check_password credential s then
            (mk_auth (credentials a) (<[client_id := u]> (auth_clients a)), Ok tt)
          else (a, Err wrongpass)
      | None => (a, Err wrongpass)
      end
  | Some _, None | None, Some _ => (a, Err wrongpass)
  | None, None =>
      match credentials a !! "default"%string with
      | None => (a, Err (InternalError "No default user"))
      | Some default_credential =>
          if has_nopass default_credential then
            (mk_auth (credentials a) (<[client_id := "default"%string]> (auth_clients a)), Ok tt)
          else (a, Ok tt)
      end
  end.

Definition remove_auth (a : Auth) (client_id : Z) : Auth :=
  mk_auth (credentials a) (delete client_id (auth_clients a)).

Definition get_username (a : Auth) (client_id : Z) : Result CustomError string :=
  ok_or (auth_clients a !! client_id) (WrongUsernamePassword "Client not registered").

Definition get_credential (a : Auth) (u : string) : option Credential := credentials a !! u.

(** Writing through [get_credential_mut]. *)
Definition set_credential (a : Auth) (u : string) (c : Credential) : Auth :=
  mk_auth (<[u := c]> (credentials a)) (auth_clients a).

Definition check_auth (a : Auth) (client_id : Z) : bool :=
  match auth_clients a !! client_id with Some _ => true | None => false end.

(** ** The [ACL] and [AUTH] commands *)
Definition cmd_acl_whoami (a : Auth) (client_id : Z) : Reply :=
  let? u := get_username a client_id in
  Ok (Some (bulk u)).

Definition cmd_acl_getuser `{HashOrder} (a : Auth) (client_id : Z) (user : string) : Reply :=
  let? stored_username := get_username a client_id in
  if negb (String.eqb stored_username user) then
    Err (WrongUsernamePassword "Wrong username")
  else
    let? credential := ok_or (get_credential a user) (WrongUsernamePassword "Wrong username") in
    let resp_flags :=
      match flags credential with
      | [] => empty_array
      | fs => build_array (len fs) (List.map (fun f => bulk (flag_display f)) fs)
      end in
    let resp_passwords :=
      match iter_set (passwords credential) with
      | [] => empty_array
      | ps => build_array (len ps) (List.map bulk ps)
      end in
    Ok (Some (build_array 4 [bulk "flags"; resp_flags; bulk "passwords"; resp_passwords])).

(** The rules in order; an error ends the loop and is dropped. *)
Fixpoint apply_rules (c : Credential) (rules : list AclRules.t) : Credential :=
  match rules with
  | [] => c
  | AclRules.NoPass :: rest =>
      let (c', new) := add_flag c NoPass in
      if new then apply_rules c' rest else c'
  | AclRules.AddPassword s :: rest => apply_rules (set_password c s) rest
  end.

Definition cmd_acl_setuser (a : Auth) (user : string) (rules : list AclRules.t) : Auth * Reply :=
  match get_credential a user with
  | None => (a, Err (WrongUsernamePassword "Wrong username"))
  | Some credential => (set_credential a user (apply_rules credential rules), Ok response_ok)
  end.

Definition cmd_acl `{HashOrder} (a : Auth) (opt : CmdArg.t) (client_id : Z) : Auth * Reply :=
  match opt with
  | CmdArg.WhoAmI => (a, cmd_acl_whoami a client_id)
  | CmdArg.GetUser u => (a, cmd_acl_getuser a client_id u)
  | CmdArg.SetUser key rules => cmd_acl_setuser a key rules
  | _ => (a, Err (UnsupportedCmd "Unsupported"))
  end.

Definition cmd_auth (a : Auth) (user password : string) (client_id : Z) : Auth * Reply :=
  let (a, r) := authenticate a client_id (Some user) (Some password) in
  (a, match r with Ok _ => Ok response_ok | Err _ => Err wrongpass end).

(** ** Behaviour *)

(** C40: A password, once set, is the only way in: new connections are not
    authenticated, the password is accepted, and a password with another hash
    is refused. *)
Lemma password_required a pw user client :
  let a0 := auth_new in
  let (a1, r) := cmd_acl_setuser a0 "default" [AclRules.AddPassword pw] in
  r = Ok response_ok /\
  (auth_clients a = ∅ -> credentials a = credentials a1 ->
    check_auth (authenticate a client None None).1 client = false /\
    (check_auth (cmd_auth a "default" pw client).1 client = true /\
     (cmd_auth a "default" pw client).2 = Ok response_ok) /\
    forall pw', (user <> "default"%string \/ sha256_hex pw' <> sha256_hex pw) ->
      cmd_auth a user pw' client = (a, Err wrongpass)).
Proof.
  cbn. unfold cmd_acl_setuser, get_credential. cbn. rewrite lookup_singleton_eq.
  split; [done|]. intros Hc Hcred. unfold set_credential in Hcred. cbn in Hcred.
  assert (credentials a !! "default"%string = Some (set_password cred_new pw)) as Hd.
  { by rewrite Hcred, lookup_insert_eq. }
  assert (forall u, u <> "default"%string -> credentials a !! u = None) as Hu.
  { intros u Hu. rewrite Hcred, lookup_insert_ne by done. by apply lookup_singleton_ne. }
  assert (forall p, check_password (set_password cred_new pw) p =
                    bool_decide (sha256_hex p = sha256_hex pw)) as Hcheck.
  { intros p. unfold check_password, set_password. cbn. apply bool_decide_ext.
    unfold hash_password. set_solver. }
  split; [|split].
  - unfold authenticate. rewrite Hd. cbn. unfold check_auth. by rewrite Hc, lookup_empty.
  - unfold cmd_auth, authenticate. rewrite Hd, Hcheck, bool_decide_true by done. cbn.
    unfold check_auth. cbn. by rewrite lookup_insert_eq.
  - intros pw' Hne. unfold cmd_auth, authenticate. destruct (decide (user = "default"%string)) as [->|Hud].
    + rewrite Hd, Hcheck, bool_decide_false; [done|]. by destruct Hne.
    + by rewrite Hu.
Qed.

(** Without a password every connection is the default user. *)
Lemma nopass_connects client :
  let a := (authenticate auth_new client None None).1 in
  check_auth a client = true /\ cmd_acl_whoami a client = Ok (Some (bulk "default")).
Proof.
  unfold authenticate, auth_new. cbn. rewrite lookup_singleton_eq. cbn.
  unfold check_auth, cmd_acl_whoami, get_username. cbn. by rewrite lookup_insert_eq.
Qed.

(** [AUTH] only checks passwords: the default user, who needs none, cannot
    authenticate with one. *)
Lemma auth_nopass_user_refused client pw :
  cmd_auth auth_new "default" pw client = (auth_new, Err wrongpass).
Proof.
  unfold cmd_auth, authenticate. cbn. rewrite lookup_singleton_eq.
  unfold check_password. by rewrite bool_decide_false by set_solver.
Qed.
End Auth.

Lemma password_required_witness :
  let a := mk_auth (credentials (cmd_acl_setuser (H := fun s => s) auth_new "default" [AclRules.AddPassword "pw"]).1) ∅ in
  check_auth (authenticate (H := fun s => s) a 7 None None).1 7 = false.
Proof.
  pose proof (password_required (H := fun s => s)
    (mk_auth (credentials (cmd_acl_setuser (H := fun s => s) auth_new "default" [AclRules.AddPassword "pw"]).1) ∅)
    "pw" "other" 7) as Hp.
  apply Hp; reflexivity.
Defined.
