(* ===== verification/Registry.v ===== *)
(** * Blocked requests, transactions and watches ([RequestRegistry])

    The registry of [commands/cmd_handler.rs]: blocked [BLPOP], [XREAD] and
    [WAIT] requests by timestamp with their queues and deadlines, open
    transactions, and watched keys. The boxed closures of an entry are values of
    [Task], one constructor per closure of the source with what it captures;
    running them is the handler's. The timer file descriptor is the time it was
    last armed for. [reg_wf] relates the queues to the store; [insert] and
    [remove] preserve it. *)

From S2P Require Import Prelude Text CmdBuilder BTree.

(** ** Entries *)

(** The closures: [backlog_task] of [BLPOP] and [XREAD], the [deadline_task] these
    two share, and the one of [WAIT], which shares a counter with its entry. *)
Inductive Task :=
| BlpopTask (timestamp client_id : Z) (key : string)
| XreadTask (timestamp client_id : Z) (count : option Z) (stream : list (string * Z * Z))
| NullTask (timestamp client_id : Z)
| WaitTask (timestamp client_id : Z) (count_ref : nat) (epoll_fd : option Z).

(** [actual_count] is the address of an [Rc<Cell<u64>>]. *)
Inductive RequestEntry :=
| REList (key : string) (deadline : Z) (backlog_task deadline_task : Task)
| REStream (key_ts : list (string * Z * Z)) (deadline : Z) (backlog_task deadline_task : Task)
| REWait (client_id required_count : Z) (actual_count : nat) (deadline offset_snapshot : Z)
    (slave_ids : list Z) (deadline_task : Task).

Definition set_deadline (e : RequestEntry) (d : Z) : RequestEntry :=
  match e with
  | REList key _ b t => REList key d b t
  | REStream key_ts _ b t => REStream key_ts d b t
  | REWait c r a _ o s t => REWait c r a d o s t
  end.

Definition entry_deadline (e : RequestEntry) : Z :=
  match e with
  | REList _ d _ _ => d
  | REStream _ d _ _ => d
  | REWait _ _ _ d _ _ _ => d
  end.

(** ** The registry *)

Record Registry := mk_registry {
  store : gmap Z RequestEntry;
  backlog_list : gmap string (list Z);
  backlog_stream : gset Z;
  backlog_txn : gmap Z (list (Cmd.t * bytes));
  watchlist : gmap string (gmap Z bool);
  backlog_wait : gmap Z Z;
  backlog_ack : gmap Z (list Z);
  deadlines : BTreeMap Z Z;
  timer : option Z;
}.

Definition registry_new : Registry := mk_registry ∅ ∅ ∅ ∅ ∅ ∅ ∅ [] None.

(** [timer_create_event]: arms the timer [duration_ms] from now; the kernel
    refuses a negative time and a zero one disarms. *)
Definition timer_create_event (now duration_ms : Z) (t : option Z) : option Z :=
  if duration_ms <? 0 then t
  else if duration_ms =? 0 then None
  else Some (now + duration_ms).

(** Armed for the first deadline; left as it is when there is none. *)
Definition set_timer_fd (now : Z) (deadlines : BTreeMap Z Z) (t : option Z) : option Z :=
  match bt_first_key_value deadlines with
  | Some (deadline, _) =>
      let timeout := if now <? deadline then wrap_i64 (deadline - now) else 1 in
      timer_create_event now timeout t
  | None => t
  end.

(** The first free deadline from [d] on: at most as many steps as there are
    deadlines. *)
Fixpoint free_deadline (fuel : nat) (m : BTreeMap Z Z) (d : Z) : Z :=
  match fuel with
  | O => d
  | S f => if bt_contains_key d m then free_deadline f m (wrap_u64 (d + 1)) else d
  end.

(** [or_default().push(..)] on a map of lists. *)
Definition push_at {K} `{Countable K} {A} (m : gmap K (list A)) (k : K) (a : A) : gmap K (list A) :=
  <[k := unwrap_or (m !! k) [] ++ [a]]> m.

Definition insert (now : Z) (r : Registry) (timestamp deadline : Z) (e : RequestEntry) : Registry :=
  let d := free_deadline (S (List.length (deadlines r))) (deadlines r) deadline in
  let '(dl, e, tm) :=
    if 0 <? deadline then
      let dl := bt_insert d timestamp (deadlines r) in
      (dl, set_deadline e d, set_timer_fd now dl (timer r))
    else (deadlines r, e, timer r) in
  let bl := match e with
            | REList key _ _ _ => push_at (backlog_list r) key timestamp
            | _ => backlog_list r
            end in
  let bs := match e with
            | REStream _ _ _ _ => {[timestamp]} ∪ backlog_stream r
            | _ => backlog_stream r
            end in
  let '(bw, ba) :=
    match e with
    | REWait client_id _ _ _ _ slave_ids _ =>
        (<[client_id := timestamp]> (backlog_wait r),
         fold_left (fun m i => push_at m i client_id) slave_ids (backlog_ack r))
    | _ => (backlog_wait r, backlog_ack r)
    end in
  mk_registry (<[timestamp := e]> (store r)) bl bs (backlog_txn r) (watchlist r) bw ba dl tm.

(** [retain], then the key goes when its list is empty. *)
Definition retain_at {K} `{Countable K} (m : gmap K (list Z)) (k : K) (z : Z) : gmap K (list Z) :=
  match m !! k with
  | Some l =>
      match List.filter (fun x => negb (x =? z)) l with
      | [] => delete k m
      | l' => <[k := l']> m
      end
  | None => m
  end.

Definition remove (now : Z) (r : Registry) (timestamp : Z) : Registry * option RequestEntry :=
  match store r !! timestamp with
  | None => (r, None)
  | Some e =>
      let bl := match e with
                | REList key _ _ _ => retain_at (backlog_list r) key timestamp
                | _ => backlog_list r
                end in
      let bs := match e with
                | REStream _ _ _ _ => backlog_stream r ∖ {[timestamp]}
                | _ => backlog_stream r
                end in
      let '(bw, ba) :=
        match e with
        | REWait client_id _ _ _ _ slave_ids _ =>
            (delete client_id (backlog_wait r),
             fold_left (fun m i => retain_at m i client_id) slave_ids (backlog_ack r))
        | _ => (backlog_wait r, backlog_ack r)
        end in
      let dl := bt_remove (entry_deadline e) (deadlines r) in
      (mk_registry (delete timestamp (store r)) bl bs (backlog_txn r) (watchlist r) bw ba dl
         (set_timer_fd now dl (timer r)), Some e)
  end.

Definition is_backlog_list_empty (r : Registry) (key : string) : bool :=
  match backlog_list r !! key with
  | Some [] => true
  | Some _ => false
  | None => false
  end.

Definition is_transation (r : Registry) (client_id : Z) : bool :=
  match backlog_txn r !! client_id with Some _ => true | None => false end.

Definition get_nearest_deadline (r : Registry) : option (Z * Z) := bt_first_key_value (deadlines r).

Definition set_txn (r : Registry) (m : gmap Z (list (Cmd.t * bytes))) : Registry :=
  mk_registry (store r) (backlog_list r) (backlog_stream r) m (watchlist r) (backlog_wait r)
    (backlog_ack r) (deadlines r) (timer r).

Definition set_watchlist (r : Registry) (w : gmap string (gmap Z bool)) : Registry :=
  mk_registry (store r) (backlog_list r) (backlog_stream r) (backlog_txn r) w (backlog_wait r)
    (backlog_ack r) (deadlines r) (timer r).

Definition set_ack (r : Registry) (a : gmap Z (list Z)) : Registry :=
  mk_registry (store r) (backlog_list r) (backlog_stream r) (backlog_txn r) (watchlist r)
    (backlog_wait r) a (deadlines r) (timer r).

Definition add_to_txn (r : Registry) (client_id : Z) (cmd : Cmd.t) (buf : bytes) : Registry :=
  set_txn r (push_at (backlog_txn r) client_id (cmd, buf)).

(** [entry(k).or_default().entry(client_id).or_insert(false)]. *)
Definition watch_key (client_id : Z) (w : gmap string (gmap Z bool)) (k : string) :
    gmap string (gmap Z bool) :=
  let c := unwrap_or (w !! k) ∅ in
  <[k := match c !! client_id with Some _ => c | None => <[client_id := false]> c end]> w.

Definition watch (r : Registry) (keys : list string) (client_id : Z) : Registry :=
  set_watchlist r (fold_left (watch_key client_id) keys (watchlist r)).

Definition unwatch_all (r : Registry) (client_id : Z) : Registry :=
  set_watchlist r (delete client_id <$> watchlist r).

(** The key a command is known to modify. *)
Definition dirty_key (cmd : Cmd.t) : option string :=
  match cmd with
  | Cmd.SET key _ _ | Cmd.LPUSH key _ | Cmd.RPUSH key _ | Cmd.LPOP key _ | Cmd.BLPOP key _
  | Cmd.INCR key | Cmd.XADD key _ _ | Cmd.SETBIT key _ _ => Some key
  | Cmd.BITOP (CmdArg.AND dest _ _) | Cmd.BITOP (CmdArg.OR dest _ _) => Some dest
  | _ => None
  end.

Definition set_dirty (r : Registry) (cmd : Cmd.t) : Registry :=
  match dirty_key cmd with
  | Some key =>
      match watchlist r !! key with
      | Some w => set_watchlist r (<[key := (fun _ => true) <$> w]> (watchlist r))
      | None => r
      end
  | None => r
  end.

Definition is_any_dirty (r : Registry) (client_id : Z) : bool :=
  existsb (fun e => unwrap_or (e.2 !! client_id) false) (map_to_list (watchlist r)).

(** ** Watches *)

(** Whether the client watches the key, and has seen it written. *)
Definition watches (r : Registry) (client_id : Z) (key : string) : option bool :=
  match watchlist r !! key with Some w => w !! client_id | None => None end.

Lemma is_any_dirty_spec r c : is_any_dirty r c = true <-> exists k, watches r c k = Some true.
Proof.
  unfold is_any_dirty, watches. rewrite existsb_exists. split.
  - intros ([k w] & Hin & Hd). apply list_elem_of_In, elem_of_map_to_list in Hin.
    exists k. rewrite Hin. cbn in Hd. destruct (w !! c) as [[]|]; done.
  - intros [k Hk]. destruct (watchlist r !! k) as [w|] eqn:Hw; [|done].
    exists (k, w). split; [by apply list_elem_of_In, elem_of_map_to_list|]. cbn. by rewrite Hk.
Qed.

(** A write marks exactly the clients that watch its key. *)
Lemma watches_set_dirty r cmd c k :
  watches (set_dirty r cmd) c k =
  match watches r c k with
  | Some d => Some (d || bool_decide (dirty_key cmd = Some k))
  | None => None
  end.
Proof.
  unfold set_dirty, watches. destruct (dirty_key cmd) as [key|] eqn:Hd.
  - destruct (watchlist r !! key) as [w|] eqn:Hw.
    + cbn. destruct (decide (key = k)) as [->|Hne].
      * rewrite lookup_insert_eq, Hw, lookup_fmap. destruct (w !! c); cbn; [|done].
        by rewrite bool_decide_true, orb_true_r.
      * rewrite lookup_insert_ne by done. destruct (watchlist r !! k) as [w'|]; [|done].
        destruct (w' !! c); [|done]. rewrite bool_decide_false by congruence. by rewrite orb_false_r.
    + destruct (decide (key = k)) as [->|Hne]; [by rewrite Hw|].
      destruct (watchlist r !! k) as [w'|]; [|done].
      destruct (w' !! c); [|done]. rewrite bool_decide_false by congruence. by rewrite orb_false_r.
  - destruct (watchlist r !! k) as [w'|]; [|done]. destruct (w' !! c); [|done].
    rewrite bool_decide_false by done. by rewrite orb_false_r.
Qed.

Lemma watches_watch_key c w k c' k' :
  match watch_key c w k !! k' with Some w' => w' !! c' | None => None end =
  match (match w !! k' with Some w' => w' !! c' | None => None end) with
  | Some d => Some d
  | None => if decide (k = k' /\ c = c') then Some false else None
  end.
Proof.
  unfold watch_key. destruct (decide (k = k')) as [->|Hk].
  - rewrite lookup_insert_eq. destruct (w !! k') as [w'|]; cbn [unwrap_or].
    + destruct (decide (c = c')) as [->|Hc].
      * rewrite decide_True by done. destruct (w' !! c') eqn:Hw; [by rewrite Hw|].
        by rewrite lookup_insert_eq.
      * rewrite decide_False by naive_solver.
        destruct (w' !! c); rewrite ?lookup_insert_ne by done; by destruct (w' !! c').
    + rewrite lookup_empty. destruct (decide (c = c')) as [->|Hc].
      * by rewrite lookup_insert_eq, decide_True.
      * rewrite lookup_insert_ne, lookup_empty by done. by rewrite decide_False by naive_solver.
  - rewrite lookup_insert_ne by done. rewrite decide_False by naive_solver.
    destruct (w !! k') as [w'|]; [|done]. by destruct (w' !! c').
Qed.

(** [WATCH] starts clean watches and keeps the ones there are. *)
Lemma watches_watch r keys c c' k :
  watches (watch r keys c) c' k =
  match watches r c' k with
  | Some d => Some d
  | None => if decide (k ∈ keys /\ c = c') then Some false else None
  end.
Proof.
  unfold watch, watches, set_watchlist. cbn [watchlist]. generalize (watchlist r).
  induction keys as [|key keys IH]; intros w; cbn.
  - rewrite decide_False by (intros [?%not_elem_of_nil _]; done).
    destruct (w !! k) as [w'|]; [|done]. by destruct (w' !! c').
  - rewrite IH, watches_watch_key.
    destruct (match w !! k with Some w' => w' !! c' | None => None end); [done|].
    rewrite (decide_ext (k ∈ key :: keys /\ c = c') (((key = k /\ c = c') \/ (k ∈ keys /\ c = c')))).
    2: { rewrite elem_of_cons. naive_solver. }
    destruct (decide (key = k /\ c = c')); [by rewrite decide_True by naive_solver|].
    destruct (decide (k ∈ keys /\ c = c')); [by rewrite decide_True by naive_solver|].
    by rewrite decide_False by naive_solver.
Qed.

Lemma watches_unwatch r c c' k :
  watches (unwatch_all r c) c' k = if decide (c = c') then None else watches r c' k.
Proof.
  unfold unwatch_all, watches, set_watchlist. cbn [watchlist]. rewrite lookup_fmap.
  destruct (watchlist r !! k) as [w|]; cbn; [|by destruct (decide (c = c'))].
  destruct (decide (c = c')) as [->|]; [apply lookup_delete_eq|by apply lookup_delete_ne].
Qed.

(** ** The queues agree with the store *)
Definition list_key (e : RequestEntry) : option string :=
  match e with REList key _ _ _ => Some key | _ => None end.
Definition is_stream_entry (e : RequestEntry) : bool :=
  match e with REStream _ _ _ _ => true | _ => false end.
Definition wait_client (e : RequestEntry) : option Z :=
  match e with REWait c _ _ _ _ _ _ => Some c | _ => None end.
Definition wait_slaves (e : RequestEntry) : list Z :=
  match e with REWait _ _ _ _ _ s _ => s | _ => [] end.

(** The clients a replica owes an acknowledgement to, the queue of a list. *)
Definition ack_of (r : Registry) (s : Z) : list Z := unwrap_or (backlog_ack r !! s) [].
Definition queue_of (r : Registry) (k : string) : list Z := unwrap_or (backlog_list r !! k) [].

Record reg_wf (r : Registry) : Prop := {
  rw_sorted : bt_sorted (deadlines r);
  rw_deadline : forall t e, store r !! t = Some e -> 0 < entry_deadline e ->
    (entry_deadline e, t) ∈ deadlines r;
  rw_deadline_inv : forall d t, (d, t) ∈ deadlines r ->
    0 < d /\ exists e, store r !! t = Some e /\ entry_deadline e = d;
  rw_queue : forall k t, t ∈ queue_of r k <->
    exists e, store r !! t = Some e /\ list_key e = Some k;
  rw_queue_nodup : forall k, NoDup (queue_of r k);
  rw_queue_nonempty : forall k, backlog_list r !! k <> Some [];
  rw_stream : forall t, t ∈ backlog_stream r <->
    exists e, store r !! t = Some e /\ is_stream_entry e = true;
  rw_wait : forall c t, backlog_wait r !! c = Some t <->
    exists e, store r !! t = Some e /\ wait_client e = Some c;
  rw_ack : forall s c, c ∈ ack_of r s ->
    exists t e, backlog_wait r !! c = Some t /\ store r !! t = Some e /\ s ∈ wait_slaves e;
}.

Lemma registry_new_wf : reg_wf registry_new.
Proof.
  split; cbn; try done.
  - intros d t ?%not_elem_of_nil. done.
  - intros k t. unfold queue_of. cbn. rewrite lookup_empty. cbn.
    split; [by intros ?%not_elem_of_nil|by intros (? & ? & _)].
  - intros k. unfold queue_of. cbn. rewrite lookup_empty. constructor.
  - intros t. split; [set_solver|by intros (? & ? & _)].
  - intros c t. split; [done|by intros (? & ? & _)].
  - intros s c. unfold ack_of. cbn. rewrite lookup_empty. by intros ?%not_elem_of_nil.
Qed.

(** *** Maps of lists *)

Section PushAt.
Context {K : Type} `{Countable K}.

Lemma push_at_lookup (m : gmap K (list Z)) k z k' :
  unwrap_or (push_at m k z !! k') [] =
  if decide (k = k') then unwrap_or (m !! k') [] ++ [z] else unwrap_or (m !! k') [].
Proof.
  unfold push_at. destruct (decide (k = k')) as [->|].
  - by rewrite lookup_insert_eq.
  - by rewrite lookup_insert_ne.
Qed.

Lemma retain_at_lookup (m : gmap K (list Z)) k z k' :
  unwrap_or (retain_at m k z !! k') [] =
  if decide (k = k') then List.filter (fun x => negb (x =? z)) (unwrap_or (m !! k') [])
  else unwrap_or (m !! k') [].
Proof.
  unfold retain_at. destruct (m !! k) as [l|] eqn:Hk.
  - destruct (List.filter _ l) as [|x l'] eqn:Hf; destruct (decide (k = k')) as [<-|].
    + rewrite lookup_delete_eq, Hk. cbn. by rewrite Hf.
    + by rewrite lookup_delete_ne.
    + rewrite lookup_insert_eq, Hk. cbn. by rewrite Hf.
    + by rewrite lookup_insert_ne.
  - destruct (decide (k = k')) as [<-|]; [by rewrite Hk|done].
Qed.

Lemma retain_at_nonempty (m : gmap K (list Z)) k z :
  (forall k', m !! k' <> Some []) -> forall k', retain_at m k z !! k' <> Some [].
Proof.
  intros Hm k'. unfold retain_at. destruct (m !! k) as [l|] eqn:Hk; [|apply Hm].
  destruct (List.filter _ l) as [|x l'] eqn:Hf.
  - by intros [_ ?]%lookup_delete_Some; apply (Hm k').
  - intros [[_ ?]|[_ ?]]%lookup_insert_Some; [done|by apply (Hm k')].
Qed.

Lemma push_all_in (ks : list K) (m : gmap K (list Z)) z k' x :
  x ∈ unwrap_or (fold_left (fun m i => push_at m i z) ks m !! k') [] <->
  x ∈ unwrap_or (m !! k') [] \/ (x = z /\ k' ∈ ks).
Proof.
  revert m. induction ks as [|k ks IH]; intros m; cbn.
  - split; [by left|intros [?|[_ ?%not_elem_of_nil]]; done].
  - rewrite IH, push_at_lookup, elem_of_cons. destruct (decide (k = k')) as [->|].
    + rewrite elem_of_app, list_elem_of_singleton. naive_solver.
    + naive_solver.
Qed.

Lemma retain_all_in (ks : list K) (m : gmap K (list Z)) z k' x :
  x ∈ unwrap_or (fold_left (fun m i => retain_at m i z) ks m !! k') [] <->
  x ∈ unwrap_or (m !! k') [] /\ ~ (x = z /\ k' ∈ ks).
Proof.
  revert m. induction ks as [|k ks IH]; intros m; cbn.
  - split; [intros ?; split; [done|by intros [_ ?%not_elem_of_nil]]|by intros []].
  - rewrite IH, retain_at_lookup, elem_of_cons. destruct (decide (k = k')) as [->|].
    + rewrite !list_elem_of_In, filter_In, <- !list_elem_of_In.
      destruct (Z.eqb_spec x z); cbn; naive_solver.
    + naive_solver.
Qed.
End PushAt.

(** *** Deadlines *)
Lemma bt_contains_in (m : BTreeMap Z Z) d : bt_sorted m ->
  bt_contains_key d m = true <-> exists t, (d, t) ∈ m.
Proof.
  intros Hs. unfold bt_contains_key. split.
  - destruct (bt_get d m) as [t|] eqn:Hg; [|done]. intros _.
    apply bt_get_some in Hg as (d' & Hin & Hd). apply Z.compare_eq in Hd as <-. by exists t.
  - intros [t Hin]. by rewrite (bt_get_in d d t m Hs Hin (Z.compare_refl d)).
Qed.

(** The search succeeds: more consecutive deadlines than entries cannot all be
    taken. *)
Lemma free_deadline_spec m d : bt_sorted m -> 0 <= d -> d + len m <= u64_max ->
  let r := free_deadline (S (List.length m)) m d in
  bt_contains_key r m = false /\ d <= r <= d + len m.
Proof.
  intros Hs Hd Hb.
  assert (forall f d', 0 <= d' -> d' + Z.of_nat f <= u64_max + 1 ->
    let r := free_deadline f m d' in
    (bt_contains_key r m = false /\ d' <= r < d' + Z.of_nat f) \/
    (forall i, d' <= i < d' + Z.of_nat f -> bt_contains_key i m = true)) as Hgen.
  { induction f as [|f IH]; intros d' Hd' Hb'; cbn [free_deadline]; [right; lia|].
    destruct (bt_contains_key d' m) eqn:Hc; [|left; lia || (split; [done|lia])].
    destruct f as [|f].
    { right. intros i Hi. by replace i with d' by lia. }
    rewrite wrap_u64_id by (unfold is_u64; lia).
    destruct (IH (d' + 1)) as [[Hf Hr]|Hall]; [lia..| |].
    - left. split; [done|lia].
    - right. intros i Hi. destruct (Z.eq_dec i d') as [->|]; [done|]. apply Hall. lia. }
  destruct (Hgen (S (List.length m)) d Hd) as [[Hf Hr]|Hall].
  { unfold len in Hb. lia. }
  { cbn zeta. split; [done|]. unfold len. lia. }
  exfalso.
  assert (List.length (seqZ d (Z.of_nat (S (List.length m)))) <= List.length (List.map fst m))%nat as Hlen.
  { apply NoDup_incl_length.
    - apply NoDup_ListNoDup, NoDup_seqZ.
    - intros i Hi. apply list_elem_of_In, elem_of_seqZ in Hi.
      destruct (proj1 (bt_contains_in m i Hs) (Hall i Hi)) as [t Ht].
      apply in_map_iff. exists (i, t). split; [done|by apply list_elem_of_In]. }
  rewrite length_seqZ, List.length_map in Hlen. lia.
Qed.

(** *** [insert] *)
Lemma entry_deadline_set e d : entry_deadline (set_deadline e d) = d.
Proof. by destruct e. Qed.
Lemma list_key_set e d : list_key (set_deadline e d) = list_key e.
Proof. by destruct e. Qed.
Lemma is_stream_set e d : is_stream_entry (set_deadline e d) = is_stream_entry e.
Proof. by destruct e. Qed.
Lemma wait_client_set e d : wait_client (set_deadline e d) = wait_client e.
Proof. by destruct e. Qed.
Lemma wait_slaves_set e d : wait_slaves (set_deadline e d) = wait_slaves e.
Proof. by destruct e. Qed.

#[export] Hint Rewrite entry_deadline_set list_key_set is_stream_set wait_client_set
  wait_slaves_set : redis_rw.

(** The entry as [insert] stores it. *)
Definition stored (r : Registry) (deadline : Z) (e : RequestEntry) : RequestEntry :=
  if 0 <? deadline then
    set_deadline e (free_deadline (S (List.length (deadlines r))) (deadlines r) deadline)
  else e.

Lemma stored_kind r d e : list_key (stored r d e) = list_key e /\
  is_stream_entry (stored r d e) = is_stream_entry e /\
  wait_client (stored r d e) = wait_client e /\ wait_slaves (stored r d e) = wait_slaves e.
Proof. unfold stored. destruct (0 <? d); autorewrite with redis_rw; done. Qed.

(** What each field of the registry becomes. *)
Lemma insert_store now r t d e : store (insert now r t d e) = <[t := stored r d e]> (store r).
Proof. unfold insert, stored. by destruct (0 <? d), e. Qed.

Lemma insert_deadlines now r t d e :
  deadlines (insert now r t d e) =
  if 0 <? d then bt_insert (entry_deadline (stored r d e)) t (deadlines r) else deadlines r.
Proof. unfold insert, stored. by destruct (0 <? d), e. Qed.

Lemma insert_queue now r t d e k :
  queue_of (insert now r t d e) k =
  queue_of r k ++ (if decide (list_key e = Some k) then [t] else []).
Proof.
  unfold queue_of, insert.
  destruct (0 <? d), e as [key ? ? ?|? ? ? ?|? ? ? ? ? ? ?]; cbn -[push_at bt_insert free_deadline];
    rewrite ?push_at_lookup; repeat case_decide; simplify_eq; rewrite ?app_nil_r; done.
Qed.

Lemma insert_queue_nonempty now r t d e :
  (forall k, backlog_list r !! k <> Some []) ->
  forall k, backlog_list (insert now r t d e) !! k <> Some [].
Proof.
  intros Hr k. unfold insert.
  destruct (0 <? d), e as [key ? ? ?|? ? ? ?|? ? ? ? ? ? ?]; cbn -[push_at bt_insert free_deadline];
    try apply Hr; unfold push_at; rewrite lookup_insert_Some;
    intros [[_ ?%app_eq_nil]|[_ ?]]; try (by destruct_and?); by eapply Hr.
Qed.

Lemma insert_stream now r t d e t' :
  t' ∈ backlog_stream (insert now r t d e) <->
  t' ∈ backlog_stream r \/ (t' = t /\ is_stream_entry e = true).
Proof.
  unfold insert. destruct (0 <? d), e; cbn -[bt_insert free_deadline]; set_solver.
Qed.

Lemma insert_wait now r t d e :
  backlog_wait (insert now r t d e) =
  match wait_client e with Some c => <[c := t]> (backlog_wait r) | None => backlog_wait r end.
Proof. unfold insert. by destruct (0 <? d), e. Qed.

Lemma insert_ack now r t d e s c :
  c ∈ ack_of (insert now r t d e) s <->
  c ∈ ack_of r s \/ (wait_client e = Some c /\ s ∈ wait_slaves e).
Proof.
  unfold ack_of, insert.
  destruct (0 <? d), e; cbn -[bt_insert free_deadline push_at];
    rewrite ?push_all_in; naive_solver.
Qed.

Section Insert.
Context (now : Z) (r : Registry) (t : Z) (e : RequestEntry).
Let d := entry_deadline e.
Context (Hwf : reg_wf r) (Ht : store r !! t = None) (Hd : 0 <= d).
Context (Hb : d + len (deadlines r) <= u64_max).

(** The requests there are afterwards. *)
Lemma inserted_entry (P : RequestEntry -> Prop) t' :
  (exists e', store (insert now r t d e) !! t' = Some e' /\ P e') <->
  (t' = t /\ P (stored r d e)) \/ (exists e', store r !! t' = Some e' /\ P e').
Proof.
  rewrite insert_store. destruct (decide (t' = t)) as [->|Hne].
  - rewrite lookup_insert_eq, Ht. naive_solver.
  - rewrite lookup_insert_ne by done. naive_solver.
Qed.

(** The deadline taken is a new one. *)
Lemma inserted_deadline_fresh x : 0 < d -> x ∈ deadlines r ->
  0 < entry_deadline (stored r d e) /\ cmp (entry_deadline (stored r d e)) x.1 <> Eq.
Proof.
  intros Hpos. unfold stored. destruct (Z.ltb_spec 0 d); [|lia]. rewrite entry_deadline_set.
  destruct (free_deadline_spec (deadlines r) d (rw_sorted r Hwf) Hd Hb) as [Hfree Hrange].
  intros Hx. split; [lia|]. intros Hc. apply Z.compare_eq in Hc. destruct x as [dx tx]. cbn in Hc. subst dx.
  assert (bt_contains_key (free_deadline (S (List.length (deadlines r))) (deadlines r) d) (deadlines r) = true);
    [|congruence].
  apply bt_contains_in; [apply (rw_sorted r Hwf)|by exists tx].
Qed.

Lemma inserted_deadline_pos : 0 < d -> 0 < entry_deadline (stored r d e).
Proof.
  intros Hpos. unfold stored. destruct (Z.ltb_spec 0 d); [|lia]. rewrite entry_deadline_set.
  destruct (free_deadline_spec (deadlines r) d (rw_sorted r Hwf) Hd Hb). lia.
Qed.

Lemma inserted_deadline x : x ∈ deadlines (insert now r t d e) <->
  (0 < d /\ x = (entry_deadline (stored r d e), t)) \/ x ∈ deadlines r.
Proof.
  rewrite insert_deadlines. destruct (Z.ltb_spec 0 d); [|naive_solver lia].
  rewrite bt_in_insert_fresh; [naive_solver|]. intros y Hy. by apply inserted_deadline_fresh.
Qed.

Lemma inserted_wait c t' : (forall c, wait_client e = Some c -> backlog_wait r !! c = None) ->
  backlog_wait (insert now r t d e) !! c = Some t' <->
  (t' = t /\ wait_client e = Some c) \/ backlog_wait r !! c = Some t'.
Proof.
  intros Hw. rewrite insert_wait. destruct (wait_client e) as [c'|] eqn:Hc; [|naive_solver].
  specialize (Hw c' eq_refl). rewrite lookup_insert_Some.
  destruct (decide (c' = c)) as [->|]; naive_solver congruence.
Qed.

(** Inserting a request whose timestamp is not in use keeps the registry
    consistent. *)
Lemma insert_wf : (forall c, wait_client e = Some c -> backlog_wait r !! c = None) ->
  reg_wf (insert now r t d e).
Proof.
  intros Hw. destruct (stored_kind r d e) as (Hk1 & Hk2 & Hk3 & Hk4). split.
  - rewrite insert_deadlines. destruct (0 <? d); [apply bt_insert_sorted|]; apply (rw_sorted r Hwf).
  - intros t' e' He' Hpos. apply inserted_deadline. rewrite insert_store, lookup_insert_Some in He'.
    destruct He' as [[<- <-]|[Hne He']]; [left|right; by apply (rw_deadline r Hwf)].
    split; [|done]. unfold stored, d in *. destruct (Z.ltb_spec 0 (entry_deadline e)); lia.
  - intros dx tx Hx%inserted_deadline. rewrite inserted_entry. destruct Hx as [[Hpos [= -> ->]]|Hx].
    + split; [by apply inserted_deadline_pos|by left].
    + destruct (rw_deadline_inv r Hwf dx tx Hx). auto.
  - intros k t'. rewrite insert_queue, elem_of_app, (rw_queue r Hwf), inserted_entry, Hk1.
    case_decide; rewrite ?list_elem_of_singleton, ?elem_of_nil; naive_solver.
  - intros k. rewrite insert_queue. apply NoDup_app. split; [apply (rw_queue_nodup r Hwf)|].
    split; [|case_decide; [apply NoDup_singleton|constructor]].
    intros x (e' & He' & _)%(rw_queue r Hwf) Hin.
    case_decide; [|by apply not_elem_of_nil in Hin]. apply list_elem_of_singleton in Hin as ->. congruence.
  - apply insert_queue_nonempty, (rw_queue_nonempty r Hwf).
  - intros t'. rewrite insert_stream, (rw_stream r Hwf), inserted_entry, Hk2. naive_solver.
  - intros c t'. rewrite inserted_wait, (rw_wait r Hwf), inserted_entry, Hk3 by done. done.
  - intros s c Hin%insert_ack. rewrite <- Hk3, <- Hk4 in Hin.
    assert (exists t', backlog_wait (insert now r t d e) !! c = Some t' /\
      exists e', store (insert now r t d e) !! t' = Some e' /\ s ∈ wait_slaves e'); [|naive_solver].
    destruct Hin as [Hin|[Hc Hs]].
    + destruct (rw_ack r Hwf s c Hin) as (t' & e' & Ht' & He' & Hs). exists t'.
      rewrite inserted_wait, inserted_entry by done. split; [by right|]. right. by exists e'.
    + exists t. rewrite inserted_wait, inserted_entry by done. split; left; (split; [done|]); congruence.
Qed.
End Insert.

(** *** [remove] *)

Section Remove.
Context (now : Z) (r : Registry) (t : Z) (e : RequestEntry).
Context (Hwf : reg_wf r) (He : store r !! t = Some e).

(** What is left of the registry, field by field. *)
Definition removed : Registry := (remove now r t).1.

Lemma remove_entry : remove now r t = (removed, Some e).
Proof. unfold removed, remove. rewrite He. by destruct e. Qed.

Lemma removed_store : store removed = delete t (store r).
Proof. unfold removed, remove. rewrite He. by destruct e. Qed.

Lemma removed_deadlines : deadlines removed = bt_remove (entry_deadline e) (deadlines r).
Proof. unfold removed, remove. rewrite He. by destruct e. Qed.

(** The same entry found by its timestamp. *)
Lemma same_entry e' : store r !! t = Some e' -> e' = e.
Proof. intros He'. rewrite He in He'. by injection He'. Qed.

Lemma removed_deadline d x : 0 <= entry_deadline e ->
  (d, x) ∈ deadlines removed <-> (d, x) ∈ deadlines r /\ x <> t.
Proof.
  intros Hpos. rewrite removed_deadlines, bt_in_remove by apply (rw_sorted r Hwf). cbn [fst].
  split; intros [Hin Hc]; (split; [done|]).
  - intros ->. apply (rw_deadline_inv r Hwf) in Hin as (_ & e' & ->%same_entry & <-).
    by rewrite cmp_refl in Hc.
  - intros Hd%Z.compare_eq. apply Hc. subst d.
    pose proof (rw_deadline_inv r Hwf _ _ Hin) as (Hp & _).
    pose proof (rw_deadline r Hwf _ _ He Hp) as Hin'.
    pose proof (bt_sorted_unique _ _ _ (rw_sorted r Hwf) Hin Hin') as Heq.
    by injection (Heq (Z.compare_refl _)).
Qed.

Lemma removed_queue k : queue_of removed k = List.filter (fun x => negb (x =? t)) (queue_of r k).
Proof.
  assert (list_key e <> Some k ->
    List.filter (fun x => negb (x =? t)) (queue_of r k) = queue_of r k) as Hother.
  { intros Hne. apply List.forallb_filter_id, forallb_forall. intros x Hx%list_elem_of_In.
    apply negb_true_iff, Z.eqb_neq. intros ->. apply Hne.
    by apply (rw_queue r Hwf) in Hx as (e' & ->%same_entry & ?). }
  unfold removed, remove, queue_of in *. rewrite He.
  destruct e as [key ? ? ?| |]; cbn [backlog_list fst] in *; rewrite ?retain_at_lookup.
  - destruct (decide (key = k)) as [->|]; [done|]. symmetry. apply Hother. cbn. congruence.
  - symmetry. by apply Hother.
  - symmetry. by apply Hother.
Qed.

Lemma removed_queue_nonempty k : backlog_list removed !! k <> Some [].
Proof.
  unfold removed, remove. rewrite He.
  destruct e; cbn [backlog_list fst]; [apply retain_at_nonempty|..]; apply (rw_queue_nonempty r Hwf).
Qed.

Lemma removed_stream t' : t' ∈ backlog_stream removed <-> t' ∈ backlog_stream r /\ t' <> t.
Proof.
  assert (is_stream_entry e = false -> t ∉ backlog_stream r) as Hno.
  { intros Hs Hin. apply (rw_stream r Hwf) in Hin as (e' & ->%same_entry & ?). congruence. }
  unfold removed, remove. rewrite He. destruct e; cbn [backlog_stream fst]; [|set_solver|];
    (split; [|by intros []]); intros Hin; (split; [done|]); intros ->; by apply Hno.
Qed.

Lemma removed_wait c t' : backlog_wait removed !! c = Some t' <-> backlog_wait r !! c = Some t' /\ t' <> t.
Proof.
  assert (forall c, backlog_wait r !! c = Some t <-> wait_client e = Some c) as Hc.
  { intros c'. rewrite (rw_wait r Hwf). split; [by intros (e' & ->%same_entry & ?)|by exists e]. }
  assert (wait_client e = None -> backlog_wait r !! c = Some t' -> t' <> t) as Hno.
  { intros Hn Ht ->. apply Hc in Ht. congruence. }
  unfold removed, remove. rewrite He. destruct e as [| |c' ? ? ? ? sl ?]; cbn [backlog_wait fst].
  - naive_solver.
  - naive_solver.
  - rewrite lookup_delete_Some. pose proof (proj2 (Hc c') eq_refl) as Hct. split.
    + intros [Hne Ht]. split; [done|]. intros ->. apply Hc in Ht. by injection Ht.
    + intros [Ht Hne]. split; [|done]. intros ->. by rewrite Hct in Ht; injection Ht.
Qed.

Lemma removed_ack s c :
  c ∈ ack_of removed s <-> c ∈ ack_of r s /\ ~ (wait_client e = Some c /\ s ∈ wait_slaves e).
Proof.
  unfold removed, remove, ack_of. rewrite He.
  destruct e as [| |c' ? ? ? ? sl ?]; cbn [backlog_ack fst]; rewrite ?retain_all_in; naive_solver.
Qed.

(** The requests that are left. *)
Lemma removed_entry (P : RequestEntry -> Prop) t' :
  (exists e', store removed !! t' = Some e' /\ P e') <->
  (exists e', store r !! t' = Some e' /\ P e') /\ t' <> t.
Proof.
  rewrite removed_store. split.
  - intros (e' & [Hne He']%lookup_delete_Some & Hp). split; [by exists e'|done].
  - intros [(e' & He' & Hp) Hne]. exists e'. by rewrite lookup_delete_ne.
Qed.
End Remove.

(** Removing a request forgets it everywhere. *)
Lemma remove_wf now r t e : reg_wf r -> store r !! t = Some e -> 0 <= entry_deadline e ->
  exists r', remove now r t = (r', Some e) /\ reg_wf r' /\ store r' = delete t (store r) /\
    (forall k, queue_of r' k = List.filter (fun x => negb (x =? t)) (queue_of r k)).
Proof.
  intros Hwf He Hpos. exists (removed now r t). split; [by apply remove_entry|].
  split; [|split; [by eapply removed_store|intros; by eapply removed_queue]].
  split.
  - rewrite (removed_deadlines _ _ _ _ He). apply bt_remove_sorted, (rw_sorted r Hwf).
  - intros t' e'. rewrite (removed_store _ _ _ _ He). intros [Hne He']%lookup_delete_Some Hp.
    apply (removed_deadline _ _ _ _ Hwf He); [done|]. split; [|done]. by apply (rw_deadline r Hwf).
  - intros d t' [Hin Hne]%(removed_deadline _ _ _ _ Hwf He); [|done].
    destruct (rw_deadline_inv r Hwf d t' Hin) as (Hp & Hx). split; [done|].
    by apply (removed_entry _ _ _ _ He).
  - intros k t'. rewrite (removed_queue _ _ _ _ Hwf He), list_elem_of_In, filter_In, <- list_elem_of_In.
    rewrite (removed_entry _ _ _ _ He), (rw_queue r Hwf).
    split; (intros [? Hne]; split; [done|]); bools; [done|]. by apply negb_true_iff, Z.eqb_neq.
  - intros k. rewrite (removed_queue _ _ _ _ Hwf He).
    apply NoDup_ListNoDup, List.NoDup_filter, NoDup_ListNoDup, (rw_queue_nodup r Hwf).
  - by eapply removed_queue_nonempty.
  - intros t'. by rewrite (removed_stream _ _ _ _ Hwf He), (removed_entry _ _ _ _ He), (rw_stream r Hwf).
  - intros c t'. by rewrite (removed_wait _ _ _ _ Hwf He), (removed_entry _ _ _ _ He), (rw_wait r Hwf).
  - intros s c [Hin Hn]%(removed_ack _ _ _ _ He).
    destruct (rw_ack r Hwf s c Hin) as (t' & e' & Ht' & He' & Hs).
    assert (t' <> t) as Hne.
    { intros ->. rewrite He in He'. injection He' as <-. apply Hn. split; [|done].
      apply (rw_wait r Hwf) in Ht' as (e' & He' & Hc). congruence. }
    exists t', e'. rewrite (removed_wait _ _ _ _ Hwf He), (removed_store _ _ _ _ He).
    by rewrite lookup_delete_ne.
Qed.

(** Removing what is not there changes nothing. *)
Lemma remove_absent now r t : store r !! t = None -> remove now r t = (r, None).
Proof. intros H. unfold remove. by rewrite H. Qed.

(** ** The timer *)

(** After a change that leaves a deadline, the timer is armed for the nearest
    one, or for the next millisecond when it has passed. *)
Lemma set_timer_fd_armed now dl t d x : bt_first_key_value dl = Some (d, x) ->
  0 <= now -> d - now <= i64_max -> set_timer_fd now dl t = Some (Z.max d (now + 1)).
Proof.
  intros Hf Hn Hb. unfold set_timer_fd, timer_create_event. rewrite Hf.
  destruct (Z.ltb_spec now d).
  - rewrite wrap_i64_id by (unfold is_i64, i64_min; lia).
    destruct (Z.ltb_spec (d - now) 0); [lia|]. destruct (Z.eqb_spec (d - now) 0); [lia|]. f_equal. lia.
  - cbn. f_equal. lia.
Qed.

(** When the last deadline goes, the timer stays armed. *)
Lemma set_timer_fd_stale now t : set_timer_fd now [] t = t.
Proof. reflexivity. Qed.
