(* ===== verification/Handler.v ===== *)
(** * The command handler ([commands/cmd_handler.rs])

    The state of the server and the commands that touch more than the key
    space: blocking reads, transactions, replication, publish/subscribe; the
    dispatch of [_execute_cmd] and [handle]; and the end-of-cycle work that
    answers blocked clients.

    [State] gathers what the handler owns and the thread-locals and statics it
    reaches ([ClientTable], [Auth], [AppStates], [Configs]); the heap cells shared
    by [Rc]s are explicit. The clock is part of the state: it stands still while
    one event is handled. A computation of type [M] may panic. *)

From S2P Require Import Prelude Text Float64 Resp CmdBuilder Bitmap BTree SortedSet Geohash Store.
From S2P Require Import StringCmds ListCmds StreamCmds BitmapCmds ZsetCmds.
From S2P Require Import AppState Replication Auth Registry.

(** ** The state *)

(** The append-only file: its path, what has been written to it, and what is still
    in the buffer of the [BufWriter]. [aof_disk] is what the next [write(2)] calls on
    it will do, which is not up to the program: fail, or take at most so many bytes;
    a call past the end of the list takes everything. One that is interrupted is
    made again, and is not in the list. *)
Record AofFile := mk_aof {
  aof_filepath : string;
  aof_file : bytes;
  aof_buffer : bytes;
  aof_disk : list (option nat);
}.

(** [BufWriter::flush_buf]: it writes until nothing is left or a call fails or takes
    nothing; what was not taken stays in the buffer. The result is the file, the
    buffer, the calls to come, and whether it went well. *)
Fixpoint flush_buf (disk : list (option nat)) (file buffer : bytes) :
    bytes * bytes * list (option nat) * bool :=
  match buffer, disk with
  | [], _ => (file, [], disk, true)
  | _, [] => (file ++ buffer, [], [], true)
  | _, None :: disk | _, Some O :: disk => (file, buffer, disk, false)
  | _, Some n :: disk => flush_buf disk (file ++ take n buffer) (drop n buffer)
  end.

(** [BufWriter::flush]. *)
Definition writer_flush (f : AofFile) : AofFile * bool :=
  let '(file, buffer, disk, ok) := flush_buf (aof_disk f) (aof_file f) (aof_buffer f) in
  (mk_aof (aof_filepath f) file buffer disk, ok).

(** One [write(2)] past the buffer; what it does not take is lost. *)
Definition writer_direct (f : AofFile) (b : bytes) : AofFile :=
  match aof_disk f with
  | [] => mk_aof (aof_filepath f) (aof_file f ++ b) (aof_buffer f) []
  | None :: disk => mk_aof (aof_filepath f) (aof_file f) (aof_buffer f) disk
  | Some n :: disk => mk_aof (aof_filepath f) (aof_file f ++ take n b) (aof_buffer f) disk
  end.

Definition writer_buffer (f : AofFile) (b : bytes) : AofFile :=
  mk_aof (aof_filepath f) (aof_file f) (aof_buffer f ++ b) (aof_disk f).

(** [BufWriter::write], of the default capacity: what does not fit makes it flush
    first, and is lost when that fails; what fills it goes straight to the file. *)
Definition buf_capacity : Z := 8 * 1024.

Definition writer_write (f : AofFile) (b : bytes) : AofFile :=
  let spare := buf_capacity - len (aof_buffer f) in
  if len b <? spare then writer_buffer f b
  else
    let (f, ok) := if spare <? len b then writer_flush f else (f, true) in
    if ok then if buf_capacity <=? len b then writer_direct f b else writer_buffer f b
    else f.

(** What the file will hold. *)
Definition aof_text (f : AofFile) : bytes := aof_file f ++ aof_buffer f.

(** [CmdHandler]. [Rc<u64>]s are identified by an allocation number: a set of
    them is a map from the number pointed at to the allocation. [aof] is the
    handler's [Option<Aof>], whose writer is itself optional. *)
Record CmdHandler := mk_handler {
  response_queue : list (Z * bytes);
  data : Data;
  registry : Registry;
  flag_backlog_list : bool;
  flag_backlog_stream : bool;
  subscribers : gmap Z nat;
  channels : gmap string (gmap Z nat);
  aof : option (option AofFile);
}.

Definition handler_new (aof : option (option AofFile)) : CmdHandler :=
  mk_handler [] ∅ registry_new false false ∅ ∅ aof.

(** [interest] is the set of descriptors registered with epoll. *)
Record State := mk_state {
  handler : CmdHandler;
  app : AppStates;
  configs : Configs;
  clients : ClientTable;
  auth : Auth;
  cells : list Z;
  next_rc : nat;
  interest : gset Z;
  clock : Z;
}.

Definition with_handler (s : State) (h : CmdHandler) : State :=
  mk_state h (app s) (configs s) (clients s) (auth s) (cells s) (next_rc s) (interest s) (clock s).
Definition with_app (s : State) (a : AppStates) : State :=
  mk_state (handler s) a (configs s) (clients s) (auth s) (cells s) (next_rc s) (interest s) (clock s).
Definition with_clients (s : State) (t : ClientTable) : State :=
  mk_state (handler s) (app s) (configs s) t (auth s) (cells s) (next_rc s) (interest s) (clock s).
Definition with_auth (s : State) (a : Auth) : State :=
  mk_state (handler s) (app s) (configs s) (clients s) a (cells s) (next_rc s) (interest s) (clock s).
Definition with_cells (s : State) (c : list Z) : State :=
  mk_state (handler s) (app s) (configs s) (clients s) (auth s) c (next_rc s) (interest s) (clock s).
Definition with_next_rc (s : State) (n : nat) : State :=
  mk_state (handler s) (app s) (configs s) (clients s) (auth s) (cells s) n (interest s) (clock s).
Definition with_interest (s : State) (i : gset Z) : State :=
  mk_state (handler s) (app s) (configs s) (clients s) (auth s) (cells s) (next_rc s) i (clock s).
Definition with_clock (s : State) (t : Z) : State :=
  mk_state (handler s) (app s) (configs s) (clients s) (auth s) (cells s) (next_rc s) (interest s) t.

Definition with_queue (s : State) (q : list (Z * bytes)) : State :=
  let h := handler s in
  with_handler s (mk_handler q (data h) (registry h) (flag_backlog_list h) (flag_backlog_stream h)
                    (subscribers h) (channels h) (aof h)).
Definition with_data (s : State) (d : Data) : State :=
  let h := handler s in
  with_handler s (mk_handler (response_queue h) d (registry h) (flag_backlog_list h)
                    (flag_backlog_stream h) (subscribers h) (channels h) (aof h)).
Definition with_registry (s : State) (r : Registry) : State :=
  let h := handler s in
  with_handler s (mk_handler (response_queue h) (data h) r (flag_backlog_list h)
                    (flag_backlog_stream h) (subscribers h) (channels h) (aof h)).
Definition with_flags (s : State) (l st : bool) : State :=
  let h := handler s in
  with_handler s (mk_handler (response_queue h) (data h) (registry h) l st
                    (subscribers h) (channels h) (aof h)).
Definition with_pubsub (s : State) (subs : gmap Z nat) (ch : gmap string (gmap Z nat)) : State :=
  let h := handler s in
  with_handler s (mk_handler (response_queue h) (data h) (registry h) (flag_backlog_list h)
                    (flag_backlog_stream h) subs ch (aof h)).
Definition with_aof (s : State) (a : option (option AofFile)) : State :=
  let h := handler s in
  with_handler s (mk_handler (response_queue h) (data h) (registry h) (flag_backlog_list h)
                    (flag_backlog_stream h) (subscribers h) (channels h) a).

(** ** The monad *)
Definition M (A : Type) : Type := State -> outcome (State * A).

#[export] Instance M_ret : MRet M := fun A a s => Ret (s, a).
#[export] Instance M_bind : MBind M := fun A B k m s =>
  match m s with
  | Ret (s', a) => k a s'
  | Panic => Panic
  end.

Definition get_state : M State := fun s => Ret (s, s).
Definition modify (f : State -> State) : M unit := fun s => Ret (f s, tt).
Definition of_outcome {A} (o : outcome A) : M A := fun s => let! a := o in Ret (s, a).

(** [response_queue.push((client, resp.serialize().into()))]. *)
Definition push_response (client : Z) (b : bytes) : M unit :=
  modify (fun s => with_queue s (response_queue (handler s) ++ [(client, b)])).
Definition respond (client : Z) (r : RespType) : M unit :=
  b ← of_outcome (serialize r);
  push_response client b.

Definition reg_remove (t : Z) : M (option RequestEntry) := fun s =>
  let (r, e) := Registry.remove (clock s) (registry (handler s)) t in
  Ret (with_registry s r, e).
Definition reg_insert (timestamp deadline : Z) (e : RequestEntry) : M unit :=
  modify (fun s => with_registry s
    (Registry.insert (clock s) (registry (handler s)) timestamp deadline e)).
Definition reg_modify (f : Registry -> Registry) : M unit :=
  modify (fun s => with_registry s (f (registry (handler s)))).

(** Commands on the key space. *)
Definition on_data {A} (f : Z -> Data -> outcome (Data * A)) : M A := fun s =>
  let! (d, a) := f (clock s) (data (handler s)) in
  Ret (with_data s d, a).
Definition writes (f : Data -> Data * Reply) : M Reply := on_data (fun _ d => Ret (f d)).
Definition reads (f : Data -> Reply) : M Reply := on_data (fun _ d => Ret (d, f d)).

Fixpoint iterate {A} (f : A -> M unit) (l : list A) : M unit :=
  match l with
  | [] => mret tt
  | a :: l' => f a;; iterate f l'
  end.

(** ** Epoll interest of a client *)
Definition add_interest (epoll_fd : option Z) (client : Z) : M unit :=
  _ ← of_outcome (unwrap epoll_fd);
  modify (fun s => with_interest s ({[client]} ∪ interest s)).
Definition remove_interest (epoll_fd : option Z) (client : Z) : M unit :=
  _ ← of_outcome (unwrap epoll_fd);
  modify (fun s => with_interest s (interest s ∖ {[client]})).

(** ** Blocking commands and their tasks *)

(** [get_deadline]: the timestamp, and the deadline or 0 for none. *)
Definition get_deadline (now : Z) (timeout_ms : option Z) : Z * Z :=
  match timeout_ms with
  | Some timeout => (now, wrap_u64 (now + timeout))
  | None => (now, 0)
  end.

Definition pop_list (data : Data) (key : string) : option (string * Data) :=
  match data !! key with
  | Some it =>
      match value it with
      | List (v :: l) => Some (v, set_value_of data key it (List l))
      | _ => None
      end
  | None => None
  end.

(** The closures: the [backlog_task] of [BLPOP], the [deadline_task] it shares with
    [XREAD], the [backlog_task] of [XREAD], the [deadline_task] of [WAIT]. *)
Definition run_blpop (timestamp client_id : Z) (key : string) : M unit :=
  s ← get_state;
  match pop_list (data (handler s)) key with
  | Some (v, d) =>
      modify (fun s => with_data s d);;
      respond client_id (build_array 2 [bulk key; bulk v]);;
      _ ← reg_remove timestamp;
      mret tt
  | None => mret tt
  end.

Definition run_null (timestamp client_id : Z) : M unit :=
  respond client_id null_array;;
  _ ← reg_remove timestamp;
  mret tt.

Definition run_xread (timestamp client_id : Z) (count : option Z) (stream : list (string * Z * Z)) :
    M unit :=
  s ← get_state;
  match stream_replies (data (handler s)) count stream with
  | [] => respond client_id null_array
  | stream_vec =>
      respond client_id (stream_array stream_vec);;
      _ ← reg_remove timestamp;
      mret tt
  end.

Definition run_wait (timestamp client_id : Z) (count_ref : nat) (epoll_fd : option Z) : M unit :=
  s ← get_state;
  n ← of_outcome (unwrap (cells s !! count_ref));
  respond client_id (Integer (Some (wrap_i64 n)));;
  _ ← reg_remove timestamp;
  add_interest epoll_fd client_id.

Definition run_task (t : Task) : M unit :=
  match t with
  | BlpopTask timestamp client_id key => run_blpop timestamp client_id key
  | NullTask timestamp client_id => run_null timestamp client_id
  | XreadTask timestamp client_id count stream => run_xread timestamp client_id count stream
  | WaitTask timestamp client_id count_ref epoll_fd => run_wait timestamp client_id count_ref epoll_fd
  end.

Definition cmd_blpop (key : string) (timeout_ms : option Z) (client_id : Z) : M Reply :=
  s ← get_state;
  let (timestamp, deadline) := get_deadline (clock s) timeout_ms in
  let park :=
    reg_insert timestamp deadline
      (REList key deadline (BlpopTask timestamp client_id key) (NullTask timestamp client_id));;
    mret (Ok None) in
  match data (handler s) !! key with
  | Some it =>
      match value it with
      | List l =>
          match l with
          | v :: l' =>
              if is_backlog_list_empty (registry (handler s)) key then
                modify (fun s => with_data s (set_value_of (data (handler s)) key it (List l')));;
                mret (Ok (Some (build_array 2 [bulk key; bulk v])))
              else park
          | [] => park
          end
      | _ => mret (Err (unsupported key))
      end
  | None => park
  end.

Definition cmd_xread (count block : option Z) (stream : list (string * Z * Z)) (client_id : Z) :
    M Reply :=
  s ← get_state;
  match xread_check (data (handler s)) stream with
  | Err e => mret (Err e)
  | Ok _ =>
      let stream := List.map (resolve_last (data (handler s))) stream in
      match stream_replies (data (handler s)) count stream with
      | [] =>
          match block with
          | Some t_ms =>
              let timeout_arg := if t_ms =? 0 then None else Some t_ms in
              let (timestamp, deadline) := get_deadline (clock s) timeout_arg in
              reg_insert timestamp deadline
                (REStream stream deadline (XreadTask timestamp client_id count stream)
                   (NullTask timestamp client_id));;
              mret (Ok None)
          | None => mret (Ok (Some empty_array))
          end
      | stream_vec => mret (Ok (Some (stream_array stream_vec)))
      end
  end.

(** ** Transactions *)
Definition cmd_multi (client_id : Z) : M Reply :=
  s ← get_state;
  if negb (is_transation (registry (handler s)) client_id) then
    reg_modify (fun r => set_txn r (<[client_id := []]> (backlog_txn r)));;
    mret (Ok response_ok)
  else mret (Err (UnsupportedCmdStructure "ERR MULTI calls can not be nested")).

Definition cmd_discard (client_id : Z) : M Reply :=
  s ← get_state;
  if is_transation (registry (handler s)) client_id then
    reg_modify (fun r => unwatch_all (set_txn r (delete client_id (backlog_txn r))) client_id);;
    mret (Ok response_ok)
  else mret (Err (UnsupportedCmdStructure "ERR DISCARD without MULTI")).

Definition cmd_watch (keys : list string) (client_id : Z) : M Reply :=
  reg_modify (fun r => watch r keys client_id);;
  mret (Ok response_ok).

Definition cmd_unwatch (client_id : Z) : M Reply :=
  reg_modify (fun r => unwatch_all r client_id);;
  mret (Ok response_ok).

(** What running one command leaves: [CmdOutput]. *)
Inductive CmdOutput :=
| OutResp (r : RespType)
| OutBytes (b : bytes)
| OutNone.

Definition extract_bytes (o : CmdOutput) : option bytes :=
  match o with OutBytes b => Some b | _ => None end.

(** The replies collected by [EXEC]: those that are RESP values. *)
Fixpoint exec_queue
    (execute : Cmd.t -> bytes -> M (Result CmdOutput CmdOutput))
    (q : list (Cmd.t * bytes)) : M (list RespType) :=
  match q with
  | [] => mret []
  | (cmd, buf) :: q' =>
      out ← execute cmd buf;
      rest ← exec_queue execute q';
      mret (match out with
            | Ok (OutResp r) | Err (OutResp r) => r :: rest
            | _ => rest
            end)
  end.

Definition end_txn (client_id : Z) : M unit :=
  reg_modify (fun r => set_txn (unwatch_all r client_id) (delete client_id (backlog_txn r))).

(** [cmd_exec], given how to execute one queued command. *)
Definition cmd_exec (execute : Cmd.t -> bytes -> M (Result CmdOutput CmdOutput))
    (client_id : Z) : M Reply :=
  s ← get_state;
  match backlog_txn (registry (handler s)) !! client_id with
  | Some vec_cmd =>
      if is_any_dirty (registry (handler s)) client_id then
        end_txn client_id;;
        mret (Ok (Some null_array))
      else
        reg_modify (fun r => set_txn r (<[client_id := []]> (backlog_txn r)));;
        vec_resp ← exec_queue execute vec_cmd;
        end_txn client_id;;
        mret (Ok (Some (match vec_resp with
                        | [] => empty_array
                        | _ => build_array (len vec_resp) vec_resp
                        end)))
  | None => mret (Err (UnsupportedCmdStructure "ERR EXEC without MULTI"))
  end.

(** ** Replication *)

(** [format!] pieces joined by CRLF. *)
Definition crlf : string := from_bytes DELIMITER.

Definition internal (msg : string) : CustomError := InternalError msg.
Definition ERR_HOST_STATS_NOT_INITIATED : string := "Host stats not initiated at startup".
Definition ERR_MASTER_STATS_NOT_INITIATED : string := "Master stats not initiated at startup".
Definition ERR_MASTER_STATS_HOST_NOT_SET : string := "Master's host is not set".
Definition ERR_MASTER_STATS_PORT_NOT_SET : string := "Master's port is not set".

Definition cmd_info (a : AppStates) (key : string) : Reply :=
  if String.eqb (to_ascii_uppercase key) KW_REPLICATION then
    if app_is_slave a then
      let? stats := ok_or (master_stats a) (internal ERR_MASTER_STATS_NOT_INITIATED) in
      let? master_host := ok_or (host stats) (internal ERR_MASTER_STATS_HOST_NOT_SET) in
      let? master_port := ok_or (port stats) (internal ERR_MASTER_STATS_PORT_NOT_SET) in
      Ok (Some (bulk ("role:slave" +:+ crlf +:+ "master_host:" +:+ master_host +:+ crlf +:+
                      "master_post:" +:+ show_Z master_port)))
    else
      let? stats := ok_or (host_stats a) (internal ERR_HOST_STATS_NOT_INITIATED) in
      Ok (Some (bulk ("role:master" +:+ crlf +:+ "master_replid:xxx" +:+ crlf +:+
                      "master_repl_offset:" +:+ show_Z (Z.max (offset stats) 0))))
  else Ok None.

(** The [base64] crate's decoder. *)
Class Base64 := base64_decode : string -> option bytes.

Definition empty_rdb_b64 : string :=
  "UkVESVMwMDEx+glyZWRpcy12ZXIFNy4yLjD6CnJlZGlzLWJpdHPAQPoFY3RpbWXCbQi8ZfoIdXNlZC1tZW3CsMQQAPoIYW9mLWJhc2XAAP/wbjv+wP9aog==".
Definition repl_id : string := "8371b4fb1155b71f4a04d3e1bc3e18c4a990aeeb".

Definition cmd_psync `{Base64} (id : string) (off : Z) (client_id : Z) : M Reply :=
  if String.eqb id "?" && (off =? -1) then
    s ← get_state;
    match host_stats (app s) with
    | None => mret (Err (internal ERR_HOST_STATS_NOT_INITIATED))
    | Some stats =>
        let msg := KW_FULLRESYNC +:+ " " +:+ repl_id +:+ " " +:+ show_Z (Z.max (offset stats) 0) in
        resp_fullresync ← of_outcome (serialize (SimpleStr (Some msg)));
        empty_rdb ← of_outcome (unwrap (base64_decode empty_rdb_b64));
        resp_rdb ← of_outcome (serialize (Resp.RDB (Some empty_rdb)));
        modify (fun s => with_clients s (set_slave (clients s) client_id));;
        mret (Ok (Some (Bytes (Some (resp_fullresync ++ resp_rdb)))))
    end
  else mret (Ok None).

(** The scan of the clients that wait for this replica: those it has caught up
    with, and those whose [WAIT] is now fulfilled. *)
Fixpoint ack_scan (off : Z) (client_ids : list Z) (slave_client_done client_done : list Z) :
    M (list Z * list Z) :=
  match client_ids with
  | [] => mret (slave_client_done, client_done)
  | id :: rest =>
      s ← get_state;
      let r := registry (handler s) in
      timestamp ← of_outcome (unwrap (backlog_wait r !! id));
      match store r !! timestamp with
      | Some (REWait _ required_count actual_count _ offset_snapshot _ _) =>
          n ← of_outcome (unwrap (cells s !! actual_count));
          let caught_up := offset_snapshot <=? off in
          let n := if caught_up then wrap_u64 (n + 1) else n in
          modify (fun s => with_cells s (<[actual_count := n]> (cells s)));;
          let slave_client_done := if caught_up then slave_client_done ++ [id] else slave_client_done in
          if required_count <=? n then
            respond id (Integer (Some (wrap_i64 n)));;
            ack_scan off rest slave_client_done (client_done ++ [id])
          else ack_scan off rest slave_client_done client_done
      | _ => ack_scan off rest slave_client_done client_done
      end
  end.

(** [retain] of the clients done with; a replica that owes nothing is dropped. *)
Definition ack_release (r : Registry) (slave_id : Z) (done_ : list Z) : Registry :=
  match backlog_ack r !! slave_id with
  | None => r
  | Some client_list =>
      match List.filter (fun x => negb (existsb (Z.eqb x) done_)) client_list with
      | [] => set_ack r (delete slave_id (backlog_ack r))
      | l => set_ack r (<[slave_id := l]> (backlog_ack r))
      end
  end.

(** The timestamps of the fulfilled [WAIT]s, whose clients are registered
    again. *)
Fixpoint ack_timestamps (epoll_fd : option Z) (client_done : list Z) : M (list Z) :=
  match client_done with
  | [] => mret []
  | i :: rest =>
      s ← get_state;
      t ← of_outcome (unwrap (backlog_wait (registry (handler s)) !! i));
      add_interest epoll_fd i;;
      ts ← ack_timestamps epoll_fd rest;
      mret (t :: ts)
  end.

Definition cmd_replconf_ack (off slave_id : Z) (epoll_fd : option Z) : M Reply :=
  s ← get_state;
  '(slave_client_done, client_done) ←
    match backlog_ack (registry (handler s)) !! slave_id with
    | Some client_ids => ack_scan off client_ids [] []
    | None => mret ([], [])
    end;
  reg_modify (fun r => ack_release r slave_id slave_client_done);;
  timestamp_done ← ack_timestamps epoll_fd client_done;
  iterate (fun t => _ ← reg_remove t; mret tt) timestamp_done;;
  mret (Ok None).

Definition cmd_replconf (arg : CmdArg.t) (client_id : Z) (epoll_fd : option Z) : M Reply :=
  match arg with
  | CmdArg.GetAck a =>
      if String.eqb a "*" then
        s ← get_state;
        match host_stats (app s) with
        | None => mret (Err (internal ERR_HOST_STATS_NOT_INITIATED))
        | Some stats =>
            mret (Ok (Some (build_array 3
              [bulk KW_REPLCONF; bulk KW_ACK; bulk (show_Z (Z.max (offset stats) 0))])))
        end
      else mret (Ok None)
  | CmdArg.ListeningPort _ => mret (Ok response_ok)
  | CmdArg.Capa _ => mret (Ok response_ok)
  | CmdArg.Ack off => cmd_replconf_ack off client_id epoll_fd
  | _ => mret (Ok None)
  end.

Definition getack : RespType := build_array 3 [bulk KW_REPLCONF; bulk KW_GETACK; bulk "*"].

Definition cmd_wait `{HashOrder} (count : Z) (timeout_ms : option Z) (client_id : Z)
    (epoll_fd : option Z) : M Reply :=
  if count =? 0 then mret (Ok (Some (Integer (Some 0))))
  else
    s ← get_state;
    match host_stats (app s) with
    | None => mret (Err (internal ERR_HOST_STATS_NOT_INITIATED))
    | Some stats =>
        let offset_snapshot := offset stats in
        if offset_snapshot =? 0 then
          mret (Ok (Some (Integer (Some
            (match slaves (clients s) with Some h => Z.of_nat (size h) | None => 0 end)))))
        else
          let slave_ids := match slaves (clients s) with Some h => iter_set h | None => [] end in
          iterate (fun k => respond k getack) slave_ids;;
          let (timestamp, deadline) := get_deadline (clock s) timeout_ms in
          let actual_count := List.length (cells s) in
          modify (fun s => with_cells s (cells s ++ [0]));;
          reg_insert timestamp deadline
            (REWait client_id count actual_count deadline offset_snapshot slave_ids
               (WaitTask timestamp client_id actual_count epoll_fd));;
          remove_interest epoll_fd client_id;;
          mret (Ok None)
    end.

Definition cmd_config (c : Configs) (arg : CmdArg.t) : Reply :=
  match arg with
  | CmdArg.Get key =>
      let? v := get_attr c key in
      Ok (Some (build_array 2 [bulk key; bulk v]))
  | _ => Err (UnsupportedCmdStructure "Unsupported arg")
  end.

(** ** Publish and subscribe *)

(** [Rc::strong_count]: the clones in the set of subscribers and in the
    channels; those held by local variables come on top. *)
Definition strong_count (s : State) (rc : nat) (locals : Z) : Z :=
  let count (m : gmap Z nat) :=
    len (List.filter (fun e => Nat.eqb e.2 rc) (map_to_list m)) in
  locals + count (subscribers (handler s)) +
  foldr (fun e n => count e.2 + n) 0 (map_to_list (channels (handler s))).

Definition _get_subscribe_response (channel : string) (count : Z) : outcome bytes :=
  serialize (build_array 3 [bulk "subscribe"; bulk channel; Integer (Some count)]).

(** [channels.entry(k).or_insert_with(HashSet::new).insert(rc)]: an equal
    element stays. *)
Definition join_channel (channel : string) (client_id : Z) (rc : nat) : M unit :=
  modify (fun s =>
    let set := unwrap_or (channels (handler s) !! channel) ∅ in
    let set := match set !! client_id with Some _ => set | None => <[client_id := rc]> set end in
    with_pubsub s (subscribers (handler s)) (<[channel := set]> (channels (handler s)))).

Fixpoint subscribe_known (client_id : Z) (rc : nat) (keys : list string) : M bytes :=
  match keys with
  | [] => mret []
  | k :: rest =>
      join_channel k client_id rc;;
      s ← get_state;
      b ← of_outcome (_get_subscribe_response k (strong_count s rc 0 - 1));
      bs ← subscribe_known client_id rc rest;
      mret (b ++ bs)
  end.

Fixpoint subscribe_new (client_id : Z) (rc : nat) (keys : list string) : M bytes :=
  match keys with
  | [] => mret []
  | k :: rest =>
      s ← get_state;
      b ← of_outcome (_get_subscribe_response k (strong_count s rc 1 - 1));
      join_channel k client_id rc;;
      bs ← subscribe_new client_id rc rest;
      mret (b ++ bs)
  end.

Definition cmd_subscribe (keys : list string) (client_id : Z) : M Reply :=
  s ← get_state;
  let rc := next_rc s in
  modify (fun s => with_next_rc s (S (next_rc s)));;
  responses ←
    match subscribers (handler s) !! client_id with
    | Some client_rc => subscribe_known client_id client_rc keys
    | None =>
        modify (fun s => with_pubsub s (<[client_id := rc]> (subscribers (handler s)))
                           (channels (handler s)));;
        subscribe_new client_id rc keys
    end;
  mret (Ok (Some (Bytes (Some responses)))).

Definition cmd_publish `{HashOrder} (key message : string) : M Reply :=
  s ← get_state;
  match channels (handler s) !! key with
  | Some set =>
      b ← of_outcome (serialize (build_array 3 [bulk "message"; bulk key; bulk message]));
      iterate (fun e => push_response e.1 b) (iter_map set);;
      mret (Ok (Some (Integer (Some (Z.of_nat (size set))))))
  | None => mret (Ok None)
  end.

Definition _get_unsubscibe_response (channel : string) (count : Z) : RespType :=
  build_array 3 [bulk "unsubscribe"; bulk channel; Integer (Some count)].

Definition cmd_unsubscribe (key : string) (client_id : Z) : M Reply :=
  s ← get_state;
  match subscribers (handler s) !! client_id with
  | Some subscriber =>
      match channels (handler s) !! key with
      | Some set =>
          modify (fun s => with_pubsub s (subscribers (handler s))
            (<[key := delete client_id set]> (channels (handler s))));;
          s ← get_state;
          let count := strong_count s subscriber 0 - 1 in
          (if count =? 0 then
             modify (fun s => with_pubsub s (delete client_id (subscribers (handler s)))
                                (channels (handler s)))
           else mret tt);;
          mret (Ok (Some (_get_unsubscibe_response key count)))
      | None =>
          mret (Ok (Some (_get_unsubscibe_response key (strong_count s subscriber 0 - 1))))
      end
  | None => mret (Ok None)
  end.

(** ** Dispatch *)

(** [cmd_acl] and [cmd_auth] work on the [Auth] table. *)
Definition on_auth (f : Auth -> Auth * Reply) : M Reply := fun s =>
  let (a, r) := f (auth s) in Ret (with_auth s a, r).

Definition is_subscriber (s : State) (client_id : Z) : bool :=
  match subscribers (handler s) !! client_id with Some _ => true | None => false end.

Definition is_cmd_subscriber_allowed (c : Cmd.t) : bool :=
  match c with
  | Cmd.SUBSCRIBE _ | Cmd.UNSUBSCRIBE _ | Cmd.PSUBSCRIBE | Cmd.PUNSUBSCRIBE
  | Cmd.PING | Cmd.QUIT => true
  | _ => false
  end.

(** [Cmd::get_name]: the constructor's name, the head of its [Debug] form. *)
Definition get_name (c : Cmd.t) : string :=
  match c with
  | Cmd.PING => "PING" | Cmd.PONG => "PONG" | Cmd.OK => "OK" | Cmd.ECHO _ => "ECHO"
  | Cmd.SET _ _ _ => "SET" | Cmd.GET _ => "GET" | Cmd.RPUSH _ _ => "RPUSH"
  | Cmd.LRANGE _ _ _ => "LRANGE" | Cmd.LPUSH _ _ => "LPUSH" | Cmd.LLEN _ => "LLEN"
  | Cmd.LPOP _ _ => "LPOP" | Cmd.BLPOP _ _ => "BLPOP" | Cmd.TYPE _ => "TYPE"
  | Cmd.XADD _ _ _ => "XADD" | Cmd.XRANGE _ _ _ => "XRANGE" | Cmd.XREAD _ _ _ => "XREAD"
  | Cmd.INCR _ => "INCR" | Cmd.MULTI => "MULTI" | Cmd.EXEC => "EXEC"
  | Cmd.DISCARD => "DISCARD" | Cmd.WATCH _ => "WATCH" | Cmd.UNWATCH => "UNWATCH"
  | Cmd.INFO _ => "INFO" | Cmd.REPLCONF _ => "REPLCONF" | Cmd.PSYNC _ _ => "PSYNC"
  | Cmd.FULLRESYNC _ _ => "FULLRESYNC" | Cmd.RDB _ => "RDB" | Cmd.WAIT _ _ => "WAIT"
  | Cmd.CONFIG _ => "CONFIG" | Cmd.KEYS _ => "KEYS" | Cmd.SUBSCRIBE _ => "SUBSCRIBE"
  | Cmd.UNSUBSCRIBE _ => "UNSUBSCRIBE" | Cmd.PSUBSCRIBE => "PSUBSCRIBE"
  | Cmd.PUNSUBSCRIBE => "PUNSUBSCRIBE" | Cmd.QUIT => "QUIT" | Cmd.PUBLISH _ _ => "PUBLISH"
  | Cmd.ZADD _ _ _ => "ZADD" | Cmd.ZRANK _ _ => "ZRANK" | Cmd.ZRANGE _ _ _ => "ZRANGE"
  | Cmd.ZCARD _ => "ZCARD" | Cmd.ZSCORE _ _ => "ZSCORE" | Cmd.ZREM _ _ => "ZREM"
  | Cmd.GEOADD _ _ _ _ => "GEOADD" | Cmd.GEOPOS _ _ => "GEOPOS" | Cmd.GEODIST _ _ => "GEODIST"
  | Cmd.GEOSEARCH _ _ _ => "GEOSEARCH" | Cmd.Acl _ => "Acl" | Cmd.Auth _ _ => "Auth"
  | Cmd.SETBIT _ _ _ => "SETBIT" | Cmd.GETBIT _ _ => "GETBIT" | Cmd.STRLEN _ => "STRLEN"
  | Cmd.BITCOUNT _ _ => "BITCOUNT" | Cmd.BITOP _ => "BITOP"
  end.

Definition subscriber_refusal (c : Cmd.t) : CustomError :=
  UnsupportedCmd ("ERR Can't execute '" +:+ to_ascii_lowercase (get_name c) +:+
    "': only (P|S)SUBSCRIBE / (P|S)UNSUBSCRIBE / PING / QUIT / RESET are allowed in this context").

(** The third-party code and unspecified behaviour the handler depends on. *)
Class Env := {
  #[global] env_libm :: Libm;
  #[global] env_order :: HashOrder;
  #[global] env_sha :: Sha256;
  #[global] env_base64 :: Base64;
}.

Section Dispatch.
Context `{Env}.

(** The [match] of [_execute_cmd], given how [EXEC] runs the queue. *)
Definition dispatch (execute : Cmd.t -> bytes -> M (Result CmdOutput CmdOutput))
    (cmd : Cmd.t) (client_id : Z) (epoll_fd : option Z) (is_sub : bool) : M Reply :=
  s ← get_state;
  match cmd with
  | Cmd.PING => mret (cmd_ping is_sub)
  | Cmd.PONG => mret (Ok None)
  | Cmd.OK => mret (Ok None)
  | Cmd.ECHO a => mret (cmd_echo a)
  | Cmd.SET key v opt => on_data (fun now d => cmd_set now d key v opt)
  | Cmd.GET key => reads (fun d => cmd_get (clock s) d key)
  | Cmd.RPUSH key v => writes (fun d => cmd_rpush d key v)
  | Cmd.LRANGE key start stop => reads (fun d => cmd_lrange d key start stop)
  | Cmd.LPUSH key v => writes (fun d => cmd_lpush d key v)
  | Cmd.LLEN key => reads (fun d => cmd_llen d key)
  | Cmd.LPOP key length => writes (fun d => cmd_lpop d key length)
  | Cmd.BLPOP key timeout_ms => cmd_blpop key timeout_ms client_id
  | Cmd.TYPE key => reads (fun d => cmd_type d key)
  | Cmd.XADD key id v => writes (fun d => cmd_xadd (clock s) d key id v)
  | Cmd.XRANGE key start end_ => on_data (fun _ d => let! r := cmd_xrange d key start end_ in Ret (d, r))
  | Cmd.XREAD count block stream => cmd_xread count block stream client_id
  | Cmd.INCR key => writes (fun d => cmd_incr d key)
  | Cmd.MULTI => cmd_multi client_id
  | Cmd.EXEC => cmd_exec execute client_id
  | Cmd.DISCARD => cmd_discard client_id
  | Cmd.WATCH keys => cmd_watch keys client_id
  | Cmd.UNWATCH => cmd_unwatch client_id
  | Cmd.INFO key => mret (cmd_info (app s) key)
  | Cmd.PSYNC id off => cmd_psync id off client_id
  | Cmd.REPLCONF arg => cmd_replconf arg client_id epoll_fd
  | Cmd.FULLRESYNC _ _ => mret (Ok None)
  | Cmd.RDB _ => mret (Ok None)
  | Cmd.WAIT count timeout_ms => cmd_wait count timeout_ms client_id epoll_fd
  | Cmd.CONFIG arg => mret (cmd_config (configs s) arg)
  | Cmd.KEYS arg => reads (fun d => cmd_keys d arg)
  | Cmd.SUBSCRIBE keys => cmd_subscribe keys client_id
  | Cmd.UNSUBSCRIBE key => cmd_unsubscribe key client_id
  | Cmd.PSUBSCRIBE => mret (Ok None)
  | Cmd.PUNSUBSCRIBE => mret (Ok None)
  | Cmd.QUIT => mret (Ok None)
  | Cmd.PUBLISH key message => cmd_publish key message
  | Cmd.ZADD key score member => on_data (fun _ d => cmd_zadd d key score member)
  | Cmd.ZRANK key member => on_data (fun _ d => let! r := cmd_zrank d key member in Ret (d, r))
  | Cmd.ZRANGE key start end_ => reads (fun d => cmd_zrange d key start end_)
  | Cmd.ZCARD key => reads (fun d => cmd_zcard d key)
  | Cmd.ZSCORE key member => reads (fun d => cmd_zscore d key member)
  | Cmd.ZREM key member => on_data (fun _ d => cmd_zrem d key member)
  | Cmd.GEOADD key long lat member => on_data (fun _ d => cmd_geoadd d key long lat member)
  | Cmd.GEOPOS key members => reads (fun d => cmd_geopos d key members)
  | Cmd.GEODIST key members => reads (fun d => cmd_geodist d key members)
  | Cmd.GEOSEARCH key from_arg by_arg => reads (fun d => cmd_geosearch d key from_arg by_arg)
  | Cmd.Acl opt => on_auth (fun a => cmd_acl a opt client_id)
  | Cmd.Auth user password => on_auth (fun a => cmd_auth a user password client_id)
  | Cmd.SETBIT key off b => writes (fun d => cmd_setbit d key off b)
  | Cmd.GETBIT key off => reads (fun d => cmd_getbit d key off)
  | Cmd.STRLEN key => reads (fun d => cmd_strlen d key)
  | Cmd.BITCOUNT key range => reads (fun d => cmd_bitcount d key range)
  | Cmd.BITOP args => writes (fun d => cmd_bitop d args)
  end.

(** [host_stats.expect(..).add_bytes_count(n)]. *)
Definition count_bytes (n : Z) : M unit :=
  s ← get_state;
  _ ← of_outcome (unwrap (host_stats (app s)));
  modify (fun s => with_app s (host_add_bytes_count (app s) n)).

(** [aof_write], its error dropped. *)
Definition aof_append (b : bytes) : M unit :=
  modify (fun s =>
    match aof (handler s) with
    | Some (Some a) => with_aof s (Some (Some (writer_write a b)))
    | _ => s
    end).

(** Before the command: dirty marks, and the offset of a master. *)
Definition before_cmd (cmd : Cmd.t) (buf : bytes) (is_mst : bool) : M unit :=
  reg_modify (fun r => set_dirty r cmd);;
  if Cmd.to_be_broadcast cmd && negb is_mst then count_bytes (len buf) else mret tt.

(** After a command that replied: flags, append-only file, replicas, offset of a
    replica. *)
Definition after_reply (cmd : Cmd.t) (buf : bytes) (is_mst : bool) : M unit :=
  modify (fun s => with_flags s (Cmd.is_flag_list cmd) (Cmd.is_flag_stream cmd));;
  (if Cmd.to_be_broadcast cmd then
     aof_append buf;;
     s ← get_state;
     iterate (fun id => push_response id buf)
       (match slaves (clients s) with Some l => iter_set l | None => [] end)
   else mret tt);;
  if is_mst then modify (fun s => with_app s (host_add_bytes_count (app s) (len buf)))
  else mret tt.

Definition execute_body (execute : Cmd.t -> bytes -> M (Result CmdOutput CmdOutput))
    (cmd : Cmd.t) (buf : bytes) (client_id : Z) (epoll_fd : option Z) (serialized : bool) :
    M (Result CmdOutput CmdOutput) :=
  s ← get_state;
  let is_sub := is_subscriber s client_id in
  if is_sub && negb (is_cmd_subscriber_allowed cmd) then
    b ← of_outcome (into_error_bytes (subscriber_refusal cmd));
    mret (Err (OutBytes b))
  else
    let is_mst := is_master (clients s) client_id in
    before_cmd cmd buf is_mst;;
    output ← dispatch execute cmd client_id epoll_fd is_sub;
    match output with
    | Ok (Some resp) =>
        after_reply cmd buf is_mst;;
        if negb is_mst || Cmd.always_response cmd then
          if serialized then
            b ← of_outcome (serialize resp);
            mret (Ok (OutBytes b))
          else mret (Ok (OutResp resp))
        else mret (Ok OutNone)
    | Err e =>
        (if is_mst then modify (fun s => with_app s (host_add_bytes_count (app s) (len buf)))
         else mret tt);;
        if serialized then
          b ← of_outcome (into_error_bytes e);
          mret (Err (OutBytes b))
        else mret (Err (OutResp (into_resp e)))
    | Ok None => mret (Ok OutNone)
    end.

(** [_execute_cmd]: [fuel] bounds how deep [EXEC] nests; running out is the
    overflow of the stack. *)
Fixpoint _execute_cmd (fuel : nat) (cmd : Cmd.t) (buf : bytes) (client_id : Z)
    (epoll_fd : option Z) (serialized : bool) : M (Result CmdOutput CmdOutput) :=
  match fuel with
  | O => fun _ => Panic
  | S f =>
      execute_body (fun c b => _execute_cmd f c b client_id None false)
        cmd buf client_id epoll_fd serialized
  end.

(** [EXEC] empties the queue before it runs it, and nothing a queue holds fills
    it again: three levels are enough. *)
Definition depth : nat := 3.

Definition execute_cmd := _execute_cmd depth.
Definition queued_cmd (client_id : Z) (c : Cmd.t) (b : bytes) :=
  execute_cmd c b client_id None false.

Definition out_bytes (o : CmdOutput) : bytes := unwrap_or (extract_bytes o) [].

(** [handle]: the bytes to write back. *)
Definition handle (cmd : Result CustomError Cmd.t) (buf : bytes) (client_id epoll_fd : Z) :
    M (Result bytes bytes) :=
  match cmd with
  | Ok c =>
      s ← get_state;
      if negb (is_transation (registry (handler s)) client_id) then
        out ← execute_cmd c buf client_id (Some epoll_fd) true;
        mret (match out with
              | Ok o => Ok (out_bytes o)
              | Err o => Err (out_bytes o)
              end)
      else
        let finish (m : M Reply) : M (Result bytes bytes) :=
          r ← m;
          match r with
          | Ok (Some resp) => b ← of_outcome (serialize resp); mret (Ok b)
          | _ => mret (Ok [])
          end in
        match c with
        | Cmd.EXEC => finish (cmd_exec (queued_cmd client_id) client_id)
        | Cmd.DISCARD => finish (cmd_discard client_id)
        | Cmd.WATCH _ =>
            b ← of_outcome (serialize (Error (Some "ERR WATCH inside MULTI is not allowed"%string)));
            mret (Ok b)
        | _ =>
            reg_modify (fun r => add_to_txn r client_id c buf);;
            b ← of_outcome (serialize (SimpleStr (Some KW_QUEUED)));
            mret (Ok b)
        end
  | Err e =>
      b ← of_outcome (into_error_bytes e);
      mret (Err b)
  end.

(** ** Deadlines and the end of a cycle *)
Definition deadline_task (e : RequestEntry) : Task :=
  match e with
  | REList _ _ _ t => t
  | REStream _ _ _ t => t
  | REWait _ _ _ _ _ _ t => t
  end.

(** The timer has fired: [get_nearest_deadline().unwrap()]. *)
Definition callback_deadline_expire : M unit :=
  s ← get_state;
  '(_, timestamp) ← of_outcome (unwrap (get_nearest_deadline (registry (handler s))));
  e ← reg_remove timestamp;
  match e with
  | Some entry => run_task (deadline_task entry)
  | None => mret tt
  end.

(** The clients of a queue that the elements of its list can serve. *)
Definition servable (d : Data) (kv : string * list Z) : list Z :=
  match d !! kv.1 with
  | Some it =>
      match value it with
      | List l => iter_take (Z.min (len kv.2) (len l)) kv.2
      | _ => []
      end
  | None => []
  end.

(** Remove the entries, and keep the backlog tasks of those of the right kind. *)
Fixpoint take_tasks (pick : RequestEntry -> option Task) (ts : list Z) : M (list Task) :=
  match ts with
  | [] => mret []
  | t :: rest =>
      e ← reg_remove t;
      tasks ← take_tasks pick rest;
      mret (match e with
            | Some entry => match pick entry with Some task => task :: tasks | None => tasks end
            | None => tasks
            end)
  end.

Definition list_task (e : RequestEntry) : option Task :=
  match e with REList _ _ t _ => Some t | _ => None end.
Definition stream_task (e : RequestEntry) : option Task :=
  match e with REStream _ _ t _ => Some t | _ => None end.

Definition serve_backlog_list : M unit :=
  s ← get_state;
  if negb (flag_backlog_list (handler s)) then mret tt
  else
    let timestamps :=
      mjoin (List.map (servable (data (handler s)))
               (iter_map (backlog_list (registry (handler s))))) in
    tasks ← take_tasks list_task timestamps;
    iterate run_task tasks;;
    modify (fun s => with_flags s false (flag_backlog_stream (handler s))).

Definition stream_ready (d : Data) (e : option RequestEntry) : bool :=
  match e with
  | Some (REStream key_ts _ _ _) =>
      existsb (fun '(key, ts, seq) => _is_stream_avail d key ts seq) key_ts
  | _ => false
  end.

Definition serve_backlog_stream : M unit :=
  s ← get_state;
  if negb (flag_backlog_stream (handler s)) then mret tt
  else
    let r := registry (handler s) in
    let timestamps :=
      List.filter (fun t => stream_ready (data (handler s)) (store r !! t))
        (iter_set (backlog_stream r)) in
    tasks ← take_tasks stream_task timestamps;
    iterate run_task tasks;;
    modify (fun s => with_flags s (flag_backlog_list (handler s)) false).

(** [aof_flush], its error dropped: what a failed flush did not write stays in the
    buffer. *)
Definition aof_flush : M unit :=
  modify (fun s =>
    match aof (handler s) with
    | Some (Some a) => with_aof s (Some (Some (writer_flush a).1))
    | _ => s
    end).
End Dispatch.

(** ** A concrete environment and a fresh master, for the examples *)
Definition demo_env : Env := {|
  env_libm := {| f64_sin := fun x => x; f64_cos := fun x => x; f64_asin := fun x => x |};
  env_order := key_order;
  env_sha := fun s => s;
  env_base64 := fun _ => Some [];
|}.

Definition demo_state : State :=
  mk_state (handler_new None)
    (mk_states (Some (mk_stats (Some "127.0.0.1"%string) (Some 6379) "?" 0)) None)
    configs_new clients_new auth_new [] 0%nat ∅ 1000.
