(* ===== verification/HandlerLogic.v ===== *)
(** * Reasoning about the handler's computations

    A weakest-precondition reading of [M], what each computation leaves alone
    ([framed]), and the invariant of the handler's state: the registry agrees with
    itself ([reg_wf]), every blocked request carries the closures of its own
    command ([entry_wf]), and no transaction queue holds a command that [handle] runs
    at once. A command that does not park its client adds no request ([unparked]). *)

From S2P Require Import Prelude Text Float64 Resp CmdBuilder Bitmap BTree SortedSet Geohash Store.
From S2P Require Import StringCmds ListCmds StreamCmds BitmapCmds ZsetCmds.
From S2P Require Import AppState Replication Auth Registry Handler.

(** ** Partial correctness *)
Definition wlp {A} (m : M A) (Q : A -> State -> Prop) (s : State) : Prop :=
  match m s with
  | Ret (s', a) => Q a s'
  | Panic => True
  end.

Lemma wlp_ret {A} (a : A) Q s : Q a s -> wlp (mret a) Q s.
Proof. done. Qed.

Lemma bind_unfold {A B} (m : M A) (k : A -> M B) s :
  (m ≫= k) s = match m s with Ret (s', a) => k a s' | Panic => Panic end.
Proof. reflexivity. Qed.

Lemma bind_eq {A B} (m : M A) (k : A -> M B) s s' a : m s = Ret (s', a) -> (m ≫= k) s = k a s'.
Proof. intros H. by rewrite bind_unfold, H. Qed.

Lemma get_bind {B} (k : State -> M B) s : (get_state ≫= k) s = k s s.
Proof. reflexivity. Qed.

Lemma wlp_bind {A B} (m : M A) (k : A -> M B) Q s :
  wlp m (fun a s' => wlp (k a) Q s') s -> wlp (m ≫= k) Q s.
Proof. unfold wlp. rewrite bind_unfold. by destruct (m s) as [[]|]. Qed.

Lemma wlp_mono {A} (m : M A) (Q R : A -> State -> Prop) s :
  wlp m Q s -> (forall a s', Q a s' -> R a s') -> wlp m R s.
Proof. unfold wlp. destruct (m s) as [[]|]; auto. Qed.

Lemma wlp_get Q s : Q s s -> wlp get_state Q s.
Proof. done. Qed.

Lemma wlp_modify f Q s : Q tt (f s) -> wlp (modify f) Q s.
Proof. done. Qed.

Lemma wlp_of_outcome {A} (o : outcome A) Q s : (forall a, o = Ret a -> Q a s) -> wlp (of_outcome o) Q s.
Proof. unfold wlp, of_outcome. destruct o; cbn; auto. Qed.

Lemma wlp_elim {A} (m : M A) Q s s' a : wlp m Q s -> m s = Ret (s', a) -> Q a s'.
Proof. unfold wlp. intros H E. by rewrite E in H. Qed.

(** Invariant properties of a relation between the states before and after. *)
Definition keeps (R : State -> State -> Prop) {A} (m : M A) : Prop :=
  forall s, wlp m (fun _ s' => R s s') s.

Section Keeps.
Context (R : State -> State -> Prop) `{!PreOrder R}.

Lemma keeps_ret {A} (a : A) : keeps R (mret a).
Proof. intros s. apply wlp_ret. reflexivity. Qed.

Lemma keeps_bind {A B} (m : M A) (k : A -> M B) :
  keeps R m -> (forall a, keeps R (k a)) -> keeps R (m ≫= k).
Proof.
  intros Hm Hk s. apply wlp_bind. eapply wlp_mono; [apply Hm|]. intros a s' H.
  eapply wlp_mono; [apply Hk|]. intros b s'' H'. by transitivity s'.
Qed.

Lemma keeps_get : keeps R get_state.
Proof. intros s. apply wlp_get. reflexivity. Qed.

Lemma keeps_of_outcome {A} (o : outcome A) : keeps R (of_outcome o).
Proof. intros s. apply wlp_of_outcome. reflexivity. Qed.

Lemma keeps_iterate {A} (f : A -> M unit) l : (forall a, keeps R (f a)) -> keeps R (iterate f l).
Proof. intros Hf. induction l; cbn; [apply keeps_ret|by apply keeps_bind]. Qed.
End Keeps.

(** ** What is left alone *)

(** The registry, the counters of the waits and the clock are not touched. *)
Definition still (s s' : State) : Prop :=
  registry (handler s') = registry (handler s) /\ cells s' = cells s /\ clock s' = clock s.

#[export] Instance still_preorder : PreOrder still.
Proof.
  split; [done|]. intros x y z (? & ? & ?) (? & ? & ?). split_and!; congruence.
Qed.

(** All of the registry but the watches is kept. *)
Definition frame (s s' : State) : Prop :=
  cells s' = cells s /\ clock s' = clock s /\
  exists w, registry (handler s') = set_watchlist (registry (handler s)) w.

Lemma set_watchlist_eta r : r = set_watchlist r (watchlist r).
Proof. by destruct r. Qed.

#[export] Instance frame_preorder : PreOrder frame.
Proof.
  split.
  - intros s. split_and!; [done|done|]. eexists. apply set_watchlist_eta.
  - intros x y z (? & ? & w & Hw) (? & ? & w' & Hw'). split_and!; [congruence..|].
    exists w'. by rewrite Hw', Hw.
Qed.

Lemma still_frame s s' : still s s' -> frame s s'.
Proof. intros (Hr & ? & ?). split_and!; [done..|]. eexists. rewrite Hr. apply set_watchlist_eta. Qed.

Lemma keeps_mono (R R' : State -> State -> Prop) {A} (m : M A) :
  (forall s s', R s s' -> R' s s') -> keeps R m -> keeps R' m.
Proof. intros HR H s. eapply wlp_mono; [apply H|]. intros ? s'. apply HR. Qed.

Lemma keeps_frame_still {A} (m : M A) : keeps still m -> keeps frame m.
Proof. apply keeps_mono, still_frame. Qed.

Create HintDb frames discriminated.
#[export] Hint Resolve keeps_ret keeps_get keeps_of_outcome : frames.
#[export] Hint Resolve keeps_frame_still : frames.
#[export] Hint Extern 1 (PreOrder still) => apply still_preorder : frames.
#[export] Hint Extern 1 (PreOrder frame) => apply frame_preorder : frames.

(** Peel a computation: binds, conditionals and matches. *)
Ltac keeps_tac :=
  repeat first
    [ progress intros
    | solve [eauto with frames]
    | apply keeps_bind; [typeclasses eauto| |]
    | apply keeps_iterate; [typeclasses eauto|]
    | match goal with |- keeps _ (match ?x with _ => _ end) => destruct x end
    | match goal with |- keeps _ ((match ?x with _ => _ end) ≫= _) => destruct x end ].

(** Close a goal between a state and an update of it. *)
Ltac framed := intros; first [done|apply still_frame; done].

Lemma keeps_modify (R : State -> State -> Prop) f : (forall s, R s (f s)) -> keeps R (modify f).
Proof. intros H s. apply wlp_modify, H. Qed.

Lemma still_push c b : keeps still (push_response c b).
Proof. apply keeps_modify; framed. Qed.
#[export] Hint Resolve still_push : frames.

Lemma still_respond c r : keeps still (respond c r).
Proof. unfold respond. keeps_tac. Qed.
#[export] Hint Resolve still_respond : frames.

Lemma still_on_data {A} (f : Z -> Data -> outcome (Data * A)) : keeps still (on_data f).
Proof. intros s. unfold wlp, on_data. destruct (f _ _) as [[]|]; [framed|done]. Qed.
#[export] Hint Resolve still_on_data : frames.
Lemma still_writes f : keeps still (writes f).
Proof. apply still_on_data. Qed.
Lemma still_reads f : keeps still (reads f).
Proof. apply still_on_data. Qed.
#[export] Hint Resolve still_writes still_reads : frames.

Lemma still_on_auth f : keeps still (on_auth f).
Proof. intros s. unfold wlp, on_auth. destruct (f (auth s)). framed. Qed.
#[export] Hint Resolve still_on_auth : frames.

Lemma still_add_interest fd c : keeps still (add_interest fd c).
Proof. unfold add_interest. keeps_tac. apply keeps_modify; framed. Qed.
Lemma still_remove_interest fd c : keeps still (remove_interest fd c).
Proof. unfold remove_interest. keeps_tac. apply keeps_modify; framed. Qed.
#[export] Hint Resolve still_add_interest still_remove_interest : frames.

Lemma still_count_bytes n : keeps still (count_bytes n).
Proof. unfold count_bytes. keeps_tac. apply keeps_modify; framed. Qed.
Lemma still_aof_append b : keeps still (aof_append b).
Proof. apply keeps_modify. intros s. destruct (aof (handler s)) as [[]|]; framed. Qed.
#[export] Hint Resolve still_count_bytes still_aof_append : frames.
Lemma still_flags l st : keeps still (modify (fun s => with_flags s l st)).
Proof. apply keeps_modify; framed. Qed.
Lemma still_app f : keeps still (modify (fun s => with_app s (f s))).
Proof. apply keeps_modify; framed. Qed.
#[export] Hint Resolve still_flags still_app : frames.

Lemma still_after_reply `{Env} cmd b m : keeps still (after_reply cmd b m).
Proof. unfold after_reply. keeps_tac. Qed.
#[export] Hint Resolve still_after_reply : frames.

Lemma still_psync `{Base64} id off c : keeps still (cmd_psync id off c).
Proof. unfold cmd_psync. keeps_tac. apply keeps_modify; framed. Qed.

Lemma still_join k c rc : keeps still (join_channel k c rc).
Proof. apply keeps_modify; framed. Qed.
#[export] Hint Resolve still_psync still_join : frames.

Lemma still_subscribe_known c rc keys : keeps still (subscribe_known c rc keys).
Proof. induction keys; cbn; keeps_tac. Qed.
Lemma still_subscribe_new c rc keys : keeps still (subscribe_new c rc keys).
Proof. induction keys; cbn; keeps_tac. Qed.
#[export] Hint Resolve still_subscribe_known still_subscribe_new : frames.

Lemma still_subscribe keys c : keeps still (cmd_subscribe keys c).
Proof. unfold cmd_subscribe. keeps_tac; apply keeps_modify; framed. Qed.
Lemma still_publish `{HashOrder} k m : keeps still (cmd_publish k m).
Proof. unfold cmd_publish. keeps_tac. Qed.
Lemma still_unsubscribe k c : keeps still (cmd_unsubscribe k c).
Proof. unfold cmd_unsubscribe. keeps_tac; apply keeps_modify; framed. Qed.
#[export] Hint Resolve still_subscribe still_publish still_unsubscribe : frames.

Lemma frame_watchlist f : (forall r, exists w, f r = set_watchlist r w) -> keeps frame (reg_modify f).
Proof. intros Hf. apply keeps_modify. intros s. destruct (Hf (registry (handler s))) as [w Hw]. split_and!; [done..|]. exists w. apply Hw. Qed.

Lemma frame_watch keys c : keeps frame (cmd_watch keys c).
Proof. unfold cmd_watch. keeps_tac. apply frame_watchlist. intros r. by eexists. Qed.
Lemma frame_unwatch c : keeps frame (cmd_unwatch c).
Proof. unfold cmd_unwatch. keeps_tac. apply frame_watchlist. intros r. by eexists. Qed.
#[export] Hint Resolve frame_watch frame_unwatch : frames.

Lemma set_dirty_watchlist r c : exists w, set_dirty r c = set_watchlist r w.
Proof.
  unfold set_dirty. destruct (dirty_key c); [|eexists; apply set_watchlist_eta].
  destruct (watchlist r !! s); [by eexists|eexists; apply set_watchlist_eta].
Qed.

Lemma frame_before_cmd `{Env} c b m : keeps frame (before_cmd c b m).
Proof.
  unfold before_cmd. keeps_tac. apply frame_watchlist. intros r. apply set_dirty_watchlist.
Qed.
#[export] Hint Resolve frame_before_cmd : frames.

(** ** The invariant *)

(** An entry carries the closures its command made, stamped with its own
    timestamp; the counter of a [WAIT] exists. *)
Definition entry_wf (n_cells : nat) (t : Z) (e : RequestEntry) : Prop :=
  0 <= entry_deadline e /\
  match e with
  | REList key _ backlog deadline_task =>
      exists c, backlog = BlpopTask t c key /\ deadline_task = NullTask t c
  | REStream key_ts _ backlog deadline_task =>
      exists c count, backlog = XreadTask t c count key_ts /\ deadline_task = NullTask t c
  | REWait c _ a _ _ _ deadline_task =>
      (exists fd, deadline_task = WaitTask t c a (Some fd)) /\ (a < n_cells)%nat
  end.

(** What a transaction may hold: these three [handle] never queues. *)
Definition queueable (c : Cmd.t) : bool :=
  match c with
  | Cmd.EXEC | Cmd.DISCARD | Cmd.WATCH _ => false
  | _ => true
  end.

(** The commands that may park their client. *)
Definition parking (c : Cmd.t) : bool :=
  match c with
  | Cmd.BLPOP _ _ | Cmd.XREAD _ (Some _) _ | Cmd.WAIT _ _ => true
  | _ => false
  end.

Record state_wf (s : State) : Prop := {
  sw_reg : reg_wf (registry (handler s));
  sw_entry : forall t e, store (registry (handler s)) !! t = Some e ->
    entry_wf (List.length (cells s)) t e;
  sw_txn : forall c q x, backlog_txn (registry (handler s)) !! c = Some q -> x ∈ q ->
    queueable x.1 = true;
}.

Definition wf_kept (s s' : State) : Prop := state_wf s -> state_wf s'.

#[export] Instance wf_kept_preorder : PreOrder wf_kept.
Proof. unfold wf_kept. split; [by intros x H|intros x y z; auto]. Qed.
#[export] Hint Extern 1 (PreOrder wf_kept) => apply wf_kept_preorder : frames.

Lemma reg_wf_same r r' : reg_wf r -> store r' = store r -> backlog_list r' = backlog_list r ->
  backlog_stream r' = backlog_stream r -> backlog_wait r' = backlog_wait r ->
  backlog_ack r' = backlog_ack r -> deadlines r' = deadlines r -> reg_wf r'.
Proof.
  intros [] H1 H2 H3 H4 H5 H6.
  split; unfold queue_of, ack_of in *; rewrite ?H1, ?H2, ?H3, ?H4, ?H5, ?H6; auto.
Qed.

Lemma wf_frame s s' : frame s s' -> wf_kept s s'.
Proof.
  intros (Hc & _ & w & Hw) [Hr He Ht]. split; rewrite Hw, ?Hc; [by eapply reg_wf_same|exact He|exact Ht].
Qed.

Lemma keeps_wf_frame {A} (m : M A) : keeps frame m -> keeps wf_kept m.
Proof. intros H s. eapply wlp_mono; [apply H|]. intros ? s'. apply wf_frame. Qed.
#[export] Hint Resolve keeps_wf_frame : frames.

(** Changing the transactions only. *)
Lemma wf_set_txn s m :
  (forall c q x, m !! c = Some q -> x ∈ q -> queueable x.1 = true) ->
  wf_kept s (with_registry s (set_txn (registry (handler s)) m)).
Proof. intros Hm [Hr He Ht]. split; cbn; [by eapply reg_wf_same|exact He|exact Hm]. Qed.

Lemma wf_txn_delete s c : wf_kept s
  (with_registry s (set_txn (registry (handler s)) (delete c (backlog_txn (registry (handler s)))))).
Proof.
  intros Hwf. apply wf_set_txn; [|done]. intros c' q x [_ Hq]%lookup_delete_Some.
  by apply (sw_txn s Hwf c').
Qed.

Lemma wf_txn_empty s c : wf_kept s
  (with_registry s (set_txn (registry (handler s)) (<[c := []]> (backlog_txn (registry (handler s)))))).
Proof.
  intros Hwf. apply wf_set_txn; [|done]. intros c' q x [[_ <-]|[_ Hq]]%lookup_insert_Some.
  - by intros ?%not_elem_of_nil.
  - by apply (sw_txn s Hwf c').
Qed.

(** Removing a request. *)
Lemma reg_remove_spec s t : state_wf s ->
  exists s', reg_remove t s = Ret (s', store (registry (handler s)) !! t) /\ state_wf s' /\
    store (registry (handler s')) = delete t (store (registry (handler s))) /\
    (forall k, queue_of (registry (handler s')) k =
       List.filter (fun x => negb (x =? t)) (queue_of (registry (handler s)) k)) /\
    s' = with_registry s (registry (handler s')).
Proof.
  intros Hwf. pose proof Hwf as [Hr He Ht]. unfold reg_remove.
  destruct (store (registry (handler s)) !! t) as [e|] eqn:Hs.
  - destruct (remove_wf (clock s) (registry (handler s)) t e Hr Hs (proj1 (He t e Hs)))
      as (r' & Hrem & Hr' & Hst & Hq).
    rewrite Hrem. eexists. split; [done|]. split_and!; [|done..].
    split; cbn; [done|..].
    + intros t' e'. rewrite Hst. intros [_ ?]%lookup_delete_Some. by apply He.
    + intros c q x. replace (backlog_txn r') with (backlog_txn (registry (handler s))); [apply Ht|].
      revert Hrem. unfold Registry.remove. rewrite Hs. destruct e; cbn; by intros [= <-].
  - rewrite (remove_absent _ _ _ Hs). eexists. split; [done|]. split_and!; cbn; [|..].
    + by destruct s as [[] ? ? ? ? ? ? ? ?].
    + by rewrite delete_id.
    + intros k. symmetry. apply List.forallb_filter_id, forallb_forall. intros x Hx.
      apply negb_true_iff, Z.eqb_neq. intros ->. apply list_elem_of_In, (rw_queue _ Hr) in Hx.
      destruct Hx as (e & Hx & _). congruence.
    + done.
Qed.

Lemma wf_reg_remove t : keeps wf_kept (reg_remove t).
Proof.
  intros s. unfold wlp, wf_kept. destruct (reg_remove t s) as [[s' o]|] eqn:Hrm; [|done].
  intros Hwf. destruct (reg_remove_spec s t Hwf) as (s'' & H' & Hwf' & _). congruence.
Qed.
#[export] Hint Resolve wf_reg_remove : frames.

(** *** Parking a request *)
Lemma entry_wf_set n t e d : entry_wf n t e -> 0 <= d -> entry_wf n t (set_deadline e d).
Proof. unfold entry_wf. rewrite entry_deadline_set. by destruct e; intros [_ ?]. Qed.

Lemma insert_txn now r t d e : backlog_txn (insert now r t d e) = backlog_txn r.
Proof. unfold insert. by destruct (0 <? d), e. Qed.

Lemma reg_insert_wf s t e : state_wf s ->
  let r := registry (handler s) in
  store r !! t = None -> entry_wf (List.length (cells s)) t e ->
  entry_deadline e + len (deadlines r) <= u64_max ->
  (forall c, wait_client e = Some c -> backlog_wait r !! c = None) ->
  state_wf (with_registry s (insert (clock s) r t (entry_deadline e) e)).
Proof.
  intros [Hr He Ht] r Hfree Hent Hb Hw. pose proof (proj1 Hent) as Hd.
  split; cbn -[insert].
  - by apply insert_wf.
  - intros t' e'. rewrite insert_store, lookup_insert_Some.
    intros [[<- <-]|[_ Hs]]; [|by apply He]. unfold stored.
    destruct (0 <? entry_deadline e); [|done]. apply entry_wf_set; [done|].
    pose proof (free_deadline_spec _ _ (rw_sorted _ Hr) Hd Hb) as [_ [? _]]. fold r. etransitivity; [exact Hd|done].
  - rewrite insert_txn. exact Ht.
Qed.

(** The deadline of a command can be computed, and so can the free one after it. *)
Definition fits (s : State) (timeout : option Z) : Prop :=
  0 <= clock s /\ 0 <= unwrap_or timeout 0 /\
  clock s + unwrap_or timeout 0 + len (deadlines (registry (handler s))) <= u64_max.

Lemma fits_deadline s timeout t d : fits s timeout -> get_deadline (clock s) timeout = (t, d) ->
  t = clock s /\ 0 <= d /\ d + len (deadlines (registry (handler s))) <= u64_max.
Proof.
  unfold fits, get_deadline. pose proof (len_nonneg (deadlines (registry (handler s)))).
  destruct timeout as [x|]; cbn; intros ? [= <- <-]; [|lia].
  rewrite wrap_u64_id by (unfold is_u64; lia). lia.
Qed.

(** No request is stamped with the present millisecond, and the deadline fits. *)
Definition can_park (s : State) (timeout : option Z) : Prop :=
  store (registry (handler s)) !! clock s = None /\ fits s timeout.

(** The parking commands are given a fresh timestamp; a client has one [WAIT]
    outstanding. *)
Definition admissible (s : State) (c : Cmd.t) (client_id : Z) : Prop :=
  match c with
  | Cmd.BLPOP _ timeout => can_park s timeout
  | Cmd.XREAD _ (Some block) _ => can_park s (if block =? 0 then None else Some block)
  | Cmd.WAIT _ timeout =>
      can_park s timeout /\ backlog_wait (registry (handler s)) !! client_id = None
  | _ => True
  end.

Lemma can_park_frame s s' t : frame s s' -> can_park s t -> can_park s' t.
Proof.
  intros (_ & Hk & w & Hw) [Hf Hb]. unfold can_park, fits in *. rewrite Hw, Hk. done.
Qed.

Lemma admissible_frame s s' c client : frame s s' -> admissible s c client -> admissible s' c client.
Proof.
  intros Hf. pose proof (fun t => can_park_frame s s' t Hf) as Hp.
  destruct c; try done; cbn; [apply Hp|case_match; [apply Hp|done]|].
  intros [H Hw]. split; [by apply Hp|]. destruct Hf as (_ & _ & w & ->). done.
Qed.

Lemma park_wf s e timeout t d : state_wf s -> can_park s timeout ->
  get_deadline (clock s) timeout = (t, d) -> entry_deadline e = d ->
  (0 <= d -> entry_wf (List.length (cells s)) t e) ->
  (forall c, wait_client e = Some c -> backlog_wait (registry (handler s)) !! c = None) ->
  wlp (reg_insert t d e) (fun _ s' => state_wf s') s.
Proof.
  intros Hwf [Hfree Hfit] Hd <- He Hw.
  destruct (fits_deadline s timeout t _ Hfit Hd) as (-> & Hd0 & Hb).
  apply wlp_modify. apply reg_insert_wf; auto.
Qed.

Lemma handler_blpop_wf s key timeout c : state_wf s -> can_park s timeout ->
  wlp (cmd_blpop key timeout c) (fun _ s' => state_wf s') s.
Proof.
  intros Hwf Hp. unfold cmd_blpop. apply wlp_bind, wlp_get.
  destruct (get_deadline (clock s) timeout) as [t d] eqn:Hd.
  assert (wlp (reg_insert t d (REList key d (BlpopTask t c key) (NullTask t c));; mret (Ok None))
    (fun (_ : Reply) s' => state_wf s') s) as Hpark.
  { apply wlp_bind. eapply wlp_mono.
    - eapply park_wf; [done..|done| |done]. intros Hd0. split; [done|]. by exists c.
    - intros. by apply wlp_ret. }
  destruct (data (handler s) !! key) as [it|]; [|done].
  destruct (value it) as [|[|v l]| | | | | | |]; first [exact Hpark|by apply wlp_ret|idtac].
  destruct (is_backlog_list_empty _ _); [|done].
  apply wlp_bind, wlp_modify, wlp_ret. apply (wf_frame s); [framed|done].
Qed.

Lemma handler_xread_wf s count block stream c : state_wf s ->
  match block with
  | Some b => can_park s (if b =? 0 then None else Some b)
  | None => True
  end -> wlp (cmd_xread count block stream c) (fun _ s' => state_wf s') s.
Proof.
  intros Hwf Hp. unfold cmd_xread. apply wlp_bind, wlp_get.
  destruct (xread_check _ _); [|by apply wlp_ret].
  set (st := List.map _ _). destruct (stream_replies _ _ _); [|by apply wlp_ret].
  destruct block as [b|]; [|by apply wlp_ret].
  destruct (get_deadline (clock s) _) as [t d] eqn:Hd.
  apply wlp_bind. eapply wlp_mono.
  - eapply park_wf; [done..|done| |done]. intros Hd0. split; [done|]. by exists c, count.
  - intros. by apply wlp_ret.
Qed.

Lemma handler_wait_wf `{HashOrder} s count timeout c fd : state_wf s -> can_park s timeout ->
  backlog_wait (registry (handler s)) !! c = None ->
  wlp (cmd_wait count timeout c fd) (fun _ s' => state_wf s') s.
Proof.
  intros Hwf Hp Hw. unfold cmd_wait. destruct (count =? 0); [by apply wlp_ret|].
  apply wlp_bind, wlp_get. destruct (host_stats (app s)) as [st|]; [|by apply wlp_ret].
  destruct (offset st =? 0); [by apply wlp_ret|].
  apply wlp_bind. eapply wlp_mono.
  { apply (keeps_iterate frame (fun k => respond k getack)). intros k. apply keeps_frame_still, still_respond. }
  intros ? s1 Hf. pose proof (wf_frame _ _ Hf Hwf) as Hwf1.
  pose proof (can_park_frame _ _ _ Hf Hp) as Hp1.
  assert (backlog_wait (registry (handler s1)) !! c = None) as Hw1.
  { destruct Hf as (_ & _ & w & ->). done. }
  destruct Hf as (Hc & Hk & _). rewrite <- Hc, <- Hk.
  destruct (get_deadline (clock s1) timeout) as [t d] eqn:Hd.
  apply wlp_bind, wlp_modify. apply wlp_bind.
  destruct fd as [fd|].
  2: { apply wlp_modify. by apply wlp_bind. }
  eapply wlp_mono.
  - eapply (park_wf (with_cells s1 (cells s1 ++ [0])) _ timeout t d); [|done|done|done| |].
    + destruct Hwf1 as [Hr He Ht]. split; cbn; [done| |done]. intros t' e Hs.
      specialize (He t' e Hs). unfold entry_wf in *. destruct e; [done..|].
      rewrite length_app. cbn. destruct He as (? & ? & ?). split_and!; [done..|lia].
    + intros Hd0. split; [done|]. cbn. rewrite length_app. cbn. split; [by exists fd|lia].
    + intros c' [= <-]. done.
  - intros ? s2 Hwf2. apply wlp_bind. eapply wlp_mono; [apply keeps_frame_still, still_remove_interest|].
    intros ? s3 Hf. apply wlp_ret. by apply (wf_frame s2).
Qed.

(** *** Tasks and acknowledgements *)
Lemma wf_run_task t : keeps wf_kept (run_task t).
Proof.
  destruct t; cbn; keeps_tac. apply keeps_wf_frame, keeps_modify. framed.
Qed.
#[export] Hint Resolve wf_run_task : frames.

Lemma wf_set_cells s a n : wf_kept s (with_cells s (<[a := n]> (cells s))).
Proof. intros [Hr He Ht]. split; cbn; [done| |done]. by rewrite length_insert. Qed.

Lemma wf_ack_scan off ids : forall d1 d2, keeps wf_kept (ack_scan off ids d1 d2).
Proof.
  induction ids as [|id ids IH]; intros d1 d2; cbn; keeps_tac; try apply IH.
  intros s. apply wlp_modify, wf_set_cells.
Qed.
#[export] Hint Resolve wf_ack_scan : frames.

Lemma reg_wf_ack r m : reg_wf r ->
  (forall s c, c ∈ unwrap_or (m !! s) [] -> c ∈ ack_of r s) -> reg_wf (set_ack r m).
Proof. intros [] H. split; auto. Qed.

Lemma ack_release_wf r slave ids : reg_wf r -> reg_wf (ack_release r slave ids).
Proof.
  intros Hr. unfold ack_release. destruct (backlog_ack r !! slave) as [l|] eqn:Hl; [|done].
  assert (forall l', (forall c, c ∈ l' -> c ∈ l) ->
    reg_wf (set_ack r (<[slave := l']> (backlog_ack r)))) as Hins.
  { intros l' Hsub. apply reg_wf_ack; [done|]. intros s c. unfold ack_of.
    destruct (decide (slave = s)) as [<-|]; [|by rewrite lookup_insert_ne].
    rewrite lookup_insert_eq, Hl. cbn. apply Hsub. }
  destruct (List.filter _ l) as [|x l'] eqn:Hf.
  - apply reg_wf_ack; [done|]. intros s c. unfold ack_of.
    destruct (decide (slave = s)) as [<-|]; [|by rewrite lookup_delete_ne].
    rewrite lookup_delete_eq. by intros ?%not_elem_of_nil.
  - apply Hins. intros c. rewrite <- Hf, !list_elem_of_In, filter_In. by intros [].
Qed.

Lemma ack_release_same r slave ids : exists m, ack_release r slave ids = set_ack r m.
Proof.
  unfold ack_release. destruct (backlog_ack r !! slave); [|exists (backlog_ack r); by destruct r].
  case_match; by eexists.
Qed.

Lemma wf_ack_release slave ids : keeps wf_kept (reg_modify (fun r => ack_release r slave ids)).
Proof.
  intros s. apply wlp_modify. intros [Hr He Ht].
  split; cbn; [by apply ack_release_wf|..];
    destruct (ack_release_same (registry (handler s)) slave ids) as [m ->]; done.
Qed.
#[export] Hint Resolve wf_ack_release : frames.

Lemma still_ack_timestamps fd ids : keeps still (ack_timestamps fd ids).
Proof. induction ids; cbn; keeps_tac. Qed.
#[export] Hint Resolve still_ack_timestamps : frames.

Lemma wf_replconf arg c fd : keeps wf_kept (cmd_replconf arg c fd).
Proof.
  destruct arg; cbn; keeps_tac; unfold cmd_replconf_ack; keeps_tac.
Qed.
#[export] Hint Resolve wf_replconf : frames.

(** *** What only parking commands do

    The others add no request and no deadline, and register nobody's [WAIT]. *)
Definition unparked (s s' : State) : Prop :=
  clock s' = clock s /\
  (forall t, store (registry (handler s)) !! t = None -> store (registry (handler s')) !! t = None) /\
  (forall c, backlog_wait (registry (handler s)) !! c = None -> backlog_wait (registry (handler s')) !! c = None) /\
  len (deadlines (registry (handler s'))) <= len (deadlines (registry (handler s))).

#[export] Instance unparked_preorder : PreOrder unparked.
Proof.
  split; [done|]. intros x y z (? & ? & ? & ?) (? & ? & ? & ?). split_and!; [congruence|auto|auto|lia].
Qed.
#[export] Hint Extern 1 (PreOrder unparked) => apply unparked_preorder : frames.

Lemma keeps_unparked_frame {A} (m : M A) : keeps frame m -> keeps unparked m.
Proof. apply keeps_mono. intros s s' (_ & Hk & w & Hw). unfold unparked. by rewrite Hw, Hk. Qed.
#[export] Hint Resolve keeps_unparked_frame : frames.

(** A change of the registry elsewhere. *)
Lemma unparked_registry f : (forall r, store (f r) = store r /\ backlog_wait (f r) = backlog_wait r /\
  deadlines (f r) = deadlines r) -> keeps unparked (reg_modify f).
Proof.
  intros Hf. apply keeps_modify. intros s. destruct (Hf (registry (handler s))) as (H1 & H2 & H3).
  unfold unparked. cbn. by rewrite H1, H2, H3.
Qed.

Lemma bt_remove_len `{Ord K} {V} (k : K) (m : BTreeMap K V) : len (bt_remove k m) <= len m.
Proof.
  induction m as [|[k' v] m IH]; cbn [bt_remove]; [done|]. destruct (cmp k k'); rewrite ?len_cons; lia.
Qed.

Lemma unparked_reg_remove t : keeps unparked (reg_remove t).
Proof.
  intros s. unfold wlp, reg_remove, Registry.remove.
  destruct (store (registry (handler s)) !! t) as [e|] eqn:Ht; [|done].
  destruct e; cbn -[bt_remove]; (split_and!; [done|..|apply bt_remove_len]); try done; cbn;
    intros x Hx; rewrite lookup_delete_None; auto.
Qed.
#[export] Hint Resolve unparked_reg_remove : frames.

Lemma unparked_run_task t : keeps unparked (run_task t).
Proof. destruct t; cbn; keeps_tac. apply keeps_unparked_frame, keeps_modify. framed. Qed.
#[export] Hint Resolve unparked_run_task : frames.

Lemma unparked_ack_scan off ids : forall d1 d2, keeps unparked (ack_scan off ids d1 d2).
Proof.
  induction ids as [|id ids IH]; intros d1 d2; cbn; keeps_tac; try apply IH.
  by apply keeps_modify.
Qed.
Lemma unparked_ack_release slave ids : keeps unparked (reg_modify (fun r => ack_release r slave ids)).
Proof. apply unparked_registry. intros r. by destruct (ack_release_same r slave ids) as [m ->]. Qed.
#[export] Hint Resolve unparked_ack_scan unparked_ack_release : frames.

Lemma unparked_replconf arg c fd : keeps unparked (cmd_replconf arg c fd).
Proof. destruct arg; cbn; keeps_tac; unfold cmd_replconf_ack; keeps_tac. Qed.
Lemma unparked_multi c : keeps unparked (cmd_multi c).
Proof. unfold cmd_multi. keeps_tac; by apply unparked_registry. Qed.
Lemma unparked_discard c : keeps unparked (cmd_discard c).
Proof. unfold cmd_discard. keeps_tac. by apply unparked_registry. Qed.
#[export] Hint Resolve unparked_replconf unparked_multi unparked_discard : frames.

Lemma can_park_unparked s s' t : unparked s s' -> can_park s t -> can_park s' t.
Proof.
  intros (Hk & Hst & _ & Hd) (Hfree & H0 & H1 & Hfit). unfold can_park, fits. rewrite Hk.
  split; [auto|]. split_and!; [done..|lia].
Qed.

Lemma admissible_unparked s s' c client : unparked s s' -> admissible s c client -> admissible s' c client.
Proof.
  intros Hu. pose proof (fun t => can_park_unparked s s' t Hu) as Hp.
  destruct c; try done; cbn; [apply Hp|case_match; [apply Hp|done]|].
  intros [H Hw]. split; [by apply Hp|]. destruct Hu as (_ & _ & Hwait & _). by apply Hwait.
Qed.

Lemma not_parking_admissible s c client : parking c = false -> admissible s c client.
Proof. destruct c; try done. cbn. by case_match. Qed.

(** *** Transactions *)
Lemma wf_multi c : keeps wf_kept (cmd_multi c).
Proof. unfold cmd_multi. keeps_tac; intros s; apply wlp_modify, wf_txn_empty. Qed.

Lemma wf_end_txn c : keeps wf_kept (end_txn c).
Proof.
  intros s. apply wlp_modify. intros Hwf.
  pose proof (wf_txn_delete s c Hwf) as [Hr He Ht]. split; cbn in *; [by eapply reg_wf_same|done..].
Qed.
#[export] Hint Resolve wf_multi wf_end_txn : frames.

Lemma wf_discard c : keeps wf_kept (cmd_discard c).
Proof. unfold cmd_discard. keeps_tac. apply (wf_end_txn c). Qed.
#[export] Hint Resolve wf_discard : frames.

Lemma keeps_wf_intro {A} (m : M A) :
  (forall s, state_wf s -> wlp m (fun _ s' => state_wf s') s) <-> keeps wf_kept m.
Proof.
  unfold keeps, wlp, wf_kept. split; intros H s; specialize (H s);
    destruct (m s) as [[]|]; auto.
Qed.

(** How a queued command runs: well, and if it does not park, adding no request. *)
Definition runs_queued (client : Z) (execute : Cmd.t -> bytes -> M (Result CmdOutput CmdOutput)) : Prop :=
  forall c b, queueable c = true ->
    (forall s, state_wf s -> admissible s c client -> wlp (execute c b) (fun _ s' => state_wf s') s) /\
    (parking c = false -> keeps unparked (execute c b)).

(** At most one command of a queue parks the client, which needs a millisecond of its
    own for that. *)
Definition queue_ok (s : State) (client : Z) (q : list (Cmd.t * bytes)) : Prop :=
  (List.length (List.filter (fun x => parking x.1) q) <= 1)%nat /\ Forall (fun x => admissible s x.1 client) q.

Lemma wf_exec_queue client execute q : runs_queued client execute ->
  (forall x, x ∈ q -> queueable x.1 = true) -> forall s, state_wf s -> queue_ok s client q ->
  wlp (exec_queue execute q) (fun _ s' => state_wf s') s.
Proof.
  intros Hex. induction q as [|[cmd b] q IH]; intros Hq s Hwf [Hone Hadm]; cbn [exec_queue]; [by apply wlp_ret|].
  destruct (Hex cmd b) as [Hrun Hkeep]; [by apply (Hq (cmd, b)), list_elem_of_here|].
  inversion Hadm as [|? ? Hc Hrest]; subst. cbn [fst] in Hc. cbn [List.filter fst] in Hone.
  assert (forall s1, state_wf s1 -> (parking cmd = false -> unparked s s1) -> queue_ok s1 client q) as Hq1.
  { intros s1 _ Hu. destruct (parking cmd) eqn:Hp.
    - cbn in Hone. assert (List.filter (fun x => parking x.1) q = []) as Hnone by (apply nil_length_inv; lia).
      split; [by rewrite Hnone; cbn; lia|]. apply Forall_forall. intros x Hx. apply not_parking_admissible.
      apply not_true_is_false. intros Hpx. apply (not_elem_of_nil x). rewrite <- Hnone.
      apply list_elem_of_In, filter_In. by rewrite <- list_elem_of_In.
    - split; [done|]. eapply Forall_impl; [exact Hrest|]. intros x. by apply admissible_unparked, Hu. }
  apply wlp_bind. pose proof (Hrun s Hwf Hc) as H1.
  assert (parking cmd = false -> wlp (execute cmd b) (fun _ s' => unparked s s') s) as H2 by (intros Hp; by apply Hkeep).
  unfold wlp in H1, H2 |- *. destruct (execute cmd b s) as [[s1 out]|]; [|done].
  pose proof (IH ltac:(set_solver) s1 H1 (Hq1 s1 H1 H2)) as Hrec. unfold wlp in Hrec.
  rewrite bind_unfold. by destruct (exec_queue execute q s1) as [[]|].
Qed.

(** What [EXEC] may find: a queue that runs nothing because a watched key was
    written, or one that parks the client at most once. *)
Definition exec_ok (s : State) (client : Z) : Prop :=
  match backlog_txn (registry (handler s)) !! client with
  | Some q => is_any_dirty (registry (handler s)) client = true \/ queue_ok s client q
  | None => True
  end.

Lemma wf_exec s execute c : state_wf s -> exec_ok s c -> runs_queued c execute ->
  wlp (cmd_exec execute c) (fun _ s' => state_wf s') s.
Proof.
  intros Hwf Hok Hex. unfold cmd_exec. apply wlp_bind, wlp_get. unfold exec_ok in Hok.
  destruct (backlog_txn (registry (handler s)) !! c) as [q|] eqn:Hq; [|by apply wlp_ret].
  assert (forall (r : Reply) s, state_wf s -> wlp (end_txn c;; mret r) (fun _ s' => state_wf s') s) as Hend.
  { intros r. apply keeps_wf_intro. keeps_tac. }
  destruct (is_any_dirty _ _); [by apply Hend|]. destruct Hok as [|[Hone Hadm]]; [done|].
  apply wlp_bind, wlp_modify. apply wlp_bind. eapply wlp_mono.
  - apply (wf_exec_queue c execute q Hex); [intros x; by apply (sw_txn s Hwf c q)|by apply wf_txn_empty|].
    split; [done|]. eapply Forall_impl; [exact Hadm|]. intros x. by apply admissible_unparked.
  - intros l s1 Hwf1. by apply Hend.
Qed.

(** *** Commands *)

Section Commands.
Context `{Env}.

Lemma wf_dispatch s execute c client fd is_sub : c <> Cmd.EXEC -> state_wf s -> admissible s c client ->
  wlp (dispatch execute c client fd is_sub) (fun _ s' => state_wf s') s.
Proof.
  intros Hne Hwf Ha. unfold dispatch. apply wlp_bind, wlp_get.
  destruct c; cbn in Ha;
    try (match goal with |- wlp ?m _ _ =>
           assert (keeps wf_kept m) as Hm by (keeps_tac; eauto with frames);
           exact (proj2 (keeps_wf_intro m) Hm s Hwf) end).
  - by apply handler_blpop_wf.
  - by apply handler_xread_wf.
  - done.
  - destruct Ha. by apply handler_wait_wf.
Qed.

Lemma unparked_dispatch execute c client fd is_sub : c <> Cmd.EXEC -> parking c = false ->
  keeps unparked (dispatch execute c client fd is_sub).
Proof.
  intros Hne Hp. unfold dispatch. apply keeps_bind; [typeclasses eauto|apply keeps_get; typeclasses eauto|]. intros s.
  destruct c; try done; try (keeps_tac; eauto with frames).
  cbv zeta. match goal with b : option Z, h : parking (Cmd.XREAD _ ?b _) = false |- _ => destruct b; [discriminate h|] end.
  keeps_tac.
Qed.

Lemma wf_execute_body s execute c b client fd ser : state_wf s ->
  (forall s1 is_sub, frame s s1 -> state_wf s1 ->
     wlp (dispatch execute c client fd is_sub) (fun _ s' => state_wf s') s1) ->
  wlp (execute_body execute c b client fd ser) (fun _ s' => state_wf s') s.
Proof.
  intros Hwf Hdis. unfold execute_body. apply wlp_bind, wlp_get.
  destruct (_ && _); [apply wlp_bind, wlp_of_outcome; by intros|].
  apply wlp_bind. eapply wlp_mono; [apply frame_before_cmd|]. intros ? s1 Hf.
  apply wlp_bind. eapply wlp_mono.
  { apply Hdis; [done|by apply (wf_frame s)]. }
  intros out s2 Hwf2. revert s2 Hwf2. apply keeps_wf_intro. keeps_tac.
Qed.

Lemma wf_execute_one s execute c b client fd ser : c <> Cmd.EXEC -> state_wf s -> admissible s c client ->
  wlp (execute_body execute c b client fd ser) (fun _ s' => state_wf s') s.
Proof.
  intros Hne Hwf Ha. apply wf_execute_body; [done|]. intros s1 is_sub Hf Hwf1.
  apply wf_dispatch; [done..|by apply (admissible_frame s)].
Qed.

Lemma unparked_execute_body execute c b client fd ser : c <> Cmd.EXEC -> parking c = false ->
  keeps unparked (execute_body execute c b client fd ser).
Proof.
  intros Hne Hp. pose proof (fun is_sub => unparked_dispatch execute c client fd is_sub Hne Hp).
  unfold execute_body, after_reply. keeps_tac.
Qed.

Lemma runs_queued_cmd fuel client : runs_queued client (fun c b => _execute_cmd (S fuel) c b client None false).
Proof.
  intros c b Hq. assert (c <> Cmd.EXEC) as Hne by (by destruct c). cbn [_execute_cmd]. split.
  - intros s Hwf Ha. by apply wf_execute_one.
  - by apply unparked_execute_body.
Qed.

(** What a client may send: any command; but one that parks it needs a millisecond
    of its own, a client has one [WAIT] outstanding, and a transaction that is run
    parks it at most once. *)
Definition can_handle (s : State) (c : Cmd.t) (client_id : Z) : Prop :=
  match c with
  | Cmd.EXEC => exec_ok s client_id
  | _ => is_transation (registry (handler s)) client_id = true \/ admissible s c client_id
  end.

Lemma wf_add_to_txn c cmd b : queueable cmd = true ->
  keeps wf_kept (reg_modify (fun r => add_to_txn r c cmd b)).
Proof.
  intros Hq s. apply wlp_modify. intros Hwf. apply wf_set_txn; [|done].
  intros c' q x. unfold push_at. rewrite lookup_insert_Some. intros [[<- <-]|[_ Hs]].
  - rewrite elem_of_app, list_elem_of_singleton. intros [Hx| ->]; [|done].
    destruct (backlog_txn _ !! c) as [q|] eqn:Hs; cbn in Hx; [|by apply not_elem_of_nil in Hx].
    by apply (sw_txn s Hwf c q).
  - by apply (sw_txn s Hwf c').
Qed.

Lemma wf_handle s c b client fd : state_wf s -> can_handle s c client ->
  wlp (handle (Ok c) b client fd) (fun _ s' => state_wf s') s.
Proof.
  intros Hwf Hc. cbn -[execute_cmd]. apply wlp_bind, wlp_get.
  destruct (is_transation _ _) eqn:Ht; cbn -[execute_cmd].
  - assert (queueable c = true -> keeps wf_kept (reg_modify (fun r => add_to_txn r client c b))) as Hadd
      by (intros; by apply wf_add_to_txn).
    destruct c; try (match goal with |- wlp ?m _ _ =>
      apply (proj2 (keeps_wf_intro m)); [specialize (Hadd eq_refl); keeps_tac|done] end).
    + apply wlp_bind. eapply wlp_mono; [by apply (wf_exec s _ client Hwf Hc), (runs_queued_cmd 2)|].
      intros r. apply keeps_wf_intro. keeps_tac.
    + apply (proj2 (keeps_wf_intro _)); [keeps_tac|done].
    + apply (proj2 (keeps_wf_intro _)); [keeps_tac|done].
  - apply wlp_bind. apply (wlp_mono _ (fun _ s' => state_wf s')); [|intros ? s' Hwf'; by apply wlp_ret].
    assert (c = Cmd.EXEC \/ c <> Cmd.EXEC) as [->|Hne] by (destruct c; try (by left); by right).
    + apply wf_execute_body; [done|]. intros s1 is_sub (_ & _ & w & Hw) Hwf1.
      unfold dispatch. apply wlp_bind, wlp_get. apply wf_exec; [done| |by apply (runs_queued_cmd 1)].
      unfold exec_ok. rewrite Hw. cbn. unfold is_transation in Ht.
      by destruct (backlog_txn (registry (handler s)) !! client).
    + apply wf_execute_one; [done..|].
      assert (is_transation (registry (handler s)) client = true \/ admissible s c client) as [Htx|Ha]
        by (destruct c; first [exact Hc|done]); [congruence|exact Ha].
Qed.
End Commands.

(** ** Deadlines and the end of a cycle *)

Section Cycle.
Context `{Env}.

Lemma wf_callback : keeps wf_kept callback_deadline_expire.
Proof. unfold callback_deadline_expire. keeps_tac. Qed.

Lemma wf_take_tasks pick ts : keeps wf_kept (take_tasks pick ts).
Proof. induction ts; cbn; keeps_tac. Qed.
#[local] Hint Resolve wf_take_tasks : frames.

Lemma wf_serve_list : keeps wf_kept serve_backlog_list.
Proof. unfold serve_backlog_list. keeps_tac. apply keeps_wf_frame, keeps_frame_still, keeps_modify. framed. Qed.

Lemma wf_serve_stream : keeps wf_kept serve_backlog_stream.
Proof. unfold serve_backlog_stream. keeps_tac. apply keeps_wf_frame, keeps_frame_still, keeps_modify. framed. Qed.
End Cycle.

(** ** Fuel *)

Section Fuel.
Context `{Env}.

(** Only [EXEC] looks at how to execute a queued command. *)
Lemma dispatch_ext e1 e2 c client fd is_sub s : c <> Cmd.EXEC ->
  dispatch e1 c client fd is_sub s = dispatch e2 c client fd is_sub s.
Proof. by destruct c. Qed.

Lemma execute_body_cong e1 e2 c b client fd ser s :
  (forall s' is_sub, frame s s' ->
     dispatch e1 c client fd is_sub s' = dispatch e2 c client fd is_sub s') ->
  execute_body e1 c b client fd ser s = execute_body e2 c b client fd ser s.
Proof.
  intros Hd. unfold execute_body. rewrite !get_bind.
  destruct (_ && _); [done|]. rewrite !bind_unfold.
  pose proof (frame_before_cmd c b (is_master (clients s) client) s) as Hf. unfold wlp in Hf.
  destruct (before_cmd c b (is_master (clients s) client) s) as [[s1 []]|]; [|done].
  by rewrite !bind_unfold, Hd.
Qed.

Lemma execute_ext e1 e2 c b client fd ser s : c <> Cmd.EXEC ->
  execute_body e1 c b client fd ser s = execute_body e2 c b client fd ser s.
Proof. intros Hc. apply execute_body_cong. intros. by apply dispatch_ext. Qed.

(** Nothing but [EXEC] nests. *)
Lemma execute_one f c b client fd ser s : c <> Cmd.EXEC ->
  _execute_cmd (S f) c b client fd ser s = _execute_cmd 1 c b client fd ser s.
Proof. intros Hc. cbn. by apply execute_ext. Qed.

Lemma exec_queue_ext e1 e2 q : (forall x s, x ∈ q -> e1 x.1 x.2 s = e2 x.1 x.2 s) ->
  forall s, exec_queue e1 q s = exec_queue e2 q s.
Proof.
  induction q as [|[c b] q IH]; intros He s; cbn; [done|].
  rewrite !bind_unfold. pose proof (He (c, b) s ltac:(set_solver)) as Hc. cbn in Hc. rewrite Hc.
  destruct (e2 c b s) as [[s' out]|]; [|done]. rewrite !bind_unfold, IH; [done|]. set_solver.
Qed.

Lemma cmd_exec_ext e1 e2 client s :
  (forall q x s', backlog_txn (registry (handler s)) !! client = Some q -> x ∈ q ->
     e1 x.1 x.2 s' = e2 x.1 x.2 s') ->
  cmd_exec e1 client s = cmd_exec e2 client s.
Proof.
  intros He. unfold cmd_exec. rewrite !get_bind.
  destruct (backlog_txn _ !! client) as [q|] eqn:Hq; [|done].
  destruct (is_any_dirty _ _); [done|]. rewrite !bind_unfold. cbn.
  rewrite !bind_unfold. rewrite (exec_queue_ext e1 e2 q); [done|]. intros x s' Hx. by apply (He q).
Qed.

(** Three levels of [_execute_cmd] are as good as any number of them. *)
Lemma execute_depth f c b client fd ser s : state_wf s ->
  _execute_cmd (S (S f)) c b client fd ser s = _execute_cmd 2 c b client fd ser s.
Proof.
  intros Hwf. cbn. apply execute_body_cong. intros s' is_sub Hf.
  assert (c <> Cmd.EXEC \/ c = Cmd.EXEC) as [Hc|Hc] by (destruct c; try (by left); by right).
  { by apply dispatch_ext. }
  subst c. unfold dispatch. rewrite !get_bind. apply cmd_exec_ext.
  intros q [c' b'] s'' Hq Hx. apply execute_ext.
  assert (backlog_txn (registry (handler s)) !! client = Some q) as Hq'.
  { destruct Hf as (_ & _ & w & Hw). by rewrite Hw in Hq. }
  pose proof (sw_txn s Hwf client q _ Hq' Hx) as Hqu. by destruct c'.
Qed.
End Fuel.

(** What happens before a command, the offset of the server being there. *)
Lemma before_cmd_ok `{Env} c b m s : host_stats (app s) <> None ->
  before_cmd c b m s =
  Ret (let s1 := with_registry s (set_dirty (registry (handler s)) c) in
       if Cmd.to_be_broadcast c && negb m
       then with_app s1 (host_add_bytes_count (app s1) (len b)) else s1, tt).
Proof.
  intros Hst. unfold before_cmd. rewrite bind_unfold. unfold reg_modify, modify at 1. cbv beta iota.
  destruct (_ && _); [|done]. unfold count_bytes. rewrite get_bind. cbn -[set_dirty].
  by destruct (host_stats (app s)).
Qed.

(** The disk will do as the list says. *)
Definition with_disk (s : State) (d : list (option nat)) : State :=
  match aof (handler s) with
  | Some (Some f) => with_aof s (Some (Some (mk_aof (aof_filepath f) (aof_file f) (aof_buffer f) d)))
  | _ => s
  end.

(** ** Every reachable state is well formed *)

Section Reach.
Context `{Env}.

(** One thing the event loop makes the handler do, or the disk does. *)
Inductive handler_step : State -> State -> Prop :=
| step_cmd s s' c b client fd r : can_handle s c client ->
    handle (Ok c) b client fd s = Ret (s', r) -> handler_step s s'
| step_error s s' e b client fd r :
    handle (Err e) b client fd s = Ret (s', r) -> handler_step s s'
| step_timer s s' : callback_deadline_expire s = Ret (s', tt) -> handler_step s s'
| step_list s s' : serve_backlog_list s = Ret (s', tt) -> handler_step s s'
| step_stream s s' : serve_backlog_stream s = Ret (s', tt) -> handler_step s s'
| step_disk s d : handler_step s (with_disk s d)
| step_aof s s' : aof_flush s = Ret (s', tt) -> handler_step s s'
| step_flush s : handler_step s (with_queue s [])
| step_clock s t : clock s <= t -> handler_step s (with_clock s t)
| step_clients s t : handler_step s (with_clients s t)
| step_auth s a : handler_step s (with_auth s a).

(** C9: in every state the handler reaches from an empty registry, whatever commands clients send, in and
    out of transactions, the queues, deadlines and acknowledgement lists agree with
    the store of parked requests, every request carries its own closures, and no
    transaction holds an [EXEC], [DISCARD] or [WATCH]; provided no two requests are
    parked in the same millisecond, which is what the code tells them apart by, their
    deadlines are below 2^64, and a client has one [WAIT] outstanding ([can_handle]). *)
Theorem reachable_wf s s' : registry (handler s) = registry_new -> rtc handler_step s s' ->
  state_wf s'.
Proof.
  intros Hinit Hsteps. assert (state_wf s) as Hwf.
  { split; rewrite Hinit; [apply registry_new_wf|done|done]. }
  clear Hinit. induction Hsteps as [s|s s1 s' Hstep _ IH]; [done|]. apply IH. clear IH.
  assert (forall s1 m, keeps wf_kept m -> forall a : unit, m s = Ret (s1, a) -> state_wf s1) as Hkeep.
  { intros s2 m Hm a Hrun. exact (wlp_elim _ _ _ _ _ (Hm s) Hrun Hwf). }
  destruct Hstep as [s s2 c b client fd r Hc Hrun|s s2 e b client fd r Hrun|s s2 Hrun|s s2 Hrun
    |s s2 Hrun|s d|s s2 Hrun|s|s t Hle|s t|s a].
  - exact (wlp_elim _ _ _ _ _ (wf_handle s c b client fd Hwf Hc) Hrun).
  - unfold handle in Hrun. rewrite bind_unfold in Hrun. unfold of_outcome in Hrun.
    destruct (into_error_bytes e); cbn in Hrun; [|done]. by injection Hrun as <- _.
  - exact (Hkeep _ _ wf_callback _ Hrun).
  - exact (Hkeep _ _ wf_serve_list _ Hrun).
  - exact (Hkeep _ _ wf_serve_stream _ Hrun).
  - apply (wf_frame s); [|done]. apply still_frame. unfold with_disk. by destruct (aof (handler s)) as [[f|]|].
  - apply (Hkeep _ aof_flush) with (a := tt); [|done].
    apply keeps_wf_frame, keeps_frame_still, keeps_modify. intros s1.
    by destruct (aof (handler s1)) as [[]|].
  - apply (wf_frame s); [by apply still_frame|done].
  - destruct Hwf as [H1 H2 H3]. by split.
  - apply (wf_frame s); [by apply still_frame|done].
  - apply (wf_frame s); [by apply still_frame|done].
Qed.

(** The levels of [_execute_cmd] the model uses are enough, and two would be: from a well-formed state a
    command does the same whatever deeper nesting it is allowed. *)
Theorem execute_cmd_depth f c b client fd ser s : state_wf s ->
  execute_cmd c b client fd ser s = _execute_cmd (S (S f)) c b client fd ser s.
Proof.
  intros Hwf. unfold execute_cmd, depth. rewrite (execute_depth 1), (execute_depth f); done.
Qed.
End Reach.

Lemma demo_state_wf : state_wf demo_state.
Proof. split; cbn; [apply registry_new_wf|done|done]. Qed.

(** Client 7 queues a [BLPOP] in a transaction and runs it: it is parked. *)
Definition demo_then (c : Cmd.t) (s : State) : State :=
  match @handle demo_env (Ok c) [] 7 3 s with Ret (s', _) => s' | Panic => s end.

Definition demo_queued : State := demo_then (Cmd.BLPOP "q" None) (demo_then Cmd.MULTI demo_state).

Lemma reachable_wf_witness : state_wf (demo_then Cmd.EXEC demo_queued) /\
  queue_of (registry (handler (demo_then Cmd.EXEC demo_queued))) "q" = [1000].
Proof.
  split; [|vm_compute; reflexivity].
  apply (@reachable_wf demo_env demo_state); [reflexivity|].
  apply (rtc_l _ _ (demo_then Cmd.MULTI demo_state)).
  { eapply (step_cmd demo_state _ Cmd.MULTI [] 7 3); [by right|]. vm_compute. reflexivity. }
  apply (rtc_l _ _ demo_queued).
  { eapply (step_cmd _ _ (Cmd.BLPOP "q" None) [] 7 3); [by left|]. vm_compute. reflexivity. }
  apply rtc_once. eapply (step_cmd _ _ Cmd.EXEC [] 7 3); [|vm_compute; reflexivity].
  assert (backlog_txn (registry (handler demo_queued)) !! 7 = Some [(Cmd.BLPOP "q" None, [])]) as Hq
    by (vm_compute; reflexivity).
  unfold can_handle, exec_ok. rewrite Hq. right. split; [done|]. constructor; [|constructor].
  split; [vm_compute; reflexivity|]. split_and!; vm_compute; discriminate.
Defined.

Lemma execute_cmd_depth_witness :
  @execute_cmd demo_env Cmd.EXEC [] 7 None true demo_state =
  @_execute_cmd demo_env 9 Cmd.EXEC [] 7 None true demo_state.
Proof. exact (@execute_cmd_depth demo_env 7 Cmd.EXEC [] 7 None true demo_state demo_state_wf). Defined.
