(* ===== verification/Transactions.v ===== *)
(** * Transactions: [MULTI], [EXEC], [WATCH] ([commands/cmd_handler.rs])

    What a client that queues commands observes: the queue is filled in order and
    nothing runs before [EXEC]; then the commands run in order, exactly as if they
    had been sent one by one, and their replies come in one array; a write by
    anybody to a watched key turns [EXEC] into a null reply that runs nothing. *)

From S2P Require Import Prelude Text Float64 Resp CmdBuilder Bitmap BTree SortedSet Geohash Store.
From S2P Require Import StringCmds ListCmds StreamCmds BitmapCmds ZsetCmds.
From S2P Require Import AppState Replication Auth Registry Handler HandlerLogic.

(** ** Sessions *)

(** A client sends commands one after the other. *)
Fixpoint session `{Env} (client fd : Z) (cmds : list (Cmd.t * bytes)) : M (list (Result bytes bytes)) :=
  match cmds with
  | [] => mret []
  | (c, b) :: rest =>
      r ← handle (Ok c) b client fd;
      rs ← session client fd rest;
      mret (r :: rs)
  end.

Definition reply_bytes (r : Result bytes bytes) : bytes :=
  match r with Ok b | Err b => b end.

(** The same state with other transactions. *)
Definition set_txns (m : gmap Z (list (Cmd.t * bytes))) (s : State) : State :=
  with_registry s (set_txn (registry (handler s)) m).

Definition txns (s : State) : gmap Z (list (Cmd.t * bytes)) := backlog_txn (registry (handler s)).

(** ** Queueing *)

(** The commands [handle] queues inside a transaction. *)
Definition is_queued (c : Cmd.t) : bool :=
  match c with
  | Cmd.EXEC | Cmd.DISCARD | Cmd.WATCH _ => false
  | _ => true
  end.

Definition queued_reply : bytes := as_bytes "+QUEUED" ++ DELIMITER.

Lemma handle_queues `{Env} c b client fd s q : is_queued c = true -> txns s !! client = Some q ->
  handle (Ok c) b client fd s =
  Ret (set_txns (<[client := q ++ [(c, b)]]> (txns s)) s, Ok queued_reply).
Proof.
  intros Hc Hq. cbn -[execute_cmd]. rewrite get_bind. unfold is_transation, txns in *. rewrite Hq.
  cbn -[execute_cmd].
  assert (add_to_txn (registry (handler s)) client c b =
    set_txn (registry (handler s)) (<[client := q ++ [(c, b)]]> (backlog_txn (registry (handler s)))))
    as Hadd by (unfold add_to_txn, push_at; by rewrite Hq).
  destruct c; try done; rewrite bind_unfold; cbn; rewrite Hadd; reflexivity.
Qed.

(** inside a transaction commands are queued in the order they are sent, each
    answered [+QUEUED]; nothing else of the state changes. *)
Theorem session_queues `{Env} cmds client fd s q : Forall (fun x => is_queued x.1 = true) cmds ->
  txns s !! client = Some q ->
  session client fd cmds s =
  Ret (set_txns (<[client := q ++ cmds]> (txns s)) s, List.map (fun _ => Ok queued_reply) cmds).
Proof.
  revert s q. induction cmds as [|[c b] cmds IH]; intros s q Hall Hq; cbn [session List.map].
  - rewrite app_nil_r. unfold set_txns. rewrite insert_id by done.
    by destruct s as [[? ? [] ? ? ? ? ?] ? ? ? ? ? ? ? ?].
  - inversion Hall as [|? ? Hc Hrest]; subst. rewrite bind_unfold.
    rewrite (handle_queues c b client fd s q Hc Hq), bind_unfold.
    rewrite (IH _ (q ++ [(c, b)])); [|done|apply lookup_insert_eq].
    rewrite <- app_assoc. unfold txns, set_txns. cbn. by rewrite insert_insert_eq.
Qed.

(** ** Commands that see only the key space *)

(** Commands on values, which read and write the key space and nothing else of
    the handler. *)
Definition data_cmd (c : Cmd.t) : bool :=
  match c with
  | Cmd.PING | Cmd.ECHO _ | Cmd.SET _ _ _ | Cmd.GET _ | Cmd.RPUSH _ _ | Cmd.LRANGE _ _ _
  | Cmd.LPUSH _ _ | Cmd.LLEN _ | Cmd.LPOP _ _ | Cmd.TYPE _ | Cmd.XADD _ _ _ | Cmd.XRANGE _ _ _
  | Cmd.INCR _ | Cmd.KEYS _ | Cmd.ZADD _ _ _ | Cmd.ZRANK _ _ | Cmd.ZRANGE _ _ _ | Cmd.ZCARD _
  | Cmd.ZSCORE _ _ | Cmd.ZREM _ _ | Cmd.GEOADD _ _ _ _ | Cmd.GEOPOS _ _ | Cmd.GEODIST _ _
  | Cmd.GEOSEARCH _ _ _ | Cmd.SETBIT _ _ _ | Cmd.GETBIT _ _ | Cmd.STRLEN _ | Cmd.BITCOUNT _ _
  | Cmd.BITOP _ => true
  | _ => false
  end.

Definition map_state {A} (u : State -> State) (o : outcome (State * A)) : outcome (State * A) :=
  match o with
  | Ret (s, a) => Ret (u s, a)
  | Panic => Panic
  end.

Section Data.
Context `{Env}.

(** A computation that does not look at the transactions. *)
Definition blind {A} (m : M A) : Prop := forall t s, m (set_txns t s) = map_state (set_txns t) (m s).

Lemma blind_bind {A B} (m : M A) (k : A -> M B) :
  blind m -> (forall a, blind (k a)) -> blind (m ≫= k).
Proof.
  intros Hm Hk t s. rewrite !bind_unfold, Hm. destruct (m s) as [[s' a]|]; cbn; [apply Hk|done].
Qed.

Lemma blind_modify f : (forall t s, f (set_txns t s) = set_txns t (f s)) -> blind (modify f).
Proof. intros Hf t s. unfold modify. cbn. by rewrite Hf. Qed.

Lemma blind_of_outcome {A} (o : outcome A) : blind (of_outcome o).
Proof. intros t s. unfold of_outcome. by destruct o. Qed.

Lemma blind_on_data {A} (f : Z -> Data -> outcome (Data * A)) : blind (on_data f).
Proof. intros t s. unfold on_data. cbn. by destruct (f _ _) as [[]|]. Qed.

Lemma blind_iterate {A} (f : A -> M unit) l : (forall a, blind (f a)) -> blind (iterate f l).
Proof. intros Hf. induction l; cbn; [done|by apply blind_bind]. Qed.

Lemma blind_before c b m : blind (before_cmd c b m).
Proof.
  apply blind_bind.
  - apply blind_modify. intros t s. unfold set_txns, set_dirty. cbn.
    destruct (dirty_key c); [|done]. by destruct (watchlist _ !! _).
  - intros _. destruct (_ && _); [|done]. intros t s. unfold count_bytes. rewrite !get_bind.
    cbn. destruct (host_stats (app s)); [|done]. reflexivity.
Qed.

Lemma blind_after c b m : blind (after_reply c b m).
Proof.
  unfold after_reply. apply blind_bind; [by apply blind_modify|]. intros _.
  apply blind_bind; [|intros _; destruct m; [by apply blind_modify|done]].
  destruct (Cmd.to_be_broadcast c); [|done]. apply blind_bind.
  - apply blind_modify. intros t s. cbn. by destruct (aof (handler s)) as [[]|].
  - intros _ t s. rewrite !get_bind. cbn. apply blind_iterate. intros id. by apply blind_modify.
Qed.

Lemma blind_dispatch e c client fd is_sub : data_cmd c = true ->
  blind (dispatch e c client fd is_sub).
Proof.
  intros Hc t s. unfold dispatch. rewrite !get_bind.
  destruct c; try done; apply (blind_on_data _ t s).
Qed.

(** The reply of a command, and what its sender gets. *)
Definition resp_of (o : Result CmdOutput CmdOutput) : option RespType :=
  match o with
  | Ok (OutResp r) | Err (OutResp r) => Some r
  | _ => None
  end.
End Data.

(** ** [EXEC] runs the queue as if it were sent directly *)

Section Exec.
Context `{Env}.

Lemma blind_execute e c b client fd ser : data_cmd c = true ->
  blind (execute_body e c b client fd ser).
Proof.
  intros Hc. intros t s. unfold execute_body. rewrite !get_bind.
  destruct (is_subscriber s client && _) eqn:Hsub.
  - assert (is_subscriber (set_txns t s) client && negb (is_cmd_subscriber_allowed c) = true) as ->
      by done.
    apply (blind_bind (of_outcome _) _ (blind_of_outcome _)). by intros.
  - assert (is_subscriber (set_txns t s) client && negb (is_cmd_subscriber_allowed c) = false) as ->
      by done.
    apply (blind_bind _ _ (blind_before _ _ _)). intros _.
    apply (blind_bind _ _ (blind_dispatch _ _ _ _ _ Hc)). intros [[r|]|err]; [|done|].
    + apply blind_bind; [apply blind_after|]. intros _. destruct (_ || _); [|done].
      destruct ser; [|done]. apply blind_bind; [apply blind_of_outcome|done].
    + apply blind_bind; [destruct (is_master _ _); [by apply blind_modify|done]|]. intros _.
      destruct ser; [|done]. apply blind_bind; [apply blind_of_outcome|done].
Qed.

Definition same_subscribers (s s' : State) : Prop := subscribers (handler s') = subscribers (handler s).

#[local] Instance same_subscribers_preorder : PreOrder same_subscribers.
Proof. split; [done|]. unfold same_subscribers. intros x y z ? ?. congruence. Qed.

#[local] Hint Extern 1 (PreOrder same_subscribers) => apply same_subscribers_preorder : frames.

Lemma subscribers_on_data {A} (f : Z -> Data -> outcome (Data * A)) :
  keeps same_subscribers (on_data f).
Proof. intros s. unfold wlp, on_data. by destruct (f _ _) as [[]|]. Qed.

Lemma subscribers_dispatch e c client fd is_sub : data_cmd c = true ->
  keeps same_subscribers (dispatch e c client fd is_sub).
Proof.
  intros Hc s. unfold dispatch. apply wlp_bind, wlp_get.
  destruct c; try done; apply (subscribers_on_data _ s).
Qed.

Lemma subscribers_execute e c b client fd ser : data_cmd c = true ->
  keeps same_subscribers (execute_body e c b client fd ser).
Proof.
  intros Hc. unfold execute_body, before_cmd, after_reply, count_bytes, aof_append.
  pose proof (fun f Hf => keeps_modify same_subscribers f Hf) as Hmod.
  pose proof (subscribers_dispatch e c client fd) as Hd.
  keeps_tac; try (apply Hmod; done); try (by apply Hd).
  - apply Hmod. intros s. by destruct (aof (handler s)) as [[]|].
Qed.

Lemma dispatch_fd e e' c client fd fd' is_sub s : data_cmd c = true ->
  dispatch e c client fd is_sub s = dispatch e' c client fd' is_sub s.
Proof. by destruct c. Qed.

(** The serialized reply is the serialization of the unserialized one. *)
Lemma execute_serialized e e' c b client fd fd' s : data_cmd c = true ->
  is_subscriber s client = false ->
  execute_body e c b client fd true s =
  let! (s', o) := execute_body e' c b client fd' false s in
  match o with
  | Ok (OutResp r) => let! x := serialize r in Ret (s', Ok (OutBytes x))
  | Err (OutResp r) => let! x := serialize r in Ret (s', Err (OutBytes x))
  | o => Ret (s', o)
  end.
Proof.
  intros Hc Hsub. unfold execute_body. rewrite !get_bind, Hsub. cbn [andb].
  rewrite !bind_unfold. destruct (before_cmd _ _ _ s) as [[s1 []]|]; [|done].
  rewrite !bind_unfold, (dispatch_fd e e' c client fd fd') by done.
  destruct (dispatch _ _ _ _ _ s1) as [[s2 [[r|]|err]]|]; cbn -[after_reply serialize]; [|done| |done].
  - rewrite !bind_unfold. destruct (after_reply _ _ _ s2) as [[s3 []]|]; [|done].
    cbn -[serialize]. destruct (_ || _); [|done]. rewrite bind_unfold.
    unfold of_outcome. cbn -[serialize]. by destruct (serialize r).
  - rewrite !bind_unfold. unfold into_error_bytes. destruct (is_master _ _); cbn -[serialize];
      rewrite bind_unfold; unfold of_outcome; cbn -[serialize]; by destruct (serialize _).
Qed.

Definition no_bytes (o : Result CmdOutput CmdOutput) : Prop :=
  match o with
  | Ok (OutBytes _) | Err (OutBytes _) | Err OutNone => False
  | _ => True
  end.

Lemma execute_no_bytes e c b client fd s : is_subscriber s client = false ->
  wlp (execute_body e c b client fd false) (fun o _ => no_bytes o) s.
Proof.
  intros Hsub. unfold execute_body. apply wlp_bind, wlp_get. rewrite Hsub. cbn [andb].
  assert (forall {A} (m : M A) k s, (forall a s', wlp (k a) (fun o _ => no_bytes o) s') ->
    wlp (m ≫= k) (fun o _ => no_bytes o) s) as Hbind.
  { intros A m k s' Hk. apply wlp_bind. unfold wlp at 1. destruct (m s') as [[]|]; [apply Hk|done]. }
  apply Hbind. intros _ s1. apply Hbind. intros [[r|]|err] s2.
  - apply Hbind. intros _ s3. by destruct (_ || _).
  - done.
  - apply Hbind. by intros.
Qed.

(** The bytes sent for a reply, if there is one. *)
Definition sends (r : Result bytes bytes) (o : option RespType) : Prop :=
  match o with
  | Some resp => serialize resp = Ret (reply_bytes r)
  | None => reply_bytes r = []
  end.

Lemma direct_step c b client fd s t s1 r : data_cmd c = true -> is_subscriber s client = false ->
  t !! client = None -> handle (Ok c) b client fd (set_txns t s) = Ret (s1, r) ->
  exists s0 o, s1 = set_txns t s0 /\ is_subscriber s0 client = false /\ sends r (resp_of o) /\
    forall t', queued_cmd client c b (set_txns t' s) = Ret (set_txns t' s0, o).
Proof.
  intros Hc Hsub Ht. cbn -[execute_cmd]. rewrite get_bind. unfold is_transation. cbn -[execute_cmd].
  rewrite Ht. cbn -[execute_cmd]. rewrite bind_unfold. unfold queued_cmd.
  set (e := fun c0 b0 => _execute_cmd 2 c0 b0 client None false).
  change (execute_cmd c b client (Some fd) true) with (execute_body e c b client (Some fd) true).
  change (execute_cmd c b client None false) with (execute_body e c b client None false).
  rewrite (execute_serialized e e c b client (Some fd) None) by done.
  rewrite blind_execute by done.
  pose proof (subscribers_execute e c b client None false Hc s) as Hs. unfold wlp in Hs.
  pose proof (execute_no_bytes e c b client None s Hsub) as Hn. unfold wlp in Hn.
  destruct (execute_body e c b client None false s) as [[s0 o]|] eqn:He; [|done]. cbn -[serialize].
  intros Hr. exists s0, o.
  assert (s1 = set_txns t s0 /\ sends r (resp_of o)) as [-> Hsend].
  { destruct o as [[r'| |]|[r'| |]]; cbn -[serialize] in Hr, Hn |- *; try done.
    - destruct (serialize r') as [x|] eqn:Hx; cbn in Hr; [|done]. by injection Hr as <- <-.
    - cbn in Hr. by injection Hr as <- <-.
    - destruct (serialize r') as [x|] eqn:Hx; cbn in Hr; [|done]. by injection Hr as <- <-. }
  split_and!; [done| |done|].
  - unfold is_subscriber in *. by rewrite Hs.
  - intros t'. by rewrite blind_execute, He.
Qed.

Lemma exec_queue_direct client fd cmds t : t !! client = None ->
  Forall (fun x => data_cmd x.1 = true) cmds -> forall s s1 replies,
  is_subscriber s client = false ->
  session client fd cmds (set_txns t s) = Ret (s1, replies) ->
  exists s0 os, s1 = set_txns t s0 /\ Forall2 sends replies os /\
    forall t', exec_queue (queued_cmd client) cmds (set_txns t' s) = Ret (set_txns t' s0, omap (fun o => o) os).
Proof.
  intros Ht. induction cmds as [|[c b] cmds IH]; intros Hall s s1 replies Hsub; cbn [session].
  - intros [= <- <-]. exists s, []. split_and!; [done|constructor|done].
  - inversion Hall as [|? ? Hc Hrest]; subst. rewrite bind_unfold.
    destruct (handle _ _ _ _ _) as [[s2 r]|] eqn:Hh; [|done].
    destruct (direct_step _ _ _ _ _ _ _ _ Hc Hsub Ht Hh) as (s3 & o & -> & Hsub3 & Hr & Hq).
    rewrite bind_unfold. destruct (session _ _ _ _) as [[s4 rs]|] eqn:Hses; [|done].
    intros [= <- <-]. destruct (IH Hrest _ _ _ Hsub3 Hses) as (s0 & os & -> & Hrs & Hqs).
    exists s0, (resp_of o :: os). split_and!; [done|by constructor|].
    intros t'. cbn [exec_queue]. rewrite bind_unfold, Hq, bind_unfold, Hqs.
    by destruct o as [[]|[]].
Qed.
Lemma serialize_sends replies os : Forall2 sends replies os ->
  serialize_items (omap (fun o => o) os) = Ret (mjoin (List.map reply_bytes replies)) /\
  (Forall (fun r => reply_bytes r <> []) replies -> len (omap (fun o => o) os) = len replies).
Proof.
  induction 1 as [|r [x|] replies os Hr _ [IH IHn]]; cbn -[serialize] in *; [done|..].
  - split.
    + rewrite Hr. cbn. by rewrite IH.
    + intros Hall. inversion Hall; subst. rewrite !len_cons, IHn; done.
  - rewrite Hr. split; [done|]. intros Hall. inversion Hall; subst. done.
Qed.

Lemma session_app client fd l1 l2 : forall s,
  session client fd (l1 ++ l2) s =
  match session client fd l1 s with
  | Ret (s1, r1) =>
      match session client fd l2 s1 with
      | Ret (s2, r2) => Ret (s2, r1 ++ r2)
      | Panic => Panic
      end
  | Panic => Panic
  end.
Proof.
  induction l1 as [|[c b] l1 IH]; intros s.
  - cbn. by destruct (session client fd l2 s) as [[]|].
  - change (((c, b) :: l1) ++ l2) with ((c, b) :: (l1 ++ l2)). cbn [session].
    rewrite !bind_unfold. destruct (handle (Ok c) b client fd s) as [[s1 r]|]; [|done].
    rewrite !bind_unfold, IH. destruct (session client fd l1 s1) as [[s2 r1]|]; [|done].
    change (mret (M:=M) (r :: r1) s2) with (Ret (s2, r :: r1)). cbv beta iota.
    by destruct (session client fd l2 s2) as [[]|].
Qed.

Lemma session_len client fd cmds : forall s s1 rs,
  session client fd cmds s = Ret (s1, rs) -> len cmds = len rs.
Proof.
  induction cmds as [|[c b] cmds IH]; intros s s1 rs; cbn -[handle].
  - by intros [= <- <-].
  - rewrite bind_unfold. destruct (handle _ _ _ _ s) as [[s2 r]|]; [|done].
    rewrite bind_unfold. destruct (session _ _ _ s2) as [[s3 rs']|] eqn:Hs; [|done].
    intros [= <- <-]. rewrite !len_cons, (IH _ _ _ Hs). done.
Qed.

(** C10: [EXEC] on a queue of commands on values does what sending them one by
    one outside the transaction does: the same final state (with the
    transaction and the watches closed), and in reply one array of the replies
    in order. *)
Theorem exec_as_direct cmds b client fd s s1 replies :
  txns s !! client = Some cmds -> Forall (fun x => data_cmd x.1 = true) cmds ->
  is_any_dirty (registry (handler s)) client = false -> is_subscriber s client = false ->
  session client fd cmds (set_txns (delete client (txns s)) s) = Ret (s1, replies) ->
  Forall (fun r => reply_bytes r <> []) replies ->
  handle (Ok Cmd.EXEC) b client fd s =
    Ret (with_registry s1 (unwatch_all (registry (handler s1)) client),
         Ok (header "*" (len cmds) ++ mjoin (List.map reply_bytes replies))).
Proof.
  intros Hq Hall Hd Hsub Hses Hne.
  destruct (exec_queue_direct client fd cmds _ (lookup_delete_eq _ _) Hall s s1 replies Hsub Hses)
    as (s0 & os & -> & Hos & Hex).
  destruct (serialize_sends replies os Hos) as [Hser Hlen].
  pose proof (session_len _ _ _ _ _ _ Hses) as Hn.
  unfold handle. rewrite get_bind. unfold is_transation. unfold txns in Hq. rewrite Hq.
  cbn [negb]. rewrite bind_unfold. unfold cmd_exec. rewrite get_bind, Hq, Hd, bind_unfold.
  change (with_registry s (set_txn (registry (handler s)) ?m)) with (set_txns m s).
  unfold reg_modify at 1, modify at 1. cbv beta iota.
  change (with_registry s (set_txn (registry (handler s)) ?m)) with (set_txns m s).
  rewrite bind_unfold, Hex, bind_unfold. cbn -[serialize build_array empty_array].
  rewrite Hn, <- (Hlen Hne).
  assert (forall l, serialize (match l with [] => empty_array | _ => build_array (len l) l end) =
    let! x := serialize_items l in Ret (header "*" (len l) ++ x)) as Harr.
  { intros [|x l]; [done|]. rewrite build_array_cons. apply serialize_array. }
  rewrite bind_unfold. unfold of_outcome. rewrite Harr, Hser. cbn -[header].
  unfold set_txns, unwatch_all. cbn. by rewrite delete_insert_eq.
Qed.
End Exec.

(** ** Watched keys *)

Section Watch.
Context `{Env} (A : Z).

(** The dirty marks and the queue of client [A] are kept. *)
Definition kept (s s' : State) : Prop :=
  (forall k, watches (registry (handler s)) A k = Some true ->
     watches (registry (handler s')) A k = Some true) /\
  txns s' !! A = txns s !! A.

#[local] Instance kept_preorder : PreOrder kept.
Proof.
  split; [done|]. intros x y z [H1 H2] [H3 H4]. split; [auto|congruence].
Qed.
#[local] Hint Extern 1 (PreOrder kept) => apply kept_preorder : frames.

Lemma kept_still {B} (m : M B) : keeps still m -> keeps kept m.
Proof. apply keeps_mono. intros s s' (Hr & _). unfold kept, txns. by rewrite Hr. Qed.
#[local] Hint Resolve kept_still : frames.

Lemma kept_reg_modify f :
  (forall r, (forall k, watches r A k = Some true -> watches (f r) A k = Some true) /\
     backlog_txn (f r) !! A = backlog_txn r !! A) -> keeps kept (reg_modify f).
Proof. intros Hf. apply keeps_modify. intros s. apply Hf. Qed.

Lemma kept_insert t d e : keeps kept (reg_insert t d e).
Proof.
  apply keeps_modify. intros s. unfold kept, txns, watches. cbn. rewrite insert_txn.
  split; [|done]. intros k. unfold insert. by destruct (0 <? d), e.
Qed.

Lemma kept_remove t : keeps kept (reg_remove t).
Proof.
  intros s. unfold wlp, reg_remove, Registry.remove, kept, txns, watches.
  destruct (store (registry (handler s)) !! t) as [[]|]; done.
Qed.
#[local] Hint Resolve kept_insert kept_remove : frames.

Lemma kept_cells f : keeps kept (modify (fun s => with_cells s (f s))).
Proof. by apply keeps_modify. Qed.
#[local] Hint Resolve kept_cells : frames.

Lemma kept_blpop key t c : keeps kept (cmd_blpop key t c).
Proof. unfold cmd_blpop. keeps_tac. apply kept_still, keeps_modify. framed. Qed.
Lemma kept_xread n b st c : keeps kept (cmd_xread n b st c).
Proof. unfold cmd_xread. keeps_tac. Qed.
Lemma kept_wait n t c fd : keeps kept (cmd_wait n t c fd).
Proof. unfold cmd_wait. keeps_tac. Qed.

Lemma kept_ack_scan off ids : forall d1 d2, keeps kept (ack_scan off ids d1 d2).
Proof. induction ids as [|id ids IH]; intros d1 d2; cbn; keeps_tac; apply IH. Qed.
#[local] Hint Resolve kept_blpop kept_xread kept_wait kept_ack_scan : frames.

Lemma kept_replconf arg c fd : keeps kept (cmd_replconf arg c fd).
Proof.
  destruct arg; cbn; keeps_tac; unfold cmd_replconf_ack; keeps_tac.
  apply kept_reg_modify. intros r.
  match goal with |- context [ack_release r ?i ?l] => destruct (ack_release_same r i l) as [m ->] end.
  done.
Qed.
#[local] Hint Resolve kept_replconf : frames.

Lemma kept_txn_insert c q r : c <> A -> <[c := q]> (backlog_txn r) !! A = backlog_txn r !! A.
Proof. intros. by apply lookup_insert_ne. Qed.

Lemma kept_multi c : c <> A -> keeps kept (cmd_multi c).
Proof.
  intros Hc. unfold cmd_multi. keeps_tac; apply kept_reg_modify; intros r;
    (split; [done|by apply lookup_insert_ne]).
Qed.

Lemma kept_end c : c <> A -> keeps kept (end_txn c).
Proof.
  intros Hc. apply kept_reg_modify. intros r. split; [|by apply lookup_delete_ne].
  intros k Hk. change (watches (unwatch_all r c) A k = Some true).
  by rewrite watches_unwatch, decide_False.
Qed.

Lemma kept_unwatch c : c <> A -> keeps kept (cmd_unwatch c).
Proof.
  intros Hc. unfold cmd_unwatch. keeps_tac. apply kept_reg_modify. intros r. split; [|done].
  intros k Hk. by rewrite watches_unwatch, decide_False.
Qed.

Lemma kept_watch keys c : keeps kept (cmd_watch keys c).
Proof.
  unfold cmd_watch. keeps_tac. apply kept_reg_modify. intros r. split; [|done].
  intros k Hk. by rewrite watches_watch, Hk.
Qed.

Lemma kept_before c b m : keeps kept (before_cmd c b m).
Proof.
  unfold before_cmd. keeps_tac; apply kept_reg_modify; intros r; split;
    try (intros k Hk; by rewrite watches_set_dirty, Hk);
    destruct (set_dirty_watchlist r c) as [w ->]; done.
Qed.
#[local] Hint Resolve kept_multi kept_end kept_unwatch kept_watch kept_before : frames.

Lemma kept_discard c : c <> A -> keeps kept (cmd_discard c).
Proof. intros Hc. unfold cmd_discard. keeps_tac. by apply (kept_end c). Qed.

Lemma kept_exec_queue execute q :
  (forall c b, keeps kept (execute c b)) -> keeps kept (exec_queue execute q).
Proof. intros He. induction q as [|[c b] q IH]; cbn; keeps_tac; auto. Qed.

Lemma kept_exec execute c : c <> A ->
  (forall c b, keeps kept (execute c b)) -> keeps kept (cmd_exec execute c).
Proof.
  intros Hc He. pose proof (fun q => kept_exec_queue execute q He).
  unfold cmd_exec. keeps_tac; apply kept_reg_modify; intros r; (split; [done|by apply lookup_insert_ne]).
Qed.
#[local] Hint Resolve kept_discard kept_exec : frames.

Lemma kept_execute fuel c b client fd ser : client <> A ->
  keeps kept (_execute_cmd fuel c b client fd ser).
Proof.
  intros Hc. revert c b fd ser. induction fuel as [|f IH]; intros c b fd ser; [by intros s|].
  cbn [_execute_cmd]. unfold execute_body. keeps_tac; unfold dispatch; destruct c; keeps_tac.
Qed.
#[local] Hint Resolve kept_execute : frames.

Lemma kept_handle c b client fd : client <> A -> keeps kept (handle c b client fd).
Proof.
  intros Hc. unfold handle. destruct c as [c|e]; [|keeps_tac].
  pose proof (fun c b => kept_execute 3 c b client None false Hc) as Hq.
  keeps_tac; try (by apply kept_execute); try (by apply kept_exec);
    apply kept_reg_modify; intros r; (split; [done|by apply lookup_insert_ne]).
Qed.
(** What the server handles for its other clients. *)
Fixpoint traffic (l : list (Z * Z * Result CustomError Cmd.t * bytes)) : M unit :=
  match l with
  | [] => mret tt
  | (client, fd, c, b) :: rest => _ ← handle c b client fd; traffic rest
  end.

Lemma kept_traffic l : Forall (fun x => x.1.1.1 <> A) l -> keeps kept (traffic l).
Proof.
  induction 1 as [|[[[client fd] c] b] l Hc _ IH]; cbn [traffic]; [keeps_tac|].
  apply keeps_bind; [apply _|by apply kept_handle|by intros].
Qed.

(** A write marks the watches of its key. *)
Lemma write_marks c b client fd k d s s1 r : client <> A -> txns s !! client = None ->
  is_subscriber s client = false -> dirty_key c = Some k ->
  watches (registry (handler s)) A k = Some d -> handle (Ok c) b client fd s = Ret (s1, r) ->
  watches (registry (handler s1)) A k = Some true /\ txns s1 !! A = txns s !! A.
Proof.
  intros Hc Ht Hsub Hk Hd Hh.
  pose (marked := fun s' : State =>
    watches (registry (handler s')) A k = Some true /\ txns s' !! A = txns s !! A).
  assert (forall {B} (m : M B) s', keeps kept m -> marked s' -> wlp m (fun _ s'' => marked s'') s')
    as Hrest.
  { intros B m s' Hm [Hw Htx]. eapply wlp_mono; [apply Hm|]. intros _x s'' [H1 H2]. split; [auto|].
    by rewrite H2. }
  cut (wlp (handle (Ok c) b client fd) (fun _ s' => marked s') s);
    [intros Hw; exact (wlp_elim _ _ _ _ _ Hw Hh)|].
  unfold handle. apply wlp_bind, wlp_get. unfold is_transation, txns in *. rewrite Ht. cbn [negb].
  apply wlp_bind. unfold execute_cmd, depth. cbn [_execute_cmd].
  eapply wlp_mono; [|intros ? ? Hm; apply wlp_ret; exact Hm].
  unfold execute_body. apply wlp_bind, wlp_get. rewrite Hsub. cbn [andb].
  apply wlp_bind. unfold before_cmd. apply wlp_bind, wlp_modify. eapply wlp_mono.
  - apply Hrest; [keeps_tac|].
    unfold marked. cbn. split; [by rewrite watches_set_dirty, Hd, Hk, bool_decide_true, orb_true_r|].
    by destruct (set_dirty_watchlist (registry (handler s)) c) as [w ->].
  - intros _x s' Hm. apply Hrest; [|done]. unfold dispatch. destruct c; try done; keeps_tac.
Qed.

(** C20: once another client has sent a command that writes a key that [A] watches,
    outside a transaction of its own and not as a subscriber, then, whatever the
    server handles for others, [EXEC] runs nothing: it answers the null array, the
    data and the replies to others stay, and the transaction and all watches of [A]
    are closed. The commands that count as writing the key are those of [dirty_key]:
    [SET], [LPUSH], [RPUSH], [LPOP], [BLPOP], [INCR], [XADD], [SETBIT], and [BITOP
    AND] or [OR] for its destination, successful or not; [ZADD], [ZREM] and [GEOADD]
    do not. *)
Theorem watched_write_aborts c b client fd k d q s s1 r l s2 b' fd' :
  client <> A -> txns s !! client = None -> is_subscriber s client = false ->
  txns s !! A = Some q -> watches (registry (handler s)) A k = Some d -> dirty_key c = Some k ->
  handle (Ok c) b client fd s = Ret (s1, r) ->
  Forall (fun x => x.1.1.1 <> A) l -> traffic l s1 = Ret (s2, tt) ->
  exists s3, handle (Ok Cmd.EXEC) b' A fd' s2 = Ret (s3, Ok (as_bytes "*-1" ++ DELIMITER)) /\
    data (handler s3) = data (handler s2) /\
    response_queue (handler s3) = response_queue (handler s2) /\
    txns s3 !! A = None /\ forall k', watches (registry (handler s3)) A k' = None.
Proof.
  intros Hc Ht Hsub HtA Hw Hk Hh Hl Htr.
  destruct (write_marks c b client fd k d s s1 r Hc Ht Hsub Hk Hw Hh) as [Hm1 Ht1].
  destruct (wlp_elim _ _ _ _ _ (kept_traffic l Hl s1) Htr) as [Hk2 Ht2].
  specialize (Hk2 k Hm1). rewrite Ht1, HtA in Ht2.
  assert (is_any_dirty (registry (handler s2)) A = true) as Hdirty
    by (apply is_any_dirty_spec; by exists k).
  unfold handle. rewrite get_bind. unfold is_transation. unfold txns in Ht2. rewrite Ht2. cbn [negb].
  rewrite bind_unfold. unfold cmd_exec. rewrite get_bind, Ht2, Hdirty.
  eexists. split; [reflexivity|]. cbn. split_and!; [done|done|apply lookup_delete_eq|].
  intros k'. unfold watches. cbn. rewrite lookup_fmap.
  destruct (watchlist _ !! k') as [w|]; [apply lookup_delete_eq|done].
Qed.
End Watch.

(** ** Examples *)

(** Client 7 has opened a transaction, and watches [k]. *)
Definition demo_txn (q : list (Cmd.t * bytes)) : State := set_txns {[7 := q]} demo_state.

Lemma session_queues_witness :
  @session demo_env 7 3 [(Cmd.SET "k" "v" None, []); (Cmd.GET "k", [])] (demo_txn []) =
  Ret (set_txns (<[7 := [(Cmd.SET "k" "v" None, []); (Cmd.GET "k", [])]]> {[7 := []]}) (demo_txn []),
       [Ok queued_reply; Ok queued_reply]).
Proof.
  exact (@session_queues demo_env [(Cmd.SET "k" "v" None, []); (Cmd.GET "k", [])] 7 3 (demo_txn []) []
    ltac:(repeat constructor) eq_refl).
Defined.

Lemma exec_as_direct_witness : exists s',
  @handle demo_env (Ok Cmd.EXEC) [] 7 3 (demo_txn [(Cmd.SET "k" "v" None, []); (Cmd.GET "k", [])]) =
  Ret (s', Ok (header "*" 2 ++ mjoin [as_bytes "+OK" ++ DELIMITER;
                                     header "$" 1 ++ as_bytes "v" ++ DELIMITER])).
Proof.
  eexists.
  refine (@exec_as_direct demo_env [(Cmd.SET "k" "v" None, []); (Cmd.GET "k", [])] [] 7 3
    (demo_txn [(Cmd.SET "k" "v" None, []); (Cmd.GET "k", [])]) _
    [Ok (as_bytes "+OK" ++ DELIMITER); Ok (header "$" 1 ++ as_bytes "v" ++ DELIMITER)]
    eq_refl ltac:(repeat constructor) eq_refl eq_refl _ ltac:(repeat constructor; done)).
  reflexivity.
Defined.

Definition demo_watched : State :=
  with_registry (demo_txn [(Cmd.GET "k", [])])
    (watch (registry (handler (demo_txn [(Cmd.GET "k", [])]))) ["k"%string] 7).

Lemma watched_write_aborts_witness : exists s1 s3,
  @handle demo_env (Ok (Cmd.SET "k" "v" None)) [] 8 3 demo_watched = Ret (s1, Ok (as_bytes "+OK" ++ DELIMITER)) /\
  @handle demo_env (Ok Cmd.EXEC) [] 7 3 s1 = Ret (s3, Ok (as_bytes "*-1" ++ DELIMITER)).
Proof.
  eexists. edestruct (@watched_write_aborts demo_env 7 (Cmd.SET "k" "v" None) [] 8 3 "k" false
    [(Cmd.GET "k", [])] demo_watched) as (s3 & Hs3 & _).
  - done.
  - reflexivity.
  - reflexivity.
  - reflexivity.
  - reflexivity.
  - reflexivity.
  - reflexivity.
  - apply (Forall_nil_2 _).
  - reflexivity.
  - exists s3. split; [reflexivity|exact Hs3].
Defined.
