(* ===== verification/Blocking.v ===== *)
(** * Blocking reads ([BLPOP], [serve_backlog_list], deadlines)

    The clients parked on a list are served at the end of a cycle, in the order
    they came, one element each ([serve_list_fifo]). *)

From S2P Require Import Prelude Text Float64 Resp CmdBuilder Bitmap BTree SortedSet Geohash Store.
From S2P Require Import StringCmds ListCmds StreamCmds BitmapCmds ZsetCmds.
From S2P Require Import AppState Replication Auth Registry Handler HandlerLogic.

(** ** Deliveries *)

(** An element [value] of the list [key], sent to [client]. *)
Record delivery := mk_delivery { to : Z; from : string; element : string }.

Definition blpop_reply (key v : string) : RespType := build_array 2 [bulk key; bulk v].

(** The reply on the wire. *)
Definition blpop_bytes (key v : string) : bytes :=
  header "*" 2 ++ header "$" (str_len key) ++ as_bytes key ++ DELIMITER ++
  header "$" (str_len v) ++ as_bytes v ++ DELIMITER.

Lemma blpop_serialize key v : serialize (blpop_reply key v) = Ret (blpop_bytes key v).
Proof. cbn -[header]. by rewrite <- !app_assoc, app_nil_r. Qed.

Definition send (d : delivery) : Z * bytes := (to d, blpop_bytes (from d) (element d)).

(** Hand out elements to clients that wait for keys, in turn. *)
Fixpoint hand_out (data : Data) (waiting : list (Z * string)) : Data * list delivery :=
  match waiting with
  | [] => (data, [])
  | (c, k) :: rest =>
      match pop_list data k with
      | Some (v, data) => let (data, ds) := hand_out data rest in (data, mk_delivery c k v :: ds)
      | None => hand_out data rest
      end
  end.

Definition list_at (data : Data) (k : string) : option (list string) :=
  match data !! k with
  | Some it => match value it with List l => Some l | _ => None end
  | None => None
  end.

(** What those that wait for [k] get is what the list has, from its head. *)
Lemma hand_out_key k waiting : forall d, 
  let cs := List.map fst (List.filter (fun x => String.eqb x.2 k) waiting) in
  let (d', ds) := hand_out d waiting in
  let got := List.map (fun x => (to x, element x)) (List.filter (fun x => String.eqb (from x) k) ds) in
  match list_at d k with
  | Some l => got = zip cs l /\ list_at d' k = Some (drop (List.length cs) l)
  | None => got = [] /\ d' !! k = d !! k
  end.
Proof.
  induction waiting as [|[c k'] waiting IH]; intros d; cbn.
  - destruct (list_at d k) eqn:Hl; [|done]. by rewrite drop_0.
  - unfold pop_list.
    destruct (String.eqb_spec k' k) as [->|Hne].
    + destruct (d !! k) as [it|] eqn:Hd.
      2: { specialize (IH d). destruct (hand_out d waiting) as [d' ds].
           unfold list_at in *. by rewrite Hd in *. }
      destruct (value it) as [|[|v l]| | | | | | |] eqn:Hv;
        try (specialize (IH d); destruct (hand_out d waiting) as [d' ds];
             unfold list_at in *; rewrite Hd, Hv in *; done).
      * specialize (IH d). destruct (hand_out d waiting) as [d' ds].
        unfold list_at in *. rewrite Hd, Hv in *. cbn. destruct IH as [-> ->].
        split; [|by rewrite !drop_nil]. by destruct (List.map _ _).
      * specialize (IH (set_value_of d k it (List l))).
        destruct (hand_out _ waiting) as [d' ds]. unfold list_at, set_value_of in *.
        rewrite lookup_insert_eq in IH. rewrite Hd, Hv. cbn in *. rewrite String.eqb_refl.
        cbn. destruct IH as [-> ->]. done.
    + assert (forall d1, d1 !! k = d !! k -> list_at d1 k = list_at d k) as Hla
        by (intros d1 H1; unfold list_at; by rewrite H1).
      destruct (d !! k') as [it|]; [|apply IH].
      destruct (value it) as [|[|v l]| | | | | | |]; try apply IH.
      assert (set_value_of d k' it (List l) !! k = d !! k) as Hk
        by (unfold set_value_of; by rewrite lookup_insert_ne).
      specialize (IH (set_value_of d k' it (List l))).
      destruct (hand_out _ waiting) as [d' ds]. rewrite (Hla _ Hk), Hk in IH.
      cbn. rewrite (proj2 (String.eqb_neq _ _)) by congruence. cbn. exact IH.
Qed.

(** ** Serving the queues *)

(** The client and the key of a parked [BLPOP]. *)
Definition waiter (r : Registry) (t : Z) : Z * string :=
  match store r !! t with
  | Some (REList key _ (BlpopTask _ c _) _) => (c, key)
  | _ => (0, EmptyString)
  end.

Definition blpop_task (r : Registry) (t : Z) : Task :=
  let (c, k) := waiter r t in BlpopTask t c k.

Definition is_list_entry (r : Registry) (t : Z) : Prop :=
  exists e k, store r !! t = Some e /\ list_key e = Some k.

Lemma waiter_delete r r' t t' : t <> t' -> store r' = delete t (store r) -> waiter r' t' = waiter r t'.
Proof. intros Hne Hs. unfold waiter. by rewrite Hs, lookup_delete_ne. Qed.

Lemma list_entry_task s t : state_wf s -> is_list_entry (registry (handler s)) t ->
  exists e, store (registry (handler s)) !! t = Some e /\
    list_task e = Some (blpop_task (registry (handler s)) t).
Proof.
  intros Hwf (e & k & He & Hk). exists e. split; [done|].
  destruct (sw_entry s Hwf t e He) as [_ Hent]. unfold blpop_task, waiter. rewrite He.
  destruct e; try done. destruct Hent as (c & -> & _). done.
Qed.

Lemma filter_filter_and {T} (f g : T -> bool) l :
  List.filter f (List.filter g l) = List.filter (fun x => g x && f x) l.
Proof. induction l as [|x l IH]; cbn; [done|]. destruct (g x); cbn; by rewrite IH. Qed.

Definition without (ts l : list Z) : list Z := List.filter (fun x => bool_decide (x ∉ ts)) l.

Lemma take_tasks_spec ts : forall s, state_wf s -> NoDup ts ->
  (forall t, t ∈ ts -> is_list_entry (registry (handler s)) t) ->
  exists r', take_tasks list_task ts s =
      Ret (with_registry s r', List.map (blpop_task (registry (handler s))) ts) /\
    state_wf (with_registry s r') /\
    (forall t, store r' !! t =
       if bool_decide (t ∈ ts) then None else store (registry (handler s)) !! t) /\
    (forall k, queue_of r' k = without ts (queue_of (registry (handler s)) k)).
Proof.
  induction ts as [|t ts IH]; intros s Hwf Hnd Hts; cbn [take_tasks].
  - exists (registry (handler s)). split_and!.
    + by destruct s as [[] ? ? ? ? ? ? ? ?].
    + by destruct s as [[] ? ? ? ? ? ? ? ?].
    + done.
    + intros k. symmetry. apply List.forallb_filter_id, forallb_forall. intros x _.
      apply bool_decide_eq_true, not_elem_of_nil.
  - apply NoDup_cons in Hnd as [Hnin Hnd].
    destruct (reg_remove_spec s t Hwf) as (s1 & Hrm & Hwf1 & Hst & Hq & Heq).
    destruct (list_entry_task s t Hwf (Hts t ltac:(set_solver))) as (e & He & Htask).
    destruct (IH s1 Hwf1 Hnd) as (r' & Htk & Hwf' & Hstore & Hq').
    { intros t' Ht'. destruct (Hts t' ltac:(set_solver)) as (e' & k & He' & Hk).
      exists e', k. rewrite Hst, lookup_delete_ne; [done|set_solver]. }
    assert (List.map (blpop_task (registry (handler s1))) ts =
      List.map (blpop_task (registry (handler s))) ts) as Hmap.
    { apply List.map_ext_in. intros t' Ht'%list_elem_of_In. unfold blpop_task.
      rewrite (waiter_delete (registry (handler s)) _ t); [done|set_solver|done]. }
    exists r'. rewrite bind_unfold, Hrm, bind_unfold, Htk, Hmap. cbn. rewrite He, Htask.
    assert (with_registry s1 r' = with_registry s r') as Hs1 by (by rewrite Heq).
    rewrite Hs1 in *. split_and!; [done|done|..].
    + intros t'. rewrite Hstore, Hst. destruct (decide (t = t')) as [->|Hne].
      * rewrite lookup_delete_eq. rewrite (bool_decide_true (t' ∈ t' :: ts)) by set_solver.
        by destruct (bool_decide _).
      * rewrite lookup_delete_ne by done. erewrite (bool_decide_ext (t' ∈ t :: ts)); [done|set_solver].
    + intros k. rewrite Hq', Hq. unfold without. rewrite filter_filter_and. apply List.filter_ext.
      intros x. destruct (Z.eqb_spec x t) as [->|Hne]; cbn.
      * symmetry. apply bool_decide_eq_false. set_solver.
      * apply bool_decide_ext. set_solver.
Qed.

Lemma reg_remove_absent s t : store (registry (handler s)) !! t = None ->
  reg_remove t s = Ret (s, None).
Proof.
  intros H. unfold reg_remove. rewrite (remove_absent _ _ _ H).
  by destruct s as [[] ? ? ? ? ? ? ? ?].
Qed.

Lemma run_blpop_task s t c k : store (registry (handler s)) !! t = None ->
  run_task (BlpopTask t c k) s =
  Ret (match pop_list (data (handler s)) k with
       | Some (v, d) =>
           with_queue (with_data s d) (response_queue (handler s) ++ [send (mk_delivery c k v)])
       | None => s
       end, tt).
Proof.
  intros Ht. cbn [run_task]. unfold run_blpop. rewrite get_bind. destruct (pop_list _ k) as [[v d]|]; [|done].
  rewrite bind_unfold. unfold modify at 1. rewrite bind_unfold.
  unfold respond. rewrite bind_unfold. unfold of_outcome. fold (blpop_reply k v).
  rewrite blpop_serialize. cbn [outcome_bind]. unfold push_response, modify. rewrite bind_unfold.
  rewrite reg_remove_absent by done. reflexivity.
Qed.

(** The tasks of the removed requests hand out the elements. *)
Lemma run_tasks ts : forall s,
  (forall x, x ∈ ts -> store (registry (handler s)) !! x.1 = None) ->
  let (d, ds) := hand_out (data (handler s)) (List.map snd ts) in
  iterate run_task (List.map (fun x => BlpopTask x.1 x.2.1 x.2.2) ts) s =
    Ret (with_queue (with_data s d) (response_queue (handler s) ++ List.map send ds), tt).
Proof.
  induction ts as [|[t [c k]] ts IH]; intros s Hts.
  - cbn. rewrite app_nil_r. by destruct s as [[] ? ? ? ? ? ? ? ?].
  - assert (store (registry (handler s)) !! t = None) as Ht by (apply (Hts (t, (c, k))); set_solver).
    assert (forall x, x ∈ ts -> store (registry (handler s)) !! x.1 = None) as Hts'
      by (intros x Hx; apply Hts; set_solver).
    cbn [hand_out List.map iterate fst snd]. rewrite bind_unfold, (run_blpop_task s t c k Ht).
    destruct (pop_list (data (handler s)) k) as [[v d]|]; [|by apply IH].
    specialize (IH (with_queue (with_data s d) (response_queue (handler s) ++ [send (mk_delivery c k v)]))
      Hts').
    cbn -[run_task] in IH. destruct (hand_out d (List.map snd ts)) as [d' ds].
    rewrite <- app_assoc in IH. exact IH.
Qed.

(** ** Who is served *)
Lemma servable_list d k q : servable d (k, q) =
  match list_at d k with
  | Some l => take (Nat.min (List.length q) (List.length l)) q
  | None => []
  end.
Proof.
  unfold servable, list_at. cbn. destruct (d !! k) as [it|]; [|done].
  destruct (value it) as [|l| | | | | | |]; try done.
  rewrite iter_take_take. f_equal. unfold len. lia.
Qed.

Lemma servable_in d k q t : t ∈ servable d (k, q) -> t ∈ q.
Proof.
  rewrite servable_list. destruct (list_at d k); [|by intros ?%not_elem_of_nil].
  apply subseteq_take.
Qed.

Lemma filter_none {T} (f : T -> bool) l : (forall x, x ∈ l -> f x = false) -> List.filter f l = [].
Proof.
  induction l as [|x l IH]; intros H; cbn; [done|]. rewrite (H x) by set_solver.
  apply IH. intros y Hy. apply H. set_solver.
Qed.

Lemma NoDup_by_key {T} (key : T -> string) l :
  (forall k, NoDup (List.filter (fun x => String.eqb (key x) k) l)) -> NoDup l.
Proof.
  induction l as [|x l IH]; intros H; constructor.
  - specialize (H (key x)). cbn in H. rewrite String.eqb_refl in H.
    apply NoDup_cons in H as [H _]. intros Hx. apply H.
    apply list_elem_of_In, filter_In. split; [by apply list_elem_of_In|apply String.eqb_refl].
  - apply IH. intros k. specialize (H k). cbn in H.
    destruct (String.eqb _ k); [by apply NoDup_cons in H as [_ ?]|done].
Qed.

Section Served.
Context `{Env} (r : Registry) (d : Data).
Hypothesis Hr : reg_wf r.
Hypothesis Hwait : forall k t, t ∈ queue_of r k -> (waiter r t).2 = k.

Definition served : list Z := mjoin (List.map (servable d) (iter_map (backlog_list r))).

Definition key_is (k : string) (t : Z) : bool := String.eqb (waiter r t).2 k.

Lemma served_in t : t ∈ served -> exists k, t ∈ queue_of r k /\ t ∈ servable d (k, queue_of r k).
Proof.
  unfold served. rewrite list_elem_of_join. intros (l & Ht & Hl).
  apply list_elem_of_In, in_map_iff in Hl as ([k q] & <- & Hl).
  apply list_elem_of_In, elem_of_iter_map in Hl.
  assert (queue_of r k = q) as Hq by (unfold queue_of; by rewrite Hl).
  exists k. rewrite Hq. split; [by eapply servable_in|done].
Qed.

Lemma served_key k : List.filter (key_is k) served = servable d (k, queue_of r k).
Proof.
  unfold served.
  assert (forall l, NoDup (List.map fst l) ->
    (forall k' q, (k', q) ∈ l -> backlog_list r !! k' = Some q) ->
    List.filter (key_is k) (mjoin (List.map (servable d) l)) =
    if bool_decide (k ∈ List.map fst l) then servable d (k, queue_of r k) else []) as Hgen.
  { induction l as [|[k' q] l IH]; intros Hnd Hin; [done|].
    change (mjoin (List.map (servable d) ((k', q) :: l))) with
      (servable d (k', q) ++ mjoin (List.map (servable d) l)). cbn [List.map fst] in *.
    apply NoDup_cons in Hnd as [Hk' Hnd]. rewrite List.filter_app, IH; [|done|].
    2: { intros k1 q1 ?. apply Hin. set_solver. }
    assert (queue_of r k' = q) as Hq.
    { unfold queue_of. by rewrite (Hin k' q) by set_solver. }
    assert (forall t, t ∈ servable d (k', q) -> (waiter r t).2 = k') as Hw.
    { intros t ?%servable_in. apply Hwait. by rewrite Hq. }
    destruct (decide (k' = k)) as [->|Hne].
    - rewrite (bool_decide_false (k ∈ List.map fst l)) by done.
      rewrite (bool_decide_true (k ∈ k :: _)) by set_solver.
      rewrite app_nil_r, Hq. apply List.forallb_filter_id, forallb_forall.
      intros t Ht%list_elem_of_In. by apply String.eqb_eq, Hw.
    - replace (List.filter (key_is k) (servable d (k', q))) with (@nil Z).
      + cbn. erewrite (bool_decide_ext (k ∈ k' :: _)); [done|set_solver].
      + symmetry. apply filter_none. intros t Ht. apply String.eqb_neq. by rewrite (Hw t Ht). }
  rewrite Hgen.
  - case_bool_decide as Hk; [done|]. symmetry.
    assert (queue_of r k = []) as ->; [|rewrite servable_list; by destruct (list_at d k)].
    unfold queue_of. destruct (backlog_list r !! k) as [q|] eqn:Hq; [|done]. exfalso. apply Hk.
    apply list_elem_of_In, in_map_iff. exists (k, q). split; [done|].
    by apply list_elem_of_In, elem_of_iter_map.
  - unfold iter_map. rewrite hash_order_perm. apply NoDup_fst_map_to_list.
  - intros k' q ?. by apply elem_of_iter_map.
Qed.

Lemma served_nodup : NoDup served.
Proof.
  apply (NoDup_by_key (fun t => (waiter r t).2)). intros k.
  change (NoDup (List.filter (key_is k) served)). rewrite served_key, servable_list.
  destruct (list_at d k); [|constructor]. eapply sublist_NoDup; [apply (rw_queue_nodup r Hr k)|].
  apply sublist_take.
Qed.

(** The rest of a queue stays. *)
Lemma without_served k : without served (queue_of r k) =
  match list_at d k with
  | Some l => drop (Nat.min (List.length (queue_of r k)) (List.length l)) (queue_of r k)
  | None => queue_of r k
  end.
Proof.
  assert (forall t, t ∈ queue_of r k -> (t ∈ served <-> t ∈ servable d (k, queue_of r k))) as Hin.
  { intros t Ht. rewrite <- served_key, !list_elem_of_In, filter_In. unfold key_is.
    rewrite (Hwait k t Ht), String.eqb_refl. tauto. }
  rewrite servable_list in Hin. destruct (list_at d k) as [l|].
  - set (n := Nat.min _ _) in *. pose proof (rw_queue_nodup r Hr k) as Hnd.
    rewrite <- (take_drop n (queue_of r k)) in Hnd |- * at 1.
    apply NoDup_app in Hnd as (_ & Hdisj & _).
    unfold without. rewrite List.filter_app, filter_none.
    + apply List.forallb_filter_id, forallb_forall. intros t Ht%list_elem_of_In.
      apply bool_decide_eq_true. rewrite Hin by (by eapply subseteq_drop). intros Ht'.
      by apply (Hdisj t).
    + intros t Ht. apply bool_decide_eq_false. intros Hn. apply Hn, Hin; [|done].
      by eapply subseteq_take.
  - apply List.forallb_filter_id, forallb_forall. intros t Ht%list_elem_of_In.
    apply bool_decide_eq_true. rewrite Hin by done. apply not_elem_of_nil.
Qed.
End Served.

Lemma zip_take {T U} (a : list T) (b : list U) :
  zip (take (Nat.min (List.length a) (List.length b)) a) b = zip a b.
Proof. revert b. induction a as [|x a IH]; intros [|y b]; cbn; [done..|]. by rewrite IH. Qed.

(** What [ds] hands out of the list [k]. *)
Definition deliveries (k : string) (ds : list delivery) : list (Z * string) :=
  List.map (fun x => (to x, element x)) (List.filter (fun x => String.eqb (from x) k) ds).

(** What is parked in the queues of the lists. *)
Lemma list_waiters s : state_wf s -> let r := registry (handler s) in
  forall k t, t ∈ queue_of r k -> (waiter r t).2 = k /\ is_list_entry r t.
Proof.
  intros Hwf r k t (e & He & Hk)%(rw_queue r (sw_reg s Hwf)).
  destruct (sw_entry s Hwf t e He) as [_ Hent]. split; [|by exists e, k].
  unfold waiter. rewrite He. destruct e; try done.
  destruct Hent as (c & -> & _). by injection Hk.
Qed.

(** The state after the lists were served: the served requests are gone, their
    elements handed out. *)
Lemma serve_list_run `{Env} s : state_wf s -> flag_backlog_list (handler s) = true ->
  let r := registry (handler s) in
  let d := data (handler s) in
  exists r' d' ds,
    hand_out d (List.map (waiter r) (served r d)) = (d', ds) /\
    serve_backlog_list s = Ret (with_flags (with_queue (with_data (with_registry s r') d')
      (response_queue (handler s) ++ List.map send ds)) false (flag_backlog_stream (handler s)), tt) /\
    state_wf (with_registry s r') /\
    forall k, queue_of r' k = without (served r d) (queue_of r k).
Proof.
  intros Hwf Hf r d. pose proof (sw_reg s Hwf) as Hr.
  pose proof (list_waiters s Hwf) as Hwait. pose proof (fun k t Ht => proj1 (Hwait k t Ht)) as Hkey.
  destruct (take_tasks_spec (served r d) s Hwf (served_nodup r d Hr Hkey)) as (r' & Htk & Hwf' & Hst & Hq).
  { intros t (k & Ht & _)%served_in. apply (Hwait k t Ht). }
  pose (ts := List.map (fun t => (t, waiter r t)) (served r d)).
  assert (List.map (blpop_task r) (served r d) =
    List.map (fun x => BlpopTask x.1 x.2.1 x.2.2) ts) as Htasks.
  { unfold ts. rewrite List.map_map. apply List.map_ext. intros t. unfold blpop_task.
    by destruct (waiter r t). }
  assert (List.map snd ts = List.map (waiter r) (served r d)) as Hsnd.
  { unfold ts. by rewrite List.map_map. }
  pose proof (run_tasks ts (with_registry s r')) as Hrun. rewrite Hsnd in Hrun.
  change (data (handler (with_registry s r'))) with d in Hrun.
  destruct (hand_out d (List.map (waiter r) (served r d))) as [d' ds].
  exists r', d', ds. split_and!; [done| |done|done].
  unfold serve_backlog_list. rewrite get_bind, Hf. cbn [negb].
  fold d r. change (mjoin (List.map (servable d) (iter_map (backlog_list r)))) with (served r d).
  rewrite bind_unfold, Htk. fold r. rewrite Htasks, bind_unfold, Hrun; [reflexivity|].
  intros [t w] Hx. unfold ts in Hx. cbn.
  apply list_elem_of_In, in_map_iff in Hx as (t' & Heq & Ht'). injection Heq as -> _.
  rewrite Hst, bool_decide_true; [done|]. by apply list_elem_of_In.
Qed.

(** C11: at the end of a cycle with the flag for lists set, the clients parked on
    each list are served in the order they came, one element each from the head of
    the list; those the list has no element for stay parked. (The flag says that the
    last command of the cycle that got a reply that is not an error pushed: a later
    one that did not push clears it, and then nobody is served.) *)
Theorem serve_list_fifo `{Env} s : state_wf s -> flag_backlog_list (handler s) = true ->
  exists s' ds, serve_backlog_list s = Ret (s', tt) /\ state_wf s' /\
    response_queue (handler s') = response_queue (handler s) ++ List.map send ds /\
    forall k,
      let q := queue_of (registry (handler s)) k in
      let cs := List.map (fun t => (waiter (registry (handler s)) t).1) q in
      match list_at (data (handler s)) k with
      | Some l =>
          let n := Nat.min (List.length q) (List.length l) in
          deliveries k ds = zip cs l /\
          list_at (data (handler s')) k = Some (drop n l) /\
          queue_of (registry (handler s')) k = drop n q
      | None =>
          deliveries k ds = [] /\ data (handler s') !! k = data (handler s) !! k /\
          queue_of (registry (handler s')) k = q
      end.
Proof.
  intros Hwf Hf. destruct (serve_list_run s Hwf Hf) as (r' & d' & ds & Hho & Hrun & Hwf' & Hq).
  set (r := registry (handler s)) in *. set (d := data (handler s)) in *.
  pose proof (sw_reg s Hwf) as Hr.
  pose proof (fun k t Ht => proj1 (list_waiters s Hwf k t Ht)) as Hkey. fold r in Hkey.
  eexists _, ds. split; [exact Hrun|]. split; [|split; [done|]].
  { refine (wf_frame _ _ (still_frame _ _ _) Hwf'). done. }
  intros k. cbn [with_flags with_handler handler data registry with_queue with_data].
  pose proof (hand_out_key k (List.map (waiter r) (served r d)) d) as Hkk. rewrite Hho in Hkk. cbn zeta in Hkk.
  assert (List.map fst (List.filter (fun x => String.eqb x.2 k) (List.map (waiter r) (served r d))) =
    List.map (fun t => (waiter r t).1) (servable d (k, queue_of r k))) as Hcs.
  { rewrite <- (served_key r d Hr Hkey).
    generalize (served r d). intros l. unfold key_is. induction l as [|t l IH]; cbn; [done|].
    destruct (String.eqb _ k); cbn; by rewrite IH. }
  rewrite Hcs, servable_list in Hkk. cbn. rewrite Hq, (without_served r d Hr Hkey).
  destruct (list_at d k) as [l|]; [|destruct Hkk; by split_and!].
  destruct Hkk as [Hgot Hl]. rewrite List.length_map, length_take in Hl.
  replace (Nat.min (Nat.min (List.length (queue_of r k)) (List.length l)) (List.length (queue_of r k)))
    with (Nat.min (List.length (queue_of r k)) (List.length l)) in Hl by lia.
  split_and!; [|done|done]. unfold deliveries. rewrite Hgot, <- firstn_map.
  rewrite <- (List.length_map (fun t => (waiter r t).1) (queue_of r k)). apply zip_take.
Qed.

(** ** Parking *)

(** The parked request of a [BLPOP]. *)
Definition blpop_entry (t client deadline : Z) (key : string) : RequestEntry :=
  REList key deadline (BlpopTask t client key) (NullTask t client).

(** The request is parked on every list and on every missing key: the branch that
    answers at once asks for a queue that [reg_wf] excludes. *)
Lemma blpop_parks s key timeout client : state_wf s ->
  (data (handler s) !! key = None \/ exists l, list_at (data (handler s)) key = Some l) ->
  let (t, d) := get_deadline (clock s) timeout in
  cmd_blpop key timeout client s =
  Ret (with_registry s (insert (clock s) (registry (handler s)) t d (blpop_entry t client d key)),
       Ok None).
Proof.
  intros Hwf Hk. unfold cmd_blpop. rewrite get_bind.
  destruct (get_deadline (clock s) timeout) as [t d].
  assert (is_backlog_list_empty (registry (handler s)) key = false) as Hempty.
  { unfold is_backlog_list_empty. destruct (backlog_list _ !! key) as [[]|] eqn:Hb; [|done..].
    by destruct (rw_queue_nonempty _ (sw_reg s Hwf) key). }
  destruct Hk as [->|[l Hl]]; [done|]. unfold list_at in Hl.
  destruct (data (handler s) !! key) as [it|]; [|done].
  destruct (value it) as [|[|v l']| | | | | | |]; try done. by rewrite Hempty.
Qed.

(** A [BLPOP] never takes an element itself, not even of a list that has
    some: the client gets no reply, is queued behind those already parked, the
    data are untouched, and the end of the cycle serves nobody unless a push came
    before. *)
Theorem blpop_nonempty_waits `{Env} s key timeout client fd b l : state_wf s ->
  list_at (data (handler s)) key = Some l -> can_park s timeout ->
  is_transation (registry (handler s)) client = false -> is_subscriber s client = false ->
  host_stats (app s) <> None -> flag_backlog_list (handler s) = false ->
  exists s', handle (Ok (Cmd.BLPOP key timeout)) b client fd s = Ret (s', Ok []) /\
    data (handler s') = data (handler s) /\
    response_queue (handler s') = response_queue (handler s) /\
    queue_of (registry (handler s')) key = queue_of (registry (handler s)) key ++ [clock s] /\
    waiter (registry (handler s')) (clock s) = (client, key) /\
    serve_backlog_list s' = Ret (s', tt).
Proof.
  intros Hwf Hl Hp Ht Hsub Hst Hf.
  unfold handle. rewrite get_bind, Ht. cbn [negb]. rewrite bind_unfold. unfold execute_cmd, depth.
  cbn [_execute_cmd]. unfold execute_body. rewrite get_bind, Hsub. cbn [andb].
  set (m := is_master (clients s) client).
  assert (exists s1, before_cmd (Cmd.BLPOP key timeout) b m s = Ret (s1, tt) /\
    data (handler s1) = data (handler s) /\ response_queue (handler s1) = response_queue (handler s) /\
    flag_backlog_list (handler s1) = false /\ frame s s1) as (s1 & Hb & Hd1 & Hq1 & Hf1 & Hfr).
  { pose proof (frame_before_cmd (Cmd.BLPOP key timeout) b m s) as Hfr. unfold wlp in Hfr.
    rewrite before_cmd_ok in Hfr |- * by done. eexists. split; [reflexivity|].
    split_and!; [by destruct (_ && _)..|exact Hfr]. }
  pose proof (wf_frame s s1 Hfr Hwf) as Hwf1.
  rewrite bind_unfold, Hb, bind_unfold. unfold dispatch. rewrite get_bind.
  pose proof (blpop_parks s1 key timeout client Hwf1) as Hpark. rewrite Hd1 in Hpark.
  destruct Hfr as (_ & Hck & w & Hw). rewrite Hck in Hpark.
  destruct (get_deadline (clock s) timeout) as [t d] eqn:Hdl.
  destruct (fits_deadline s timeout t d (proj2 Hp) Hdl) as (-> & _ & _).
  rewrite Hpark by (right; by exists l).
  eexists. split; [reflexivity|]. split_and!; cbn -[insert]; [done|done|..].
  - rewrite insert_queue. cbn. rewrite decide_True by done. by rewrite Hw.
  - unfold waiter. rewrite insert_store, lookup_insert_eq. unfold stored. by destruct (0 <? d).
  - unfold serve_backlog_list. rewrite get_bind. cbn -[insert]. by rewrite Hf1.
Qed.

Definition demo_list : State :=
  with_data demo_state {["q"%string := item (List ["a"%string]) None]}.

Lemma demo_wf d : state_wf (with_data demo_state d).
Proof. split; cbn; [apply registry_new_wf|done|done]. Qed.

Lemma blpop_nonempty_waits_witness :
  exists s', @handle demo_env (Ok (Cmd.BLPOP "q" None)) [] 7 3 demo_list = Ret (s', Ok []) /\
    data (handler s') = data (handler demo_list) /\
    response_queue (handler s') = response_queue (handler demo_list) /\
    queue_of (registry (handler s')) "q" = queue_of (registry (handler demo_list)) "q" ++ [1000] /\
    waiter (registry (handler s')) 1000 = (7, "q"%string) /\
    @serve_backlog_list demo_env s' = Ret (s', tt).
Proof.
  apply (@blpop_nonempty_waits demo_env demo_list "q" None 7 3 [] ["a"%string]); try done.
  apply demo_wf.
Defined.

(** ** Deadlines *)

(** C37: when the nearest deadline of a parked list or stream read has passed, its
    client is answered the null array and the request is forgotten. *)
Theorem deadline_answers s d t c : state_wf s ->
  get_nearest_deadline (registry (handler s)) = Some (d, t) ->
  (exists e, store (registry (handler s)) !! t = Some e /\ deadline_task e = NullTask t c) ->
  exists s', callback_deadline_expire s = Ret (s', tt) /\ state_wf s' /\
    data (handler s') = data (handler s) /\
    response_queue (handler s') =
      response_queue (handler s) ++ [(c, as_bytes "*-1" ++ DELIMITER)] /\
    store (registry (handler s')) = delete t (store (registry (handler s))).
Proof.
  intros Hwf Hn (e & He & Htask).
  destruct (reg_remove_spec s t Hwf) as (s1 & Hrm & Hwf1 & Hst & _ & Heq).
  unfold callback_deadline_expire. rewrite get_bind, Hn. rewrite bind_unfold. cbn [of_outcome unwrap].
  unfold of_outcome. cbn [outcome_bind]. rewrite bind_unfold, Hrm, He, Htask.
  cbn [run_task]. unfold run_null. rewrite bind_unfold. unfold respond. rewrite bind_unfold.
  unfold of_outcome. cbn [outcome_bind serialize null_array]. unfold push_response, modify at 1.
  cbv beta iota. rewrite bind_unfold, reg_remove_absent.
  - eexists. split; [reflexivity|]. rewrite Heq. cbn. split_and!; try done.
    refine (wf_frame _ _ (still_frame _ _ _) Hwf1). by rewrite Heq.
  - cbn. by rewrite Hst, lookup_delete_eq.
Qed.

(** when the only deadline goes because its request was served, the timer
    stays armed; when it fires there is no deadline left, and the server
    panics. *)
Theorem served_deadline_panics s t d e s' : state_wf s ->
  deadlines (registry (handler s)) = [(d, t)] ->
  reg_remove t s = Ret (s', Some e) ->
  timer (registry (handler s')) = timer (registry (handler s)) /\
  callback_deadline_expire s' = Panic.
Proof.
  intros Hwf Hd Hrm.
  pose proof (sw_reg s Hwf) as Hr.
  destruct (rw_deadline_inv _ Hr d t) as (_ & e' & He & Hde); [rewrite Hd; set_solver|].
  revert Hrm. unfold reg_remove, Registry.remove. rewrite He, Hde, Hd.
  assert (bt_remove d [(d, t)] = []) as Hbt by (cbn; by rewrite Z.compare_refl).
  rewrite Hbt. intros Hrm.
  assert (registry (handler s') = (Registry.remove (clock s) (registry (handler s)) t).1) as Hreg.
  { unfold Registry.remove. rewrite He, Hde, Hd, Hbt.
    destruct e'; cbn in *; by injection Hrm as <- _. }
  assert (deadlines (registry (handler s')) = [] /\
    timer (registry (handler s')) = timer (registry (handler s))) as [Hnone Htm].
  { rewrite Hreg. unfold Registry.remove. rewrite He, Hde, Hd, Hbt. by destruct e'. }
  split; [done|]. unfold callback_deadline_expire. rewrite get_bind.
  unfold get_nearest_deadline. rewrite Hnone. reflexivity.
Qed.

(** ** Examples *)

(** Client 7 waits for the list [q], for five milliseconds. *)
Definition demo_entry : RequestEntry := blpop_entry 1000 7 1005 "q".
Definition demo_parked : State :=
  with_registry demo_state (insert 1000 registry_new 1000 1005 demo_entry).

Lemma demo_parked_wf : state_wf demo_parked.
Proof.
  apply (reg_insert_wf demo_state 1000 demo_entry); [apply (demo_wf ∅)|done| |done|done].
  split; [done|]. by exists 7.
Qed.

(** The element [a] is pushed. *)
Definition demo_pushed : State :=
  with_flags (with_data demo_parked {["q"%string := item (List ["a"%string; "b"%string]) None]})
    true false.

Lemma demo_pushed_wf : state_wf demo_pushed.
Proof. refine (wf_frame demo_parked _ (still_frame _ _ _) demo_parked_wf). done. Qed.

Lemma serve_list_fifo_witness : exists s' ds,
  @serve_backlog_list demo_env demo_pushed = Ret (s', tt) /\
  deliveries "q" ds = [(7, "a"%string)] /\ list_at (data (handler s')) "q" = Some ["b"%string].
Proof.
  destruct (@serve_list_fifo demo_env demo_pushed demo_pushed_wf eq_refl)
    as (s' & ds & Hs & _ & _ & Hk).
  specialize (Hk "q"%string). exists s', ds. split; [exact Hs|].
  destruct Hk as (Hd & Hl & _). split; [exact Hd|exact Hl].
Defined.

Lemma deadline_answers_witness : exists s',
  callback_deadline_expire demo_parked = Ret (s', tt) /\
  response_queue (handler s') = [(7, as_bytes "*-1" ++ DELIMITER)].
Proof.
  destruct (deadline_answers demo_parked 1005 1000 7 demo_parked_wf eq_refl)
    as (s' & Hs & _ & _ & Hq & _).
  - exists demo_entry. split; reflexivity.
  - exists s'. split; [exact Hs|exact Hq].
Defined.

Lemma served_deadline_panics_witness : exists s' e,
  reg_remove 1000 demo_parked = Ret (s', Some e) /\ timer (registry (handler s')) = Some 1005 /\
  callback_deadline_expire s' = Panic.
Proof.
  eexists _, _. split; [reflexivity|].
  refine (served_deadline_panics demo_parked 1000 1005 demo_entry _ demo_parked_wf _ _);
    reflexivity.
Defined.
