(* ===== verification/Propagation.v ===== *)
(** * Propagation: replicas, append-only file, subscribers

    What a write leaves for the replicas and the append-only file; what the writer of
    the file does on a disk that takes everything, and on any disk
    ([writer_write_sound], [writer_flush_spec]); and that the same commands give the
    same data, at any time if they are [timeless]. *)

From S2P Require Import Prelude Text Float64 Resp CmdBuilder Bitmap BTree SortedSet Geohash Store.
From S2P Require Import StringCmds ListCmds StreamCmds BitmapCmds ZsetCmds.
From S2P Require Import AppState Replication Auth Registry Handler HandlerLogic Transactions.

(** ** The log of writes *)

(** The bytes waiting to be written to a client. *)
Definition outgoing (s : State) (id : Z) : bytes :=
  mjoin (List.map snd (List.filter (fun x => x.1 =? id) (response_queue (handler s)))).

(** The bytes given to the append-only file. *)
Definition aof_contents (s : State) : option bytes :=
  match aof (handler s) with Some (Some a) => Some (aof_text a) | _ => None end.

(** The disk takes everything it is given. *)
Definition disk_sound (s : State) : Prop :=
  match aof (handler s) with Some (Some f) => aof_disk f = [] | _ => True end.

(** Whatever the disk does, a flush moves a beginning of the buffer to the end of the
    file, and the rest stays; it moves everything when it goes well, and it goes well
    when the disk takes everything. *)
Lemma flush_buf_spec disk : forall file buffer,
  let '(file', buffer', disk', ok) := flush_buf disk file buffer in
  file' ++ buffer' = file ++ buffer /\ file `prefix_of` file' /\ disk' `suffix_of` disk /\
  (ok = true -> buffer' = []) /\ (disk = [] -> ok = true).
Proof.
  induction disk as [|[[|n]|] disk IH]; intros file [|c buffer]; cbn [flush_buf];
    try (split_and!; [by rewrite ?app_nil_r|by (reflexivity || eexists)|by (reflexivity || eexists [_])|done|done]).
  specialize (IH (file ++ take (S n) (c :: buffer)) (drop (S n) (c :: buffer))).
  destruct (flush_buf disk _ _) as [[[file' buffer'] disk'] ok]. destruct IH as (H1 & H2 & H3 & H4 & _).
  rewrite H1, <- app_assoc, take_drop. split_and!; [done| |by apply suffix_cons_r|done|done].
  etransitivity; [by eexists|exact H2].
Qed.

Lemma writer_flush_spec f : let '(f', ok) := writer_flush f in
  aof_filepath f' = aof_filepath f /\ aof_text f' = aof_text f /\ aof_file f `prefix_of` aof_file f' /\
  (ok = true -> aof_buffer f' = []) /\ (aof_disk f = [] -> ok = true /\ aof_disk f' = []).
Proof.
  unfold writer_flush, aof_text. pose proof (flush_buf_spec (aof_disk f) (aof_file f) (aof_buffer f)) as Hf.
  destruct (flush_buf _ _ _) as [[[file' buffer'] disk'] ok]. destruct Hf as (H1 & H2 & H3 & H4 & H5). cbn.
  split_and!; [done..|]. intros Hd. split; [by apply H5|]. rewrite Hd in H3. by apply suffix_nil_inv in H3.
Qed.

(** A sound disk: everything that is written arrives, in order. *)
Lemma writer_write_sound f b : aof_disk f = [] ->
  aof_text (writer_write f b) = aof_text f ++ b /\ aof_disk (writer_write f b) = [].
Proof.
  intros Hd. unfold writer_write. pose proof (len_nonneg (aof_buffer f)) as Hlen.
  assert (forall g, aof_disk g = [] -> aof_text (writer_buffer g b) = aof_text g ++ b /\ aof_disk (writer_buffer g b) = []) as Hbuf.
  { intros g Hg. unfold aof_text. cbn. by rewrite app_assoc. }
  assert (forall g, aof_disk g = [] -> aof_buffer g = [] ->
    aof_text (writer_direct g b) = aof_text g ++ b /\ aof_disk (writer_direct g b) = []) as Hdir.
  { intros g Hg Hb. unfold aof_text, writer_direct. rewrite Hg. cbn. by rewrite Hb, !app_nil_r. }
  destruct (Z.ltb_spec (len b) (buf_capacity - len (aof_buffer f))); [by apply Hbuf|].
  pose proof (writer_flush_spec f) as Hf. destruct (writer_flush f) as [g ok].
  destruct Hf as (_ & Htext & _ & Hempty & Hok). destruct (Hok Hd) as [-> Hg].
  destruct (Z.ltb_spec (buf_capacity - len (aof_buffer f)) (len b)), (Z.leb_spec buf_capacity (len b));
    try (by apply Hbuf); try rewrite <- Htext; [by apply Hdir; auto|by apply Hbuf|].
  rewrite Htext. apply Hdir; [done|]. apply nil_length_inv. unfold len in *. lia.
Qed.

(** Any disk: nothing leaves the file. *)
Lemma writer_write_grows f b :
  aof_filepath (writer_write f b) = aof_filepath f /\ aof_file f `prefix_of` aof_file (writer_write f b).
Proof.
  unfold writer_write. pose proof (writer_flush_spec f) as Hf.
  assert (forall g, aof_filepath g = aof_filepath f -> aof_file f `prefix_of` aof_file g ->
    aof_filepath (writer_direct g b) = aof_filepath f /\ aof_file f `prefix_of` aof_file (writer_direct g b)) as Hdir.
  { intros g Hp Hg. unfold writer_direct. destruct (aof_disk g) as [|[|]]; cbn; (split; [done|]); try done;
      by apply prefix_app_r. }
  destruct (_ <? _); [done|]. destruct (_ <? len b).
  - destruct (writer_flush f) as [g []]; destruct Hf as (? & _ & ? & _); [|done]. destruct (_ <=? _); [by apply Hdir|done].
  - destruct (_ <=? _); [by apply Hdir|done].
Qed.

(** What a request of a whole buffer loses when the disk takes a part of it: the rest is
    neither in the file nor in the buffer, and the next request comes behind the part. *)
Example direct_write_torn : forall f, let big := List.repeat "x"%char (Z.to_nat buf_capacity) in
  f = writer_write (mk_aof "aof" [] [] [Some 3%nat]) big ->
  aof_text f = as_bytes "xxx" /\ aof_text (writer_write f (as_bytes "next")) = as_bytes "xxxnext".
Proof. intros f big ->. split; vm_compute; reflexivity. Qed.

Definition replicas `{HashOrder} (s : State) : list Z :=
  match slaves (clients s) with Some l => iter_set l | None => [] end.

Definition host_offset (s : State) : option Z := offset <$> host_stats (app s).

(** A command got a reply that is not an error. *)
Definition succeeded (r : Result bytes bytes) : bool :=
  match r with Ok (_ :: _) => true | _ => false end.

Section Log.
Context `{Env}.

(** What a computation adds to the queue, to the append-only file and to the
    offset. *)
Record adds (q : list (Z * bytes)) (log : bytes) (s s' : State) : Prop := {
  ad_queue : response_queue (handler s') = response_queue (handler s) ++ q;
  ad_aof : disk_sound s -> aof_contents s' = (fun b => b ++ log) <$> aof_contents s;
  ad_disk : disk_sound s -> disk_sound s';
  ad_clients : clients s' = clients s;
  ad_subs : subscribers (handler s') = subscribers (handler s);
  ad_txn : txns s' = txns s;
  ad_stats : is_some (host_stats (app s')) = is_some (host_stats (app s));
}.

Lemma adds_nothing s : adds [] [] s s.
Proof.
  split; try done; [by rewrite app_nil_r|]. intros _. destruct (aof_contents s); cbn; [by rewrite app_nil_r|done].
Qed.

Lemma adds_trans q1 q2 l1 l2 s1 s2 s3 : adds q1 l1 s1 s2 -> adds q2 l2 s2 s3 ->
  adds (q1 ++ q2) (l1 ++ l2) s1 s3.
Proof.
  intros [A1 B1 K1 C1 D1 E1 F1] [A2 B2 K2 C2 D2 E2 F2]. split; try congruence; [| |auto].
  - by rewrite A2, A1, app_assoc.
  - intros Hd. rewrite B2, B1 by auto. destruct (aof_contents s1); cbn; [by rewrite app_assoc|done].
Qed.

Lemma adds_dispatch e c client fd is_sub s s' o : data_cmd c = true ->
  dispatch e c client fd is_sub s = Ret (s', o) ->
  adds [] [] s s' /\ app s' = app s.
Proof.
  intros Hc. unfold dispatch. rewrite get_bind.
  assert (forall (f : Z -> Data -> outcome (Data * Reply)),
    on_data f s = Ret (s', o) -> adds [] [] s s' /\ app s' = app s) as Hon.
  { intros f. unfold on_data. destruct (f _ _) as [[]|]; cbn; [|done]. intros [= <- <-].
    split; [|done]. destruct (adds_nothing s). by split. }
  destruct c; try done; try (apply Hon);
    (intros [= <- <-]; split; [apply adds_nothing|done]).
Qed.

Lemma adds_iterate_push ids b : forall s,
  iterate (fun id => push_response id b) ids s =
  Ret (with_queue s (response_queue (handler s) ++ List.map (fun id => (id, b)) ids), tt).
Proof.
  induction ids as [|id ids IH]; intros s; cbn [iterate List.map].
  - rewrite app_nil_r. by destruct s as [[] ? ? ? ? ? ? ? ?].
  - rewrite bind_unfold. unfold push_response at 1, modify. rewrite IH. cbn. by rewrite <- app_assoc.
Qed.

(** After the reply of a client that is not the master. *)
Lemma adds_after c b s : exists s', after_reply c b false s = Ret (s', tt) /\ app s' = app s /\
  adds (if Cmd.to_be_broadcast c then List.map (fun id => (id, b)) (replicas s) else [])
       (if Cmd.to_be_broadcast c then b else []) s s'.
Proof.
  unfold after_reply. rewrite bind_unfold. unfold modify at 1. cbv beta iota. rewrite bind_unfold.
  destruct (Cmd.to_be_broadcast c).
  - rewrite bind_unfold. unfold aof_append, modify at 1. cbv beta iota. rewrite get_bind.
    rewrite adds_iterate_push.
    destruct (aof (handler s)) as [[a|]|] eqn:Ha; cbn; rewrite Ha; cbn;
      (eexists; split; [reflexivity|]; split; [done|]);
      split; cbn; try done; unfold disk_sound, aof_contents; cbn -[writer_write]; rewrite ?Ha; try done; intros Hd.
    + cbn -[writer_write]. f_equal. by apply writer_write_sound.
    + by apply writer_write_sound.
  - eexists. split; [reflexivity|]. split; [done|]. destruct (adds_nothing s). by split.
Qed.

(** *** Replies of writes are never empty *)
Definition visible (r : RespType) : Prop := forall b, serialize r = Ret b -> b <> [].

Lemma visible_array n v : visible (Array n v).
Proof.
  intros b Hb ->. destruct v as [v|]; [rewrite serialize_array in Hb|done].
  by destruct (serialize_items v).
Qed.
Lemma visible_bulk n v : visible (BulkStr n v).
Proof. intros b. destruct v; cbn; by intros [= <-]. Qed.
Lemma visible_simple s : visible (SimpleStr (Some s)).
Proof. intros b. cbn. by intros [= <-]. Qed.
Lemma visible_int n : visible (Integer (Some n)).
Proof. intros b. cbn. by intros [= <-]. Qed.
Lemma visible_build n l : visible (build_array n l).
Proof. destruct l; [apply visible_array|rewrite build_array_cons; apply visible_array]. Qed.
#[local] Hint Resolve visible_array visible_bulk visible_simple visible_int visible_build : redis.

Definition answers_visibly (r : Reply) : Prop :=
  match r with Ok (Some resp) => visible resp | Ok None => False | Err _ => True end.

Lemma write_visible e c client fd is_sub s s' o : data_cmd c = true ->
  Cmd.to_be_broadcast c = true -> dispatch e c client fd is_sub s = Ret (s', o) ->
  answers_visibly o.
Proof.
  intros Hc Hw. unfold dispatch. rewrite get_bind.
  assert (forall f, writes f s = Ret (s', o) -> o = (f (data (handler s))).2) as Hwr.
  { intros f. unfold writes, on_data. cbn. destruct (f _). by intros [= _ <-]. }
  destruct c; try done.
  { unfold on_data, cmd_set. destruct (extract_deadline _ _); cbn; [|done]. intros [= _ <-].
    apply visible_simple. }
  all: intros ->%Hwr; unfold cmd_rpush, cmd_lpush, cmd_lpop, cmd_xadd, cmd_incr, cmd_setbit, cmd_bitop,
    null_bulk, bulk, int_reply; repeat case_match; cbn; auto with redis.
Qed.

(** What a command on values adds to the log, given its outcome. *)
Definition logged (c : Cmd.t) (b : bytes) (r : Result bytes bytes) : bytes :=
  if Cmd.to_be_broadcast c && succeeded r then b else [].

Definition counted (c : Cmd.t) (b : bytes) : Z := if Cmd.to_be_broadcast c then len b else 0.

Lemma serve_adds c b client fd s s' r h : data_cmd c = true ->
  is_transation (registry (handler s)) client = false -> is_subscriber s client = false ->
  is_master (clients s) client = false -> host_stats (app s) = Some h -> -1 < offset h ->
  offset h + counted c b <= i64_max ->
  handle (Ok c) b client fd s = Ret (s', r) ->
  adds (if Cmd.to_be_broadcast c && succeeded r then List.map (fun id => (id, b)) (replicas s) else [])
       (logged c b r) s s' /\
  host_offset s' = Some (offset h + counted c b).
Proof.
  intros Hc Ht Hsub Hm Hst Hpos Hbd. unfold logged, counted in *.
  unfold handle. rewrite get_bind, Ht. cbn [negb]. rewrite bind_unfold.
  unfold execute_cmd, depth. cbn [_execute_cmd]. unfold execute_body. rewrite get_bind, Hsub, Hm.
  cbn [andb]. rewrite bind_unfold. rewrite before_cmd_ok by congruence. cbv beta iota.
  set (w := Cmd.to_be_broadcast c) in *. rewrite andb_true_r.
  set (s1 := if w then _ else _).
  assert (adds [] [] s s1 /\ host_offset s1 = Some (offset h + (if w then len b else 0)))
    as [Had1 Hh1].
  { pose proof (adds_nothing s) as []. unfold s1, host_add_bytes_count, host_offset, txns in *.
    destruct (set_dirty_watchlist (registry (handler s)) c) as [wl ->].
    destruct w; cbn; rewrite Hst; cbn.
    - split; [split; try done; cbn; by rewrite Hst|]. unfold add_bytes_count.
      destruct (Z.ltb_spec (-1) (offset h)); [|lia]. cbn. f_equal. apply wrap_i64_id.
      pose proof (len_nonneg b). unfold is_i64, i64_min. lia.
    - split; [by split|]. f_equal. lia. }
  rewrite bind_unfold.
  destruct (dispatch _ c client (Some fd) false s1) as [[s2 o]|] eqn:Hdis; [|done].
  destruct (adds_dispatch _ _ _ _ _ _ _ _ Hc Hdis) as [Had2 Happ2].
  pose proof (adds_trans _ _ _ _ _ _ _ Had1 Had2) as Had.
  assert (host_offset s2 = Some (offset h + (if w then len b else 0))) as Hoff.
  { unfold host_offset in *. by rewrite Happ2. }
  destruct o as [[resp|]|err].
  - cbn [orb negb]. rewrite bind_unfold.
    destruct (adds_after c b s2) as (s3 & Haf & Happ3 & Had3). rewrite Haf. fold w in Had3.
    rewrite bind_unfold. unfold of_outcome.
    destruct (serialize resp) as [bs|] eqn:Hser; cbn [outcome_bind]; [|done].
    cbn. intros [= <- <-].
    assert (adds (if w then List.map (fun id => (id, b)) (replicas s) else []) (if w then b else [])
      s s3) as Hall.
    { unfold replicas. rewrite <- (ad_clients _ _ _ _ Had). exact (adds_trans _ _ _ _ _ _ _ Had Had3). }
    assert (host_offset s3 = Some (offset h + (if w then len b else 0))) as Hoff3.
    { unfold host_offset in *. by rewrite Happ3. }
    split; [|done]. destruct w eqn:Hw; [|exact Hall].
    pose proof (write_visible _ _ _ _ _ _ _ _ Hc Hw Hdis bs Hser). by destruct bs.
  - cbn. intros [= <- <-]. cbn. rewrite andb_false_r. by split.
  - rewrite bind_unfold. change (mret (M:=M) tt s2) with (Ret (s2, tt)). cbv beta iota.
    rewrite bind_unfold. unfold into_error_bytes, of_outcome.
    destruct (serialize (into_resp err)) as [eb|]; cbn; [|done]. intros [= <- <-].
    cbn. rewrite andb_false_r. by split.
Qed.

(** The log of a session, given the replies. *)
Fixpoint session_log (cmds : list (Cmd.t * bytes)) (rs : list (Result bytes bytes)) : bytes :=
  match cmds, rs with
  | (c, b) :: cmds, r :: rs => logged c b r ++ session_log cmds rs
  | _, _ => []
  end.

Definition session_count (cmds : list (Cmd.t * bytes)) : Z :=
  foldr (fun x n => counted x.1 x.2 + n) 0 cmds.

Lemma counted_nonneg c b : 0 <= counted c b.
Proof. unfold counted. pose proof (len_nonneg b). destruct (Cmd.to_be_broadcast c); lia. Qed.

Lemma session_count_nonneg l : 0 <= session_count l.
Proof.
  induction l as [|[c b] l IH]; [done|].
  change (0 <= counted c b + session_count l). pose proof (counted_nonneg c b). lia.
Qed.

Lemma outgoing_adds q log s s' id : adds q log s s' ->
  outgoing s' id = outgoing s id ++ mjoin (List.map snd (List.filter (fun x => x.1 =? id) q)).
Proof.
  intros Had. unfold outgoing. rewrite (ad_queue _ _ _ _ Had), List.filter_app, List.map_app.
  apply join_app.
Qed.

Lemma to_replica s id (b : bytes) : id ∈ replicas s ->
  mjoin (List.map snd (List.filter (fun x => x.1 =? id) (List.map (fun i => (i, b)) (replicas s)))) = b.
Proof.
  intros Hin. assert (NoDup (replicas s)) as Hnd.
  { unfold replicas. destruct (slaves (clients s)); [apply NoDup_iter_set|constructor]. }
  revert Hin Hnd. generalize (replicas s). intros l. induction l as [|i l IH]; cbn.
  - by intros ?%not_elem_of_nil.
  - intros [<-|Hin]%elem_of_cons [Hni Hnd]%NoDup_cons.
    + rewrite Z.eqb_refl. cbn.
      assert (List.filter (fun x => x.1 =? id) (List.map (fun i => (i, b)) l) = []) as ->.
      { clear -Hni. induction l as [|j l IH]; [done|]. cbn.
        destruct (Z.eqb_spec j id) as [->|]; [set_solver|]. apply IH. set_solver. }
      cbn. apply app_nil_r.
    + destruct (Z.eqb_spec i id) as [->|]; [done|]. by apply IH.
Qed.

(** The messages of a session to the replicas. *)
Fixpoint session_queue (ids : list Z) (cmds : list (Cmd.t * bytes)) (rs : list (Result bytes bytes)) :
    list (Z * bytes) :=
  match cmds, rs with
  | (c, b) :: cmds, r :: rs =>
      (if Cmd.to_be_broadcast c && succeeded r then List.map (fun id => (id, b)) ids else []) ++
      session_queue ids cmds rs
  | _, _ => []
  end.

Lemma session_adds cmds client fd : Forall (fun x => data_cmd x.1 = true) cmds ->
  forall s s' rs n, is_transation (registry (handler s)) client = false ->
  is_subscriber s client = false -> is_master (clients s) client = false ->
  host_offset s = Some n -> 0 <= n -> n + session_count cmds <= i64_max ->
  session client fd cmds s = Ret (s', rs) ->
  adds (session_queue (replicas s) cmds rs) (session_log cmds rs) s s' /\
  host_offset s' = Some (n + session_count cmds).
Proof.
  induction 1 as [|[c b] cmds Hc Hrest IH]; intros s s' rs n Ht Hsub Hm Hn.
  { cbn. intros _ _ [= <- <-]. split; [apply adds_nothing|]. rewrite Hn. f_equal. lia. }
  intros Hpos. cbn [session session_count foldr fst snd]. intros Hbd. rewrite bind_unfold.
  pose proof (session_count_nonneg cmds) as Hnc. unfold session_count in Hnc.
  pose proof (counted_nonneg c b).
  destruct (handle _ _ _ _ s) as [[s1 r]|] eqn:Hh; [|done]. rewrite bind_unfold.
  destruct (session _ _ _ s1) as [[s2 rs']|] eqn:Hses; [|done]. intros [= <- <-].
  unfold host_offset in Hn. destruct (host_stats (app s)) as [h|] eqn:Hst; [|done].
  cbn in Hn. injection Hn as Hn.
  destruct (serve_adds c b client fd s s1 r h) as [Had Hoff]; [done..|lia|lia|done|].
  destruct (IH s1 s2 rs' (offset h + counted c b)) as (Had' & Hf').
  - unfold is_transation. pose proof (ad_txn _ _ _ _ Had) as Htx. unfold txns in Htx. by rewrite Htx.
  - unfold is_subscriber. by rewrite (ad_subs _ _ _ _ Had).
  - by rewrite (ad_clients _ _ _ _ Had).
  - done.
  - lia.
  - unfold session_count. lia.
  - done.
  - assert (replicas s1 = replicas s) as Hrep by (unfold replicas; by rewrite (ad_clients _ _ _ _ Had)).
    rewrite Hrep in Had'. cbn [session_log session_queue]. split; [by eapply adds_trans|].
    rewrite Hf'. f_equal. unfold session_count. lia.
Qed.

Lemma session_queue_to s cmds : forall rs id, id ∈ replicas s ->
  mjoin (List.map snd (List.filter (fun x => x.1 =? id) (session_queue (replicas s) cmds rs))) =
  session_log cmds rs.
Proof.
  induction cmds as [|[c b] cmds IH]; intros [|r rs] id Hid; cbn [session_queue session_log]; try done.
  rewrite List.filter_app, List.map_app, join_app, (IH rs id Hid). f_equal.
  unfold logged. destruct (_ && _); [by apply to_replica|done].
Qed.

(** C12: over any session of commands on values, every replica is sent, and the
    append-only file is given, the same bytes: the requests of the writes that
    succeeded, in order. The replication offset counts the requests of all writes,
    also of those that were refused and sent to nobody. (The file, as long as the
    disk takes what it is given.) *)
Theorem session_propagates cmds client fd s s' rs a n id :
  Forall (fun x => data_cmd x.1 = true) cmds ->
  is_transation (registry (handler s)) client = false -> is_subscriber s client = false ->
  is_master (clients s) client = false ->
  aof_contents s = Some a -> id ∈ replicas s ->
  host_offset s = Some n -> 0 <= n -> n + session_count cmds <= i64_max ->
  session client fd cmds s = Ret (s', rs) ->
  (disk_sound s -> aof_contents s' = Some (a ++ session_log cmds rs)) /\
  outgoing s' id = outgoing s id ++ session_log cmds rs /\
  host_offset s' = Some (n + session_count cmds).
Proof.
  intros Hall Ht Hsub Hm Ha Hid Hn Hpos Hbd Hses.
  destruct (session_adds cmds client fd Hall s s' rs n Ht Hsub Hm Hn Hpos Hbd Hses) as [Had Hoff].
  split_and!; [intros Hdisk; by rewrite (ad_aof _ _ _ _ Had Hdisk), Ha| |done].
  by rewrite (outgoing_adds _ _ _ _ _ Had), session_queue_to.
Qed.
End Log.

(** ** Examples *)

(** A master with an append-only file and the replica 9. *)
Definition demo_master : State :=
  with_clients (with_aof demo_state (Some (Some (mk_aof "aof" [] [] [])))) (mk_clients None (Some {[9]})).

(** An accepted write, and a refused one. *)
Definition demo_writes : list (Cmd.t * bytes) :=
  [(Cmd.SET "k" "v" None, as_bytes "first"); (Cmd.INCR "k", as_bytes "second")].

Lemma session_propagates_witness : exists s' rs,
  @session demo_env 7 3 demo_writes demo_master = Ret (s', rs) /\
  aof_contents s' = Some (session_log demo_writes rs) /\
  outgoing s' 9 = session_log demo_writes rs /\ host_offset s' = Some 11.
Proof.
  destruct (@session demo_env 7 3 demo_writes demo_master) as [[s' rs]|] eqn:Hs.
  - destruct (@session_propagates demo_env demo_writes 7 3 demo_master s' rs [] 0 9) as (H1 & H2 & H3);
      [repeat constructor|reflexivity|reflexivity|reflexivity|reflexivity| |reflexivity|done|by vm_compute|exact Hs|].
    { apply elem_of_iter_set. set_solver. }
    exists s', rs. split; [reflexivity|]. split; [by apply H1|]. split; [exact H2|exact H3].
  - exfalso. vm_compute in Hs. discriminate.
Defined.

Example demo_writes_log : exists s' e,
  @session demo_env 7 3 demo_writes demo_master = Ret (s', [Ok (as_bytes "+OK" ++ DELIMITER); Err e]).
Proof. vm_compute. eexists _, _. reflexivity. Qed.

(** ** The same commands give the same data *)

Section Agree.
Context `{Env}.

(** A logged command that does the same at any time. *)
Definition timeless (c : Cmd.t) : bool :=
  Cmd.to_be_broadcast c &&
  match c with
  | Cmd.SET _ _ (Some _) => false
  | Cmd.XADD _ (None, _) _ => false
  | _ => true
  end.

(** The same data, at the same time when [now] says so; a command that may run at
    another time is [timeless]. *)
Definition agrees (now : bool) (s1 s2 : State) : Prop :=
  data (handler s1) = data (handler s2) /\ (now = true -> clock s1 = clock s2).

Definition may_run (now : bool) (c : Cmd.t) : bool := data_cmd c && (now || timeless c).

Lemma agrees_trans now x y z : agrees now x y -> agrees now y z -> agrees now x z.
Proof. intros [? H1] [? H2]. split; [congruence|]. intros Hn. by rewrite H1, H2. Qed.
Lemma agrees_sym now x y : agrees now x y -> agrees now y x.
Proof. intros [? Hk]. split; [done|]. intros Hn. by rewrite Hk. Qed.
Lemma agrees_any now x y : agrees true x y -> agrees now x y.
Proof. intros [? Hk]. split; auto. Qed.

(** A connection whose commands run at once. *)
Definition direct (s : State) (client : Z) : Prop :=
  is_transation (registry (handler s)) client = false /\ is_subscriber s client = false /\
  host_stats (app s) <> None.

Lemma dispatch_agrees now e1 e2 c cl1 cl2 fd1 fd2 is_sub s1 s2 s1' o : may_run now c = true ->
  agrees now s1 s2 -> dispatch e1 c cl1 fd1 is_sub s1 = Ret (s1', o) ->
  exists s2', dispatch e2 c cl2 fd2 is_sub s2 = Ret (s2', o) /\ agrees now s1' s2'.
Proof.
  intros [Hc Hnow]%andb_true_iff [Hd Hk]. unfold dispatch. rewrite !get_bind.
  assert (forall f1 f2 : Z -> Data -> outcome (Data * Reply),
    f1 (clock s1) (data (handler s2)) = f2 (clock s2) (data (handler s2)) -> on_data f1 s1 = Ret (s1', o) ->
    exists s2', on_data f2 s2 = Ret (s2', o) /\ agrees now s1' s2') as Hon.
  { intros f1 f2 Hf. unfold on_data. rewrite Hd, Hf. destruct (f2 _ _) as [[d a]|]; cbn; [|done].
    intros [= <- <-]. eexists. split; [done|]. by split. }
  apply orb_true_iff in Hnow as [->|Htl].
  - specialize (Hk eq_refl). destruct c; try done; unfold reads; try (apply Hon; by rewrite ?Hk);
      (intros [= <- <-]; exists s2; by split).
  - destruct c; try done; try (by apply Hon).
    + match goal with o : option CmdArg.t |- _ => destruct o; [done|] end. by apply Hon.
    + match goal with i : (option Z * option Z)%type |- _ => destruct i as [[ts|] sq]; [|done] end. by apply Hon.
Qed.

(** What is left by the steps around the command. *)
Definition around (s s' : State) : Prop :=
  agrees true s s' /\ txns s' = txns s /\ subscribers (handler s') = subscribers (handler s) /\
  clients s' = clients s /\ (host_stats (app s) <> None -> host_stats (app s') <> None).

#[local] Instance around_preorder : PreOrder around.
Proof.
  split; [by split|]. intros x y z (? & ? & ? & ? & ?) (? & ? & ? & ? & ?).
  split_and!; [by eapply agrees_trans|congruence|congruence|congruence|auto].
Qed.
#[local] Hint Extern 1 (PreOrder around) => apply around_preorder : frames.

Lemma add_bytes_some a n : host_stats a <> None -> host_stats (host_add_bytes_count a n) <> None.
Proof. unfold host_add_bytes_count. by destruct (host_stats a). Qed.

Lemma around_before c b m : keeps around (before_cmd c b m).
Proof.
  unfold before_cmd, count_bytes, reg_modify.
  assert (keeps around (modify (fun s => with_registry s (set_dirty (registry (handler s)) c)))) as Hd.
  { apply keeps_modify. intros s. split_and!; [done| |done|done|done]. unfold txns. cbn.
    by destruct (set_dirty_watchlist (registry (handler s)) c) as [w ->]. }
  assert (keeps around (modify (fun s => with_app s (host_add_bytes_count (app s) (len b))))) as Ha.
  { apply keeps_modify. intros s. split_and!; [done..|apply add_bytes_some]. }
  keeps_tac.
Qed.

Lemma around_app f : (forall a, host_stats a <> None -> host_stats (f a) <> None) ->
  keeps around (modify (fun s => with_app s (f (app s)))).
Proof. intros Hf. apply keeps_modify. intros s. split_and!; [done..|apply Hf]. Qed.

Lemma after_total c b m s : exists s', after_reply c b m s = Ret (s', tt) /\ around s s'.
Proof.
  assert (exists s', after_reply c b m s = Ret (s', tt)) as [s' Hs].
  { unfold after_reply. rewrite bind_unfold. unfold modify at 1. cbv beta iota. rewrite bind_unfold.
    destruct (Cmd.to_be_broadcast c).
    - rewrite bind_unfold. unfold aof_append, modify at 1. cbv beta iota.
      rewrite get_bind, adds_iterate_push. destruct m; by eexists.
    - destruct m; by eexists. }
  exists s'. split; [done|].
  assert (keeps around (after_reply c b m)) as Hk.
  { unfold after_reply, aof_append, push_response.
    assert (keeps around (modify (fun s => with_flags s (Cmd.is_flag_list c) (Cmd.is_flag_stream c))))
      as H1 by (by apply keeps_modify).
    assert (forall f, keeps around (modify (fun s => with_queue s (f s)))) as H2
      by (intros; by apply keeps_modify).
    assert (keeps around (modify (fun s => with_app s (host_add_bytes_count (app s) (len b))))) as H3.
    { apply (around_app (fun a => host_add_bytes_count a (len b))). intros. by apply add_bytes_some. }
    assert (keeps around (modify (fun s => match aof (handler s) with
      | Some (Some a) => with_aof s (Some (Some (writer_write a b)))
      | _ => s end))) as H4.
    { apply keeps_modify. intros s1. by destruct (aof (handler s1)) as [[]|]. }
    keeps_tac. }
  exact (wlp_elim _ _ _ _ _ (Hk s) Hs).
Qed.
Lemma around_direct s s' client : around s s' -> direct s client -> direct s' client.
Proof.
  intros (_ & Ht & Hs & _ & Hh) (H1 & H2 & H3). unfold direct, is_transation, is_subscriber in *.
  unfold txns in Ht. rewrite Ht, Hs. auto.
Qed.

Lemma around_dispatch e c client fd is_sub s s' o : data_cmd c = true ->
  dispatch e c client fd is_sub s = Ret (s', o) ->
  txns s' = txns s /\ subscribers (handler s') = subscribers (handler s) /\
  clients s' = clients s /\ app s' = app s.
Proof.
  intros Hc Hd. destruct (adds_dispatch _ _ _ _ _ _ _ _ Hc Hd) as [[] Happ]. done.
Qed.

Lemma into_error_ok e : exists b, into_error_bytes e = Ret b.
Proof. apply into_error_bytes_total. Qed.

(** What follows the dispatch of a command: the propagation and the answer. *)
Definition finish (c : Cmd.t) (b : bytes) (is_mst : bool) (o : Reply) : M (Result CmdOutput CmdOutput) :=
  match o with
  | Ok (Some resp) =>
      after_reply c b is_mst;;
      if negb is_mst || Cmd.always_response c then
        b ← of_outcome (serialize resp);
        mret (Ok (OutBytes b))
      else mret (Ok OutNone)
  | Err e =>
      (if is_mst then modify (fun s => with_app s (host_add_bytes_count (app s) (len b)))
       else mret tt);;
      b ← of_outcome (into_error_bytes e);
      mret (Err (OutBytes b))
  | Ok None => mret (Ok OutNone)
  end.

Lemma execute_body_finish e c b cl fd s : is_subscriber s cl = false ->
  execute_body e c b cl fd true s =
  (before_cmd c b (is_master (clients s) cl);;
   o ← dispatch e c cl fd false;
   finish c b (is_master (clients s) cl) o) s.
Proof. intros Hs. unfold execute_body. rewrite get_bind, Hs. reflexivity. Qed.

(** The reply an output becomes. *)
Definition output_reply (r : Result CmdOutput CmdOutput) : Result bytes bytes :=
  match r with Ok o => Ok (out_bytes o) | Err o => Err (out_bytes o) end.

Lemma finish_agrees now c b1 b2 m2 o u1 u2 v1 r1 cl1 cl2 : data_cmd c = true -> agrees now u1 u2 ->
  direct u1 cl1 -> direct u2 cl2 -> finish c b1 false o u1 = Ret (v1, r1) ->
  exists v2 r2, finish c b2 m2 o u2 = Ret (v2, r2) /\ agrees now v1 v2 /\ direct v1 cl1 /\ direct v2 cl2 /\
    clients v1 = clients u1 /\ clients v2 = clients u2 /\
    (m2 = true -> succeeded (output_reply r1) = true -> output_reply r2 = Ok []).
Proof.
  intros Hc Hag Hd1 Hd2. assert (Cmd.always_response c = false) as Halw by (by destruct c).
  destruct o as [[resp|]|err]; cbn [finish].
  - rewrite !bind_unfold.
    destruct (after_total c b1 false u1) as (v1' & -> & Hv1).
    destruct (after_total c b2 m2 u2) as (v2 & -> & Hv2).
    cbn [negb orb]. rewrite bind_unfold. unfold of_outcome at 1.
    destruct (serialize resp) as [bs|] eqn:Hser; cbn [outcome_bind]; [|done].
    change (mret (M:=M) ?x v1') with (Ret (v1', x)). cbv beta iota. intros [= <- <-].
    assert (agrees now v1' v2) as Hav.
    { eapply agrees_trans; [apply agrees_sym, agrees_any, Hv1|]. eapply agrees_trans; [exact Hag|apply agrees_any, Hv2]. }
    pose proof (around_direct _ _ _ Hv1 Hd1). pose proof (around_direct _ _ _ Hv2 Hd2).
    destruct Hv1 as (_ & _ & _ & Hcv1 & _), Hv2 as (_ & _ & _ & Hcv2 & _).
    rewrite Halw, orb_false_r. destruct m2; cbn [negb].
    + eexists v2, (Ok OutNone). by split_and!.
    + rewrite bind_unfold. eexists v2, _. split; [reflexivity|]. by split_and!.
  - intros [= <- <-]. eexists u2, _. split; [reflexivity|]. by split_and!.
  - rewrite bind_unfold. change (mret (M:=M) tt u1) with (Ret (u1, tt)). cbv beta iota.
    destruct (into_error_ok err) as [eb Heb].
    rewrite bind_unfold. unfold of_outcome at 1. rewrite Heb. cbn [outcome_bind].
    change (mret (M:=M) ?x u1) with (Ret (u1, x)). cbv beta iota. intros [= <- <-].
    destruct m2.
    + set (w2 := with_app u2 (host_add_bytes_count (app u2) (len b2))).
      eexists w2, _. split; [rewrite !bind_unfold; unfold modify at 1; cbv beta iota;
        rewrite bind_unfold; reflexivity|].
      split_and!; [by destruct Hag|done| |done|done|done].
      destruct Hd2 as (H1 & H2 & H3). split_and!; [done|done|]. by apply add_bytes_some.
    + eexists u2, _. split; [rewrite !bind_unfold; change (mret (M:=M) tt u2) with (Ret (u2, tt));
        cbv beta iota; rewrite bind_unfold; reflexivity|].
      by split_and!.
Qed.

Lemma before_total c b m s cl : direct s cl ->
  exists t, before_cmd c b m s = Ret (t, tt) /\ agrees true s t.
Proof.
  intros (_ & _ & Hh). pose proof (around_before c b m s) as Hb. unfold wlp in Hb.
  rewrite before_cmd_ok in Hb |- * by done. eexists. split; [reflexivity|apply Hb].
Qed.

(** Before the dispatch the data stay, and afterwards a direct client is one. *)
Lemma dispatch_direct e c b cl fd m s u o : data_cmd c = true -> direct s cl ->
  (before_cmd c b m;; dispatch e c cl fd false) s = Ret (u, o) ->
  exists t, before_cmd c b m s = Ret (t, tt) /\ dispatch e c cl fd false t = Ret (u, o) /\
    agrees true s t /\ direct u cl /\ clients u = clients s.
Proof.
  intros Hc Hd. rewrite bind_unfold. pose proof (around_before c b m s) as Hb. unfold wlp in Hb.
  pose proof Hd as (_ & _ & Hh). rewrite before_cmd_ok in Hb |- * by done. cbv beta iota in Hb |- *.
  match goal with |- dispatch _ _ _ _ _ ?x = _ -> _ => set (t := x) in * end. clearbody t.
  intros Hdis. exists t. destruct (around_dispatch _ _ _ _ _ _ _ _ Hc Hdis) as (Ht & Hsb & Hcl & Ha).
  split_and!; [done|done|apply Hb| |].
  - pose proof (around_direct _ _ _ Hb Hd) as (H1 & H2 & H3).
    unfold direct, is_transation, is_subscriber, txns in *. by rewrite Ht, Hsb, Ha.
  - destruct Hb as (_ & _ & _ & Hx & _). congruence.
Qed.

(** A client without a transaction or subscriptions: its command is run at once. *)
Lemma handle_direct c b cl fd s : direct s cl ->
  handle (Ok c) b cl fd s =
  match (before_cmd c b (is_master (clients s) cl);;
         dispatch (fun c b => _execute_cmd 2 c b cl None false) c cl (Some fd) false) s with
  | Ret (u, o) =>
      match finish c b (is_master (clients s) cl) o u with
      | Ret (v, r) => Ret (v, output_reply r)
      | Panic => Panic
      end
  | Panic => Panic
  end.
Proof.
  intros (Ht & Hs & _). unfold handle. rewrite get_bind, Ht. cbn [negb]. rewrite bind_unfold.
  change (execute_cmd c b cl (Some fd) true) with
    (execute_body (fun c b => _execute_cmd 2 c b cl None false) c b cl (Some fd) true).
  rewrite execute_body_finish, !bind_unfold by done.
  destruct (before_cmd c b _ s) as [[t []]|]; [|done]. rewrite bind_unfold.
  destruct (dispatch _ c cl _ false t) as [[u o]|]; [|done].
  by destruct (finish c b _ o u) as [[v r]|].
Qed.

(** A command does the same to two states with the same data, whoever sends it,
    provided the first reply could be serialized. *)
Lemma handle_agrees now c b1 b2 cl1 cl2 fd1 fd2 s1 s2 s1' r1 : may_run now c = true ->
  agrees now s1 s2 -> direct s1 cl1 -> direct s2 cl2 -> is_master (clients s1) cl1 = false ->
  handle (Ok c) b1 cl1 fd1 s1 = Ret (s1', r1) ->
  exists s2' r2, handle (Ok c) b2 cl2 fd2 s2 = Ret (s2', r2) /\ agrees now s1' s2' /\
    direct s1' cl1 /\ direct s2' cl2 /\ clients s1' = clients s1 /\ clients s2' = clients s2 /\
    (is_master (clients s2) cl2 = true -> succeeded r1 = true -> r2 = Ok []).
Proof.
  intros Hrun Hag Hd1 Hd2 Hm. pose proof Hrun as [Hc _]%andb_true_iff. rewrite !handle_direct, Hm by done.
  generalize (fun c b => _execute_cmd 2 c b cl1 None false) as e1.
  generalize (fun c b => _execute_cmd 2 c b cl2 None false) as e2. intros e2 e1.
  set (m2 := is_master (clients s2) cl2).
  destruct ((before_cmd c b1 false;; dispatch e1 c cl1 (Some fd1) false) s1) as [[u1 o]|] eqn:Hrun1; [|done].
  destruct (dispatch_direct _ _ _ _ _ _ _ _ _ Hc Hd1 Hrun1) as (t1 & _ & Hdis1 & Ha1 & Hdu1 & Hcu1).
  destruct (before_total c b2 m2 s2 cl2 Hd2) as (t2 & Hb2 & Ha2).
  destruct (dispatch_agrees now e1 e2 c cl1 cl2 (Some fd1) (Some fd2) false t1 t2 u1 o Hrun) as (u2 & Hdis2 & Hag2);
    [|done|].
  { eapply agrees_trans; [apply agrees_sym, agrees_any, Ha1|]. eapply agrees_trans; [exact Hag|by apply agrees_any]. }
  assert ((before_cmd c b2 m2;; dispatch e2 c cl2 (Some fd2) false) s2 = Ret (u2, o)) as Hrun2.
  { by rewrite bind_unfold, Hb2. }
  destruct (dispatch_direct _ _ _ _ _ _ _ _ _ Hc Hd2 Hrun2) as (_ & _ & _ & _ & Hdu2 & Hcu2).
  rewrite Hrun2. destruct (finish c b1 false o u1) as [[v1 x1]|] eqn:Hfin; [|done]. intros [= <- <-].
  destruct (finish_agrees now c b1 b2 m2 o u1 u2 v1 x1 cl1 cl2 Hc Hag2 Hdu1 Hdu2 Hfin)
    as (v2 & x2 & -> & Hav & Hdv1 & Hdv2 & Hcv1 & Hcv2 & Hr).
  exists v2, (output_reply x2). split_and!; try done; congruence.
Qed.

(** A session does the same from the same data, at the same time or if all its
    commands are timeless, whoever runs it; for the master of a server nothing that succeeds is answered. *)
Lemma session_agrees now cmds cl1 cl2 fd1 fd2 : Forall (fun x => may_run now x.1 = true) cmds ->
  forall s1 s2 s1' rs, agrees now s1 s2 -> direct s1 cl1 -> direct s2 cl2 ->
  is_master (clients s1) cl1 = false -> session cl1 fd1 cmds s1 = Ret (s1', rs) ->
  exists s2' rs2, session cl2 fd2 cmds s2 = Ret (s2', rs2) /\ agrees now s1' s2' /\
    (is_master (clients s2) cl2 = true ->
     Forall2 (fun r r2 => succeeded r = true -> r2 = Ok []) rs rs2).
Proof.
  induction 1 as [|[c b] cmds Hc Hall IH]; intros s1 s2 s1' rs Hag Hd1 Hd2 Hm.
  - intros [= <- <-]. eexists _, _. split; [reflexivity|]. split; [done|]. intros _. constructor.
  - cbn [session]. rewrite bind_unfold. destruct (handle (Ok c) b cl1 fd1 s1) as [[t1 r]|] eqn:Hh; [|done].
    destruct (handle_agrees now c b b cl1 cl2 fd1 fd2 s1 s2 t1 r Hc Hag Hd1 Hd2 Hm Hh)
      as (t2 & r2 & Hh2 & Hag' & Hd1' & Hd2' & Hcl & Hcl2 & Hquiet).
    rewrite bind_unfold. destruct (session cl1 fd1 cmds t1) as [[u1 rs']|] eqn:Hses; [|done].
    intros [= <- <-]. destruct (IH t1 t2 u1 rs' Hag' Hd1' Hd2') as (u2 & rs2 & Hses2 & Hag2 & Hq2);
      [by rewrite Hcl|done|].
    exists u2, (r2 :: rs2). split; [by rewrite bind_unfold, Hh2, bind_unfold, Hses2|].
    split; [done|]. intros Hm2. constructor; [auto|]. apply Hq2. by rewrite Hcl2.
Qed.

(** a replica that runs the session of a client of its master, from the same
    data and at the same time, ends with the same data, and answers the master
    nothing for what succeeded. *)
Theorem replica_converges cmds cl1 cl2 fd1 fd2 s1 s2 s1' rs :
  Forall (fun x => data_cmd x.1 = true) cmds ->
  agrees true s1 s2 -> direct s1 cl1 -> direct s2 cl2 ->
  is_master (clients s1) cl1 = false -> is_master (clients s2) cl2 = true ->
  session cl1 fd1 cmds s1 = Ret (s1', rs) ->
  exists s2' rs2, session cl2 fd2 cmds s2 = Ret (s2', rs2) /\
    data (handler s2') = data (handler s1') /\
    Forall2 (fun r r2 => succeeded r = true -> r2 = Ok []) rs rs2.
Proof.
  intros Hall Hag Hd1 Hd2 Hm1 Hm2 Hses.
  assert (Forall (fun x => may_run true x.1 = true) cmds) as Hall'.
  { eapply Forall_impl; [exact Hall|]. intros x. unfold may_run. by rewrite andb_true_r. }
  destruct (session_agrees true cmds cl1 cl2 fd1 fd2 Hall' s1 s2 s1' rs Hag Hd1 Hd2 Hm1 Hses)
    as (s2' & rs2 & Hs2 & [Hd _] & Hq).
  exists s2', rs2. auto.
Qed.
End Agree.

(** A replica of that master, which it knows as client 5. *)
Definition demo_replica : State := with_clients demo_state (mk_clients (Some 5) None).

Lemma replica_converges_witness : exists s1 rs s2 rs2,
  @session demo_env 7 3 demo_writes demo_master = Ret (s1, rs) /\
  @session demo_env 5 3 demo_writes demo_replica = Ret (s2, rs2) /\
  data (handler s2) = data (handler s1).
Proof.
  destruct (@session demo_env 7 3 demo_writes demo_master) as [[s1 rs]|] eqn:Hs.
  - destruct (@replica_converges demo_env demo_writes 7 5 3 3 demo_master demo_replica s1 rs)
      as (s2 & rs2 & Hs2 & Hd & _);
      [repeat constructor|done|by repeat split|by repeat split|done|done|exact Hs|].
    exists s1, rs, s2, rs2. split; [reflexivity|]. split; [exact Hs2|exact Hd].
  - exfalso. vm_compute in Hs. discriminate.
Defined.
