(* ===== verification/ClientSpec.v ===== *)
(** * What the handler promises a client

    The abstract state of the handler is the key space ([KeyspaceSpec]), the open
    transactions, the watches, the log of successful writes, and the server's part in
    replication: its master, its replicas and what is queued for them, its offset.
    [client_refines]: [handle] answers a client what [client_spec] says: commands run
    at once or wait for [EXEC], which runs them in one step or, after a write to a
    watched key, not at all; a replica joins; and what the master sends runs, but is
    not answered. *)

From S2P Require Import Prelude Text Float64 Resp CmdBuilder Bitmap BTree SortedSet Geohash Store.
From S2P Require Import StringCmds ListCmds BitmapCmds StreamCmds ZsetCmds.
From S2P Require Import Refinement KeySpec StringSpec ListSpec BitmapSpec StreamSpec ZsetSpec KeyspaceSpec.
From S2P Require Import AppState Replication Auth Registry Handler HandlerLogic Transactions Propagation.

(** ** The specification *)

(** The master, if there is one; the replicas; the messages queued for clients until
    the turn ends; and the offset. *)
Record AbsRepl := mk_abs_repl {
  ar_master : option Z;
  ar_replicas : gset Z;
  ar_queue : list (Z * bytes);
  ar_offset : Z;
}.

(** What the server keeps for its clients: the key space; the open transactions,
    with the bytes of the requests; for a client that watches keys, which, and
    whether one has been written since; and the requests of the writes that
    succeeded. Transactions and watches belong to a descriptor, whoever uses it. *)
Record AbsState := mk_abs_state {
  ab_keys : Keyspace;
  ab_txns : gmap Z (list (Cmd.t * bytes));
  ab_watch : gmap Z (gset string * bool);
  ab_log : list (Cmd.t * bytes);
  ab_repl : AbsRepl;
}.

(** A server that nobody replicates, and that replicates nobody. *)
Definition alone (offset : Z) : AbsRepl := mk_abs_repl None ∅ [] offset.

Definition watch_of (w : gmap Z (gset string * bool)) (id : Z) : gset string * bool :=
  unwrap_or (w !! id) (∅, false).

(** A write to a key, as a client that watches some sees it. *)
Definition touched (c : Cmd.t) (w : gset string * bool) : gset string * bool :=
  match dirty_key c with
  | Some k => (w.1, w.2 || bool_decide (k ∈ w.1))
  | None => w
  end.

Definition log_entry (x : Cmd.t * bytes) (r : Reply) : list (Cmd.t * bytes) :=
  match r with
  | Ok (Some _) => if Cmd.to_be_broadcast x.1 then [x] else []
  | _ => []
  end.

(** A message to each of some clients. *)
Definition spread (ids : list Z) (l : list (Cmd.t * bytes)) : list (Z * bytes) :=
  flat_map (fun x => List.map (fun id => (id, x.2)) ids) l.

(** The offset moves with the bytes of a request: a master's with every write it
    tries, a replica's with everything that answers. *)
Definition add_offset (off n : Z) : Z := if -1 <? off then wrap_i64 (off + n) else off.

Definition moves_offset (m : bool) (x : Cmd.t * bytes) (r : Reply) : bool :=
  if m then match r with Ok None => false | _ => true end else Cmd.to_be_broadcast x.1.

Section Spec.
Context `{Env}.

Definition advance (m : bool) (x : Cmd.t * bytes) (r : Reply) (p : AbsRepl) : AbsRepl :=
  mk_abs_repl (ar_master p) (ar_replicas p)
    (ar_queue p ++ spread (iter_set (ar_replicas p)) (log_entry x r))
    (if moves_offset m x r then add_offset (ar_offset p) (len x.2) else ar_offset p).

(** A command that runs, for a client or for the master. *)
Definition run_as (m : bool) (now : Z) (x : Cmd.t * bytes) (a : AbsState) : AbsState * Reply :=
  let (ks, r) := keyspace_spec (now, x.1) (ab_keys a) in
  (mk_abs_state ks (ab_txns a) (touched x.1 <$> ab_watch a) (ab_log a ++ log_entry x r) (advance m x r (ab_repl a)), r).

Definition run_spec := run_as false.

(** The master is answered errors, and what must always be answered. *)
Definition heard (m : bool) (x : Cmd.t * bytes) (r : Reply) : Reply :=
  match r with
  | Ok (Some _) => if negb m || Cmd.always_response x.1 then r else Ok None
  | _ => r
  end.

(** The end of a transaction. *)
Definition closed (id : Z) (a : AbsState) : AbsState :=
  mk_abs_state (ab_keys a) (delete id (ab_txns a)) (delete id (ab_watch a)) (ab_log a) (ab_repl a).

Definition with_txn (id : Z) (q : list (Cmd.t * bytes)) (a : AbsState) : AbsState :=
  mk_abs_state (ab_keys a) (<[id := q]> (ab_txns a)) (ab_watch a) (ab_log a) (ab_repl a).

Definition with_watch (w : gmap Z (gset string * bool)) (a : AbsState) : AbsState :=
  mk_abs_state (ab_keys a) (ab_txns a) w (ab_log a) (ab_repl a).

Definition with_repl (p : AbsRepl) (a : AbsState) : AbsState :=
  mk_abs_state (ab_keys a) (ab_txns a) (ab_watch a) (ab_log a) p.

(** A client becomes a replica. *)
Definition joined (id : Z) (p : AbsRepl) : AbsRepl :=
  mk_abs_repl (ar_master p) (ar_replicas p ∪ {[id]}) (ar_queue p) (ar_offset p).

Definition wire (r : RespType) : bytes := match serialize r with Ret b => b | Panic => [] end.

(** [+FULLRESYNC], and the empty snapshot behind it. *)
Definition resync_message (off : Z) : bytes :=
  wire (SimpleStr (Some (KW_FULLRESYNC +:+ " " +:+ repl_id +:+ " " +:+ show_Z (Z.max off 0)))) ++
  wire (Resp.RDB (base64_decode empty_rdb_b64)).

(** The answers of the commands of a transaction come in one array. *)
Definition exec_item (r : Reply) : option RespType :=
  match r with Ok o => o | Err e => Some (into_resp e) end.

Definition exec_reply (rs : list Reply) : RespType :=
  let l := omap exec_item rs in
  match l with [] => empty_array | _ => build_array (len l) l end.

Definition refused (msg : string) : Reply := Err (UnsupportedCmdStructure msg).

(** A command with its bytes, from a client, at a time. *)
Definition client_spec (now id : Z) (x : Cmd.t * bytes) (a : AbsState) : AbsState * Reply :=
  match ab_txns a !! id with
  | Some q =>
      match x.1 with
      | Cmd.EXEC =>
          if (watch_of (ab_watch a) id).2 then (closed id a, Ok (Some null_array))
          else let (a', rs) := spec_all (run_spec now) q a in (closed id a', Ok (Some (exec_reply rs)))
      | Cmd.DISCARD => (closed id a, Ok response_ok)
      | Cmd.WATCH _ => (a, Ok (Some (Error (Some "ERR WATCH inside MULTI is not allowed"%string))))
      | _ => (with_txn id (q ++ [x]) a, Ok (Some (SimpleStr (Some KW_QUEUED))))
      end
  | None =>
      let m := bool_decide (ar_master (ab_repl a) = Some id) in
      match x.1 with
      | Cmd.MULTI => (with_txn id [] a, Ok response_ok)
      | Cmd.EXEC => (a, refused "ERR EXEC without MULTI")
      | Cmd.DISCARD => (a, refused "ERR DISCARD without MULTI")
      | Cmd.WATCH keys =>
          let w := watch_of (ab_watch a) id in
          (with_watch (<[id := (list_to_set keys ∪ w.1, w.2)]> (ab_watch a)) a, Ok response_ok)
      | Cmd.UNWATCH => (with_watch (delete id (ab_watch a)) a, Ok response_ok)
      | Cmd.REPLCONF _ => (a, Ok response_ok)
      | Cmd.PSYNC _ _ =>
          (with_repl (joined id (ab_repl a)) a, Ok (Some (Bytes (Some (resync_message (ar_offset (ab_repl a)))))))
      | _ => let (a', r) := run_as m now x a in (a', heard m x r)
      end
  end.

Definition run_admits (now : Z) (x : Cmd.t * bytes) (a : AbsState) : bool :=
  keyspace_admits (now, x.1) (ab_keys a).

(** The master sends commands on values only, and is not asked for a snapshot. *)
Definition client_admits (now id : Z) (x : Cmd.t * bytes) (a : AbsState) : bool :=
  let m := bool_decide (ar_master (ab_repl a) = Some id) in
  match ab_txns a !! id with
  | Some q =>
      negb m &&
      match x.1 with
      | Cmd.EXEC => (watch_of (ab_watch a) id).2 || admits_all (run_spec now) (run_admits now) q a
      | _ => true
      end
  | None =>
      match x.1 with
      | Cmd.MULTI | Cmd.EXEC | Cmd.DISCARD | Cmd.WATCH _ | Cmd.UNWATCH => negb m
      | Cmd.REPLCONF (CmdArg.ListeningPort _ | CmdArg.Capa _) => negb m
      | Cmd.PSYNC i off => negb m && (String.eqb i "?" && (off =? -1)) && is_some (base64_decode empty_rdb_b64)
      | _ => run_admits now x a
      end
  end.
End Spec.

(** ** Every answer of the specification has a wire form *)
Definition prints (r : RespType) : Prop := exists b, serialize r = Ret b.

Definition answers (r : Reply) : Prop :=
  match r with Ok (Some resp) => prints resp | _ => True end.

Lemma prints_array n v : Forall prints v -> prints (Array n (Some v)).
Proof.
  intros Hv. unfold prints. rewrite serialize_array. assert (exists b, serialize_items v = Ret b) as [b ->].
  { induction Hv as [|r v [b Hb] _ [bs Hbs]]; [by eexists|]. cbn. rewrite Hb, Hbs. by eexists. }
  by eexists.
Qed.

Lemma prints_null_array n : prints (Array n None).
Proof. by eexists. Qed.
Lemma prints_bulk s : prints (bulk s).
Proof. by eexists. Qed.
Lemma prints_null_bulk : prints null_bulk.
Proof. by eexists. Qed.
Lemma prints_int n : prints (Integer (Some n)).
Proof. by eexists. Qed.
Lemma prints_simple s : prints (SimpleStr (Some s)).
Proof. by eexists. Qed.
#[export] Hint Resolve prints_null_array prints_bulk prints_null_bulk prints_int prints_simple : redis.

Lemma prints_bulks n l : prints (Array n (Some (List.map bulk l))).
Proof. apply prints_array, List.Forall_map, Forall_true. apply prints_bulk. Qed.
#[export] Hint Resolve prints_bulks : redis.

Lemma prints_entries es : prints (entries_reply es).
Proof.
  apply prints_array, List.Forall_map, Forall_true. intros [id vs]. unfold entry_resp.
  apply prints_array. repeat constructor; cbn [fst snd]; auto with redis.
Qed.
#[export] Hint Resolve prints_entries : redis.

Lemma string_answers op o : answers (string_spec op o).2.
Proof.
  destruct op; cbn; [apply prints_simple|..].
  - destruct o as [[s exp]|]; [destruct (live now exp)|]; cbn; auto with redis.
  - destruct (unwrap_or o _) as [s exp]. destruct (next_number s); cbn; auto with redis.
Qed.

Lemma list_answers op o : answers (list_spec op o).2.
Proof.
  destruct op as [| |[n|]| |]; cbn; auto with redis.
  - destruct o; cbn; auto with redis. unfold popped. destruct (take _ _) as [|v vs]; [apply prints_null_array|apply (prints_bulks _ (v :: vs))].
  - destruct (unwrap_or o []); cbn; auto with redis.
Qed.

Lemma bitmap_answers op o : answers (bitmap_spec op o).2.
Proof.
  unfold bitmap_spec. destruct (unwrap_or o (0, ∅)) as [n bs]. destruct op; cbn; auto with redis.
  destruct (unwrap_or o _) as [n' bs']. repeat case_match; cbn; auto with redis.
Qed.

Lemma stream_answers op o : answers (stream_spec op o).2.
Proof.
  destruct op; cbn; auto with redis.
  - destruct (next_id _ _ _); cbn; auto with redis.
  - destruct (take _ _); cbn; auto with redis.
Qed.

Lemma zset_answers op o : answers (zset_spec op o).2.
Proof.
  destruct op; cbn; auto with redis.
  - destruct o as [sm|]; cbn; [destruct (sm !! member)|]; cbn; auto with redis. by eexists.
  - destruct (unwrap_or o ∅ !! member); cbn; auto with redis.
Qed.

Lemma on_key_answers {Op A} (spec : Op -> option A -> option A * Reply) foreign (inj : A -> AbsValue) prj key op ks :
  (forall o, answers (spec op o).2) ->
  (forall type r, foreign key op type = Some r -> answers r) ->
  answers (on_key spec foreign inj prj key op ks).2.
Proof.
  intros Hs Hf. unfold on_key. destruct (ks !! key) as [v|].
  - destruct (prj v) as [a|].
    + specialize (Hs (Some a)). by destruct (spec op (Some a)).
    + cbn. destruct (foreign key op (abs_type v)) as [r|] eqn:E; [|done]. by eapply Hf.
  - specialize (Hs None). by destruct (spec op None).
Qed.

Lemma keyspace_answers op ks : answers (keyspace_spec op ks).2.
Proof.
  destruct op as [now c]. unfold keyspace_spec. cbn [fst snd].
  destruct c; cbn [snd answers]; auto with redis;
    try (apply on_key_answers; intros;
      [first [apply string_answers|apply list_answers|apply bitmap_answers|apply stream_answers|apply zset_answers]
      |match goal with H : _ = Some ?r |- _ => unfold string_foreign, list_foreign, bitmap_foreign, stream_foreign, zset_foreign in H;
         repeat case_match; by simplify_eq end]).
  - apply prints_simple.
  - match goal with |- context [geo_score ?x ?y] => destruct (geo_score x y); [|done] end. apply on_key_answers; [intros; apply zset_answers|]. by intros ? ? [= <-].
  - unfold read_bits. cbn [snd]. destruct (operand key ks); cbn; auto with redis.
  - unfold read_bits. cbn [snd]. destruct (operand key ks); cbn; auto with redis.
  - unfold bitop_spec. match goal with |- context [match ?x with Ok _ => _ | Err _ => _ end] => destruct x as [[]|] end;
      cbn; auto with redis.
Qed.

(** ** What the handler keeps for a client *)

(** The watches of a client. *)
Definition watches_as (r : Registry) (id : Z) (w : gset string * bool) : Prop :=
  (forall k, k ∈ w.1 <-> watches r id k <> None) /\ is_any_dirty r id = w.2.

Definition log_bytes (l : list (Cmd.t * bytes)) : bytes := mjoin (List.map snd l).

Lemma log_bytes_one c b : log_bytes [(c, b)] = b.
Proof. apply app_nil_r. Qed.

Lemma log_bytes_app l1 l2 : log_bytes (l1 ++ l2) = log_bytes l1 ++ log_bytes l2.
Proof. unfold log_bytes. by rewrite map_app, join_app. Qed.

(** The part in replication. *)
Definition repl_of (s : State) : option AbsRepl :=
  (fun off => mk_abs_repl (master (clients s)) (slave_set (clients s)) (response_queue (handler s)) off) <$> host_offset s.

(** The append-only file, if there is one, is on a disk that takes what it is given,
    and has been given [b]. *)
Definition holds_log (s : State) (b : bytes) : Prop :=
  match aof (handler s) with Some (Some f) => aof_disk f = [] /\ aof_text f = b | _ => True end.

(** What is added to the file. *)
Definition logs (s s' : State) (l : list (Cmd.t * bytes)) : Prop :=
  forall b, holds_log s b -> holds_log s' (b ++ log_bytes l).

Lemma logs_nothing s s' : (forall b, holds_log s b -> holds_log s' b) -> logs s s' [].
Proof. intros Hl b Hb. unfold log_bytes. cbn. rewrite app_nil_r. auto. Qed.

(** The state keeps what the specification says, and the append-only file, if there
    is one, holds the log. *)
Record keeps_for (s : State) (a : AbsState) : Prop := {
  kf_keys : represents (data (handler s)) (ab_keys a);
  kf_txns : txns s = ab_txns a;
  kf_watch : forall id, watches_as (registry (handler s)) id (watch_of (ab_watch a) id);
  kf_log : holds_log s (log_bytes (ab_log a));
  kf_repl : repl_of s = Some (ab_repl a);
}.

(** Nothing that has been written leaves the file. *)
Definition grows (w w' : option (option AofFile)) : Prop :=
  match w, w' with
  | Some (Some f), Some (Some f') => aof_filepath f' = aof_filepath f /\ aof_file f `prefix_of` aof_file f'
  | Some (Some _), _ => False
  | _, _ => True
  end.

#[export] Instance grows_preorder : PreOrder grows.
Proof.
  split; [by intros [[f|]|]|]. intros [[f1|]|] [[f2|]|] [[f3|]|]; cbn; try done.
  intros [-> H12] [-> H23]. split; [done|]. by etransitivity.
Qed.

(** What a client's commands leave alone. *)
Record quiet (s s' : State) : Prop := {
  q_auth : auth s' = auth s;
  q_interest : interest s' = interest s;
  q_master : master (clients s') = master (clients s);
  q_clock : clock s' = clock s;
  q_store : store (registry (handler s')) = store (registry (handler s));
  q_list : backlog_list (registry (handler s')) = backlog_list (registry (handler s));
  q_stream : backlog_stream (registry (handler s')) = backlog_stream (registry (handler s));
  q_subs : subscribers (handler s') = subscribers (handler s);
  q_file : grows (aof (handler s)) (aof (handler s'));
}.

#[export] Instance quiet_preorder : PreOrder quiet.
Proof.
  split; [done|]. intros x y z [] []. split; try congruence. by etransitivity.
Qed.

Lemma quiet_subscriber s s' id : quiet s s' -> is_subscriber s id = false -> is_subscriber s' id = false.
Proof. intros Hq. unfold is_subscriber. by rewrite (q_subs _ _ Hq). Qed.

(** The master is the one of the table. *)
Lemma keeps_master s a id : keeps_for s a ->
  is_master (clients s) id = bool_decide (ar_master (ab_repl a) = Some id).
Proof.
  intros Hk. pose proof (kf_repl _ _ Hk) as Hr. unfold repl_of in Hr. destruct (host_offset s); [|done].
  injection Hr as <-. cbn. unfold is_master. destruct (master (clients s)) as [x|]; [|done].
  destruct (Z.eqb_spec x id) as [->|Hne]; [by rewrite bool_decide_eq_true_2|]. rewrite bool_decide_eq_false_2; [done|naive_solver].
Qed.

(** ** Watches *)
Lemma watches_as_touch r id w c : watches_as r id w -> watches_as (set_dirty r c) id (touched c w).
Proof.
  intros [Hk Hd]. split.
  - intros k. rewrite watches_set_dirty. transitivity (k ∈ w.1); [unfold touched; by destruct (dirty_key c)|].
    rewrite Hk. by destruct (watches r id k).
  - apply eq_true_iff_eq. rewrite is_any_dirty_spec. setoid_rewrite watches_set_dirty.
    unfold touched. destruct (dirty_key c) as [key|]; cbn; rewrite <- Hd.
    + rewrite orb_true_iff, is_any_dirty_spec, bool_decide_eq_true, Hk. split.
      * intros [k H]. destruct (watches r id k) as [d|] eqn:Hw; [|done]. injection H as H.
        apply orb_true_iff in H as [->|H%bool_decide_eq_true]; [left; eauto|right]. injection H as ->. by rewrite Hw.
      * intros [[k H]|H]; [exists k; by rewrite H|]. exists key. destruct (watches r id key); [|done].
        by rewrite bool_decide_true, orb_true_r.
    + rewrite is_any_dirty_spec. apply exist_proper. intros k. destruct (watches r id k) as [d|]; [|done].
      by rewrite bool_decide_false, orb_false_r.
Qed.

Lemma watch_of_touched c m id : watch_of (touched c <$> m) id = touched c (watch_of m id).
Proof.
  unfold watch_of. rewrite lookup_fmap. destruct (m !! id); [done|]. cbn. unfold touched.
  destruct (dirty_key c); [|done]. cbn. by rewrite bool_decide_false by set_solver.
Qed.

Lemma watches_as_watch r id w id' keys : watches_as r id w ->
  watches_as (watch r keys id') id (if decide (id' = id) then (list_to_set keys ∪ w.1, w.2) else w).
Proof.
  intros [Hk Hd]. split.
  - intros k. rewrite watches_watch. destruct (decide (id' = id)) as [->|Hne]; cbn.
    + rewrite elem_of_union, elem_of_list_to_set, Hk. destruct (watches r id k); [naive_solver|].
      destruct (decide (k ∈ keys /\ id = id)); naive_solver.
    + rewrite Hk. destruct (watches r id k); [done|]. by rewrite decide_False by naive_solver.
  - transitivity w.2; [|by destruct (decide _)]. rewrite <- Hd. apply eq_true_iff_eq.
    rewrite !is_any_dirty_spec. apply exist_proper. intros k. rewrite watches_watch.
    destruct (watches r id k); [done|]. by destruct (decide _).
Qed.

Lemma watches_as_unwatch r id w id' : watches_as r id w ->
  watches_as (unwatch_all r id') id (if decide (id' = id) then (∅, false) else w).
Proof.
  intros [Hk Hd]. split.
  - intros k. rewrite watches_unwatch. destruct (decide (id' = id)); [set_solver|apply Hk].
  - apply eq_true_iff_eq. rewrite is_any_dirty_spec. setoid_rewrite watches_unwatch.
    destruct (decide (id' = id)); [naive_solver|]. by rewrite <- Hd, is_any_dirty_spec.
Qed.

Lemma watch_of_insert m id w id' : watch_of (<[id := w]> m) id' = if decide (id = id') then w else watch_of m id'.
Proof. unfold watch_of. destruct (decide (id = id')) as [->|]; by rewrite ?lookup_insert_eq, ?lookup_insert_ne. Qed.

Lemma watch_of_delete m id id' :
  watch_of (delete id m) id' = if decide (id = id') then (∅, false) else watch_of m id'.
Proof. unfold watch_of. destruct (decide (id = id')) as [->|]; by rewrite ?lookup_delete_eq, ?lookup_delete_ne. Qed.

(** ** [handle] *)
(** The bytes of an answer. *)
Definition answer (r : Reply) : Result bytes bytes :=
  match r with
  | Ok (Some resp) => Ok (wire resp)
  | Ok None => Ok []
  | Err e => Err (wire (into_resp e))
  end.

(** What running a command leaves, for its sender or for [EXEC]. *)
Definition output (serialized : bool) (r : Reply) : Result CmdOutput CmdOutput :=
  match r with
  | Ok (Some resp) => Ok (if serialized then OutBytes (wire resp) else OutResp resp)
  | Ok None => Ok OutNone
  | Err e => Err (if serialized then OutBytes (wire (into_resp e)) else OutResp (into_resp e))
  end.

Lemma serialize_wire r : prints r -> serialize r = Ret (wire r).
Proof. intros [b Hb]. unfold wire. by rewrite Hb. Qed.

Lemma prints_into_resp e : prints (into_resp e).
Proof. apply into_error_ok. Qed.
#[export] Hint Resolve prints_into_resp : redis.

Section Handle.
Context `{Env}.

Lemma with_same_data s : with_data s (data (handler s)) = s.
Proof. by destruct s as [[] ? ? ? ? ? ? ? ?]. Qed.

(** The steps of [advance]. *)
Definition queued_for (l : list (Cmd.t * bytes)) (p : AbsRepl) : AbsRepl :=
  mk_abs_repl (ar_master p) (ar_replicas p) (ar_queue p ++ spread (iter_set (ar_replicas p)) l) (ar_offset p).

Definition counts (f : bool) (n : Z) (p : AbsRepl) : AbsRepl :=
  mk_abs_repl (ar_master p) (ar_replicas p) (ar_queue p) (if f then add_offset (ar_offset p) n else ar_offset p).

Lemma advance_steps m c b r p :
  counts (m && match r with Ok None => false | _ => true end) (len b)
    (queued_for (log_entry (c, b) r) (counts (Cmd.to_be_broadcast c && negb m) (len b) p)) = advance m (c, b) r p.
Proof.
  unfold advance, counts, queued_for, moves_offset. cbn. f_equal.
  destruct m; cbn; [by rewrite andb_false_r|by rewrite andb_true_r].
Qed.

Lemma queued_nothing p : queued_for [] p = p.
Proof. unfold queued_for. cbn. rewrite app_nil_r. by destruct p. Qed.

Lemma counts_nothing n p : counts false n p = p.
Proof. by destruct p. Qed.

Lemma repl_counts s n p : repl_of s = Some p -> repl_of (with_app s (host_add_bytes_count (app s) n)) = Some (counts true n p).
Proof.
  unfold repl_of, host_offset, host_add_bytes_count. destruct (host_stats (app s)) as [h|] eqn:Hh; cbn; rewrite ?Hh; [|done].
  intros [= <-]. unfold counts, add_offset, add_bytes_count. cbn. by destruct (-1 <? offset h).
Qed.

Lemma repl_stats s p : repl_of s = Some p -> host_stats (app s) <> None.
Proof. unfold repl_of, host_offset. by destruct (host_stats (app s)). Qed.

(** Before and after a command: the watches of its key are marked, the offset moves,
    and its request is logged and queued for the replicas. *)
Lemma quiet_before c b m s p : repl_of s = Some p ->
  exists s', before_cmd c b m s = Ret (s', tt) /\ quiet s s' /\ data (handler s') = data (handler s) /\
    registry (handler s') = set_dirty (registry (handler s)) c /\ (forall b, holds_log s b -> holds_log s' b) /\
    repl_of s' = Some (counts (Cmd.to_be_broadcast c && negb m) (len b) p).
Proof.
  intros Hp. rewrite before_cmd_ok by (by eapply repl_stats). eexists. split; [done|].
  assert (forall s1, quiet s1 (with_registry s1 (set_dirty (registry (handler s1)) c))) as Hq.
  { intros s1. destruct (set_dirty_watchlist (registry (handler s1)) c) as [w ->]. by split. }
  destruct (_ && _); [|split_and!; [apply Hq|done..|by rewrite counts_nothing]].
  split; [by etransitivity; [apply Hq|]|]. split_and!; [done..|]. by apply repl_counts.
Qed.

Lemma iter_set_empty : iter_set (∅ : gset Z) = [].
Proof. unfold iter_set. rewrite elements_empty. apply Permutation_nil_r. apply hash_order_perm. Qed.

Lemma replicas_iter s : replicas s = iter_set (slave_set (clients s)).
Proof. unfold replicas, slave_set. by destruct (slaves (clients s)); cbn [unwrap_or]; [|rewrite iter_set_empty]. Qed.

(** The log and the queue. *)
Lemma quiet_log c b s p : repl_of s = Some p ->
  exists s', (aof_append b;; s ← get_state;
      iterate (fun id => push_response id b) (match slaves (clients s) with Some l => iter_set l | None => [] end)) s = Ret (s', tt) /\
    quiet s s' /\ data (handler s') = data (handler s) /\ registry (handler s') = registry (handler s) /\
    app s' = app s /\ logs s s' [(c, b)] /\ repl_of s' = Some (queued_for [(c, b)] p).
Proof.
  intros Hp. rewrite bind_unfold. unfold aof_append, modify at 1. cbv beta iota. rewrite get_bind, adds_iterate_push.
  eexists. split; [reflexivity|]. unfold logs, holds_log.
  assert (repl_of (with_queue s (response_queue (handler s) ++ List.map (fun id => (id, b)) (replicas s))) =
    Some (queued_for [(c, b)] p)) as Hrepl.
  { unfold repl_of in *. cbn [clients with_queue handler response_queue]. change (host_offset (with_queue s ?q)) with (host_offset s).
    destruct (host_offset s); [|done]. injection Hp as <-. unfold queued_for, spread. cbn. by rewrite app_nil_r, replicas_iter. }
  destruct (aof (handler s)) as [[a|]|] eqn:Ha; cbn -[writer_write log_bytes]; rewrite ?Ha; cbn -[writer_write log_bytes];
    pose proof (fun a => writer_write_grows a b) as Hgrow; pose proof (fun a => writer_write_sound a b) as Hsound.
  all: split; [split; try done; cbn -[writer_write log_bytes]; rewrite Ha; first [done|apply Hgrow]|].
  all: split_and!; try done; cbn -[writer_write log_bytes]; rewrite ?Ha; try done.
  intros x [Hd <-]. rewrite log_bytes_one. destruct (Hsound a Hd). by split.
Qed.

Lemma quiet_after c b m r s p : repl_of s = Some p -> exists s', after_reply c b m s = Ret (s', tt) /\ quiet s s' /\
  data (handler s') = data (handler s) /\ registry (handler s') = registry (handler s) /\
  logs s s' (log_entry (c, b) (Ok (Some r))) /\
  repl_of s' = Some (counts m (len b) (queued_for (log_entry (c, b) (Ok (Some r))) p)).
Proof.
  intros Hp. unfold after_reply. rewrite bind_unfold. unfold modify at 1. cbv beta iota.
  set (s0 := with_flags s _ _). assert (quiet s s0 /\ repl_of s0 = Some p) as [Hq0 Hp0] by (by split).
  assert (exists s1, (if Cmd.to_be_broadcast c then
      aof_append b;; s ← get_state;
      iterate (fun id => push_response id b) (match slaves (clients s) with Some l => iter_set l | None => [] end)
      else mret tt) s0 = Ret (s1, tt) /\ quiet s s1 /\ data (handler s1) = data (handler s) /\
    registry (handler s1) = registry (handler s) /\
    logs s s1 (log_entry (c, b) (Ok (Some r))) /\
    repl_of s1 = Some (queued_for (log_entry (c, b) (Ok (Some r))) p)) as (s1 & Hs1 & Hq1 & Hd1 & Hr1 & Ha1 & Hp1).
  { unfold log_entry. cbn [fst]. destruct (Cmd.to_be_broadcast c).
    - destruct (quiet_log c b s0 p Hp0) as (s1 & Hs1 & Hq1 & Hd1 & Hr1 & _ & Ha1 & Hp1). exists s1.
      split_and!; [done|by transitivity s0|done..].
    - exists s0. rewrite queued_nothing. split_and!; [done..|by apply logs_nothing|done]. }
  rewrite bind_unfold, Hs1. destruct m; [|exists s1; by rewrite counts_nothing].
  eexists. split; [reflexivity|]. split; [by transitivity s1; [|split]|]. split_and!; [done..|]. by apply repl_counts.
Qed.

(** A command that is dispatched and answers. *)
Lemma execute_run e c b cl fd ser m s s1 s2 r p : is_subscriber s cl = false -> is_master (clients s) cl = m ->
  before_cmd c b m s = Ret (s1, tt) -> dispatch e c cl fd false s1 = Ret (s2, r) -> answers r -> repl_of s2 = Some p ->
  exists s3, execute_body e c b cl fd ser s = Ret (s3, output ser (heard m (c, b) r)) /\ quiet s2 s3 /\
    data (handler s3) = data (handler s2) /\ registry (handler s3) = registry (handler s2) /\
    logs s2 s3 (log_entry (c, b) r) /\
    repl_of s3 = Some (counts (m && match r with Ok None => false | _ => true end) (len b) (queued_for (log_entry (c, b) r) p)).
Proof.
  intros Hsub Hm Hb Hd Hr Hp. unfold execute_body. rewrite get_bind, Hsub. cbn [andb].
  rewrite Hm, bind_unfold, Hb, bind_unfold, Hd.
  assert (logs s2 s2 []) as Hsame by (by apply logs_nothing).
  destruct r as [[resp|]|err]; cbn [answers heard output fst] in *.
  - destruct (quiet_after c b m resp s2 p Hp) as (s3 & Hs3 & Hrest). exists s3. rewrite andb_true_r. split; [|done].
    rewrite bind_unfold, Hs3. destruct (negb m || Cmd.always_response c); [|done]. destruct ser; [|done].
    rewrite bind_unfold. unfold of_outcome. by rewrite serialize_wire.
  - exists s2. by rewrite andb_false_r, queued_nothing, counts_nothing.
  - rewrite andb_true_r, queued_nothing, bind_unfold.
    exists (if m then with_app s2 (host_add_bytes_count (app s2) (len b)) else s2).
    assert ((if m then modify (fun s => with_app s (host_add_bytes_count (app s) (len b))) else mret tt) s2 =
      Ret (if m then with_app s2 (host_add_bytes_count (app s2) (len b)) else s2, tt)) as -> by (by destruct m).
    cbv beta iota. split; [destruct ser; [|done]|].
    + rewrite bind_unfold. unfold of_outcome, into_error_bytes. by rewrite (serialize_wire _ (prints_into_resp err)).
    + destruct m; [|by rewrite counts_nothing]. split; [by split|]. split_and!; [done..|by apply repl_counts].
Qed.

Lemma dispatch_keyspace e c cl fd s ks : keyspace_admits (clock s, c) ks = true ->
  dispatch e c cl fd false s =
  match keyspace_step (clock s, c) (data (handler s)) with
  | Ret (d, r) => Ret (with_data s d, r)
  | Panic => Panic
  end.
Proof.
  intros Hok. destruct c; try (cbn in Hok; discriminate);
    unfold dispatch, keyspace_step; rewrite get_bind; cbn [fst snd]; unfold reads, writes, on_data;
    cbn [outcome_bind]; rewrite ?with_same_data; try reflexivity.
  all: repeat case_match; simplify_eq; rewrite ?with_same_data; reflexivity.
Qed.

(** A command on values that runs, sent or queued. *)
Lemma run_ok e x cl fd ser m s a : is_subscriber s cl = false -> bool_decide (ar_master (ab_repl a) = Some cl) = m ->
  keeps_for s a -> run_admits (clock s) x a = true ->
  exists s', execute_body e x.1 x.2 cl fd ser s = Ret (s', output ser (heard m x (run_as m (clock s) x a).2)) /\
    keeps_for s' (run_as m (clock s) x a).1 /\ quiet s s'.
Proof.
  intros Hsub Hm Hk Hok. destruct x as [c b]. unfold run_admits, run_as in *. cbn [fst snd] in *.
  rewrite <- (keeps_master _ _ _ Hk) in Hm.
  destruct (quiet_before c b m s _ (kf_repl _ _ Hk)) as (s1 & Hb & Hq1 & Hd1 & Hr1 & Ha1 & Hp1).
  destruct (keyspace_implements (clock s, c) (data (handler s)) (ab_keys a) (kf_keys _ _ Hk) Hok) as (d & Hstep & Hrep).
  pose proof (keyspace_answers (clock s, c) (ab_keys a)) as Hans.
  destruct (keyspace_spec (clock s, c) (ab_keys a)) as [ks r]. cbn [fst snd] in *.
  destruct (execute_run e c b cl fd ser m s s1 (with_data s1 d) r (counts (Cmd.to_be_broadcast c && negb m) (len b) (ab_repl a)) Hsub Hm Hb) as (s3 & Hex & Hq3 & Hd3 & Hr3 & Ha3 & Hp3);
    [|done|exact Hp1|].
  { rewrite (dispatch_keyspace _ _ _ _ _ (ab_keys a)) by (by rewrite (q_clock _ _ Hq1)).
    by rewrite Hd1, (q_clock _ _ Hq1), Hstep. }
  exists s3. split; [done|]. split; [|transitivity s1; [done|]; by transitivity (with_data s1 d); [split|]].
  split; cbn [ab_keys ab_txns ab_watch ab_log ab_repl].
  - by rewrite Hd3.
  - unfold txns. rewrite Hr3. cbn. rewrite Hr1.
    destruct (set_dirty_watchlist (registry (handler s)) c) as [w ->]. apply (kf_txns _ _ Hk).
  - intros id. rewrite Hr3. cbn. rewrite Hr1, watch_of_touched. apply watches_as_touch, Hk.
  - rewrite log_bytes_app. apply Ha3, Ha1, Hk.
  - by rewrite Hp3, advance_steps.
Qed.

Lemma heard_client x r : heard false x r = r.
Proof. by destruct r as [[]|]. Qed.

Lemma run_master m now x a : ar_master (ab_repl (run_as m now x a).1) = ar_master (ab_repl a).
Proof. unfold run_as. by destruct (keyspace_spec _ _). Qed.

Lemma run_txns m now x a : ab_txns (run_as m now x a).1 = ab_txns a.
Proof. unfold run_as. by destruct (keyspace_spec _ _). Qed.

(** A client that is neither a subscriber nor the master. *)
Record plain (s : State) (a : AbsState) (id : Z) : Prop := {
  pl_sub : is_subscriber s id = false;
  pl_client : bool_decide (ar_master (ab_repl a) = Some id) = false;
}.

Lemma quiet_plain s s' a a' id : quiet s s' -> ar_master (ab_repl a') = ar_master (ab_repl a) -> plain s a id -> plain s' a' id.
Proof. intros Hq Ha []. split; [by eapply quiet_subscriber|by rewrite Ha]. Qed.

(** The commands of a transaction. *)
Lemma queue_ok cl q : forall s a, plain s a cl -> keeps_for s a ->
  admits_all (run_spec (clock s)) (run_admits (clock s)) q a = true ->
  exists s', exec_queue (queued_cmd cl) q s = Ret (s', omap exec_item (spec_all (run_spec (clock s)) q a).2) /\
    keeps_for s' (spec_all (run_spec (clock s)) q a).1 /\ quiet s s'.
Proof.
  induction q as [|x q IH]; intros s a Hp Hk Hok; [by exists s|]. cbn [admits_all] in Hok. bools.
  destruct (run_ok (fun c b => _execute_cmd 2 c b cl None false) x cl None false false s a) as (s1 & Hs1 & Hk1 & Hq1); [apply Hp..|done|done|].
  fold run_spec in *. rewrite heard_client in Hs1.
  destruct (IH s1 (run_spec (clock s) x a).1) as (s2 & Hs2 & Hk2 & Hq2);
    [eapply quiet_plain; [done|apply run_master|done]|done|by rewrite (q_clock _ _ Hq1)|].
  rewrite (q_clock _ _ Hq1) in Hs2, Hk2. destruct x as [c b]. cbn [exec_queue spec_all].
  change (queued_cmd cl c b) with (execute_body (fun c b => _execute_cmd 2 c b cl None false) c b cl None false).
  rewrite bind_unfold. cbn [fst snd] in Hs1. rewrite Hs1, bind_unfold, Hs2.
  destruct (run_spec (clock s) (c, b) a) as [a1 r]. cbn [fst snd] in *.
  destruct (spec_all _ q a1) as [a2 rs]. cbn [fst snd] in *. exists s2.
  split; [by destruct r as [[|]|]|]. split; [done|by transitivity s1].
Qed.

Lemma run_queue_txn now id p q : forall a,
  spec_all (run_spec now) q (with_txn id p a) =
    (with_txn id p (spec_all (run_spec now) q a).1, (spec_all (run_spec now) q a).2) /\
  admits_all (run_spec now) (run_admits now) q (with_txn id p a) = admits_all (run_spec now) (run_admits now) q a.
Proof.
  assert (forall x a, run_spec now x (with_txn id p a) =
    (with_txn id p (run_spec now x a).1, (run_spec now x a).2)) as Hrun.
  { intros x a. unfold run_spec, run_as. cbn. by destruct (keyspace_spec _ _). }
  induction q as [|x q IH]; intros a; [done|]. cbn [spec_all admits_all]. rewrite Hrun.
  destruct (run_spec now x a) as [a1 r] eqn:Ha. cbn [fst snd]. destruct (IH a1) as [-> ->].
  destruct (spec_all _ q a1). done.
Qed.

Lemma run_answers now x a : answers (run_spec now x a).2.
Proof.
  unfold run_spec, run_as. pose proof (keyspace_answers (now, x.1) (ab_keys a)). by destruct (keyspace_spec _ _).
Qed.

Lemma exec_reply_prints now q a : prints (exec_reply (spec_all (run_spec now) q a).2).
Proof.
  assert (Forall prints (omap exec_item (spec_all (run_spec now) q a).2)) as Hall.
  { revert a. induction q as [|x q IH]; intros a; [constructor|]. cbn [spec_all].
    pose proof (run_answers now x a) as Hr. specialize (IH (run_spec now x a).1).
    destruct (run_spec now x a) as [a1 r]. cbn [fst snd] in *. destruct (spec_all _ q a1) as [a2 rs].
    destruct r as [[r|]|e]; cbn in *; [by constructor|done|by constructor; auto with redis]. }
  unfold exec_reply. destruct Hall; [by eexists|]. rewrite build_array_cons. apply prints_array. by constructor.
Qed.

(** A change of transactions and watches. *)
Lemma keeps_txns s a m : keeps_for s a ->
  keeps_for (set_txns m s) (mk_abs_state (ab_keys a) m (ab_watch a) (ab_log a) (ab_repl a)).
Proof. by intros []. Qed.

Lemma keeps_watch s a keys id : keeps_for s a ->
  keeps_for (with_registry s (watch (registry (handler s)) keys id))
    (with_watch (<[id := (list_to_set keys ∪ (watch_of (ab_watch a) id).1, (watch_of (ab_watch a) id).2)]> (ab_watch a)) a).
Proof.
  intros []. split; try done. intros id'. cbn [ab_watch with_watch]. rewrite watch_of_insert.
  pose proof (watches_as_watch _ _ _ id keys (kf_watch0 id')) as Hw. by destruct (decide (id = id')) as [->|].
Qed.

Lemma keeps_unwatch s a id : keeps_for s a ->
  keeps_for (with_registry s (unwatch_all (registry (handler s)) id)) (with_watch (delete id (ab_watch a)) a).
Proof.
  intros []. split; try done. intros id'. cbn [ab_watch with_watch]. rewrite watch_of_delete.
  pose proof (watches_as_unwatch _ _ _ id (kf_watch0 id')) as Hw. by destruct (decide (id = id')).
Qed.

(** A change that the abstract state does not see. *)
Lemma keeps_same s s' a : keeps_for s a -> data (handler s') = data (handler s) ->
  registry (handler s') = registry (handler s) -> (forall b, holds_log s b -> holds_log s' b) -> repl_of s' = repl_of s ->
  keeps_for s' a.
Proof.
  intros [] Hd Hr Hl Hp. unfold txns in *.
  split; [by rewrite Hd|by unfold txns; rewrite Hr|by rewrite Hr|by apply Hl|by rewrite Hp].
Qed.

(** A command that runs at once. *)
Lemma handle_run c b cl fd s : txns s !! cl = None ->
  handle (Ok c) b cl fd s =
  match execute_body (fun c b => _execute_cmd 2 c b cl None false) c b cl (Some fd) true s with
  | Ret (s', o) => Ret (s', output_reply o)
  | Panic => Panic
  end.
Proof.
  intros Ht. unfold handle. rewrite get_bind. unfold is_transation, txns in *. rewrite Ht. cbn [negb].
  rewrite bind_unfold.
  change (execute_cmd c b cl (Some fd) true) with
    (execute_body (fun c b => _execute_cmd 2 c b cl None false) c b cl (Some fd) true).
  by destruct (execute_body _ c b cl (Some fd) true s) as [[]|].
Qed.

Lemma output_answer r : output_reply (output true r) = answer r.
Proof. by destruct r as [[|]|]. Qed.

(** A command about transactions, watches or replication, outside a transaction. *)
Lemma control_ok c b cl fd s a a' r : plain s a cl -> keeps_for s a -> ab_txns a !! cl = None ->
  dirty_key c = None -> Cmd.to_be_broadcast c = false -> answers r ->
  (forall e s1, keeps_for s1 a -> exists s2, dispatch e c cl (Some fd) false s1 = Ret (s2, r) /\
     keeps_for s2 a' /\ quiet s1 s2) ->
  exists s', handle (Ok c) b cl fd s = Ret (s', answer r) /\ keeps_for s' a' /\ quiet s s'.
Proof.
  intros [Hsub Hm] Hk Ht Hdirty Hb Hr Hdis. rewrite handle_run by (by rewrite (kf_txns _ _ Hk)).
  rewrite <- (keeps_master _ _ _ Hk) in Hm.
  destruct (quiet_before c b false s _ (kf_repl _ _ Hk)) as (s1 & Hs1 & Hq1 & Hd1 & Hr1 & Ha1 & Hp1).
  unfold set_dirty in Hr1. rewrite Hdirty in Hr1. rewrite Hb in Hp1. cbn [andb] in Hp1. rewrite counts_nothing in Hp1.
  destruct (Hdis (fun c b => _execute_cmd 2 c b cl None false) s1) as (s2 & Hs2 & Hk2 & Hq2).
  { apply (keeps_same s); [done..|]. by rewrite (kf_repl _ _ Hk). }
  destruct (execute_run _ c b cl (Some fd) true false s s1 s2 r _ Hsub Hm Hs1 Hs2 Hr (kf_repl _ _ Hk2))
    as (s3 & -> & Hq3 & Hd3 & Hr3 & Ha3 & Hp3).
  assert (log_entry (c, b) r = []) as Hlog by (unfold log_entry; cbn [fst]; rewrite Hb; by destruct r as [[|]|]).
  rewrite Hlog in *. cbn [andb] in Hp3. rewrite queued_nothing, counts_nothing in Hp3.
  exists s3. rewrite heard_client, output_answer. split; [done|]. split.
  - apply (keeps_same s2); [done..| |by rewrite (kf_repl _ _ Hk2)].
    intros x Hx. specialize (Ha3 x Hx). unfold log_bytes in Ha3. cbn in Ha3. by rewrite app_nil_r in Ha3.
  - transitivity s1; [done|]. by transitivity s2.
Qed.

(** A client becomes a replica. *)
Lemma psync_ok i off cl s a : keeps_for s a -> String.eqb i "?" && (off =? -1) = true ->
  is_some (base64_decode empty_rdb_b64) = true ->
  exists s', cmd_psync i off cl s = Ret (s', Ok (Some (Bytes (Some (resync_message (ar_offset (ab_repl a))))))) /\
    keeps_for s' (with_repl (joined cl (ab_repl a)) a) /\ quiet s s'.
Proof.
  intros Hk Hreq Hrdb. unfold cmd_psync. rewrite Hreq, get_bind. pose proof (kf_repl _ _ Hk) as Hr. unfold repl_of, host_offset in Hr.
  destruct (host_stats (app s)) as [h|] eqn:Hh; [|done]. injection Hr as Hr.
  destruct (base64_decode empty_rdb_b64) as [rdb|] eqn:Hdec; [|done].
  assert (offset h = ar_offset (ab_repl a)) as <- by (by rewrite <- Hr).
  unfold resync_message. rewrite Hdec. eexists. split; [reflexivity|]. split; [|by split].
  destruct Hk. split; try done. unfold repl_of, host_offset. cbn. rewrite Hh. unfold with_repl, joined. cbn. rewrite <- Hr. done.
Qed.

Lemma quiet_registry s r : store r = store (registry (handler s)) -> backlog_list r = backlog_list (registry (handler s)) ->
  backlog_stream r = backlog_stream (registry (handler s)) -> quiet s (with_registry s r).
Proof. by split. Qed.

(** The end of a transaction: its queue and the watches go. *)
Lemma keeps_closed s a id : keeps_for s a ->
  keeps_for (with_registry s (set_txn (unwatch_all (registry (handler s)) id) (delete id (txns s)))) (closed id a) /\
  keeps_for (with_registry s (unwatch_all (set_txn (registry (handler s)) (delete id (txns s))) id)) (closed id a).
Proof.
  intros Hk. pose proof (keeps_unwatch _ _ id (keeps_txns s a (delete id (txns s)) Hk)) as Hc.
  cbn in Hc. unfold closed. rewrite <- (kf_txns _ _ Hk). split; exact Hc.
Qed.

Lemma exec_ok b cl fd s a q : plain s a cl -> keeps_for s a -> ab_txns a !! cl = Some q ->
  client_admits (clock s) cl (Cmd.EXEC, b) a = true ->
  exists s', handle (Ok Cmd.EXEC) b cl fd s = Ret (s', answer (client_spec (clock s) cl (Cmd.EXEC, b) a).2) /\
    keeps_for s' (client_spec (clock s) cl (Cmd.EXEC, b) a).1 /\ quiet s s'.
Proof.
  intros Hp Hk Hq. unfold client_admits, client_spec. rewrite Hq. cbn [fst].
  assert (txns s !! cl = Some q) as Hqs by (by rewrite (kf_txns _ _ Hk)).
  destruct (kf_watch _ _ Hk cl) as [_ Hdirty].
  rewrite (pl_client _ _ _ Hp). cbn [negb andb].
  unfold handle. rewrite get_bind. unfold is_transation. unfold txns in Hqs. rewrite Hqs. cbn [negb].
  rewrite bind_unfold. unfold cmd_exec. rewrite get_bind, Hqs, Hdirty.
  destruct (watch_of (ab_watch a) cl).2; cbn [orb]; intros Hok.
  - eexists. split; [reflexivity|]. split; [by apply keeps_closed|by apply quiet_registry].
  - rewrite bind_unfold. unfold reg_modify at 1, modify at 1. cbv beta iota.
    change (with_registry s (set_txn (registry (handler s)) ?m)) with (set_txns m s).
    set (s1 := set_txns _ s). assert (keeps_for s1 (with_txn cl [] a)) as Hk1.
    { unfold with_txn. rewrite <- (kf_txns _ _ Hk). by apply keeps_txns. }
    destruct (run_queue_txn (clock s) cl [] q a) as [Hspec Hadm].
    destruct (queue_ok cl q s1 (with_txn cl [] a)) as (s2 & Hs2 & Hk2 & Hq2); [by destruct Hp; split|done|change (clock s1) with (clock s); by rewrite Hadm|].
    change (clock s1) with (clock s) in *. rewrite Hspec in Hs2, Hk2. cbn [fst snd] in Hs2, Hk2.
    rewrite bind_unfold, Hs2, bind_unfold. pose proof (exec_reply_prints (clock s) q a) as Hpr.
    destruct (spec_all _ q a) as [a' rs]. cbn [fst snd] in *.
    unfold end_txn, reg_modify at 1, modify at 1. cbv beta iota.
    eexists. split.
    + fold (exec_reply rs). change (mret (M:=M) ?x ?u) with (Ret (u, x)). cbv beta iota.
      rewrite bind_unfold. unfold of_outcome. rewrite (serialize_wire _ Hpr). reflexivity.
    + split; [|transitivity s1; [done|]; transitivity s2; [done|by apply quiet_registry]].
      destruct (keeps_closed _ _ cl Hk2) as [Hc _]. unfold closed in *. cbn in Hc. by rewrite delete_insert_eq in Hc.
Qed.

(** Commands on values, sent one after the other. *)
Lemma session_ok cl fd q : forall s a, plain s a cl -> keeps_for s a -> ab_txns a !! cl = None ->
  admits_all (run_spec (clock s)) (run_admits (clock s)) q a = true ->
  exists s', session cl fd q s = Ret (s', List.map answer (spec_all (run_spec (clock s)) q a).2) /\
    keeps_for s' (spec_all (run_spec (clock s)) q a).1 /\ quiet s s'.
Proof.
  induction q as [|[c b] q IH]; intros s a Hp Hk Ht Hok; [by exists s|]. cbn [admits_all] in Hok. bools.
  destruct (run_ok (fun c b => _execute_cmd 2 c b cl None false) (c, b) cl (Some fd) true false s a) as (s1 & Hs1 & Hk1 & Hq1);
    [apply Hp..|done|done|]. fold run_spec in *. rewrite heard_client in Hs1. cbn [session spec_all]. rewrite bind_unfold, handle_run by (by rewrite (kf_txns _ _ Hk)).
  cbn [fst snd] in Hs1. rewrite Hs1, output_answer.
  destruct (IH s1 (run_spec (clock s) (c, b) a).1) as (s2 & Hs2 & Hk2 & Hq2);
    [eapply quiet_plain; [done|apply run_master|done]|done|by unfold run_spec; rewrite run_txns|by rewrite (q_clock _ _ Hq1)|].
  rewrite (q_clock _ _ Hq1) in Hs2, Hk2. rewrite bind_unfold, Hs2.
  destruct (run_spec (clock s) (c, b) a) as [a1 r]. cbn [fst snd] in *.
  destruct (spec_all _ q a1) as [a2 rs]. cbn [fst snd] in *. exists s2. split; [done|]. split; [done|by transitivity s1].
Qed.

(** [handle] implements the specification. *)
Lemma client_ok c b cl fd s a : is_subscriber s cl = false -> keeps_for s a -> client_admits (clock s) cl (c, b) a = true ->
  exists s', handle (Ok c) b cl fd s = Ret (s', answer (client_spec (clock s) cl (c, b) a).2) /\
    keeps_for s' (client_spec (clock s) cl (c, b) a).1 /\ quiet s s'.
Proof.
  intros Hsub Hk Hok. pose proof (kf_txns _ _ Hk) as Htx. destruct (ab_txns a !! cl) as [q|] eqn:Hq.
  - assert (plain s a cl) as Hp.
    { split; [done|]. unfold client_admits in Hok. rewrite Hq in Hok. by destruct (bool_decide _). }
    assert (txns s !! cl = Some q) as Hqs by (by rewrite Htx).
    destruct (is_queued c) eqn:Hc.
    + rewrite (handle_queues c b cl fd s q Hc Hqs). unfold client_spec. rewrite Hq. cbn [fst].
      eexists. split; [by destruct c|]. split; [|by split].
      rewrite Htx. pose proof (keeps_txns s a (<[cl := q ++ [(c, b)]]> (ab_txns a)) Hk).
      by destruct c.
    + destruct c; try done; [by apply (exec_ok b cl fd s a q)|..]; unfold client_spec; rewrite Hq; cbn [fst].
      * unfold handle. rewrite get_bind. unfold is_transation. unfold txns in Hqs. rewrite Hqs. cbn [negb].
        rewrite bind_unfold. unfold cmd_discard. rewrite get_bind. unfold is_transation. rewrite Hqs.
        eexists. split; [reflexivity|]. split; [by apply keeps_closed|by apply quiet_registry].
      * unfold handle. rewrite get_bind. unfold is_transation. unfold txns in Hqs. rewrite Hqs. cbn [negb].
        exists s. by split.
  - unfold client_spec, client_admits in *. rewrite Hq in *. cbn [fst] in *.
    assert (forall s1, keeps_for s1 a -> txns s1 !! cl = None) as Hnone.
    { intros s1 Hk1. by rewrite (kf_txns _ _ Hk1). }
    destruct c; try (rewrite handle_run by (by apply Hnone);
      match goal with |- context [run_as ?m _ ?x _] =>
        destruct (run_ok (fun c b => _execute_cmd 2 c b cl None false) x cl (Some fd) true m s a Hsub eq_refl Hk Hok) as (s' & Hs' & ? & ?);
        cbn [fst snd] in Hs'; rewrite Hs', output_answer; exists s'; by destruct (run_as m (clock s) x a)
      end).
    all: assert (plain s a cl) as Hp by (split; [done|]; destruct (bool_decide _); [|done]; by repeat case_match).
    all: eapply control_ok; [done..|first [exact I|apply prints_simple|by eexists]|]; intros e s1 Hk1; pose proof (Hnone s1 Hk1) as Hn;
      unfold dispatch; rewrite get_bind.
    + unfold cmd_multi. rewrite get_bind. unfold is_transation. unfold txns in Hn. rewrite Hn.
      eexists. split; [reflexivity|]. split; [|by apply quiet_registry]. unfold with_txn.
      rewrite <- (kf_txns _ _ Hk1). by apply (keeps_txns s1).
    + unfold cmd_exec. rewrite get_bind. unfold txns in Hn. rewrite Hn. by exists s1.
    + unfold cmd_discard. rewrite get_bind. unfold is_transation. unfold txns in Hn. rewrite Hn. by exists s1.
    + eexists. split; [reflexivity|]. split; [by apply keeps_watch|by apply quiet_registry].
    + eexists. split; [reflexivity|]. split; [by apply keeps_unwatch|by apply quiet_registry].
    + destruct arg; try done; by exists s1.
    + apply andb_true_iff in Hok as [[_ Hreq]%andb_true_iff Hrdb]. by apply psync_ok.
Qed.
End Handle.

(** ** Commands of any clients, each at its time *)
Section Clients.
Context `{Env}.

Definition client_step (op : Z * Z * (Cmd.t * bytes)) (s : State) : outcome (State * Result bytes bytes) :=
  let '(now, id, x) := op in handle (Ok x.1) x.2 id (-1) (with_clock s now).

Definition clients_spec (op : Z * Z * (Cmd.t * bytes)) (a : AbsState) : AbsState * Result bytes bytes :=
  let '(now, id, x) := op in let (a', r) := client_spec now id x a in (a', answer r).

Definition clients_admit (op : Z * Z * (Cmd.t * bytes)) (a : AbsState) : bool :=
  let '(now, id, x) := op in client_admits now id x a.

Definition for_all (s : State) (a : AbsState) : Prop := keeps_for s a /\ forall id, is_subscriber s id = false.

#[export] Instance clients_implement : Implements client_step clients_spec clients_admit for_all.
Proof.
  intros [[now id] [c b]] s a [Hk Hp] Hok. unfold client_step, clients_spec, clients_admit in *. cbn [fst snd].
  destruct (client_ok c b id (-1) (with_clock s now) a) as (s' & Hs & Hk' & Hq); [|by apply (keeps_same s)|done|].
  { apply Hp. }
  change (clock (with_clock s now)) with now in *. exists s'. rewrite Hs.
  destruct (client_spec now id (c, b) a) as [a' r]. split; [done|]. split; [done|].
  intros id'. eapply quiet_subscriber; [exact Hq|apply Hp].
Qed.

(** C7: over any sequence of admitted commands from any number of clients, at any
    times ([clients_admit]), [handle] answers each what the abstract state answers.
    A command outside a transaction runs at once; inside one it is queued; [EXEC]
    runs the queue in one step and answers the array of the answers, or, when a
    watched key has been written, runs nothing; the append-only file is given the
    requests of the writes that succeeded, those of transactions included. Admitted
    are the commands on values of [keyspace_admits], with its side conditions, when
    they run, [MULTI], [EXEC], [DISCARD], [WATCH], [UNWATCH], and [REPLCONF] (port,
    capability) and [PSYNC ? -1] of a replica that joins; anything may be queued in
    a transaction that is then aborted or discarded; the master sends commands on
    values only. Not [BLPOP], [XREAD], [SUBSCRIBE], [PUBLISH], [KEYS], [ACL],
    [AUTH], [WAIT], [INFO], [CONFIG] or the geo queries. No client is a subscriber,
    and the disk takes what the log is given ([for_all]). *)
Theorem client_refines ops s a : for_all s a -> admits_all clients_spec clients_admit ops a = true ->
  exists s', run_all client_step ops s = Ret (s', (spec_all clients_spec ops a).2) /\
    for_all s' (spec_all clients_spec ops a).1.
Proof. intros Hs Hok. by apply (run_implements _ _ clients_admit for_all). Qed.
End Clients.

Lemma keeps_new s p : data (handler s) = ∅ -> txns s = ∅ -> watchlist (registry (handler s)) = ∅ ->
  holds_log s [] -> repl_of s = Some p -> keeps_for s (mk_abs_state ∅ ∅ ∅ [] p).
Proof.
  intros Hd Ht Hw Hl Hp. split; cbn; [rewrite Hd; apply represents_empty|done| |done|done].
  intros id. split.
  - intros k. unfold watches. rewrite Hw, lookup_empty. set_solver.
  - unfold is_any_dirty. by rewrite Hw.
Qed.

(** Client 7 watches a key and opens a transaction; client 8 writes the key, so
    nothing runs. The second transaction runs. *)
Definition demo_commands : list (Z * Z * (Cmd.t * bytes)) :=
  [(1000, 7, (Cmd.WATCH ["k"], [])); (1000, 7, (Cmd.MULTI, [])); (1000, 7, (Cmd.SET "k" "7" None, as_bytes "a"));
   (1001, 8, (Cmd.SET "k" "8" None, as_bytes "b")); (1002, 7, (Cmd.EXEC, []));
   (1003, 7, (Cmd.MULTI, [])); (1003, 7, (Cmd.INCR "k", as_bytes "c")); (1003, 7, (Cmd.RPUSH "k" ["x"], []));
   (1003, 7, (Cmd.GET "k", [])); (1004, 8, (Cmd.SET "k" "9" None, as_bytes "d")); (1004, 7, (Cmd.EXEC, []));
   (1005, 7, (Cmd.EXEC, []))]%string.

Definition demo_logging : State := with_aof demo_state (Some (Some (mk_aof "aof" [] [] []))).

Lemma client_refines_witness : exists s' a',
  run_all (@client_step demo_env) demo_commands demo_logging = Ret (s',
    let ok := Ok (wire (SimpleStr (Some "OK"))) in let queued := Ok (wire (SimpleStr (Some "QUEUED"))) in
    [ok; ok; queued; ok; Ok (wire null_array); ok; queued; queued; queued; ok;
     Ok (wire (Array 3 (Some [Integer (Some 10); into_resp (unsupported "k"); bulk "10"])));
     answer (refused "ERR EXEC without MULTI")]%string) /\
  for_all s' a' /\ log_bytes (ab_log a') = as_bytes "bdc".
Proof.
  destruct (@client_refines demo_env demo_commands demo_logging (mk_abs_state ∅ ∅ ∅ [] (alone 0))) as (s' & Hrun & Hs').
  - split; [by apply keeps_new|]. intros id. by split.
  - vm_compute. reflexivity.
  - exists s'. eexists. split; [rewrite Hrun; vm_compute; reflexivity|]. split; [exact Hs'|]. vm_compute. reflexivity.
Defined.
