(* ===== verification/PubSub.v ===== *)
(** * Publish and subscribe ([commands/cmd_handler.rs])

    The source counts the channels of a client by the strong count of its [Rc].
    Under the invariant [pubsub_wf] that count is the number of channels the client
    is in, which is what the replies carry; and a message reaches each subscriber
    of its channel once. *)

From S2P Require Import Prelude Text Float64 Resp CmdBuilder Store.
From S2P Require Import Registry Handler HandlerLogic.

(** ** The invariant *)

Record pubsub_wf (s : State) : Prop := {
  pw_rc : forall k set c rc, channels (handler s) !! k = Some set -> set !! c = Some rc ->
    subscribers (handler s) !! c = Some rc;
  pw_inj : forall c c' rc, subscribers (handler s) !! c = Some rc ->
    subscribers (handler s) !! c' = Some rc -> c = c';
  pw_fresh : forall c rc, subscribers (handler s) !! c = Some rc -> (rc < next_rc s)%nat;
}.

(** The channels a client is in. *)
Definition chans (s : State) (c : Z) : gset string :=
  dom (filter (fun kv => is_Some (kv.2 !! c)) (channels (handler s))).

Lemma elem_of_chans s c k :
  k ∈ chans s c <-> exists set, channels (handler s) !! k = Some set /\ is_Some (set !! c).
Proof.
  unfold chans. rewrite elem_of_dom. unfold is_Some at 1.
  setoid_rewrite map_lookup_filter_Some. done.
Qed.

(** ** Counting clones *)
Definition clones (rc : nat) (m : gmap Z nat) : Z :=
  len (List.filter (fun e => Nat.eqb e.2 rc) (map_to_list m)).

Lemma filter_perm {T} (f : T -> bool) l l' : l ≡ₚ l' -> List.filter f l ≡ₚ List.filter f l'.
Proof.
  induction 1; cbn; [done| | |by etransitivity]; repeat case_match; auto; by constructor.
Qed.

Lemma clones_eq rc c (m : gmap Z nat) : (forall c', m !! c' = Some rc -> c' = c) ->
  clones rc m = if bool_decide (m !! c = Some rc) then 1 else 0.
Proof.
  intros Huniq. unfold clones.
  assert (forall m' : gmap Z nat, (forall c', m' !! c' = Some rc -> False) ->
    List.filter (fun e => Nat.eqb e.2 rc) (map_to_list m') = []) as Hnone.
  { intros m' Hm. generalize (fun c' x => proj1 (elem_of_map_to_list m' c' x)).
    induction (map_to_list m') as [|[c' x] l IH]; intros Hin; cbn; [done|].
    destruct (Nat.eqb_spec x rc) as [->|].
    - destruct (Hm c'). apply Hin. set_solver.
    - apply IH. intros c1 x1 H1. apply Hin. set_solver. }
  case_bool_decide as Hc.
  - unfold len.
    rewrite <- (filter_perm _ _ _ (map_to_list_delete m c rc Hc)). cbn.
    rewrite Nat.eqb_refl, Hnone; [done|]. intros c' [Hne Hc']%lookup_delete_Some.
    by destruct Hne; rewrite (Huniq c' Hc').
  - rewrite Hnone; [done|]. intros c' Hc'. apply Hc. by rewrite <- (Huniq c' Hc').
Qed.

Lemma strong_count_clones s rc locals : strong_count s rc locals =
  locals + clones rc (subscribers (handler s)) +
  foldr (fun e n => clones rc e.2 + n) 0 (map_to_list (channels (handler s))).
Proof. reflexivity. Qed.

Lemma size_filter {A} (P : string * A -> Prop) `{!forall x, Decision (P x)} (m : gmap string A) :
  size (filter P m) = List.length (filter P (map_to_list m)).
Proof.
  rewrite map_filter_alt, <- length_map_to_list, map_to_list_to_map; [done|].
  apply NoDup_fmap_fst; [|apply NoDup_filter, NoDup_map_to_list].
  intros k a b [_ Ha]%list_elem_of_filter [_ Hb]%list_elem_of_filter.
  apply elem_of_map_to_list in Ha, Hb. congruence.
Qed.

(** The strong count of a subscriber, less one: the channels it is in. *)
Lemma strong_count_chans s c rc locals : pubsub_wf s -> subscribers (handler s) !! c = Some rc ->
  strong_count s rc locals - 1 = locals + Z.of_nat (size (chans s c)).
Proof.
  intros Hwf Hc. rewrite strong_count_clones, (clones_eq rc c).
  2: { intros c' Hc'. by apply (pw_inj s Hwf c' c rc). }
  rewrite bool_decide_true by done.
  unfold chans. rewrite size_dom, size_filter.
  assert (forall e, e ∈ map_to_list (channels (handler s)) ->
    clones rc e.2 = if decide (is_Some (e.2 !! c)) then 1 else 0) as Hone.
  { intros [k set] He%elem_of_map_to_list. cbn. rewrite (clones_eq rc c).
    - case_bool_decide as H1; case_decide as H2; [done| |destruct H2 as [x Hx]|done].
      + destruct H2. rewrite H1. by eauto.
      + pose proof (pw_rc s Hwf k set c x He Hx). congruence.
    - intros c' Hc'. apply (pw_inj s Hwf c' c rc); [by eapply (pw_rc s Hwf)|done]. }
  assert (foldr (fun e n => clones rc e.2 + n) 0 (map_to_list (channels (handler s))) =
    Z.of_nat (List.length (filter (fun kv : string * gmap Z nat => is_Some (kv.2 !! c))
      (map_to_list (channels (handler s)))))) as ->; [|lia].
  induction (map_to_list (channels (handler s))) as [|e l IH]; [done|].
  cbn [foldr]. rewrite filter_cons, IH, (Hone e) by (intros; try apply Hone; set_solver).
  destruct (decide _); cbn [List.length]; lia.
Qed.

(** ** Subscribing *)
Definition subscribed_bytes (k : string) (n : nat) : bytes :=
  match _get_subscribe_response k (Z.of_nat n) with Ret b => b | Panic => [] end.

(** The replies to a client in the channels [S]. *)
Fixpoint subscribe_replies (S : gset string) (keys : list string) : bytes :=
  match keys with
  | [] => []
  | k :: rest =>
      subscribed_bytes k (size ({[k]} ∪ S)) ++ subscribe_replies ({[k]} ∪ S) rest
  end.

Lemma join_wf s k c rc s' : pubsub_wf s -> subscribers (handler s) !! c = Some rc ->
  join_channel k c rc s = Ret (s', tt) ->
  pubsub_wf s' /\ subscribers (handler s') = subscribers (handler s) /\
  chans s' c = {[k]} ∪ chans s c /\ (forall c', c' <> c -> chans s' c' = chans s c').
Proof.
  intros Hwf Hc [= <-].
  set (set := unwrap_or (channels (handler s) !! k) ∅).
  assert (forall c' x, set !! c' = Some x -> subscribers (handler s) !! c' = Some x) as Hset.
  { intros c' x. unfold set. destruct (channels (handler s) !! k) as [m|] eqn:Hk; cbn; [|done].
    by apply (pw_rc s Hwf k m). }
  set (set' := match set !! c with Some _ => set | None => <[c := rc]> set end).
  assert (forall c' x, set' !! c' = Some x -> subscribers (handler s) !! c' = Some x) as Hset'.
  { intros c' x. unfold set'. destruct (set !! c); [apply Hset|].
    rewrite lookup_insert_Some. intros [[<- <-]|[_ ?]]; auto. }
  assert (forall c', is_Some (set' !! c') <-> c' = c \/ is_Some (set !! c')) as Hin.
  { intros c'. unfold set'. destruct (set !! c) as [x|] eqn:Hx.
    - split; [by right|]. intros [->|?]; [by rewrite Hx|done].
    - rewrite lookup_insert_is_Some'. naive_solver. }
  assert (forall c' k', k' ∈ chans (with_pubsub s (subscribers (handler s))
      (<[k := set']> (channels (handler s)))) c' <-> k' ∈ chans s c' \/ (k' = k /\ c' = c)) as Hch.
  { intros c' k'. rewrite !elem_of_chans. cbn. destruct (decide (k' = k)) as [->|Hne].
    - rewrite lookup_insert_eq. split.
      + intros (m & [= <-] & [->|Hs]%Hin); [by right|]. left. unfold set in Hs.
        destruct (channels (handler s) !! k) as [m|]; cbn in Hs; [by exists m|].
        rewrite lookup_empty in Hs. by destruct Hs.
      + intros Hor. exists set'. split; [done|]. apply Hin.
        destruct Hor as [(m & Hm & Hs)|[_ ->]]; [|by left]. right. unfold set. by rewrite Hm.
    - rewrite lookup_insert_ne by done. naive_solver. }
  split; [split; cbn|split; [done|split]].
  - intros k' m c' x. rewrite lookup_insert_Some. intros [[<- <-]|[_ Hm]]; [apply Hset'|].
    by apply (pw_rc s Hwf k').
  - apply (pw_inj s Hwf).
  - apply (pw_fresh s Hwf).
  - apply set_eq. intros k'. rewrite Hch, elem_of_union, elem_of_singleton. tauto.
  - intros c' Hne. apply set_eq. intros k'. rewrite Hch. tauto.
Qed.

Lemma subscribe_response k n : _get_subscribe_response k (Z.of_nat n) = Ret (subscribed_bytes k n).
Proof. reflexivity. Qed.

Lemma join_run k c rc s : exists s', join_channel k c rc s = Ret (s', tt).
Proof. by eexists. Qed.

(** What a subscription leaves. *)
Definition subscribed (c : Z) (keys : list string) (s s' : State) : Prop :=
  pubsub_wf s' /\ subscribers (handler s') = subscribers (handler s) /\
  chans s' c = list_to_set keys ∪ chans s c /\ (forall c', c' <> c -> chans s' c' = chans s c').

Lemma subscribed_cons c k keys s s1 s2 :
  subscribers (handler s1) = subscribers (handler s) ->
  chans s1 c = {[k]} ∪ chans s c -> (forall c', c' <> c -> chans s1 c' = chans s c') ->
  subscribed c keys s1 s2 -> subscribed c (k :: keys) s s2.
Proof.
  intros Hs Hc Hother (Hwf & Hs2 & Hc2 & Ho2). split_and!; [done|congruence| |].
  - rewrite Hc2, Hc. set_solver.
  - intros c' ?. by rewrite Ho2, Hother.
Qed.

Lemma subscribe_known_spec c rc keys : forall s, pubsub_wf s -> subscribers (handler s) !! c = Some rc ->
  exists s', subscribe_known c rc keys s = Ret (s', subscribe_replies (chans s c) keys) /\
    subscribed c keys s s'.
Proof.
  induction keys as [|k keys IH]; intros s Hwf Hc; cbn [subscribe_known subscribe_replies].
  - exists s. split; [done|]. split_and!; [done|done|set_solver|done].
  - destruct (join_run k c rc s) as [s1 Hj].
    destruct (join_wf s k c rc s1 Hwf Hc Hj) as (Hwf1 & Hs1 & Hc1 & Ho1).
    assert (subscribers (handler s1) !! c = Some rc) as Hrc1 by (by rewrite Hs1).
    rewrite bind_unfold, Hj, get_bind, bind_unfold, (strong_count_chans s1 c rc 0 Hwf1 Hrc1).
    rewrite Z.add_0_l, subscribe_response, Hc1. cbn [of_outcome]. unfold of_outcome. cbn [outcome_bind].
    destruct (IH s1 Hwf1 Hrc1) as (s2 & Hr & Hsub). rewrite bind_unfold, Hr, Hc1.
    exists s2. split; [done|]. by eapply subscribed_cons.
Qed.

Lemma subscribe_new_spec c rc keys : forall s, pubsub_wf s -> subscribers (handler s) !! c = Some rc ->
  NoDup keys -> (forall k, k ∈ keys -> k ∉ chans s c) ->
  exists s', subscribe_new c rc keys s = Ret (s', subscribe_replies (chans s c) keys) /\
    subscribed c keys s s'.
Proof.
  induction keys as [|k keys IH]; intros s Hwf Hc Hnd Hnin; cbn [subscribe_new subscribe_replies].
  - exists s. split; [done|]. split_and!; [done|done|set_solver|done].
  - apply NoDup_cons in Hnd as [Hk Hnd].
    rewrite get_bind, bind_unfold, (strong_count_chans s c rc 1 Hwf Hc).
    assert (1 + Z.of_nat (size (chans s c)) = Z.of_nat (size ({[k]} ∪ chans s c))) as ->.
    { rewrite size_union, size_singleton; [lia|]. specialize (Hnin k). set_solver. }
    rewrite subscribe_response. unfold of_outcome. cbn [outcome_bind].
    destruct (join_run k c rc s) as [s1 Hj].
    destruct (join_wf s k c rc s1 Hwf Hc Hj) as (Hwf1 & Hs1 & Hc1 & Ho1).
    rewrite bind_unfold, Hj, bind_unfold.
    destruct (IH s1 Hwf1) as (s2 & Hr & Hsub); [by rewrite Hs1|done| |].
    { intros k' Hk'. rewrite Hc1. specialize (Hnin k'). set_solver. }
    rewrite Hr, Hc1. exists s2. split; [done|]. by eapply subscribed_cons.
Qed.

Lemma chans_stranger s c : pubsub_wf s -> subscribers (handler s) !! c = None -> chans s c = ∅.
Proof.
  intros Hwf Hc. apply set_eq. intros k. rewrite elem_of_chans. split; [|set_solver].
  intros (m & Hm & [rc Hrc]). pose proof (pw_rc s Hwf k m c rc Hm Hrc). congruence.
Qed.

(** C27: [SUBSCRIBE] puts the client in the channels it names, and in no other, and
    answers for each the number of channels the client is then in, when the names
    are distinct or the client is a subscriber already. *)
Theorem subscribe_counts keys c s : pubsub_wf s ->
  subscribers (handler s) !! c <> None \/ NoDup keys ->
  exists s', cmd_subscribe keys c s =
      Ret (s', Ok (Some (Bytes (Some (subscribe_replies (chans s c) keys))))) /\
    pubsub_wf s' /\ is_subscriber s' c = true /\
    chans s' c = list_to_set keys ∪ chans s c /\ (forall c', c' <> c -> chans s' c' = chans s c').
Proof.
  intros Hwf Hor. unfold cmd_subscribe. rewrite get_bind, bind_unfold. unfold modify at 1. cbv beta iota.
  set (s0 := with_next_rc s (S (next_rc s))).
  assert (pubsub_wf s0) as Hwf0.
  { destruct Hwf as [H1 H2 H3]. split; cbn; [done|done|]. intros c' rc ?%H3. lia. }
  rewrite bind_unfold. destruct (subscribers (handler s) !! c) as [rc|] eqn:Hc.
  - destruct (subscribe_known_spec c rc keys s0 Hwf0 Hc) as (s' & Hr & Hw & Hs & Hcc & Ho).
    rewrite Hr. exists s'. split_and!; [done|done| |done|done]. unfold is_subscriber.
    rewrite Hs. cbn. by rewrite Hc.
  - destruct Hor as [?|Hnd]; [done|].
    rewrite bind_unfold. unfold modify at 1. cbv beta iota.
    set (s1 := with_pubsub s0 _ _).
    pose proof (chans_stranger s c Hwf Hc) as Hnone.
    assert (pubsub_wf s1) as Hwf1.
    { destruct Hwf0 as [H1 H2 H3]. split; cbn.
      - intros k m c' rc Hk Hm. rewrite lookup_insert_ne; [by eapply H1|].
        intros <-. pose proof (H1 k m c rc Hk Hm) as H4. cbn in H4. congruence.
      - intros c1 c2 rc. rewrite !lookup_insert_Some.
        intros [[<- <-]|[_ Ha]] [[<- Hb]|[_ Hb]]; [done| | |by eapply H2].
        + pose proof (pw_fresh s Hwf _ _ Hb). lia.
        + subst rc. pose proof (pw_fresh s Hwf _ _ Ha). lia.
      - intros c' rc. rewrite lookup_insert_Some. intros [[_ <-]|[_ ?%H3]]; cbn in *; lia. }
    destruct (subscribe_new_spec c (next_rc s) keys s1 Hwf1) as (s' & Hr & Hw & Hs & Hcc & Ho).
    { apply lookup_insert_eq. }
    { done. }
    { intros k _. change (chans s1 c) with (chans s c). rewrite Hnone. set_solver. }
    rewrite Hr. exists s'. split_and!; [done|done| |done|done]. unfold is_subscriber. rewrite Hs.
    cbn. by rewrite lookup_insert_eq.
Qed.

(** ** Unsubscribing *)

(** [UNSUBSCRIBE] takes the client out of the channel, answers the number of
    channels it is still in, and ends its subscriber mode with the last one. *)
Theorem unsubscribe_counts key c rc s : pubsub_wf s -> subscribers (handler s) !! c = Some rc ->
  is_Some (channels (handler s) !! key) ->
  let left := chans s c ∖ {[key]} in
  exists s', cmd_unsubscribe key c s =
      Ret (s', Ok (Some (_get_unsubscibe_response key (Z.of_nat (size left))))) /\
    pubsub_wf s' /\ chans s' c = left /\ (forall c', c' <> c -> chans s' c' = chans s c') /\
    is_subscriber s' c = negb (bool_decide (left = ∅)).
Proof.
  intros Hwf Hc [set Hset] left. unfold cmd_unsubscribe. rewrite get_bind, Hc, Hset, bind_unfold.
  unfold modify at 1. cbv beta iota.
  set (s1 := with_pubsub s _ _). rewrite get_bind.
  assert (forall c' k', k' ∈ chans s1 c' <-> k' ∈ chans s c' /\ ~ (k' = key /\ c' = c)) as Hch.
  { intros c' k'. rewrite !elem_of_chans. cbn. destruct (decide (k' = key)) as [->|Hne].
    - rewrite lookup_insert_eq. split.
      + intros (m & [= <-] & Hs). destruct (decide (c' = c)) as [->|Hcc].
        * rewrite lookup_delete_eq in Hs. by destruct Hs.
        * rewrite lookup_delete_ne in Hs by done. split; [by exists set|naive_solver].
      + intros [(m & Hm & Hs) Hn]. exists (delete c set). split; [done|].
        rewrite lookup_delete_ne by naive_solver. congruence.
    - rewrite lookup_insert_ne by done. naive_solver. }
  assert (chans s1 c = left) as Hc1.
  { apply set_eq. intros k. rewrite Hch. unfold left. set_solver. }
  assert (forall c', c' <> c -> chans s1 c' = chans s c') as Ho1.
  { intros c' Hne. apply set_eq. intros k. rewrite Hch. tauto. }
  assert (pubsub_wf s1) as Hwf1.
  { split; cbn; [|apply (pw_inj s Hwf)|apply (pw_fresh s Hwf)].
    intros k m c' x. rewrite lookup_insert_Some. intros [[<- <-]|[_ Hm]].
    - intros [_ Hx]%lookup_delete_Some. by apply (pw_rc s Hwf key set).
    - by apply (pw_rc s Hwf k m). }
  rewrite (strong_count_chans s1 c rc 0 Hwf1 Hc), Z.add_0_l, Hc1.
  destruct (Z.eqb_spec (Z.of_nat (size left)) 0) as [Hz|Hz].
  - assert (left = ∅) as Hemp by (apply leibniz_equiv, size_empty_inv; lia).
    eexists. split; [reflexivity|]. split_and!; [|by rewrite <- Hc1|done|].
    + split; cbn.
      * intros k m c' x Hk Hx. rewrite lookup_delete_ne; [by apply (pw_rc s1 Hwf1 k m)|].
        intros <-. assert (k ∈ chans s1 c) as Hin by (apply elem_of_chans; exists m; split; [done|by eauto]).
        rewrite Hc1, Hemp in Hin. set_solver.
      * intros c1 c2 x [_ ?]%lookup_delete_Some [_ ?]%lookup_delete_Some. by apply (pw_inj s Hwf _ _ x).
      * intros c' x [_ ?]%lookup_delete_Some. by apply (pw_fresh s Hwf c').
    + unfold is_subscriber. cbn. by rewrite lookup_delete_eq, bool_decide_true.
  - eexists. split; [reflexivity|]. split_and!; [done|done|done|].
    unfold is_subscriber. cbn. rewrite Hc, bool_decide_false; [done|].
    intros He. apply Hz. by rewrite He, size_empty.
Qed.

(** ** Publishing *)
Definition message_bytes (key message : string) : bytes :=
  match serialize (build_array 3 [bulk "message"; bulk key; bulk message]) with
  | Ret b => b
  | Panic => []
  end.

(** C28: a message is put in the queue once for each subscriber of its channel and
    for nobody else, and the publisher is told how many they are; without a channel
    there is no reply at all. *)
Theorem publish_reaches `{HashOrder} key message s :
  match channels (handler s) !! key with
  | Some set =>
      exists targets, cmd_publish key message s =
        Ret (with_queue s (response_queue (handler s) ++
               List.map (fun c => (c, message_bytes key message)) targets),
             Ok (Some (Integer (Some (len targets))))) /\
        NoDup targets /\ (forall c, c ∈ targets <-> key ∈ chans s c)
  | None => cmd_publish key message s = Ret (s, Ok None)
  end.
Proof.
  unfold cmd_publish. destruct (channels (handler s) !! key) as [set|] eqn:Hk.
  2: { rewrite get_bind. by rewrite Hk. }
  exists (List.map fst (iter_map set)). rewrite get_bind, Hk, bind_unfold.
  unfold of_outcome. change (serialize _) with (Ret (message_bytes key message)).
  cbn [outcome_bind]. rewrite bind_unfold.
  assert (forall (l : list (Z * nat)) s1, iterate (fun e => push_response e.1 (message_bytes key message)) l s1 =
    Ret (with_queue s1 (response_queue (handler s1) ++
      List.map (fun c => (c, message_bytes key message)) (List.map fst l)), tt)) as Hit.
  { intros l. induction l as [|e l IH]; intros s1.
    - cbn. rewrite app_nil_r. by destruct s1 as [[] ? ? ? ? ? ? ? ?].
    - cbn [iterate List.map]. rewrite bind_unfold. unfold push_response at 1, modify. rewrite IH. cbn -[message_bytes].
      by rewrite <- app_assoc. }
  rewrite Hit. assert (len (List.map fst (iter_map set)) = Z.of_nat (size set)) as ->.
  { rewrite len_map. unfold len, iter_map. rewrite <- length_map_to_list. f_equal.
    apply Permutation_length, hash_order_perm. }
  split; [done|split].
  - unfold iter_map. rewrite hash_order_perm. apply NoDup_fst_map_to_list.
  - intros c. rewrite elem_of_chans. rewrite list_elem_of_In, in_map_iff. split.
    + intros ([c' x] & <- & Hin). apply list_elem_of_In, elem_of_iter_map in Hin.
      exists set. split; [done|]. cbn. by rewrite Hin.
    + intros (m & Hm & [x Hx]). rewrite Hk in Hm. injection Hm as <-. exists (c, x). split; [done|].
      by apply list_elem_of_In, elem_of_iter_map.
Qed.

(** ** Examples *)
Lemma demo_pubsub_wf : pubsub_wf demo_state.
Proof. split; cbn; done. Qed.

Lemma subscribe_counts_witness : exists s',
  cmd_subscribe ["news"%string; "tech"%string] 7 demo_state =
    Ret (s', Ok (Some (Bytes (Some (subscribe_replies ∅ ["news"%string; "tech"%string]))))) /\
  is_subscriber s' 7 = true.
Proof.
  destruct (subscribe_counts ["news"%string; "tech"%string] 7 demo_state demo_pubsub_wf)
    as (s' & Hr & _ & Hs & _).
  - right. repeat constructor; set_solver.
  - exists s'. split; [exact Hr|exact Hs].
Defined.

(** Client 7 is in the channel [news]. *)
Definition demo_subscribed : State :=
  with_next_rc (with_pubsub demo_state {[7 := 0%nat]} {["news"%string := {[7 := 0%nat]}]}) 1%nat.

Lemma demo_subscribed_wf : pubsub_wf demo_subscribed.
Proof.
  split; cbn.
  - intros k set c rc [_ <-]%lookup_singleton_Some. done.
  - intros c c' rc [<- _]%lookup_singleton_Some [<- _]%lookup_singleton_Some. done.
  - intros c rc [_ <-]%lookup_singleton_Some. lia.
Qed.

Lemma unsubscribe_counts_witness : exists s',
  cmd_unsubscribe "news" 7 demo_subscribed =
    Ret (s', Ok (Some (_get_unsubscibe_response "news" 0))) /\ is_subscriber s' 7 = false.
Proof.
  destruct (unsubscribe_counts "news" 7 0 demo_subscribed demo_subscribed_wf eq_refl)
    as (s' & Hr & _ & _ & _ & Hs).
  - eexists. reflexivity.
  - exists s'. split; [exact Hr|exact Hs].
Defined.
