(* ===== verification/Waiting.v ===== *)
(** * [WAIT] and the acknowledgements of replicas ([commands/cmd_handler.rs])

    A [WAIT] parks its client with the offset of the moment and a counter; each
    acknowledgement of a replica that has caught up advances the counter, and the
    one that reaches the required number answers the client and registers it with
    epoll again. No acknowledgement panics, whatever is waiting. *)

From S2P Require Import Prelude Text Float64 Resp CmdBuilder BTree Store.
From S2P Require Import AppState Replication Registry Handler HandlerLogic.

(** ** No acknowledgement panics *)

(** A client that waits: its request is there, and so is its counter. *)
Definition waits (s : State) (c : Z) : Prop :=
  exists t e, backlog_wait (registry (handler s)) !! c = Some t /\
    store (registry (handler s)) !! t = Some e /\ wait_client e = Some c /\
    entry_wf (List.length (cells s)) t e.

Lemma acked_waits s id c : state_wf s -> c ∈ ack_of (registry (handler s)) id -> waits s c.
Proof.
  intros Hwf Hin. pose proof (sw_reg s Hwf) as Hr.
  destruct (rw_ack _ Hr id c Hin) as (t & e & Hw & He & _).
  exists t, e. split_and!; [done|done| |by apply (sw_entry s Hwf)].
  apply (rw_wait _ Hr) in Hw as (e' & He' & Hc). congruence.
Qed.

(** What the scan leaves alone. *)
Definition scanned (s s' : State) : Prop :=
  registry (handler s') = registry (handler s) /\ List.length (cells s') = List.length (cells s).

#[export] Instance scanned_preorder : PreOrder scanned.
Proof. split; [done|]. intros x y z [] []. split; congruence. Qed.

Lemma waits_scanned s s' c : scanned s s' -> waits s c -> waits s' c.
Proof. intros [Hr Hc]. unfold waits. by rewrite Hr, Hc. Qed.

Lemma ack_scan_total off ids : forall s d1 d2, (forall c, c ∈ ids -> waits s c) ->
  exists s' d1' d2', ack_scan off ids d1 d2 s = Ret (s', (d1', d2')) /\ scanned s s' /\
    (forall c, c ∈ d2' -> c ∈ d2 \/ c ∈ ids).
Proof.
  induction ids as [|id ids IH]; intros s d1 d2 Hw; cbn [ack_scan].
  - exists s, d1, d2. split_and!; [done..|auto].
  - destruct (Hw id ltac:(set_solver)) as (t & e & Hb & He & Hc & Hent).
    assert (forall s1 d1 d2, scanned s s1 ->
      exists s' d1' d2', ack_scan off ids d1 d2 s1 = Ret (s', (d1', d2')) /\ scanned s s' /\
        (forall c, c ∈ d2' -> c ∈ d2 \/ c ∈ ids)) as Hnext.
    { intros s1 e1 e2 Hs1. destruct (IH s1 e1 e2) as (s' & d1' & d2' & Hrun & Hs' & Hd).
      - intros c Hin. apply (waits_scanned s); [done|]. apply Hw. set_solver.
      - exists s', d1', d2'. split_and!; [done|by transitivity s1|done]. }
    rewrite get_bind, bind_unfold. cbv zeta. rewrite Hb. unfold of_outcome at 1. cbn [outcome_bind unwrap].
    rewrite He. destruct e as [| |c' n a dl o sl task]; try done.
    destruct Hent as (_ & _ & Ha). apply lookup_lt_is_Some_2 in Ha as [k Hk].
    rewrite bind_unfold. unfold of_outcome at 1. rewrite Hk. cbn [outcome_bind unwrap].
    rewrite bind_unfold. unfold modify at 1. cbv beta iota.
    set (s1 := with_cells s _).
    assert (scanned s s1) as Hs1 by (split; [done|apply length_insert]).
    destruct (n <=? _).
    + rewrite bind_unfold. unfold respond. rewrite bind_unfold. unfold of_outcome at 1.
      cbn [outcome_bind serialize]. unfold push_response, modify at 1. cbv beta iota.
      match goal with |- context [ack_scan off ids ?x ?y ?s2] =>
        destruct (Hnext s2 x y) as (s3 & e1 & e2 & Hrun3 & Hs3 & Hd3); [exact Hs1|] end.
      exists s3, e1, e2. split_and!; [exact Hrun3|exact Hs3|]. intros c Hin.
      specialize (Hd3 c Hin). set_solver.
    + match goal with |- context [ack_scan off ids ?x ?y ?s2] =>
        destruct (Hnext s2 x y) as (s3 & e1 & e2 & Hrun3 & Hs3 & Hd3); [exact Hs1|] end.
      exists s3, e1, e2. split_and!; [exact Hrun3|exact Hs3|]. intros c Hin.
      specialize (Hd3 c Hin). set_solver.
Qed.

Lemma ack_timestamps_total fd ids : forall s,
  (forall c, c ∈ ids -> is_Some (backlog_wait (registry (handler s)) !! c)) ->
  exists s' ts, ack_timestamps (Some fd) ids s = Ret (s', ts) /\
    registry (handler s') = registry (handler s) /\ cells s' = cells s.
Proof.
  induction ids as [|c ids IH]; intros s Hw; cbn [ack_timestamps]; [by exists s, []|].
  destruct (Hw c ltac:(set_solver)) as [t Ht].
  rewrite get_bind, bind_unfold. unfold of_outcome at 1. rewrite Ht. cbn [outcome_bind unwrap].
  rewrite bind_unfold. unfold add_interest. rewrite bind_unfold. unfold of_outcome at 1.
  cbn [outcome_bind unwrap]. unfold modify at 1. cbv beta iota. rewrite bind_unfold.
  match goal with |- context [ack_timestamps _ ids ?s1] =>
    destruct (IH s1) as (s' & ts & -> & Hr & Hc) end.
  - intros c' Hc'. apply Hw. set_solver.
  - by exists s', (t :: ts).
Qed.

Lemma remove_all_total ts : forall s, state_wf s ->
  exists s', iterate (fun t => _ ← reg_remove t; mret tt) ts s = Ret (s', tt).
Proof.
  induction ts as [|t ts IH]; intros s Hwf; cbn [iterate]; [by exists s|].
  destruct (reg_remove_spec s t Hwf) as (s1 & Hrm & Hwf1 & _).
  rewrite bind_unfold, bind_unfold, Hrm. by apply IH.
Qed.

(** C26: an acknowledgement, of any replica and whatever clients wait, is processed
    without a panic and leaves the state well formed: every client on the list of
    a replica has a request that waits, and a counter. *)
Theorem ack_total off id fd s : state_wf s ->
  exists s', cmd_replconf_ack off id (Some fd) s = Ret (s', Ok None) /\ state_wf s'.
Proof.
  intros Hwf.
  assert (exists s' r, cmd_replconf_ack off id (Some fd) s = Ret (s', r) /\ r = Ok None)
    as (s' & r & Hrun & ->).
  2: { exists s'. split; [done|].
       exact (wlp_elim _ _ _ _ _ (wf_replconf (CmdArg.Ack off) id (Some fd) s) Hrun Hwf). }
  unfold cmd_replconf_ack. rewrite get_bind, bind_unfold.
  assert (exists s1 d1 d2,
    (match backlog_ack (registry (handler s)) !! id with
     | Some client_ids => ack_scan off client_ids [] []
     | None => mret ([], [])
     end) s = Ret (s1, (d1, d2)) /\ state_wf s1 /\ (forall c, c ∈ d2 -> waits s1 c))
    as (s1 & d1 & d2 & Hscan & Hwf1 & Hd2).
  { destruct (backlog_ack (registry (handler s)) !! id) as [ids|] eqn:Hids.
    - assert (forall c, c ∈ ids -> waits s c) as Hw.
      { intros c Hc. apply (acked_waits s id); [done|]. unfold ack_of. by rewrite Hids. }
      destruct (ack_scan_total off ids s [] [] Hw) as (s1 & d1 & d2 & Hrun & Hs1 & Hd).
      exists s1, d1, d2. split_and!; [done| |].
      + exact (wlp_elim _ _ _ _ _ (wf_ack_scan off ids [] [] s) Hrun Hwf).
      + intros c [?%not_elem_of_nil|Hc]%Hd; [done|]. by apply (waits_scanned s), Hw.
    - exists s, [], []. split_and!; [done|done|]. by intros c ?%not_elem_of_nil. }
  rewrite Hscan, bind_unfold. unfold reg_modify, modify at 1. cbv beta iota.
  set (s2 := with_registry s1 _).
  assert (state_wf s2) as Hwf2 by exact (wf_ack_release id d1 s1 Hwf1).
  rewrite bind_unfold.
  destruct (ack_timestamps_total fd d2 s2) as (s3 & ts & Hts & Hr3 & Hc3).
  { intros c Hc. destruct (Hd2 c Hc) as (t & e & Hb & _). exists t. cbn.
    by destruct (ack_release_same (registry (handler s1)) id d1) as [m ->]. }
  assert (state_wf s3) as Hwf3.
  { destruct Hwf2 as [H1 H2 H3]. split; rewrite Hr3, ?Hc3; done. }
  rewrite Hts, bind_unfold.
  destruct (remove_all_total ts s3 Hwf3) as [s4 Hrm].
  rewrite Hrm. by eexists _, _.
Qed.

(** ** Counting acknowledgements *)

(** The scan of the list of a replica that owes one acknowledgement. *)
Lemma ack_scan_one off c n a d o ids tk t s k :
  backlog_wait (registry (handler s)) !! c = Some t ->
  store (registry (handler s)) !! t = Some (REWait c n a d o ids tk) ->
  cells s !! a = Some k -> 0 <= k < n -> is_u64 n ->
  ack_scan off [c] [] [] s =
  if off <? o then Ret (s, ([], []))
  else
    let s1 := with_cells s (<[a := k + 1]> (cells s)) in
    if k + 1 <? n then Ret (s1, ([c], []))
    else Ret (with_queue s1 (response_queue (handler s) ++ [(c, header ":" (wrap_i64 n))]), ([c], [c])).
Proof.
  intros Hw Ht Hk Hkn Hn.
  cbn [ack_scan]. rewrite get_bind. cbv zeta. rewrite Hw.
  rewrite bind_unfold. unfold of_outcome at 1. cbn [outcome_bind unwrap]. rewrite Ht.
  rewrite bind_unfold. unfold of_outcome at 1. rewrite Hk. cbn [outcome_bind unwrap].
  rewrite bind_unfold. unfold modify at 1. cbv beta iota.
  rewrite (Z.leb_antisym off o). destruct (Z.ltb_spec off o) as [Hoff|Hoff]; cbn [negb].
  - rewrite (proj2 (Z.leb_gt n k)), list_insert_id by (done || lia). by destruct s.
  - rewrite wrap_u64_id by (unfold is_u64 in *; lia). destruct (Z.ltb_spec (k + 1) n) as [Hlt|Hge].
    + by rewrite (proj2 (Z.leb_gt n (k + 1))) by lia.
    + assert (k + 1 = n) as -> by lia. rewrite Z.leb_refl. reflexivity.
Qed.

(** An acknowledgement that fulfils no request. *)
Lemma ack_none off id fd s l s1 d1 : backlog_ack (registry (handler s)) !! id = Some l ->
  ack_scan off l [] [] s = Ret (s1, (d1, [])) ->
  cmd_replconf_ack off id fd s =
    Ret (with_registry s1 (ack_release (registry (handler s1)) id d1), Ok None).
Proof. intros Hl Hs. unfold cmd_replconf_ack. by rewrite get_bind, Hl, bind_unfold, Hs. Qed.

(** One that fulfils the request of one client. *)
Lemma ack_fulfils off id fd s l s1 c t : backlog_ack (registry (handler s)) !! id = Some l ->
  ack_scan off l [] [] s = Ret (s1, ([c], [c])) ->
  backlog_wait (registry (handler s1)) !! c = Some t ->
  cmd_replconf_ack off id (Some fd) s =
    Ret (with_registry (with_interest s1 ({[c]} ∪ interest s1))
           (remove (clock s1) (ack_release (registry (handler s1)) id [c]) t).1, Ok None).
Proof.
  intros Hl Hs Hw. unfold cmd_replconf_ack. rewrite get_bind, Hl, bind_unfold, Hs.
  rewrite bind_unfold. unfold reg_modify, modify at 1. cbv beta iota.
  rewrite bind_unfold. cbn [ack_timestamps]. rewrite get_bind, bind_unfold.
  unfold of_outcome at 1. cbn [handler with_registry with_handler registry].
  assert (backlog_wait (ack_release (registry (handler s1)) id [c]) !! c = Some t) as ->.
  { by destruct (ack_release_same (registry (handler s1)) id [c]) as [m ->]. }
  cbn [outcome_bind unwrap]. rewrite bind_unfold. unfold add_interest. rewrite bind_unfold.
  unfold of_outcome at 1. cbn [outcome_bind unwrap]. unfold modify at 1. cbv beta iota. rewrite bind_unfold.
  change (mret (M:=M) (@nil Z) ?x) with (Ret (x, @nil Z)). cbv beta iota.
  change (mret (M:=M) [t] ?x) with (Ret (x, [t])). cbv beta iota.
  rewrite bind_unfold. cbn [iterate]. rewrite bind_unfold, bind_unfold. unfold reg_remove. cbn.
  by destruct (remove _ _ t).
Qed.

(** What a released replica owes. *)
Lemma ack_release_one r id c : backlog_ack r !! id = Some [c] ->
  backlog_ack (ack_release r id [c]) = delete id (backlog_ack r).
Proof. intros Hack. unfold ack_release. rewrite Hack. cbn. by rewrite Z.eqb_refl. Qed.

(** C25: for a client that waits for [n] acknowledgements with [k] counted, the only
    one a replica owes: an offset behind the snapshot changes nothing; one that has
    caught up is counted and takes the client off the replica's list, so it counts
    once; the one that reaches [n] sends the count, forgets the request and
    registers the client with epoll again. *)
Theorem ack_counts off id fd s t c n a d o ids fd' k : state_wf s ->
  let r := registry (handler s) in
  store r !! t = Some (REWait c n a d o ids (WaitTask t c a (Some fd'))) ->
  backlog_ack r !! id = Some [c] -> cells s !! a = Some k -> 0 <= k < n -> is_u64 n ->
  exists s', cmd_replconf_ack off id (Some fd) s = Ret (s', Ok None) /\
    data (handler s') = data (handler s) /\
    (if off <? o then
       cells s' = cells s /\ store (registry (handler s')) = store r /\
       ack_of (registry (handler s')) id = [c] /\
       response_queue (handler s') = response_queue (handler s) /\ interest s' = interest s
     else
       ack_of (registry (handler s')) id = [] /\
       if k + 1 <? n then
         cells s' = <[a := k + 1]> (cells s) /\ store (registry (handler s')) = store r /\
         response_queue (handler s') = response_queue (handler s) /\ interest s' = interest s
       else
         store (registry (handler s')) = delete t (store r) /\
         response_queue (handler s') = response_queue (handler s) ++ [(c, header ":" (wrap_i64 n))] /\
         interest s' = {[c]} ∪ interest s).
Proof.
  intros Hwf r Ht Hack Hk Hkn Hn.
  assert (backlog_wait r !! c = Some t) as Hw by (apply (rw_wait _ (sw_reg s Hwf)); by eexists).
  pose proof (ack_scan_one off c n a d o ids _ t s k Hw Ht Hk Hkn Hn) as Hscan. cbv zeta in Hscan.
  pose proof (ack_release_one r id c Hack) as Hrel. destruct (ack_release_same r id [c]) as [m Hm].
  destruct (off <? o); [|destruct (k + 1 <? n)].
  - rewrite (ack_none _ _ _ _ _ _ _ Hack Hscan). eexists. split; [done|]. split; [done|]. cbn. fold r.
    unfold ack_release. rewrite Hack. cbn. split_and!; [done|done| |done|done].
    unfold ack_of. cbn. by rewrite lookup_insert_eq.
  - rewrite (ack_none _ _ _ _ _ _ _ Hack Hscan). eexists. split; [done|]. split; [done|]. cbn. fold r.
    unfold ack_of. rewrite Hrel, lookup_delete_eq. split; [done|]. by rewrite Hm.
  - erewrite (ack_fulfils off id fd s _ _ c t Hack Hscan) by done. eexists. split; [done|].
    assert (store (ack_release r id [c]) !! t = Some (REWait c n a d o ids (WaitTask t c a (Some fd')))) as Ht'
      by by rewrite Hm.
    split; [done|]. cbn. fold r. fold (removed (clock s) (ack_release r id [c]) t).
    rewrite (removed_store _ _ _ _ Ht'). split; [|split_and!; [by rewrite Hm|done|done]].
    destruct (ack_of _ id) as [|x l] eqn:Hx; [done|]. exfalso.
    assert (x ∈ ack_of (removed (clock s) (ack_release r id [c]) t) id) as Hin by (rewrite Hx; by left).
    apply (removed_ack _ _ _ _ Ht') in Hin as [Hin _]. unfold ack_of in Hin.
    rewrite Hrel, lookup_delete_eq in Hin. by apply not_elem_of_nil in Hin.
Qed.

(** ** [WAIT] inside a transaction *)

(** A queued [WAIT] that has to wait panics the server when [EXEC] runs it: the
    commands of a transaction get no epoll descriptor. *)
Theorem wait_in_exec_panics `{Env} count timeout b q b' client fd s h :
  backlog_txn (registry (handler s)) !! client = Some ((Cmd.WAIT count timeout, b) :: q) ->
  is_any_dirty (registry (handler s)) client = false -> is_subscriber s client = false ->
  host_stats (app s) = Some h -> offset h <> 0 -> count <> 0 ->
  handle (Ok Cmd.EXEC) b' client fd s = Panic.
Proof.
  intros Hq Hd Hsub Hh Ho Hcount. unfold handle. rewrite get_bind. unfold is_transation. rewrite Hq.
  cbn [negb]. rewrite bind_unfold. unfold cmd_exec. rewrite get_bind, Hq, Hd, bind_unfold.
  unfold reg_modify, modify at 1. cbv beta iota. set (s1 := with_registry s _).
  rewrite bind_unfold. cbn [exec_queue]. rewrite bind_unfold.
  assert (queued_cmd client (Cmd.WAIT count timeout) b s1 = Panic) as ->; [|done].
  unfold queued_cmd, execute_cmd, depth. cbn [_execute_cmd]. unfold execute_body.
  rewrite get_bind. change (is_subscriber s1 client) with (is_subscriber s client). rewrite Hsub.
  cbn [andb]. rewrite bind_unfold, before_cmd_ok by (cbn; congruence). cbv beta iota.
  cbn [Cmd.to_be_broadcast andb]. rewrite bind_unfold. unfold dispatch. rewrite get_bind.
  unfold cmd_wait. rewrite (proj2 (Z.eqb_neq count 0)) by done. rewrite get_bind.
  set (s2 := with_registry s1 _). change (host_stats (app s2)) with (host_stats (app s)). rewrite Hh.
  rewrite (proj2 (Z.eqb_neq (offset h) 0)) by done.
  rewrite bind_unfold. destruct (iterate _ _ s2) as [[s3 []]|]; [|done].
  destruct (get_deadline _ _) as [t d]. rewrite bind_unfold. unfold modify at 1. cbv beta iota.
  rewrite bind_unfold. unfold reg_insert, modify at 1. cbv beta iota. reflexivity.
Qed.

(** ** Examples *)

(** Client 7 waits for one of the replicas to catch up with offset 10. *)
Definition demo_wait : RequestEntry := REWait 7 1 0%nat 0 10 [9] (WaitTask 1000 7 0%nat (Some 3)).

Definition demo_waiting : State :=
  with_registry (with_cells demo_state [0]) (insert 1000 registry_new 1000 0 demo_wait).

Lemma demo_waiting_wf : state_wf demo_waiting.
Proof.
  apply (reg_insert_wf (with_cells demo_state [0]) 1000 demo_wait); [|done| |done|done].
  - split; cbn; [apply registry_new_wf|done|done].
  - split; [done|]. split; [by exists 3|]. cbn. lia.
Qed.

Lemma ack_total_witness : exists s', cmd_replconf_ack 10 9 (Some 3) demo_waiting = Ret (s', Ok None) /\
  state_wf s'.
Proof. exact (ack_total 10 9 3 demo_waiting demo_waiting_wf). Defined.

Lemma ack_counts_witness : exists s',
  cmd_replconf_ack 12 9 (Some 3) demo_waiting = Ret (s', Ok None) /\
  response_queue (handler s') = [(7, header ":" 1)] /\ interest s' = {[7]} ∪ ∅.
Proof.
  destruct (ack_counts 12 9 3 demo_waiting 1000 7 1 0%nat 0 10 [9] 3 0 demo_waiting_wf)
    as (s' & Hr & _ & _ & _ & Hq & Hi); [reflexivity|reflexivity|reflexivity|lia|by vm_compute|].
  exists s'. split; [exact Hr|]. split; [exact Hq|exact Hi].
Defined.

Definition demo_txn_wait : State :=
  with_app (with_registry demo_state (set_txn registry_new {[7 := [(Cmd.WAIT 1 None, [])]]}))
    (mk_states (Some (mk_stats None None "?" 37)) None).

Lemma wait_in_exec_panics_witness : @handle demo_env (Ok Cmd.EXEC) [] 7 3 demo_txn_wait = Panic.
Proof.
  apply (@wait_in_exec_panics demo_env 1 None [] [] [] 7 3 demo_txn_wait (mk_stats None None "?" 37));
    done.
Defined.
