(* ===== verification/Client.v ===== *)
(** * Connections ([client.rs])

    A connection owns a parser, and, when it is the one to a master, the state of
    the replication handshake. [read_socket] feeds the parser, and for each
    completed value checks the authentication, lets the handshake or the handler
    answer, and writes the answer back.

    The socket is outside the model: [incoming] is what [read] returns, and
    [takes n] what happens to the message that follows [n] earlier ones of this call
    ([Takes]). What is written is returned. *)

From S2P Require Import Prelude Text Float64 Resp RespParser RespWire CmdBuilder Store.
From S2P Require Import AppState Replication Auth Registry Handler HandlerLogic.

(** ** Data *)

Inductive HandShakeState := HS_PING | HS_REPLCONF1 | HS_REPLCONF2 | HS_PSYNC | Established | HS_None.
Inductive ReplStatus := Master | Slave.

(** [ReplState]: its port and capability are never set. *)
Record ReplState := mk_repl {
  repl_status : option ReplStatus;
  repl_port : option Z;
  repl_capa : option string;
  repl_id : string;
  repl_offset : Z;
}.

Definition repl_new : ReplState := mk_repl None None None "?" (-1).

Record TcpClient := mk_client {
  client_fd : Z;
  epoll_fd : Z;
  resp_parser : RespParser;
  handshake_state : HandShakeState;
  repl_state : ReplState;
  parse_rdb : bool;
}.

Definition client_new (client_fd epoll_fd : Z) : TcpClient :=
  mk_client client_fd epoll_fd parser_new HS_None repl_new false.

Definition with_parser (c : TcpClient) (p : RespParser) : TcpClient :=
  mk_client (client_fd c) (epoll_fd c) p (handshake_state c) (repl_state c) (parse_rdb c).
Definition with_handshake (c : TcpClient) (h : HandShakeState) : TcpClient :=
  mk_client (client_fd c) (epoll_fd c) (resp_parser c) h (repl_state c) (parse_rdb c).
Definition with_parse_rdb (c : TcpClient) (b : bool) : TcpClient :=
  mk_client (client_fd c) (epoll_fd c) (resp_parser c) (handshake_state c) (repl_state c) b.

(** ** The handshake with a master *)
Definition ping_request : RespType := build_array 1 [bulk KW_PING].

(** The connection to the master, and the bytes it starts with. *)
Definition init_handshake (c : TcpClient) : outcome (TcpClient * bytes) :=
  let c := mk_client (client_fd c) (epoll_fd c) (resp_parser c) HS_PING
             (mk_repl (Some Master) (repl_port (repl_state c)) (repl_capa (repl_state c))
               (repl_id (repl_state c)) (repl_offset (repl_state c)))
             (parse_rdb c) in
  let! b := serialize ping_request in
  Ret (c, b).

(** The [?] on a [CustomError]: its bytes are the error. *)
Definition error_bytes (e : CustomError) : outcome (Result bytes bytes) :=
  let! b := into_error_bytes e in Ret (Err b).

Definition get_replconf1 (a : AppStates) : outcome (Result bytes bytes) :=
  match host_stats a with
  | None => error_bytes (internal ERR_HOST_STATS_NOT_INITIATED)
  | Some stats =>
      match port stats with
      | None => error_bytes (internal ERR_MASTER_STATS_PORT_NOT_SET)
      | Some p =>
          let! b := serialize (build_array 3
            [bulk KW_REPLCONF; bulk KW_LISTENING_PORT; bulk (show_Z p)]) in
          Ret (Ok b)
      end
  end.

Definition get_replconf2 : outcome (Result bytes bytes) :=
  let! b := serialize (build_array 3 [bulk KW_REPLCONF; bulk KW_CAPA; bulk "psync2"]) in
  Ret (Ok b).

Definition get_psync (c : TcpClient) : outcome (Result bytes bytes) :=
  let! b := serialize (build_array 3
    [bulk KW_PSYNC; bulk (repl_id (repl_state c)); bulk (show_Z (repl_offset (repl_state c)))]) in
  Ret (Ok b).

Definition start_counting (a : AppStates) : option AppStates :=
  match host_stats a with
  | None => None
  | Some h => Some (mk_states (Some (start_bytes_count h).1) (master_stats a))
  end.

Section Client.
Context `{Env}.

Definition handshake_to_master (c : TcpClient) (cmd : Cmd.t) (buf : bytes) :
    M (TcpClient * Result bytes bytes) :=
  s ← get_state;
  match handshake_state c, cmd with
  | HS_PING, Cmd.PONG =>
      r ← of_outcome (get_replconf1 (app s));
      mret (with_handshake c HS_REPLCONF1, r)
  | HS_REPLCONF1, Cmd.OK =>
      r ← of_outcome get_replconf2;
      mret (with_handshake c HS_REPLCONF2, r)
  | HS_REPLCONF2, Cmd.OK =>
      r ← of_outcome (get_psync c);
      mret (with_handshake c HS_PSYNC, r)
  | HS_PSYNC, Cmd.FULLRESYNC _ _ =>
      modify (fun s => with_clients s (set_master (clients s) (client_fd c)));;
      mret (with_parse_rdb (with_handshake c Established) true, Ok [])
  | Established, Cmd.RDB _ =>
      let c := with_parse_rdb c false in
      match start_counting (app s) with
      | None => r ← of_outcome (error_bytes (internal ERR_HOST_STATS_NOT_INITIATED)); mret (c, r)
      | Some a => modify (fun s => with_app s a);; mret (c, Ok [])
      end
  | _, _ =>
      r ← handle (Ok cmd) buf (client_fd c) (epoll_fd c);
      mret (c, r)
  end.

(** ** [read_socket] *)
Definition noauth : RespType := Error (Some "NOAUTH Authentication required."%string).

(** One completed value: the connection afterwards, and what to write. *)
Definition serve_value (c : TcpClient) (t : RespType) : M (TcpClient * bytes) :=
  buf ← of_outcome (serialize t);
  cmd ← of_outcome (Cmd.from_resp t);
  match cmd with
  | Ok cmd =>
      s ← get_state;
      if negb (Cmd.is_auth_cmd cmd) && negb (check_auth (auth s) (client_fd c)) then
        b ← of_outcome (serialize noauth);
        mret (c, b)
      else
        match repl_status (repl_state c) with
        | Some Master =>
            '(c, r) ← handshake_to_master c cmd buf;
            mret (c, match r with Ok v | Err v => v end)
        | _ =>
            r ← handle (Ok cmd) buf (client_fd c) (epoll_fd c);
            mret (c, match r with Ok v | Err v => v end)
        end
  | Err e =>
      r ← handle (Err e) buf (client_fd c) (epoll_fd c);
      mret (c, match r with Ok v | Err v => v end)
  end.

(** What a socket that does not block does with the messages of a series: it takes
    the [n]th whole, or so many bytes of it before it fails. *)
Definition Takes := nat -> option nat.
Definition all_taken : Takes := fun _ => None.

(** [write_all]: what is written of the message, and whether that is all. *)
Definition write_all (takes : Takes) (n : nat) (b : bytes) : bytes * bool :=
  match takes n with
  | None => (b, true)
  | Some k => (take k b, (List.length b <=? k)%nat)
  end.

(** The loop of [read_socket]: the connection, what was written, and whether it
    ended with an error; [None] when the fuel ran out. *)
Fixpoint read_loop (fuel : nat) (takes : Takes) (c : TcpClient) (written : list bytes) :
    M (option (TcpClient * list bytes * bool)) :=
  match fuel with
  | O => mret None
  | S f =>
      '(r, p) ← of_outcome (parse (parse_rdb c) (resp_parser c));
      match r with
      | Err _ => mret (Some (with_parser c p, written, false))
      | Ok _ =>
          match get_completed p with
          | (None, p) => mret (Some (with_parser c p, written, true))
          | (Some t, p) =>
              '(c, b) ← serve_value (with_parser c p) t;
              let (w, ok) := write_all takes (List.length written) b in
              if ok then read_loop f takes c (written ++ [w])
              else mret (Some (c, written ++ [w], false))
          end
      end
  end.

(** A completed value takes at least one byte. *)
Definition read_fuel (p : RespParser) : nat :=
  2 * List.length (buf p) + List.length (completed p) + 4.

(** [read_socket]; [incoming] is [None] for a closed or broken connection. *)
Definition read_socket (c : TcpClient) (incoming : option bytes) (takes : Takes) :
    M (TcpClient * list bytes * bool) :=
  match incoming with
  | None | Some [] => mret (c, [], false)
  | Some data =>
      let p := feed_buf (resp_parser c) data in
      o ← read_loop (read_fuel p) takes (with_parser c p) [];
      of_outcome (unwrap o)
  end.
End Client.

(** ** The loop of [read_socket] ends *)

(** Values the parser can still deliver: those delivered and not yet taken, one
    for an open stack, one per iteration left. *)
Definition potential (p : RespParser) : Z :=
  len (completed p) + (match stack p with [] => 0 | _ => 1 end) + measure p.

Lemma next_line_completed p r p' : next_till_new_line p = Ret (r, p') -> completed p' = completed p.
Proof.
  unfold next_till_new_line. destruct (_ <? _); [done|]. destruct (scan_newline _ _) as [k []].
  - destruct (slice_checked _ _ _); cbn; [|done]. destruct (from_utf8 _); by intros [= <- <-].
  - by intros [= <- <-].
Qed.

Lemma read_bytes_completed p n rdb r p' : read_bytes p n rdb = Ret (r, p') -> completed p' = completed p.
Proof.
  unfold read_bytes. destruct (_ && _); [|by intros [= <- <-]].
  destruct (if rdb then _ else _) as [[]|]; cbn; [| |done].
  - destruct (slice_checked _ _ _); cbn; [|done]. destruct (from_utf8 _); by intros [= <- <-].
  - destruct rdb; [|by intros [= <- <-]].
    destruct (slice_checked _ _ _); cbn; [|done]. by intros [= <- <-].
Qed.

Lemma drain_completed p p' : drain_till_buf p = Ret p' -> completed p' = completed p.
Proof. unfold drain_till_buf. destruct (_ <? _); [done|]. by intros [= <-]. Qed.

Definition keeps_completed (c : list RespType) (s : step_result) : Prop :=
  match s with
  | Continue p' | Return _ p' => completed p' = c
  | StepPanic => True
  end.

Lemma give_completed p v : keeps_completed (completed p) (give_value p v).
Proof. unfold give_value. destruct (stack p); [done|]. by destruct (set_value _ _). Qed.

Lemma parse_body_completed rdb p : keeps_completed (completed p) (parse_body rdb p).
Proof.
  unfold parse_body. set (q := set_status p PS_Type). change (completed p) with (completed q).
  generalize q. clear q. intros q.
  assert (forall n b, keeps_completed (completed q) (step_bulk n b q)) as Hbulk.
  { intros n b. unfold step_bulk. destruct (read_bytes q n b) as [[r p1]|] eqn:Hr; [|done].
    apply read_bytes_completed in Hr. rewrite <- Hr. destruct r as [[v|]|e]; [|done|done].
    destruct (drain_till_buf p1) as [p2|] eqn:Hd; [|done].
    rewrite <- (drain_completed _ _ Hd). apply give_completed. }
  destruct (status p); [done| | | |apply Hbulk|apply Hbulk].
  - unfold step_type, next_till_type. destruct (scan_type rdb (drop (Z.to_nat (buf_cur q)) (buf q)) 0) as [k [r|]]; [by destruct r|done].
  - unfold step_header. destruct (next_till_new_line q) as [[r p1]|] eqn:Hr; [|done].
    apply next_line_completed in Hr. rewrite <- Hr. destruct r as [[v|]|e]; [|done|done].
    destruct (drain_till_buf p1) as [p2|] eqn:Hd; [|done].
    rewrite <- (drain_completed _ _ Hd). destruct (stack p2); [done|].
    destruct (rbo_str v); [|done]. by destruct (parse_usize _).
  - unfold step_line. destruct (next_till_new_line q) as [[r p1]|] eqn:Hr; [|done].
    apply next_line_completed in Hr. rewrite <- Hr. destruct r as [[v|]|e]; [|done|done].
    destruct (drain_till_buf p1) as [p2|] eqn:Hd; [|done].
    rewrite <- (drain_completed _ _ Hd). apply give_completed.
Qed.

Lemma measure_nonneg p : 0 <= measure p.
Proof. unfold measure. case_match; lia. Qed.

Lemma pop_potential p : potential (pop_completed p) <= potential p.
Proof.
  unfold potential. rewrite pop_completed_measure. unfold pop_completed.
  destruct (stack p) as [|top rest] eqn:Hs; [by rewrite Hs|].
  assert (forall top rest, (pop_stack top rest).2 = None \/ (pop_stack top rest).1 = []) as Hpop.
  { clear. intros top rest. revert top. induction rest as [|n rest IH]; intros top; cbn;
      destruct (is_completed top); cbn; auto. }
  specialize (Hpop top rest). destruct (pop_stack top rest) as [st [r|]]; cbn in *.
  - destruct Hpop as [?| ->]; [done|]. rewrite len_app, len_cons, len_nil. lia.
  - destruct st; cbn; lia.
Qed.

Lemma parse_loop_potential rdb f : forall p r p', parser_wf p ->
  parse_loop f rdb p = Some (Ret (r, p')) -> completed p' <> [] ->
  potential p' <= potential p /\ parser_wf p'.
Proof.
  induction f as [|f IH]; intros p r p' Hwf; [done|]. cbn [parse_loop]. unfold parse_step.
  pose proof (pop_potential p) as Hpop. pose proof (pop_completed_wf p Hwf) as Hwfq.
  set (q := pop_completed p) in *. clearbody q.
  destruct (parse_blocked q) eqn:Hblk; [intros [= <- <-]; done|].
  apply parse_blocked_false in Hblk as (Hnil & _ & Hlt).
  pose proof (parse_body_ok rdb q Hwfq Hlt) as Hok.
  pose proof (parse_body_completed rdb q) as Hcomp. rewrite Hnil in Hcomp.
  destruct (parse_body rdb q) as [p1|r1 p1|]; cbn in Hok, Hcomp; [|intros [= <- <-]; done|done].
  destruct Hok as [Hwf1 Hm1]. intros Hrun Hne. destruct (IH p1 r p' Hwf1 Hrun Hne) as [Hp Hwf'].
  split; [|done]. unfold potential in *. rewrite Hnil, Hcomp in *.
  destruct (stack p1), (stack q); lia.
Qed.

Lemma parse_potential rdb p r p' : parser_wf p -> parse rdb p = Ret (r, p') -> completed p' <> [] ->
  potential p' <= potential p /\ parser_wf p'.
Proof.
  intros Hwf. unfold parse. destruct (parse_loop _ rdb p) as [o|] eqn:Hl; [|done]. cbn. intros ->.
  by eapply parse_loop_potential.
Qed.

Section ReadLoop.
Context `{Env}.

Lemma wlp_any {A B} (m : M A) (k : A -> M B) Q s :
  (forall a s', wlp (k a) Q s') -> wlp (m ≫= k) Q s.
Proof. intros Hk. apply wlp_bind. unfold wlp at 1. destruct (m s) as [[]|]; [apply Hk|done]. Qed.

Lemma serve_value_parser c t s :
  wlp (serve_value c t) (fun x _ => resp_parser x.1 = resp_parser c) s.
Proof.
  unfold serve_value. apply wlp_any. intros b s1. apply wlp_any. intros [cmd|e] s2.
  - apply wlp_bind, wlp_get. destruct (negb _ && _); [by apply wlp_any|].
    destruct (repl_status (repl_state c)) as [[]|]; try (by apply wlp_any).
    apply wlp_bind. apply (wlp_mono _ (fun x _ => resp_parser x.1 = resp_parser c));
      [|intros [c' r] s' Hc; by apply wlp_ret].
    unfold handshake_to_master. apply wlp_bind, wlp_get.
    destruct (handshake_state c), cmd; try (by apply wlp_any).
    cbv zeta. destruct (start_counting _); by apply wlp_any.
  - by apply wlp_any.
Qed.

(** The fuel of [read_socket] is never used up, whatever is received. *)
Lemma read_loop_total takes fuel : forall c written s, parser_wf (resp_parser c) ->
  potential (resp_parser c) < Z.of_nat fuel ->
  wlp (read_loop fuel takes c written) (fun o _ => o <> None) s.
Proof.
  induction fuel as [|f IH]; intros c written s Hwf Hp.
  { pose proof (measure_nonneg (resp_parser c)). unfold potential, len in Hp.
    destruct (stack _); lia. }
  cbn [read_loop]. apply wlp_bind, wlp_of_outcome. intros [r p] Hparse.
  destruct r as [[]|e]; [|by apply wlp_ret].
  unfold get_completed. destruct (completed p) as [|t rest] eqn:Hc; [by apply wlp_ret|].
  destruct (parse_potential _ _ _ _ Hwf Hparse) as [Hpot Hwfp]; [by rewrite Hc|].
  apply wlp_bind. eapply wlp_mono; [apply serve_value_parser|].
  intros [c' b] s' Hc'. cbn in Hc'. destruct (write_all _ _ _) as [w []]; [|by apply wlp_ret].
  apply IH; rewrite Hc'; [done|]. unfold potential in *. cbn. rewrite Hc, len_cons in Hpot.
  change (measure (set_completed p rest)) with (measure p). lia.
Qed.

Lemma read_fuel_enough p : parser_wf p -> potential p < Z.of_nat (read_fuel p).
Proof.
  intros Hwf. pose proof (measure_fuel p Hwf) as Hm. unfold parse_fuel in Hm.
  unfold potential, read_fuel, len. destruct (stack p); lia.
Qed.

(** Whatever bytes arrive, the loop of [read_socket] ends: each value it
    answers takes at least one byte of the buffer, so the fuel of the model is
    never used up. *)
Theorem read_socket_ends c data takes s : parser_wf (resp_parser c) ->
  len (buf (resp_parser c)) + len data <= isize_max ->
  let p := feed_buf (resp_parser c) data in
  wlp (read_loop (read_fuel p) takes (with_parser c p) []) (fun o _ => o <> None) s.
Proof.
  intros Hwf Hlen p. pose proof (feed_buf_wf (resp_parser c) data Hwf Hlen) as Hwf'.
  apply read_loop_total; [done|]. by apply read_fuel_enough.
Qed.
End ReadLoop.

(** ** Pipelined requests *)

Section Pipeline.
Context `{Env}.

Definition idle (c : TcpClient) : Prop := resp_parser c = ready [] [] /\ parse_rdb c = false.

(** Answer the values one by one. *)
Fixpoint answer_all (c : TcpClient) (ts : list RespType) : M (list bytes) :=
  match ts with
  | [] => mret []
  | t :: rest =>
      x ← serve_value c t;
      bs ← answer_all c rest;
      mret (x.2 :: bs)
  end.

(** A value that is no part of a handshake: from a client, or from the master once
    the handshake is over and its snapshot has come. *)
Definition steady (c : TcpClient) (t : RespType) : Prop :=
  repl_status (repl_state c) <> Some Master \/
  handshake_state c = Established /\ forall v, Cmd.from_resp t <> Ret (Ok (Cmd.RDB v)).

(** It is handled, and the connection stays as it is. *)
Lemma serve_value_steady c p t s : steady c t ->
  serve_value (with_parser c p) t s =
  (buf ← of_outcome (serialize t);
   cmd ← of_outcome (Cmd.from_resp t);
   s ← get_state;
   b ← (if match cmd with Ok cmd => negb (Cmd.is_auth_cmd cmd) && negb (check_auth (auth s) (client_fd c)) | Err _ => false end
        then of_outcome (serialize noauth)
        else
          r ← handle cmd buf (client_fd c) (epoll_fd c);
          mret (match r with Ok v | Err v => v end));
   mret (with_parser c p, b)) s.
Proof.
  intros Hc. unfold serve_value. rewrite !bind_unfold.
  destruct (of_outcome (serialize t) s) as [[s1 b]|]; [|done]. rewrite !bind_unfold. unfold of_outcome at 1 3.
  destruct (Cmd.from_resp t) as [[cmd|e]|] eqn:Ht; cbn [outcome_bind]; [| |done]; rewrite !get_bind;
    cbn [client_fd epoll_fd repl_state with_parser].
  - destruct (negb _ && _).
    { rewrite !bind_unfold. by destruct (of_outcome (serialize noauth) s1) as [[]|]. }
    destruct (repl_status (repl_state c)) as [[]|] eqn:Hm;
      try (rewrite !bind_unfold; by destruct (handle _ _ _ _ s1) as [[]|]).
    destruct Hc as [Hc|[He Hrdb]]; [done|]. unfold handshake_to_master.
    rewrite !bind_unfold. change (get_state s1) with (Ret (s1, s1)). cbv beta iota.
    cbn [handshake_state client_fd epoll_fd with_parser]. rewrite He.
    destruct cmd; try (by exfalso; eapply Hrdb); cbv beta iota; rewrite ?bind_unfold; by destruct (handle _ _ _ _ s1) as [[]|].
  - rewrite !bind_unfold. by destruct (handle _ _ _ _ s1) as [[]|].
Qed.

(** Nothing the answer depends on is in the parser. *)
Lemma serve_value_idle c p t s : steady c t ->
  serve_value (with_parser c p) t s =
  match serve_value c t s with
  | Ret (s', (_, b)) => Ret (s', (with_parser c p, b))
  | Panic => Panic
  end.
Proof.
  intros Hc. rewrite serve_value_steady by done.
  replace (serve_value c t s) with (serve_value (with_parser c (resp_parser c)) t s) by (by destruct c).
  rewrite serve_value_steady by done. rewrite !bind_unfold.
  destruct (of_outcome (serialize t) s) as [[s1 b]|]; [|done]. rewrite !bind_unfold.
  destruct (of_outcome (Cmd.from_resp t) s1) as [[s2 cmd]|]; [|done]. rewrite !get_bind, !bind_unfold.
  match goal with |- context [match ?x with Ret _ => _ | Panic => _ end] => by destruct x as [[]|] end.
Qed.

Lemma serve_value_client c t s : steady c t -> wlp (serve_value c t) (fun x _ => x.1 = c) s.
Proof.
  intros Hc. unfold wlp.
  replace (serve_value c t s) with (serve_value (with_parser c (resp_parser c)) t s) by (by destruct c).
  rewrite serve_value_steady, bind_unfold by done.
  destruct (of_outcome (serialize t) s) as [[s1 b]|]; [|done]. rewrite bind_unfold.
  destruct (of_outcome (Cmd.from_resp t) s1) as [[s2 cmd]|]; [|done]. rewrite get_bind, bind_unfold.
  match goal with |- match match ?x with Ret _ => _ | Panic => _ end with _ => _ end => destruct x as [[]|] end; [|done].
  by destruct c.
Qed.

Lemma parse_idle : parse false (ready [] []) = Ret (Ok tt, ready [] []).
Proof. reflexivity. Qed.

Definition on_wire (t : RespType) (w : bytes) : Prop := wire_wf t = true /\ serialize t = Ret w.

Lemma on_wire_nonempty t w : on_wire t w -> w <> [].
Proof.
  intros [Hwf Hs] ->. destruct t as [[]| | |n [v|]| |n [v|]| | | | | | | | | | | |]; cbn in Hwf; try done.
  rewrite serialize_array in Hs. by destruct (serialize_items v).
Qed.

Lemma clients_steady c ts : repl_status (repl_state c) <> Some Master -> Forall (steady c) ts.
Proof. intros Hm. apply Forall_true. intros t. by left. Qed.

Lemma write_all_open n b : write_all all_taken n b = (b, true).
Proof. done. Qed.

(** A beginning of the message is written, and no more of it only when the write
    fails. *)
Lemma write_all_prefix takes n b : (write_all takes n b).1 `prefix_of` b /\
  ((write_all takes n b).2 = true -> (write_all takes n b).1 = b).
Proof.
  unfold write_all. destruct (takes n) as [k|]; cbn; [|done].
  split; [by apply prefix_take|]. intros Hk%Nat.leb_le. by apply take_ge.
Qed.

(** Whole requests, and the beginning of another one. *)
Lemma read_loop_pipeline c tail p1 : parse_rdb c = false ->
  parse false (ready tail []) = Ret (Ok tt, p1) -> get_completed p1 = (None, p1) ->
  forall ts ws, Forall2 on_wire ts ws -> Forall (steady c) ts -> forall fuel written s, (List.length ts < fuel)%nat ->
  len (mjoin ws ++ tail) <= isize_max ->
  read_loop fuel all_taken (with_parser c (ready (mjoin ws ++ tail) [])) written s =
  match answer_all c ts s with
  | Ret (s', bs) => Ret (s', Some (with_parser c p1, written ++ bs, true))
  | Panic => Panic
  end.
Proof.
  intros Hrdb Htail Hnone ts ws Hall. induction Hall as [|t w ts ws Ht Hall IH]; intros Hst fuel written s Hf Hlen;
    (destruct fuel as [|fuel]; [cbn in Hf; lia|]); cbn [read_loop answer_all];
    cbn [parse_rdb resp_parser with_parser]; rewrite Hrdb, bind_unfold.
  - change (mjoin [] ++ tail) with tail. unfold of_outcome. rewrite Htail. cbn [outcome_bind].
    rewrite Hnone. cbn. by rewrite app_nil_r.
  - change (mjoin (w :: ws)) with (w ++ mjoin ws) in *. rewrite <- app_assoc in *. destruct Ht as [Hwf Hser].
    unfold of_outcome. rewrite (parse_wire t w _ Hwf Hser Hlen). cbn [outcome_bind].
    unfold get_completed. cbn [completed parsed].
    change (set_completed (parsed ?b t) []) with (ready b []).
    change (with_parser (with_parser c ?p) ?q) with (with_parser c q).
    inversion Hst as [|? ? Hc Hst']; subst. rewrite bind_unfold, bind_unfold, serve_value_idle by done.
    pose proof (serve_value_client c t s Hc) as Hsame. unfold wlp in Hsame.
    destruct (serve_value c t s) as [[s1 [c1 b]]|]; [|done]. cbn in Hsame. subst c1.
    rewrite len_app in Hlen. pose proof (len_nonneg w).
    rewrite write_all_open, IH by (done || (cbn in Hf; lia)). rewrite bind_unfold.
    destruct (answer_all c ts s1) as [[s2 bs]|]; [|done]. cbn. by rewrite <- app_assoc.
Qed.

Lemma on_wire_count ts ws : Forall2 on_wire ts ws -> (List.length ts <= List.length (mjoin ws))%nat.
Proof.
  induction 1 as [|t w ts ws Ht _ IH]; [done|]. change (mjoin (w :: ws)) with (w ++ mjoin ws).
  rewrite length_app. cbn. pose proof (on_wire_nonempty t w Ht). destruct w; cbn; [done|lia].
Qed.

Lemma read_socket_data c data s : data <> [] ->
  read_socket c (Some data) all_taken s =
  (let p := feed_buf (resp_parser c) data in
   o ← read_loop (read_fuel p) all_taken (with_parser c p) [];
   of_outcome (unwrap o)) s.
Proof. by destruct data. Qed.

Lemma with_same_parser c : with_parser c (resp_parser c) = c.
Proof. by destruct c. Qed.

(** C17: whatever number of requests one read brings, they are answered in the
    order they were sent, each in the state the one before left, and the parser
    is idle afterwards. *)
Theorem read_pipelined c ts ws s : repl_status (repl_state c) <> Some Master -> idle c ->
  Forall2 on_wire ts ws -> ts <> [] -> len (mjoin ws) <= isize_max ->
  read_socket c (Some (mjoin ws)) all_taken s =
  match answer_all c ts s with
  | Ret (s', bs) => Ret (s', (c, bs, true))
  | Panic => Panic
  end.
Proof.
  intros Hm [Hp Hrdb] Hall Hne Hlen. pose proof (on_wire_count ts ws Hall) as Hcount.
  rewrite read_socket_data.
  2: { destruct Hall; [done|]. intros Hw. rewrite Hw in Hcount. cbn in Hcount. lia. }
  rewrite Hp. change (feed_buf (ready [] []) (mjoin ws)) with (ready (mjoin ws) []).
  cbv zeta. rewrite bind_unfold, <- (app_nil_r (mjoin ws)).
  rewrite (read_loop_pipeline c [] (ready [] []) Hrdb eq_refl eq_refl ts ws Hall (clients_steady c ts Hm))
    by (rewrite ?app_nil_r; unfold read_fuel; cbn; rewrite ?length_app; cbn; lia).
  rewrite <- Hp, with_same_parser. by destruct (answer_all c ts s) as [[s' bs]|].
Qed.

(** C22: a client that has not authenticated changes nothing: unless the value is
    an [AUTH] command, the state stays as it is. *)
Theorem unauthenticated_changes_nothing c t s s' x :
  check_auth (auth s) (client_fd c) = false ->
  (forall user pw, Cmd.from_resp t <> Ret (Ok (Cmd.Auth user pw))) ->
  serve_value c t s = Ret (s', x) -> s' = s.
Proof.
  intros Hauth Hcmd. unfold serve_value. rewrite bind_unfold. unfold of_outcome at 1.
  destruct (serialize t) as [b|]; [|done]. cbn [outcome_bind]. rewrite bind_unfold.
  unfold of_outcome at 1. destruct (Cmd.from_resp t) as [[cmd|e]|] eqn:Hc; [| |done]; cbn [outcome_bind].
  - rewrite get_bind, Hauth. assert (Cmd.is_auth_cmd cmd = false) as ->.
    { destruct cmd; try done. by destruct (Hcmd username password). }
    cbn [negb andb]. rewrite bind_unfold. unfold of_outcome. destruct (serialize noauth); [|done].
    cbn. by intros [= <- _].
  - rewrite bind_unfold. unfold handle. rewrite bind_unfold. unfold of_outcome.
    destruct (into_error_bytes e); [|done]. cbn. by intros [= <- _].
Qed.

(** ** The handshake *)
Fixpoint handshake (c : TcpClient) (cmds : list Cmd.t) : M (TcpClient * list bytes) :=
  match cmds with
  | [] => mret (c, [])
  | cmd :: rest =>
      '(c, r) ← handshake_to_master c cmd [];
      '(c, bs) ← handshake c rest;
      mret (c, match r with Ok v | Err v => v end :: bs)
  end.

Definition request_bytes (args : list string) : bytes :=
  match serialize (request args) with Ret b => b | Panic => [] end.

Lemma handshake_cons c cmd rest s s1 c1 b s2 c2 bs :
  handshake_to_master c cmd [] s = Ret (s1, (c1, Ok b)) -> handshake c1 rest s1 = Ret (s2, (c2, bs)) ->
  handshake c (cmd :: rest) s = Ret (s2, (c2, b :: bs)).
Proof. intros H1 H2. cbn [handshake]. by rewrite bind_unfold, H1, bind_unfold, H2. Qed.

Lemma handshake_pong c b s h p : handshake_state c = HS_PING -> host_stats (app s) = Some h ->
  port h = Some p ->
  handshake_to_master c Cmd.PONG b s =
  Ret (s, (with_handshake c HS_REPLCONF1, Ok (request_bytes ["REPLCONF"; "listening-port"; show_Z p]))).
Proof.
  intros Hc Hh Hp. unfold handshake_to_master. rewrite get_bind, Hc. unfold get_replconf1.
  by rewrite Hh, Hp.
Qed.

Lemma handshake_ok1 c b s : handshake_state c = HS_REPLCONF1 ->
  handshake_to_master c Cmd.OK b s =
  Ret (s, (with_handshake c HS_REPLCONF2, Ok (request_bytes ["REPLCONF"; "capa"; "psync2"]))).
Proof. intros Hc. unfold handshake_to_master. by rewrite get_bind, Hc. Qed.

Lemma handshake_ok2 c b s : handshake_state c = HS_REPLCONF2 -> repl_id (repl_state c) = "?"%string ->
  repl_offset (repl_state c) = -1 ->
  handshake_to_master c Cmd.OK b s =
  Ret (s, (with_handshake c HS_PSYNC, Ok (request_bytes ["PSYNC"; "?"; "-1"]))).
Proof.
  intros Hc Hi Ho. unfold handshake_to_master. rewrite get_bind, Hc. unfold get_psync.
  by rewrite Hi, Ho.
Qed.

(** answered [+PONG], [+OK], [+OK], [+FULLRESYNC] and the snapshot, a replica
    sends its port, its capability and [PSYNC ? -1], reads the snapshot as a raw
    file and nothing after it so, takes the connection for its master and starts
    to count bytes. *)
Theorem handshake_completes c0 c b s h p id off v : init_handshake c0 = Ret (c, b) ->
  repl_state c0 = repl_new -> host_stats (app s) = Some h -> port h = Some p ->
  exists c4 s4 s5 c5,
    handshake c [Cmd.PONG; Cmd.OK; Cmd.OK; Cmd.FULLRESYNC id off] s =
      Ret (s4, (c4, [request_bytes ["REPLCONF"; "listening-port"; show_Z p];
                     request_bytes ["REPLCONF"; "capa"; "psync2"];
                     request_bytes ["PSYNC"; "?"; "-1"]; []])) /\
    b = request_bytes ["PING"] /\
    parse_rdb c4 = true /\ is_master (clients s4) (client_fd c0) = true /\
    handshake c4 [Cmd.RDB v] s4 = Ret (s5, (c5, [[]])) /\
    handshake_state c5 = Established /\ parse_rdb c5 = false /\
    host_stats (app s5) = Some (start_bytes_count h).1 /\ handler s5 = handler s.
Proof.
  intros Hinit Hrepl Hh Hp. unfold init_handshake in Hinit. rewrite Hrepl in Hinit.
  change (serialize ping_request) with (Ret (request_bytes ["PING"])) in Hinit.
  cbn [outcome_bind] in Hinit. injection Hinit as <- <-.
  eexists _, _, _, _. split; [|split; [|split; [|split; [|split]]]].
  - eapply handshake_cons; [by eapply handshake_pong|].
    eapply handshake_cons; [by apply handshake_ok1|].
    eapply handshake_cons; [by apply handshake_ok2|].
    eapply handshake_cons; [|done]. unfold handshake_to_master. by rewrite get_bind.
  - done.
  - done.
  - unfold is_master. cbn. apply Z.eqb_refl.
  - eapply handshake_cons; [|done]. unfold handshake_to_master. rewrite get_bind.
    unfold start_counting. cbn. rewrite Hh. reflexivity.
  - done.
Qed.
End Pipeline.

(** ** Examples *)
Definition demo_client : TcpClient := client_new 7 3.

Lemma read_socket_ends_witness :
  let p := feed_buf parser_new (as_bytes "*1") in
  wlp (@read_loop demo_env (read_fuel p) all_taken (with_parser demo_client p) [])
    (fun o _ => o <> None) demo_state.
Proof.
  apply (@read_socket_ends demo_env demo_client (as_bytes "*1") all_taken demo_state);
    [apply parser_new_wf|by vm_compute].
Defined.

(** A server that knows the client, and two requests in one read. *)
Definition demo_open : State := with_auth demo_state (@authenticate (fun s => s) auth_new 7 None None).1.

Definition demo_pipeline : list RespType := [request ["SET"; "k"; "v"]; request ["GET"; "k"]].

Lemma read_pipelined_witness :
  let ws := [request_bytes ["SET"; "k"; "v"]; request_bytes ["GET"; "k"]] in
  @read_socket demo_env demo_client (Some (mjoin ws)) all_taken demo_open =
  match @answer_all demo_env demo_client demo_pipeline demo_open with
  | Ret (s', bs) => Ret (s', (demo_client, bs, true))
  | Panic => Panic
  end.
Proof.
  apply (@read_pipelined demo_env demo_client demo_pipeline);
    [done|by split|repeat constructor|done|by vm_compute].
Defined.

(** A server that has authenticated nobody. *)
Definition demo_locked : State := demo_state.

Lemma unauthenticated_changes_nothing_witness : exists x,
  @serve_value demo_env demo_client (request ["SET"; "k"; "v"]) demo_locked = Ret (demo_locked, x).
Proof.
  destruct (@serve_value demo_env demo_client (request ["SET"; "k"; "v"]) demo_locked) as [[s' x]|] eqn:Hs.
  - exists x. f_equal. f_equal.
    apply (@unauthenticated_changes_nothing demo_env demo_client (request ["SET"; "k"; "v"]) demo_locked s' x);
      [reflexivity| |exact Hs].
    intros user pw. vm_compute. discriminate.
  - exfalso. vm_compute in Hs. discriminate.
Defined.

(** A replica that listens on port 6379, connected to its master. *)
Lemma handshake_completes_witness : exists c b c4 s4 bs,
  init_handshake demo_client = Ret (c, b) /\
  @handshake demo_env c [Cmd.PONG; Cmd.OK; Cmd.OK; Cmd.FULLRESYNC "id" 0] demo_state = Ret (s4, (c4, bs)) /\
  is_master (clients s4) 7 = true.
Proof.
  destruct (init_handshake demo_client) as [[c b]|] eqn:Hi; [|exfalso; vm_compute in Hi; discriminate].
  destruct (@handshake_completes demo_env demo_client c b demo_state
    (mk_stats (Some "127.0.0.1"%string) (Some 6379) "?" 0) 6379 "id" 0 [])
    as (c4 & s4 & _ & _ & H1 & _ & _ & H2 & _); [exact Hi|done..|].
  exists c, b, c4, s4. eexists. split; [reflexivity|]. split; [exact H1|exact H2].
Defined.
