(* ===== verification/ClientReads.v ===== *)
(** * Requests that arrive in several reads

    [read_socket] is called once per read. This file composes it with the
    resumption of the parser: requests whose bytes are cut anywhere into two reads
    are answered as if they had come in one. *)

From S2P Require Import Prelude Text Float64 Resp RespParser RespWire RespChunks CmdBuilder Store.
From S2P Require Import AppState Replication Auth Registry Handler HandlerLogic Client.

(** ** Bytes that complete nothing *)

(** The parser has taken the bytes of [tail], and has delivered nothing for them. *)
Record holds (p : RespParser) (tail : bytes) : Prop := {
  ho_parse : parse false (ready tail []) = Ret (Ok tt, p);
  ho_none : get_completed p = (None, p);
}.

Lemma holds_nothing : holds parser_new [].
Proof. by split. Qed.

(** The beginning of a value. *)
Lemma holds_cut r a b : wire_wf r = true -> serialize r = Ret (a ++ b) -> b <> [] -> len (a ++ b) <= isize_max ->
  exists p, holds p a /\ missing p <= len b.
Proof.
  intros Hwf Hs Hb Hlen. destruct (cut_value r a b [] Hwf Hs Hb) as (p & ? & ? & _ & ?); [by rewrite app_nil_r|].
  by exists p.
Qed.

(** More bytes: as if they had come together. *)
Lemma holds_feed p tail b : holds p tail -> b <> [] -> missing p <= len b -> len (tail ++ b) <= isize_max ->
  parse false (feed_buf p b) = parse false (ready (tail ++ b) []).
Proof.
  intros [Hp _] Hb Hm Hlen. rewrite len_app in Hlen. pose proof (len_nonneg b).
  change (ready tail []) with (feed_buf parser_new tail) in Hp.
  change (ready (tail ++ b) []) with (feed_buf parser_new (tail ++ b)).
  assert (parser_wf (feed_buf parser_new tail)) as Hwf.
  { apply feed_buf_wf; [apply parser_new_wf|]. cbn. rewrite len_nil. lia. }
  pose proof (parse_feed false (feed_buf parser_new tail) b Hb Hwf eq_refl) as Hf.
  rewrite Hp, feed_feed in Hf. cbn in Hf. destruct (Z.leb_spec (missing p) (len b)); [|lia].
  symmetry. apply Hf. lia.
Qed.

(** Too few bytes: nothing is delivered for them. *)
Lemma holds_late p tail b : holds p tail -> len b < missing p -> len (tail ++ b) <= isize_max ->
  exists q, parse false (feed_buf p b) = Ret (Ok tt, q) /\ get_completed q = (None, q).
Proof.
  intros [Hp Hnone] Hlate Hlen. rewrite len_app in Hlen. pose proof (len_nonneg b).
  change (ready tail []) with (feed_buf parser_new tail) in Hp.
  assert (parser_wf (feed_buf parser_new tail)) as Hwf.
  { apply feed_buf_wf; [apply parser_new_wf|]. cbn. rewrite len_nil. lia. }
  pose proof (parse_keeps_wf _ _ _ _ Hwf Hp) as Hwfp.
  assert (completed p = []) as Hc by (unfold get_completed in Hnone; by destruct (completed p)).
  pose proof (parse_shrinks _ _ _ _ Hp) as Hs. cbn in Hs.
  destruct (parse_late false p b) as (q & Hq & Hcq); [done|done|lia|done|lia|].
  exists q. split; [done|]. unfold get_completed. by rewrite Hcq.
Qed.

(** Nothing whole is held, so the bytes of a read bound the requests they complete. *)
Lemma holds_count p tail b ts ws tail' : holds p tail -> Forall2 on_wire ts ws -> tail ++ b = mjoin ws ++ tail' ->
  len (tail ++ b) <= isize_max -> (List.length ts <= S (List.length b))%nat.
Proof.
  intros [Hp Hnone] Hall Heq Hlen. destruct Hall as [|t w ts ws [Hwf Hser] Hall]; [cbn; lia|].
  apply on_wire_count in Hall. change (mjoin (w :: ws)) with (w ++ mjoin ws) in Heq.
  rewrite <- app_assoc in Heq. apply app_eq_app in Heq as (l & [[-> Hl]|[-> ->]]).
  - exfalso. rewrite (parse_wire t w l Hwf Hser) in Hp.
    + injection Hp as Hp. rewrite <- Hp in Hnone. done.
    + rewrite <- app_assoc in Hlen. rewrite len_app in *. rewrite len_app in Hlen. pose proof (len_nonneg b). lia.
  - rewrite length_app, length_app. cbn. lia.
Qed.

Section Reads.
Context `{Env}.

(** Where the cut falls: between two requests, or inside one of them. *)
Lemma cut_stream (ws : list bytes) a b : mjoin ws = a ++ b ->
  exists ws1 ws2 tail, ws = ws1 ++ ws2 /\ a = mjoin ws1 ++ tail /\ tail ++ b = mjoin ws2 /\
    (tail = [] \/ exists w ws3 b', ws2 = w :: ws3 /\ w = tail ++ b' /\ b' <> [] /\ b = b' ++ mjoin ws3).
Proof.
  revert a. induction ws as [|w ws IH]; intros a Hab.
  { symmetry in Hab. apply app_eq_nil in Hab as [-> ->]. exists [], [], []. auto. }
  change (mjoin (w :: ws)) with (w ++ mjoin ws) in Hab.
  apply app_eq_app in Hab as (l & [[-> ->]|[-> Hl]]).
  - destruct l as [|x l].
    + exists [a], ws, []. cbn. rewrite !app_nil_r. auto 10.
    + exists [], ((a ++ x :: l) :: ws), a. cbn. split_and!; [done|done|by rewrite <- app_assoc|].
      right. exists (a ++ x :: l), ws, (x :: l). done.
  - destruct (IH l Hl) as (ws1 & ws2 & tail & -> & -> & Ht & Hcut).
    exists (w :: ws1), ws2, tail. split_and!; [done| |done|done].
    change (mjoin (w :: ws1)) with (w ++ mjoin ws1). by rewrite app_assoc.
Qed.

(** What the first read leaves unanswered is resumed by the second. *)
Lemma tail_resumed ts ws tail b : Forall2 on_wire ts ws -> len (mjoin ws) <= isize_max ->
  tail ++ b = mjoin ws ->
  (tail = [] \/ exists w ws3 b', ws = w :: ws3 /\ w = tail ++ b' /\ b' <> [] /\ b = b' ++ mjoin ws3) ->
  exists p1, parse false (ready tail []) = Ret (Ok tt, p1) /\ get_completed p1 = (None, p1) /\
    parse false (feed_buf p1 b) = parse false (ready (mjoin ws) []) /\
    (List.length ts <= S (List.length b))%nat.
Proof.
  intros Hall Hlen Hb [->|(w & ws3 & b' & -> & -> & Hne & ->)].
  - apply on_wire_count in Hall. exists (ready [] []). rewrite <- Hb in *. split_and!; [done..|]. cbn in *. lia.
  - inversion Hall as [|t ? ts' ? [Hwf Hs] Hall']; subst. apply on_wire_count in Hall'.
    change (mjoin ((tail ++ b') :: ws3)) with ((tail ++ b') ++ mjoin ws3) in *.
    rewrite <- app_assoc in *. destruct (cut_value t _ _ (mjoin ws3) Hwf Hs Hne Hlen) as (p1 & ? & ? & ? & _).
    exists p1. split_and!; [done..|]. rewrite length_app. cbn. lia.
Qed.

Lemma read_loop_parse f ok c p q w s : parse (parse_rdb c) p = parse (parse_rdb c) q ->
  read_loop f ok (with_parser c p) w s = read_loop f ok (with_parser c q) w s.
Proof. intros Hp. destruct f; [done|]. cbn [read_loop]. cbn [parse_rdb resp_parser with_parser]. by rewrite Hp. Qed.

Lemma answer_all_app c ts1 ts2 s :
  answer_all c (ts1 ++ ts2) s =
  match answer_all c ts1 s with
  | Ret (s1, bs1) =>
      match answer_all c ts2 s1 with
      | Ret (s2, bs2) => Ret (s2, bs1 ++ bs2)
      | Panic => Panic
      end
  | Panic => Panic
  end.
Proof.
  revert s. induction ts1 as [|t ts1 IH]; intros s; cbn [answer_all].
  - change ([] ++ ts2) with ts2. cbn. by destruct (answer_all c ts2 s) as [[]|].
  - change ((t :: ts1) ++ ts2) with (t :: (ts1 ++ ts2)). cbn [answer_all]. rewrite !bind_unfold.
    destruct (serve_value c t s) as [[s1 x]|]; [|done]. rewrite !bind_unfold, IH.
    destruct (answer_all c ts1 s1) as [[s2 bs1]|]; [|done]. cbn.
    by destruct (answer_all c ts2 s2) as [[s3 bs2]|].
Qed.

(** The two reads, one after the other. *)
Definition two_reads (c : TcpClient) (a b : bytes) : M (TcpClient * list bytes * bool) :=
  '(c1, bs1, _) ← read_socket c (Some a) all_taken;
  '(c2, bs2, ok) ← read_socket c1 (Some b) all_taken;
  mret (c2, bs1 ++ bs2, ok).

(** C18: requests cut anywhere into two reads, also inside a header, between a
    carriage return and its line feed or in the middle of a body, are answered as
    if they had come in one read: the same final state, the same answers in the
    same order, and the parser idle afterwards. *)
Theorem cut_requests_answered c ts ws a b s : repl_status (repl_state c) <> Some Master -> idle c ->
  Forall2 on_wire ts ws -> mjoin ws = a ++ b -> a <> [] -> b <> [] -> len (mjoin ws) <= isize_max ->
  two_reads c a b s =
  match answer_all c ts s with
  | Ret (s', bs) => Ret (s', (c, bs, true))
  | Panic => Panic
  end.
Proof.
  intros Hm [Hp Hrdb] Hall Hab Ha Hb Hlen.
  destruct (cut_stream ws a b Hab) as (ws1 & ws2 & tail & -> & -> & Htail & Hcut).
  apply Forall2_app_inv_r in Hall as (ts1 & ts2 & Hall1 & Hall2 & ->).
  assert (mjoin (ws1 ++ ws2) = mjoin ws1 ++ mjoin ws2) as Hj.
  { clear. induction ws1; [done|]. cbn. rewrite <- app_assoc. by f_equal. }
  rewrite Hj, len_app in Hlen. pose proof (len_nonneg (mjoin ws1)).
  destruct (tail_resumed ts2 ws2 tail b Hall2) as (p1 & Hp1 & Hnone & Hresume & Hc2); [lia|done|done|].
  pose proof (on_wire_count _ _ Hall1).
  apply (f_equal len) in Htail as Hltail. rewrite len_app in Hltail. pose proof (len_nonneg b).
  unfold two_reads. rewrite bind_unfold, read_socket_data, Hp by done.
  change (feed_buf (ready [] []) ?x) with (ready x []). cbv zeta. rewrite bind_unfold.
  rewrite (read_loop_pipeline c tail p1 Hrdb Hp1 Hnone ts1 ws1 Hall1 (clients_steady c ts1 Hm)).
  2: { unfold read_fuel. cbn. rewrite length_app. lia. }
  2: { rewrite len_app. lia. }
  rewrite answer_all_app. destruct (answer_all c ts1 s) as [[s1 bs1]|]; [|done].
  cbn [of_outcome unwrap outcome_bind app]. 
  change ([] ++ bs1) with bs1. rewrite bind_unfold, read_socket_data by done.
  cbv zeta. cbn [resp_parser with_parser]. rewrite bind_unfold.
  change (with_parser (with_parser c p1) ?q) with (with_parser c q).
  rewrite (read_loop_parse _ _ c _ (ready (mjoin ws2 ++ []) [])) by (rewrite Hrdb, app_nil_r; done).
  rewrite (read_loop_pipeline c [] (ready [] []) Hrdb eq_refl eq_refl ts2 ws2 Hall2 (clients_steady c ts2 Hm)).
  2: { unfold read_fuel. cbn. rewrite length_app. lia. }
  2: { rewrite app_nil_r. lia. }
  rewrite <- Hp, with_same_parser. by destruct (answer_all c ts2 s1) as [[s2 bs2]|].
Qed.
End Reads.

(** The second of two requests is cut inside its key. *)
Lemma cut_requests_answered_witness :
  let a := request_bytes ["SET"; "key"; "v"] ++ as_bytes "*2" ++ DELIMITER ++ as_bytes "$3" ++ DELIMITER ++
           as_bytes "GET" ++ DELIMITER ++ as_bytes "$3" ++ DELIMITER ++ as_bytes "k" in
  let b := as_bytes "ey" ++ DELIMITER in
  @two_reads demo_env demo_client a b demo_open =
  match @answer_all demo_env demo_client [request ["SET"; "key"; "v"]; request ["GET"; "key"]] demo_open with
  | Ret (s', bs) => Ret (s', (demo_client, bs, true))
  | Panic => Panic
  end.
Proof.
  apply (@cut_requests_answered demo_env demo_client [request ["SET"; "key"; "v"]; request ["GET"; "key"]]
           [request_bytes ["SET"; "key"; "v"]; request_bytes ["GET"; "key"]]);
    [discriminate|by split|repeat constructor|vm_compute; reflexivity|discriminate|discriminate|by vm_compute].
Defined.
