(* ===== verification/Serving.v ===== *)
(** * Requests through a connection

    What [handle] promises a client ([ClientSpec]) lifted through the layers above
    it: [serve_value] for a request as it was parsed, and [read_socket] for the bytes
    of a read, with what the connection held before. *)

From S2P Require Import Prelude Text Float64 Resp RespParser RespWire RespChunks CmdBuilder Bitmap BTree SortedSet Geohash Store.
From S2P Require Import StringCmds ListCmds BitmapCmds StreamCmds ZsetCmds.
From S2P Require Import Refinement KeySpec KeyspaceSpec.
From S2P Require Import AppState Replication Auth Registry Handler HandlerLogic Transactions Propagation ClientSpec.
From S2P Require Import Client ClientReads.

(** ** Requests *)

Section Spec.
Context `{Env}.

(** A request is the array of its words; one that is no command gets the error of
    the command builder. *)
Definition request_spec (now id : Z) (args : list string) (a : AbsState) : AbsState * Reply :=
  match Cmd.from_resp (request args) with
  | Ret (Ok c) => client_spec now id (c, request_bytes args) a
  | Ret (Err e) => (a, Err e)
  | Panic => (a, Ok None)
  end.

Definition request_admits (now id : Z) (args : list string) (a : AbsState) : bool :=
  match Cmd.from_resp (request args) with
  | Ret (Ok c) => client_admits now id (c, request_bytes args) a
  | Ret (Err e) => true
  | Panic => false
  end.

(** Requests that arrive together run at the same time. *)
Definition requests_spec (now id : Z) (reqs : list (list string)) (a : AbsState) : AbsState * list bytes :=
  let (a', rs) := spec_all (request_spec now id) reqs a in
  (a', List.map (fun r => reply_bytes (answer r)) rs).

Definition requests_admit (now id : Z) (reqs : list (list string)) (a : AbsState) : bool :=
  admits_all (request_spec now id) (request_admits now id) reqs a.

(** The master stays the master, and sends no snapshot among the requests. *)
Lemma client_master now id x a : ar_master (ab_repl (client_spec now id x a).1) = ar_master (ab_repl a).
Proof.
  unfold client_spec. destruct (ab_txns a !! id) as [q|].
  - destruct x.1; try done. destruct (watch_of (ab_watch a) id).2; [done|].
    assert (ar_master (ab_repl (spec_all (run_spec now) q a).1) = ar_master (ab_repl a)) as Hq.
    { revert a. induction q as [|y q IH]; intros a; [done|]. cbn [spec_all]. pose proof (run_master false now y a) as Hr.
      specialize (IH (run_spec now y a).1). unfold run_spec in *. destruct (run_as false now y a) as [a1 r]. cbn [fst] in *.
      destruct (spec_all _ q a1). cbn [fst] in *. congruence. }
    destruct (spec_all _ q a). exact Hq.
  - destruct x.1; try done; match goal with |- context [run_as ?m now x a] => pose proof (run_master m now x a); by destruct (run_as m now x a) end.
Qed.

Lemma request_master now id args a : ar_master (ab_repl (request_spec now id args a).1) = ar_master (ab_repl a).
Proof. unfold request_spec. destruct (Cmd.from_resp _) as [[]|]; [apply client_master|done..]. Qed.

Lemma admitted_no_snapshot now id args a v : ar_master (ab_repl a) = Some id -> request_admits now id args a = true ->
  Cmd.from_resp (request args) <> Ret (Ok (Cmd.RDB v)).
Proof.
  unfold request_admits. intros Hm Hok Hc. rewrite Hc in Hok. unfold client_admits in Hok. cbn [fst] in Hok.
  rewrite bool_decide_eq_true_2 in Hok by done. by destruct (ab_txns a !! id).
Qed.

Lemma admitted_no_snapshots now id reqs : forall a, ar_master (ab_repl a) = Some id -> requests_admit now id reqs a = true ->
  Forall (fun t => forall v, Cmd.from_resp t <> Ret (Ok (Cmd.RDB v))) (List.map request reqs).
Proof.
  unfold requests_admit. induction reqs as [|args reqs IH]; intros a Hm Hok; [constructor|]. cbn [admits_all List.map] in *. bools.
  constructor; [intros v; by eapply admitted_no_snapshot|]. apply (IH (request_spec now id args a).1); [by rewrite request_master|done].
Qed.
End Spec.

Lemma request_on_wire args : wire_wf (request args) = true -> on_wire (request args) (request_bytes args).
Proof.
  intros Hwf. split; [done|]. unfold request_bytes. destruct (prints_bulks (len args) args) as [b Hb].
  unfold request. by rewrite Hb.
Qed.

Lemma words_on_wire reqs : Forall (fun args => wire_wf (request args) = true) reqs ->
  Forall2 on_wire (List.map request reqs) (List.map request_bytes reqs).
Proof. induction 1; cbn; constructor; [by apply request_on_wire|done]. Qed.

(** A connection that has logged in: of a client, or the one to the master after the
    handshake. *)
Record ordinary (c : TcpClient) (s : State) : Prop := {
  or_sub : is_subscriber s (client_fd c) = false;
  or_auth : check_auth (auth s) (client_fd c) = true;
  or_repl : repl_status (repl_state c) <> Some Master \/
    handshake_state c = Established /\ master (clients s) = Some (client_fd c);
}.

Lemma quiet_ordinary c s s' : quiet s s' -> ordinary c s -> ordinary c s'.
Proof.
  intros Hq []. split; [by eapply quiet_subscriber|by rewrite (q_auth _ _ Hq)|by rewrite (q_master _ _ Hq)].
Qed.

(** What it is sent is no part of a handshake. *)
Lemma ordinary_steady `{Env} c s a reqs : ordinary c s -> keeps_for s a ->
  requests_admit (clock s) (client_fd c) reqs a = true -> Forall (steady c) (List.map request reqs).
Proof.
  intros Ho Hk Hok. destruct (or_repl _ _ Ho) as [Hm|[He Hm]]; [by apply clients_steady|].
  pose proof (kf_repl _ _ Hk) as Hr. unfold repl_of in Hr. destruct (host_offset s); [|done]. injection Hr as Hr.
  eapply Forall_impl; [apply (admitted_no_snapshots (clock s) (client_fd c) reqs a); [by rewrite <- Hr|done]|].
  intros t Ht. by right.
Qed.

Section Requests.
Context `{Env}.

Lemma serve_request c args s a : ordinary c s -> wire_wf (request args) = true -> keeps_for s a ->
  request_admits (clock s) (client_fd c) args a = true ->
  exists s', serve_value c (request args) s =
      Ret (s', (c, reply_bytes (answer (request_spec (clock s) (client_fd c) args a).2))) /\
    keeps_for s' (request_spec (clock s) (client_fd c) args a).1 /\ quiet s s'.
Proof.
  intros Ho Hwf Hk Hok. destruct (request_on_wire args Hwf) as [_ Hser].
  assert (steady c (request args)) as Hst.
  { assert (Forall (steady c) (List.map request [args])) as Hall; [|by inversion Hall].
    apply (ordinary_steady c s a); [done..|]. unfold requests_admit. cbn [admits_all]. by rewrite Hok. }
  pose proof (serve_value_steady c (resp_parser c) _ s Hst) as Hsv. rewrite with_same_parser in Hsv. rewrite Hsv.
  rewrite bind_unfold. unfold of_outcome at 1. rewrite Hser. cbn [outcome_bind].
  rewrite bind_unfold. unfold of_outcome at 1. unfold request_admits, request_spec in *.
  destruct (Cmd.from_resp (request args)) as [[cmd|e]|]; cbn [outcome_bind]; [| |done]; rewrite get_bind.
  - rewrite (or_auth _ _ Ho), andb_false_r.
    destruct (client_ok cmd (request_bytes args) (client_fd c) (epoll_fd c) s a (or_sub _ _ Ho) Hk Hok)
      as (s' & Hh & Hk' & Hq).
    exists s'. split; [|done]. rewrite !bind_unfold, Hh. by destruct (answer _).
  - exists s. split; [|done]. rewrite !bind_unfold. unfold handle. rewrite bind_unfold.
    unfold of_outcome, into_error_bytes. by rewrite (serialize_wire _ (prints_into_resp e)).
Qed.

Lemma serve_requests c reqs : Forall (fun args => wire_wf (request args) = true) reqs ->
  forall s a, ordinary c s -> keeps_for s a -> requests_admit (clock s) (client_fd c) reqs a = true ->
  exists s', answer_all c (List.map request reqs) s = Ret (s', (requests_spec (clock s) (client_fd c) reqs a).2) /\
    keeps_for s' (requests_spec (clock s) (client_fd c) reqs a).1 /\ quiet s s'.
Proof.
  unfold requests_admit, requests_spec.
  induction 1 as [|args reqs Hwf _ IH]; intros s a Ho Hk Hok; [by exists s|].
  cbn [List.map admits_all answer_all spec_all] in *. bools.
  destruct (serve_request c args s a) as (s1 & Hs1 & Hk1 & Hq1); [done..|].
  destruct (IH s1 (request_spec (clock s) (client_fd c) args a).1) as (s2 & Hs2 & Hk2 & Hq2);
    [by eapply quiet_ordinary|done|by rewrite (q_clock _ _ Hq1)|].
  rewrite (q_clock _ _ Hq1) in *. rewrite bind_unfold, Hs1, bind_unfold, Hs2.
  exists s2. destruct (request_spec (clock s) (client_fd c) args a) as [a1 r]. cbn [fst snd] in *.
  destruct (spec_all _ reqs a1) as [a2 rs]. split; [done|]. split; [done|]. by transitivity s1.
Qed.
End Requests.

(** ** Bytes *)

(** The connection has taken the bytes of [tail], which complete nothing. *)
Record held (c : TcpClient) (tail : bytes) : Prop := {
  h_holds : holds (resp_parser c) tail;
  h_rdb : parse_rdb c = false;
}.

Lemma held_new fd efd : held (client_new fd efd) [].
Proof. split; [apply holds_nothing|done]. Qed.

(** The beginning of a request. *)
Definition begins (tail : bytes) (next : list string) : bool :=
  wire_wf (request next) && (len tail <? len (request_bytes next)) &&
  bool_decide (take (List.length tail) (request_bytes next) = tail).

Lemma begins_cut tail next : begins tail next = true ->
  exists rest, request_bytes next = tail ++ rest /\ rest <> [].
Proof.
  unfold begins. intros Hb. bools. apply bool_decide_eq_true in H0.
  exists (drop (List.length tail) (request_bytes next)). split.
  - rewrite <- H0 at 1. by rewrite take_drop.
  - intros Hnil. apply (f_equal List.length) in Hnil. rewrite length_drop in Hnil. unfold len in *. cbn in Hnil. lia.
Qed.

(** What the parser does with the beginning of a request. *)
Lemma begins_holds tail next : begins tail next = true -> len (request_bytes next) <= isize_max ->
  exists p, holds p tail.
Proof.
  intros Hb Hlen. destruct (begins_cut tail next Hb) as (rest & Hrest & Hne).
  unfold begins in Hb. bools. destruct (request_on_wire next) as [Hwf Hser]; [done|].
  rewrite Hrest in Hser, Hlen. destruct (holds_cut (request next) tail rest Hwf Hser Hne Hlen) as (p & Hp & _). by exists p.
Qed.

Section Reads.
Context `{Env}.

(** A read that completes some requests and begins another: they are answered in
    order, as the specification answers them, and the beginning is held. *)
Lemma read_requests c tail b reqs next tail' s a : ordinary c s -> held c tail ->
  b <> [] -> missing (resp_parser c) <= len b ->
  Forall (fun args => wire_wf (request args) = true) reqs ->
  tail ++ b = mjoin (List.map request_bytes reqs) ++ tail' -> begins tail' next = true ->
  len (tail ++ b) <= isize_max -> len (request_bytes next) <= isize_max ->
  keeps_for s a -> requests_admit (clock s) (client_fd c) reqs a = true ->
  exists s' p, read_socket c (Some b) all_taken s =
      Ret (s', (with_parser c p, (requests_spec (clock s) (client_fd c) reqs a).2, true)) /\
    held (with_parser c p) tail' /\
    keeps_for s' (requests_spec (clock s) (client_fd c) reqs a).1 /\ quiet s s'.
Proof.
  intros Ho Hheld Hb Hmiss Hwf Heq Hnext Hlen Hlen' Hk Hok.
  destruct (begins_holds tail' next Hnext Hlen') as (p & Hp).
  pose proof (words_on_wire reqs Hwf) as Hall.
  pose proof (holds_count _ tail b _ _ tail' (h_holds _ _ Hheld) Hall Heq Hlen) as Hcount.
  destruct (serve_requests c reqs Hwf s a Ho Hk Hok) as (s' & Hserve & Hk' & Hq).
  exists s', p. split; [|split; [split; [done|exact (h_rdb _ _ Hheld)]|done]].
  rewrite read_socket_data by done. cbv zeta. rewrite bind_unfold.
  rewrite (read_loop_parse _ _ c _ (ready (tail ++ b) [])) by (rewrite (h_rdb _ _ Hheld); by apply (holds_feed _ _ _ (h_holds _ _ Hheld))).
  rewrite Heq. rewrite (read_loop_pipeline c tail' p (h_rdb _ _ Hheld) (ho_parse _ _ Hp) (ho_none _ _ Hp) _ _ Hall (ordinary_steady c s a reqs Ho Hk Hok)).
  - by rewrite Hserve.
  - unfold read_fuel. cbn [buf feed_buf]. rewrite length_app. lia.
  - by rewrite <- Heq.
Qed.
End Reads.
