(* ===== verification/Credentials.v ===== *)
(** * Who may change whose credentials

    A frame for the whole handler: whatever a client sends, the authentication of
    the other clients stays as it is. *)

From S2P Require Import Prelude Text Float64 Resp RespParser CmdBuilder Store.
From S2P Require Import AppState Replication Auth Registry Handler HandlerLogic Client.

(** Only the credentials of [client] may have changed. *)
Definition auth_kept (client : Z) (s s' : State) : Prop :=
  forall id, id <> client -> auth_clients (auth s') !! id = auth_clients (auth s) !! id.

#[export] Instance auth_kept_preorder client : PreOrder (auth_kept client).
Proof. split; [by intros x id|]. intros x y z H1 H2 id Hid. by rewrite H2, H1. Qed.

Create HintDb credentials discriminated.
#[export] Hint Resolve keeps_ret keeps_get keeps_of_outcome : credentials.
#[export] Hint Extern 1 (PreOrder (auth_kept _)) => apply auth_kept_preorder : credentials.

(** Peel a computation whose updates leave [auth] alone. *)
Ltac credentials_tac :=
  repeat first
    [ progress intros
    | solve [eauto with credentials]
    | solve [apply keeps_modify; intros ? ? ?; unfold with_data; repeat case_match; reflexivity]
    | apply keeps_bind; [typeclasses eauto| |]
    | apply keeps_iterate; [typeclasses eauto|]
    | match goal with |- keeps _ (match ?x with _ => _ end) => destruct x end
    | match goal with |- keeps _ ((match ?x with _ => _ end) ≫= _) => destruct x end ].

Section Frame.
Context `{Env} (client : Z).
Abbreviation kept := (keeps (auth_kept client)).

Lemma own_on_data {A} (f : Z -> Data -> outcome (Data * A)) : kept (on_data f).
Proof. intros s. unfold wlp, on_data. by destruct (f _ _) as [[]|]. Qed.
Lemma own_writes f : kept (writes f).
Proof. apply own_on_data. Qed.
Lemma own_reads f : kept (reads f).
Proof. apply own_on_data. Qed.
Lemma own_push c b : kept (push_response c b).
Proof. unfold push_response. credentials_tac. Qed.
#[local] Hint Resolve own_on_data own_writes own_reads own_push : credentials.
Lemma own_respond c r : kept (respond c r).
Proof. unfold respond. credentials_tac. Qed.
Lemma own_reg_remove t : kept (reg_remove t).
Proof. intros s. unfold wlp, reg_remove. by destruct (Registry.remove _ _ _). Qed.
Lemma own_reg_modify f : kept (reg_modify f).
Proof. unfold reg_modify. credentials_tac. Qed.
Lemma own_reg_insert t d e : kept (reg_insert t d e).
Proof. unfold reg_insert. credentials_tac. Qed.
#[local] Hint Resolve own_respond own_reg_remove own_reg_modify own_reg_insert : credentials.
Lemma own_interest fd c : kept (add_interest fd c) /\ kept (remove_interest fd c).
Proof. unfold add_interest, remove_interest. split; credentials_tac. Qed.
Lemma own_add_interest fd c : kept (add_interest fd c).
Proof. apply own_interest. Qed.
Lemma own_remove_interest fd c : kept (remove_interest fd c).
Proof. apply own_interest. Qed.
#[local] Hint Resolve own_add_interest own_remove_interest : credentials.

Lemma own_run_task t : kept (run_task t).
Proof. destruct t; cbn [run_task]; unfold run_blpop, run_null, run_xread, run_wait; credentials_tac. Qed.
Lemma own_ack_scan off ids : forall d1 d2, kept (ack_scan off ids d1 d2).
Proof. induction ids; intros d1 d2; cbn; cbv zeta; credentials_tac. Qed.
Lemma own_ack_timestamps fd ids : kept (ack_timestamps fd ids).
Proof. induction ids; cbn; credentials_tac. Qed.
#[local] Hint Resolve own_run_task own_ack_scan own_ack_timestamps : credentials.
Lemma own_replconf arg c fd : kept (cmd_replconf arg c fd).
Proof. destruct arg; cbn; credentials_tac; unfold cmd_replconf_ack; credentials_tac. Qed.

Lemma own_join k c rc : kept (join_channel k c rc).
Proof. unfold join_channel. credentials_tac. Qed.
#[local] Hint Resolve own_join : credentials.
Lemma own_subscribe_known c rc keys : kept (subscribe_known c rc keys).
Proof. induction keys; cbn; credentials_tac. Qed.
Lemma own_subscribe_new c rc keys : kept (subscribe_new c rc keys).
Proof. induction keys; cbn; credentials_tac. Qed.
#[local] Hint Resolve own_replconf own_subscribe_known own_subscribe_new : credentials.

Lemma own_exec_queue execute q : (forall c b, kept (execute c b)) -> kept (exec_queue execute q).
Proof. intros Hex. induction q as [|[] q IH]; cbn; credentials_tac. Qed.
Lemma own_exec execute c : (forall c b, kept (execute c b)) -> kept (cmd_exec execute c).
Proof.
  intros Hex. pose proof (fun q => own_exec_queue execute q Hex). unfold cmd_exec, end_txn.
  credentials_tac.
Qed.

(** Authentication writes the entry of the client that asks for it. *)
Lemma authenticate_kept a user pw id : id <> client ->
  auth_clients (authenticate a client user pw).1 !! id = auth_clients a !! id.
Proof.
  intros Hid. unfold authenticate. repeat case_match; cbn; try done; by rewrite lookup_insert_ne.
Qed.
Lemma own_auth user pw : kept (on_auth (fun a => cmd_auth a user pw client)).
Proof.
  intros s. unfold wlp, on_auth, cmd_auth.
  pose proof (authenticate_kept (auth s) (Some user) (Some pw)) as Hk.
  destruct (authenticate _ _ _ _) as [a r]. exact Hk.
Qed.
Lemma own_acl opt : kept (on_auth (fun a => cmd_acl a opt client)).
Proof.
  intros s. unfold wlp, on_auth.
  assert (auth_clients (cmd_acl (auth s) opt client).1 = auth_clients (auth s)) as Ha.
  { unfold cmd_acl. destruct opt; try done. unfold cmd_acl_setuser. repeat case_match; try done. }
  destruct (cmd_acl _ _ _). intros id _. cbn in *. by rewrite Ha.
Qed.
#[local] Hint Resolve own_auth own_acl own_exec : credentials.

Lemma own_dispatch execute c fd is_sub : (forall c b, kept (execute c b)) ->
  kept (dispatch execute c client fd is_sub).
Proof.
  intros Hex. unfold dispatch. apply keeps_bind; [typeclasses eauto|apply keeps_get; typeclasses eauto|].
  intros s. destruct c; try solve [eauto with credentials];
    unfold cmd_blpop, cmd_xread, cmd_wait, cmd_multi, cmd_discard, cmd_watch, cmd_unwatch, cmd_psync,
      cmd_subscribe, cmd_unsubscribe, cmd_publish; cbv zeta; credentials_tac.
Qed.
#[local] Hint Resolve own_dispatch : credentials.

Lemma own_execute_body execute c b fd ser : (forall c b, kept (execute c b)) ->
  kept (execute_body execute c b client fd ser).
Proof.
  intros Hex. unfold execute_body, before_cmd, after_reply, count_bytes, aof_append. cbv zeta.
  credentials_tac.
Qed.
Lemma own_execute fuel : forall c b fd ser, kept (_execute_cmd fuel c b client fd ser).
Proof.
  induction fuel as [|f IH]; intros c b fd ser; [by intros s|]. cbn [_execute_cmd].
  by apply own_execute_body.
Qed.
Lemma own_handle c b fd : kept (handle c b client fd).
Proof.
  unfold handle, execute_cmd, cmd_discard. pose proof own_execute. credentials_tac;
    apply own_exec; intros; apply own_execute.
Qed.

Lemma own_take_tasks pick ts : kept (take_tasks pick ts).
Proof. induction ts; cbn; credentials_tac. Qed.
#[local] Hint Resolve own_take_tasks own_handle : credentials.
Lemma own_turn : kept callback_deadline_expire /\ kept serve_backlog_list /\
  kept serve_backlog_stream /\ kept aof_flush.
Proof.
  unfold callback_deadline_expire, serve_backlog_list, serve_backlog_stream, aof_flush. cbv zeta.
  split_and!; credentials_tac.
Qed.

Lemma own_handshake c cmd b : client_fd c = client -> kept (handshake_to_master c cmd b).
Proof. intros Hc. unfold handshake_to_master. rewrite Hc. cbv zeta. credentials_tac. Qed.

Lemma own_serve_value c t : client_fd c = client -> kept (serve_value c t).
Proof.
  intros Hc. pose proof (fun cmd b => own_handshake c cmd b Hc). unfold serve_value.
  rewrite Hc. credentials_tac.
Qed.

Lemma serve_value_fd c t s : wlp (serve_value c t) (fun x _ => client_fd x.1 = client_fd c) s.
Proof.
  unfold serve_value. apply wlp_any. intros b s1. apply wlp_any. intros [cmd|e] s2.
  - apply wlp_bind, wlp_get. destruct (negb _ && _); [by apply wlp_any|].
    destruct (repl_status (repl_state c)) as [[]|]; try (by apply wlp_any).
    apply wlp_bind. apply (wlp_mono _ (fun x _ => client_fd x.1 = client_fd c));
      [|intros [c' r] s' Hc; by apply wlp_ret].
    unfold handshake_to_master. apply wlp_bind, wlp_get.
    destruct (handshake_state c), cmd; try (by apply wlp_any).
    cbv zeta. destruct (start_counting _); by apply wlp_any.
  - by apply wlp_any.
Qed.

(** What is left by [read_socket]: the credentials of others, and the descriptor
    of the connection. *)
Definition own (s : State) (c : TcpClient) (s' : State) : Prop :=
  auth_kept client s s' /\ client_fd c = client.

Lemma own_read_loop takes fuel : forall c written s, client_fd c = client ->
  wlp (read_loop fuel takes c written)
    (fun o s' => match o with Some (c', _, _) => own s c' s' | None => True end) s.
Proof.
  induction fuel as [|f IH]; intros c written s Hc; cbn [read_loop]; [by apply wlp_ret|].
  apply wlp_bind, wlp_of_outcome. intros [[] p] _; [|by apply wlp_ret].
  destruct (get_completed p) as [[t|] q]; [|by apply wlp_ret]. apply wlp_bind.
  pose proof (own_serve_value (with_parser c q) t Hc s) as Hk.
  pose proof (serve_value_fd (with_parser c q) t s) as Hfd. unfold wlp in Hk, Hfd |- *.
  destruct (serve_value _ t s) as [[s' [c' b]]|]; [|done]. cbn in Hfd.
  destruct (write_all _ _ _) as [x []]; [|split; [exact Hk|congruence]].
  pose proof (IH c' (written ++ [x]) s' (eq_trans Hfd Hc)) as Hk'. unfold wlp in Hk'.
  destruct (read_loop _ _ _ _ s') as [[s'' [[[c'' w] ok]|]]|]; [|done|done].
  destruct Hk' as [Hk' Hfd']. split; [by transitivity s'|done].
Qed.

Lemma own_read_socket c incoming takes s : client_fd c = client ->
  wlp (read_socket c incoming takes) (fun x s' => own s x.1.1 s') s.
Proof.
  intros Hc. unfold read_socket.
  destruct incoming as [[|x l]|]; [by apply wlp_ret| |by apply wlp_ret].
  cbv zeta. apply wlp_bind. eapply wlp_mono; [by apply own_read_loop|].
  intros [[[c' w] ok]|] s' Ho; apply wlp_of_outcome; intros x' [= <-]; exact Ho.
Qed.
End Frame.
