(* ===== verification/Aof.v ===== *)
(** * The append-only file ([aof.rs])

    The directory and the manifest, which names the file, and the replay of the file
    at the start. The file system is a state, [Disk]; creating a directory or a file
    is taken to succeed. [aof_write] and [aof_flush], with the failures of the disk,
    are in [Handler]. *)

From S2P Require Import Prelude Text Float64 Resp RespParser RespWire CmdBuilder Store.
From S2P Require Import AppState Replication Auth Registry Handler HandlerLogic Transactions Client.
From S2P Require Import RespChunks ClientReads Propagation.

(** ** The file system *)

(** The bytes of each file, by its path, and the directories. *)
Record Disk := mk_disk { files : gmap string bytes; dirs : gset string }.

(** A directory answers to its path with and without a final slash. *)
Definition create_dir_all (d : Disk) (dir : string) : Disk :=
  mk_disk (files d) ({[dir; dir +:+ "/"]} ∪ dirs d).

Fixpoint strip_prefix (p s : string) : option string :=
  match p, s with
  | EmptyString, _ => Some s
  | String a p', String b s' => if ascii_dec a b then strip_prefix p' s' else None
  | String _ _, EmptyString => None
  end.

(** The names of the files of a directory. *)
Definition read_dir (d : Disk) (dir : string) : list string :=
  List.filter (no_char "/") (omap (strip_prefix (dir +:+ "/")) (List.map fst (map_to_list (files d)))).

Definition create_dirs (c : Configs) (d : Disk) : Disk :=
  if negb (appendonly c) then d
  else
    let d := match path c with Some base => create_dir_all d base | None => d end in
    if String.eqb (appenddirname c) "" then d
    else
      create_dir_all d (match path c with
                        | Some base => base +:+ "/" +:+ appenddirname c
                        | None => appenddirname c
                        end).

(** ** File names *)
Definition append_dirpath (c : Configs) : outcome string :=
  let! base := unwrap (path c) in
  Ret (base +:+ "/" +:+ appenddirname c).

Definition format_incr (base : string) (id : Z) : string := base +:+ "." +:+ show_Z id +:+ ".incr.aof".

(** [get_latest_aof_id]: the greatest number in third place of the names of the
    directory; a name of fewer places panics. *)
Fixpoint aof_ids (names : list string) : outcome (list Z) :=
  match names with
  | [] => Ret []
  | name :: rest =>
      let! part := unwrap (split "." name !! 2%nat) in
      let! ids := aof_ids rest in
      Ret (match parse_u64 part with Ok id => id :: ids | Err _ => ids end)
  end.

Definition get_latest_aof_id (names : list string) : outcome (option Z) :=
  let! ids := aof_ids names in
  Ret (match ids with [] => None | id :: rest => Some (fold_left Z.max rest id) end).

(** The file a start appends to, and the line it puts in the manifest. *)
Definition aof_and_manifest (names : list string) (appendfilename : string) : outcome (string * bytes) :=
  let! latest := get_latest_aof_id names in
  let id := unwrap_or latest 1 in
  let name := format_incr appendfilename id in
  Ret (name, as_bytes ("file " +:+ name +:+ " seq " +:+ show_Z id +:+ " type i") ++ [LF]).

(** A file opened for appending keeps what it holds, and no write on it has failed
    yet; the manifest is truncated. *)
Definition init_aof_files (c : Configs) (d : Disk) : outcome (Disk * option AofFile) :=
  if negb (appendonly c) then Ret (d, None)
  else
    let! dir := append_dirpath c in
    let! (file, line) := aof_and_manifest (read_dir d dir) (appendfilename c) in
    let aof_filepath := dir +:+ "/" +:+ file in
    let manifest_filepath := dir +:+ "/" +:+ appendfilename c +:+ ".manifest" in
    let log := unwrap_or (files d !! aof_filepath) [] in
    Ret (mk_disk (<[manifest_filepath := line]> (<[aof_filepath := log]> (files d))) (dirs d),
         Some (mk_aof aof_filepath log [] [])).

(** ** The manifest *)

Record Manifest := mk_manifest { aof_filename : string; aof_seq : Z; aof_type : string }.

(** One pass over the words of a line. *)
Fixpoint scan_words (m : Manifest) (words : list string) : outcome (Result CustomError Manifest) :=
  match words with
  | [] => Ret (Ok m)
  | w :: rest =>
      if String.eqb w "file" then
        let! next := unwrap (head rest) in
        scan_words (mk_manifest next (aof_seq m) (aof_type m)) rest
      else if String.eqb w "seq" then
        let! next := unwrap (head rest) in
        match from_parse_int (parse_u64 next) with
        | Ok n => scan_words (mk_manifest (aof_filename m) n (aof_type m)) rest
        | Err e => Ret (Err e)
        end
      else if String.eqb w "type" then
        let! next := unwrap (head rest) in
        scan_words (mk_manifest (aof_filename m) (aof_seq m) next) rest
      else scan_words m rest
  end.

(** The lines up to the first of type [i]; a line that is not UTF-8 is an error. *)
Fixpoint scan_lines (m : Manifest) (lines : list bytes) : outcome (Result CustomError Manifest) :=
  match lines with
  | [] => Ret (Ok m)
  | line :: rest =>
      match from_utf8 line with
      | None => Ret (Err FileReadingError)
      | Some line =>
          let?! m := scan_words m (split " " line) in
          if String.eqb (aof_type m) "i" then Ret (Ok m) else scan_lines m rest
      end
  end.

(** [BufRead::lines]: a final line feed ends the last line, and a carriage return
    before it is dropped. *)
Fixpoint split_lines (b : bytes) (cur : bytes) : list bytes :=
  match b with
  | [] => match cur with [] => [] | _ => [cur] end
  | c :: rest =>
      if decide (c = LF) then
        (match rev cur with
         | d :: r => if decide (d = CR) then rev r else cur
         | [] => cur
         end) :: split_lines rest []
      else split_lines rest (cur ++ [c])
  end.

Definition read_manifest (b : bytes) : outcome (Result CustomError Manifest) :=
  let?! m := scan_lines (mk_manifest EmptyString 1 EmptyString) (split_lines b []) in
  if String.eqb (aof_type m) "i" then Ret (Ok m)
  else Ret (Err (InternalError "No aof type i found")).

(** ** Replay *)

Section Replay.
Context `{Env}.

(** The inner loop: an error of the parser is ignored. *)
Fixpoint replay_loop (fuel : nat) (p : RespParser) : M (option RespParser) :=
  match fuel with
  | O => mret None
  | S f =>
      '(_, p) ← of_outcome (parse false p);
      match get_completed p with
      | (None, p) => mret (Some p)
      | (Some t, p) =>
          raw ← of_outcome (serialize t);
          cmd ← of_outcome (Cmd.from_resp t);
          _ ← handle cmd raw 0 (-1);
          replay_loop f p
      end
  end.

(** The reads of the file, at most [BUFFER_SIZE] bytes each. *)
Fixpoint replay (chunks : list bytes) (p : RespParser) : M unit :=
  match chunks with
  | [] => mret tt
  | data :: rest =>
      let p := feed_buf p data in
      o ← replay_loop (read_fuel p) p;
      p ← of_outcome (unwrap o);
      replay rest p
  end.

(** [aof_replay]: the file the manifest names, read in [chunks]. *)
Definition aof_replay (chunks : bytes -> list bytes) (d : Disk) : M (Result CustomError unit) :=
  s ← get_state;
  dir ← of_outcome (append_dirpath (configs s));
  match files d !! (dir +:+ "/" +:+ appendfilename (configs s) +:+ ".manifest") with
  | None => mret (Err FileReadingError)
  | Some b =>
      m ← of_outcome (read_manifest b);
      match m with
      | Err e => mret (Err e)
      | Ok m =>
          match files d !! (dir +:+ "/" +:+ aof_filename m) with
          | None => mret (Err FileReadingError)
          | Some log => replay (chunks log) parser_new;; mret (Ok tt)
          end
      end
  end.

(** What the start leaves on the disk, and the writer, if there is one. *)
Definition init_sequence (chunks : bytes -> list bytes) (d : Disk) :
    M (Disk * Result CustomError (option AofFile)) :=
  s ← get_state;
  let c := configs s in
  if negb (appendonly c) then mret (d, Ok None)
  else
    dir ← of_outcome (append_dirpath c);
    let dir_exists := bool_decide (dir ∈ dirs d) in
    r ← if dir_exists then aof_replay chunks d else mret (Ok tt);
    match r with
    | Err e => mret (d, Err e)
    | Ok _ =>
        '(d, w) ← of_outcome (init_aof_files c (if dir_exists then d else create_dirs c d));
        mret (d, Ok w)
    end.

(** [main] drops the error, and [set_aof] takes what there is of a writer. *)
Definition attach_aof (chunks : bytes -> list bytes) (d : Disk) : M Disk :=
  '(d, r) ← init_sequence chunks d;
  modify (fun s => with_aof s (Some (match r with Ok w => w | Err _ => None end)));;
  mret d.
End Replay.

(** ** The manifest that is written is the one that is read *)
Lemma utf8_run_app a b : forall st, utf8_run st a = true -> utf8_run st (a ++ b) = utf8_run U_start b.
Proof.
  induction a as [|c a IH]; intros st; cbn.
  - by destruct st.
  - destruct (utf8_step st c); [apply IH|done].
Qed.

Lemma utf8_valid_app a b : utf8_valid a = true -> utf8_valid b = true -> utf8_valid (a ++ b) = true.
Proof. unfold utf8_valid. intros Ha Hb. by rewrite utf8_run_app. Qed.

Lemma no_char_app d s t : no_char d (s +:+ t) = no_char d s && no_char d t.
Proof.
  induction s as [|c s IH]; [done|].
  change (String c s +:+ t) with (String c (s +:+ t)). cbn. by rewrite IH, andb_assoc.
Qed.

Lemma no_char_spec d s : no_char d s = true <-> Forall (fun c => c <> d) (as_bytes s).
Proof.
  induction s as [|c s IH]; cbn; [by split; [constructor|]|].
  rewrite andb_true_iff, IH. destruct (ascii_dec c d); split.
  - by intros [].
  - intros HF. by inversion HF.
  - intros []. by constructor.
  - intros HF. by inversion HF.
Qed.

Lemma no_char_show d n : 0 <= n -> negb (bool_decide (d ∈ as_bytes "0123456789")) = true ->
  no_char d (show_Z n) = true.
Proof.
  intros Hn Hd. apply no_char_spec. apply negb_true_iff, bool_decide_eq_false in Hd.
  apply show_Z_forall; [lia|..]; intros <-; apply Hd; apply list_elem_of_In; cbn; tauto.
Qed.

Lemma split_lines_one l : forall cur, Forall (fun c => c <> LF) l -> forall d, d <> CR -> d <> LF ->
  split_lines (l ++ [d; LF]) cur = [cur ++ l ++ [d]].
Proof.
  induction l as [|c l IH]; intros cur Hl d Hd1 Hd2.
  - cbn -[decide]. destruct (decide (d = LF)); [done|]. destruct (decide (LF = LF)); [|done].
    rewrite rev_unit. by destruct (decide (d = CR)).
  - inversion Hl; subst. cbn -[decide]. destruct (decide (c = LF)); [done|].
    rewrite IH by done. by rewrite <- app_assoc.
Qed.

Lemma scan_other m w rest :
  w <> "file"%string -> w <> "seq"%string -> w <> "type"%string ->
  scan_words m (w :: rest) = scan_words m rest.
Proof. intros H1 H2 H3. cbn. by rewrite (proj2 (String.eqb_neq _ _) H1), (proj2 (String.eqb_neq _ _) H2),
  (proj2 (String.eqb_neq _ _) H3). Qed.

Lemma format_incr_long base id : (9 <= String.length (format_incr base id))%nat.
Proof.
  assert (forall a b, String.length (a +:+ b) = (String.length a + String.length b)%nat) as Happ.
  { intros a b. induction a as [|c a IH]; [done|].
    change (String c a +:+ b) with (String c (a +:+ b)). cbn. by rewrite IH. }
  unfold format_incr. rewrite !Happ. cbn. lia.
Qed.

(** The words of the line a start writes. *)
Lemma scan_manifest_words name id : is_u64 id -> (9 <= String.length name)%nat ->
  scan_words (mk_manifest EmptyString 1 EmptyString) ["file"; name; "seq"; show_Z id; "type"; "i"]%string =
  Ret (Ok (mk_manifest name id "i")).
Proof.
  intros Hid Hlen.
  assert (forall w, (String.length w < 9)%nat -> name <> w) as Hlong by (intros w Hw ->; lia).
  assert (forall w, parse_u64 w <> Ok id -> show_Z id <> w) as Hdig.
  { intros w Hw <-. apply Hw. by apply parse_show_usize. }
  change (scan_words ?m ("file" :: name :: ?r)) with
    (scan_words (mk_manifest name (aof_seq m) (aof_type m)) (name :: r)).
  rewrite scan_other by (apply Hlong; cbn; lia).
  change (scan_words ?m ("seq" :: ?n :: ?r)) with
    (match from_parse_int (parse_u64 n) with
     | Ok x => scan_words (mk_manifest (aof_filename m) x (aof_type m)) (n :: r)
     | Err e => Ret (Err e) end).
  rewrite (parse_show_usize id Hid : parse_u64 _ = _).
  change (from_parse_int (Ok ?x)) with (@Ok CustomError _ x). cbv beta iota.
  rewrite scan_other by (apply Hdig; vm_compute; discriminate). done.
Qed.

(** The line is read back. *)
Lemma manifest_line_reads name id : no_char " " name = true -> no_char LF name = true ->
  utf8_valid (as_bytes name) = true -> is_u64 id -> (9 <= String.length name)%nat ->
  read_manifest (as_bytes ("file " +:+ name +:+ " seq " +:+ show_Z id +:+ " type i") ++ [LF]) =
  Ret (Ok (mk_manifest name id "i")).
Proof.
  intros Hn1 Hn2 Hn3 Hid Hlen.
  assert (no_char " " (show_Z id) = true /\ no_char LF (show_Z id) = true) as [Hi1 Hi2].
  { split; (apply no_char_show; [apply Hid|done]). }
  set (text := "file " +:+ name +:+ " seq " +:+ show_Z id +:+ " type ").
  assert (as_bytes ("file " +:+ name +:+ " seq " +:+ show_Z id +:+ " type i") = as_bytes text ++ ["i"%char])
    as Htext.
  { unfold text. rewrite !as_bytes_app. by rewrite <- !app_assoc. }
  unfold read_manifest. rewrite Htext, <- app_assoc. change (["i"%char] ++ [LF]) with ["i"%char; LF].
  rewrite split_lines_one; [|apply no_char_spec; unfold text; by rewrite !no_char_app, Hn2, Hi2|done|done].
  change ([] ++ ?x) with x. rewrite <- Htext. cbn [scan_lines]. rewrite from_utf8_valid.
  2:{ rewrite !as_bytes_app. repeat apply utf8_valid_app; try done. apply utf8_show_Z. }
  change ("file " +:+ ?x) with ("file" +:+ String " " x). rewrite split_join by done.
  change (" seq " +:+ ?x) with (String " " ("seq" +:+ String " " x)). rewrite split_join by done.
  rewrite split_join by done.
  change (" type i") with (String " " "type i"). rewrite split_join by done.
  change (split " " "type i") with ["type"; "i"]%string. by rewrite scan_manifest_words.
Qed.

(** A file name of a start can be written into a manifest. *)
Lemma format_incr_plain base id : no_char " " base = true -> no_char LF base = true ->
  utf8_valid (as_bytes base) = true -> is_u64 id ->
  no_char " " (format_incr base id) = true /\ no_char LF (format_incr base id) = true /\
  utf8_valid (as_bytes (format_incr base id)) = true.
Proof.
  intros Hsp Hlf Hu Hid. unfold format_incr. rewrite !no_char_app, Hsp, Hlf, !no_char_show by (done || apply Hid).
  split_and!; [done..|]. rewrite !as_bytes_app. repeat apply utf8_valid_app; [done|done|apply utf8_show_Z|done].
Qed.

(** The number of a start is one that was read, or the first. *)
Lemma latest_is_u64 names o : get_latest_aof_id names = Ret o -> is_u64 (unwrap_or o 1).
Proof.
  unfold get_latest_aof_id. destruct (aof_ids names) as [ids|] eqn:Hids; [|done]. cbn [outcome_bind].
  assert (Forall is_u64 ids) as Hall.
  { revert ids Hids. induction names as [|n names IH]; cbn [aof_ids]; intros ids; [intros [= <-]; constructor|].
    destruct (unwrap _) as [part|]; [|done]. cbn [outcome_bind]. destruct (aof_ids names) as [ids'|]; [|done].
    cbn [outcome_bind]. destruct (parse_u64 part) as [id|] eqn:Hp; intros [= <-]; [|by apply IH].
    constructor; [|by apply IH]. by eapply parse_unsigned_range in Hp. }
  clear Hids. intros [= <-]. destruct Hall as [|id ids Hid Hall]; cbn; [done|].
  revert id Hid. induction Hall as [|x ids Hx _ IH]; intros id Hid; cbn; [done|]. apply IH.
  unfold is_u64 in *. lia.
Qed.

(** What a start writes is read back. *)
Lemma init_reads names base file line :
  no_char " " base = true -> no_char LF base = true -> utf8_valid (as_bytes base) = true ->
  aof_and_manifest names base = Ret (file, line) ->
  exists id, file = format_incr base id /\ read_manifest line = Ret (Ok (mk_manifest file id "i")).
Proof.
  intros Hsp Hlf Hu. unfold aof_and_manifest. destruct (get_latest_aof_id names) as [o|] eqn:Ho; [|done].
  cbn [outcome_bind]. intros [= <- <-]. apply latest_is_u64 in Ho. exists (unwrap_or o 1). split; [done|].
  destruct (format_incr_plain base (unwrap_or o 1)) as (? & ? & ?); [done..|].
  apply manifest_line_reads; [done..|apply format_incr_long].
Qed.

(** C39: the manifest that a start writes is the one the next start reads: the
    same file name and type, and the latest number in the directory, or 1. *)
Theorem manifest_roundtrip names base o :
  no_char " " base = true -> no_char LF base = true -> utf8_valid (as_bytes base) = true ->
  get_latest_aof_id names = Ret o ->
  let id := unwrap_or o 1 in
  exists line, aof_and_manifest names base = Ret (format_incr base id, line) /\
    read_manifest line = Ret (Ok (mk_manifest (format_incr base id) id "i")).
Proof.
  intros Hsp Hlf Hu Ho id. pose proof (latest_is_u64 names o Ho) as Hid. fold id in Hid.
  unfold aof_and_manifest. rewrite Ho. cbn [outcome_bind]. fold id. eexists. split; [reflexivity|].
  destruct (format_incr_plain base id) as (? & ? & ?); [done..|].
  apply manifest_line_reads; [done..|apply format_incr_long].
Qed.

Lemma manifest_roundtrip_witness : exists line,
  aof_and_manifest ["appendonly.aof.3.incr.aof"; "appendonly.aof.manifest"] "appendonly.aof" =
    Ret ("appendonly.aof.3.incr.aof"%string, line) /\
  read_manifest line = Ret (Ok (mk_manifest "appendonly.aof.3.incr.aof" 3 "i")).
Proof.
  apply (manifest_roundtrip ["appendonly.aof.3.incr.aof"; "appendonly.aof.manifest"]%string
    "appendonly.aof" (Some 3)); done.
Defined.

(** A name with fewer than three parts stops the server at its next start. *)
Example short_name_panics : aof_and_manifest ["aof.1.incr.aof"; "aof.manifest"] "aof" = Panic.
Proof. reflexivity. Qed.

(** ** The replay ends, and restores the data *)

Section Restore.
Context `{Env}.

Lemma replay_loop_total fuel : forall p s, parser_wf p -> potential p < Z.of_nat fuel ->
  wlp (replay_loop fuel p) (fun o _ => o <> None) s.
Proof.
  induction fuel as [|f IH]; intros p s Hwf Hp.
  { pose proof (measure_nonneg p). unfold potential, len in Hp. destruct (stack _); lia. }
  cbn [replay_loop]. apply wlp_bind, wlp_of_outcome. intros [r q] Hparse.
  unfold get_completed. destruct (completed q) as [|t rest] eqn:Hc; [by apply wlp_ret|].
  destruct (parse_potential _ _ _ _ Hwf Hparse) as [Hpot Hwfq]; [by rewrite Hc|].
  apply wlp_any. intros raw s1. apply wlp_any. intros cmd s2. apply wlp_any. intros _ s3.
  apply IH; [done|]. unfold potential in *. cbn. rewrite Hc, len_cons in Hpot.
  change (measure (set_completed q rest)) with (measure q). lia.
Qed.

(** The replay of a chunk of the file ends, whatever is in it. *)
Theorem replay_ends data s : len data <= isize_max ->
  let p := feed_buf parser_new data in
  wlp (replay_loop (read_fuel p) p) (fun o _ => o <> None) s.
Proof.
  intros Hlen p.
  assert (parser_wf p) as Hwf by (apply feed_buf_wf; [apply parser_new_wf|cbn; done]).
  apply replay_loop_total; [done|]. by apply read_fuel_enough.
Qed.

(** A request as a command with the bytes it came in. *)
Definition is_request (t : RespType) (x : Cmd.t * bytes) : Prop :=
  on_wire t x.2 /\ Cmd.from_resp t = Ret (Ok x.1).

Lemma requests_on_wire ts cmds : Forall2 is_request ts cmds -> Forall2 on_wire ts (List.map snd cmds).
Proof. induction 1 as [|t x ts cmds [] _ IH]; cbn; by constructor. Qed.

(** One read: the requests it completes, and what the parser holds of the next. *)
Lemma replay_loop_session ts cmds tail p : Forall2 is_request ts cmds -> holds p tail -> forall fuel s,
  (List.length ts < fuel)%nat -> len (mjoin (List.map snd cmds) ++ tail) <= isize_max ->
  replay_loop fuel (ready (mjoin (List.map snd cmds) ++ tail) []) s =
  match session 0 (-1) cmds s with
  | Ret (s', _) => Ret (s', Some p)
  | Panic => Panic
  end.
Proof.
  intros Hall Hp.
  induction Hall as [|t [c w] ts cmds [[Hwf Hser] Hcmd] Hall IH]; intros fuel s Hf Hlen;
    (destruct fuel as [|fuel]; [cbn in Hf; lia|]); cbn [replay_loop session List.map snd fst] in *;
    rewrite bind_unfold; unfold of_outcome at 1.
  - change (mjoin [] ++ tail) with tail. rewrite (ho_parse _ _ Hp). cbn [outcome_bind]. by rewrite (ho_none _ _ Hp).
  - change (mjoin (w :: List.map snd cmds)) with (w ++ mjoin (List.map snd cmds)) in *. rewrite <- app_assoc in *.
    rewrite (parse_wire t w _ Hwf Hser Hlen). cbn [outcome_bind]. unfold get_completed.
    cbn [completed parsed].
    change (set_completed (parsed ?r t) []) with (ready r []).
    rewrite bind_unfold. unfold of_outcome at 1. rewrite Hser. cbn [outcome_bind].
    rewrite bind_unfold. unfold of_outcome at 1. rewrite Hcmd. cbn [outcome_bind].
    rewrite !bind_unfold. destruct (handle (Ok c) w 0 (-1) s) as [[s1 r]|]; [|done].
    rewrite len_app in Hlen. pose proof (len_nonneg w). cbn in Hf.
    rewrite IH by lia. rewrite bind_unfold. by destruct (session 0 (-1) cmds s1) as [[]|].
Qed.

Lemma replay_loop_parse f p q s : parse false p = parse false q -> replay_loop f p s = replay_loop f q s.
Proof. intros Hp. destruct f; [done|]. cbn [replay_loop]. by rewrite Hp. Qed.

(** Reads of [n] bytes, the last of which may be shorter. *)
Fixpoint reads_of (n : Z) (chunks : list bytes) : Prop :=
  match chunks with
  | [] => True
  | [b] => b <> []
  | b :: rest => len b = n /\ 0 < n /\ reads_of n rest
  end.

Lemma reads_of_cons n b rest : reads_of n (b :: rest) -> b <> [] /\ (rest = [] \/ len b = n) /\ reads_of n rest.
Proof.
  destruct rest as [|b' rest]; [intros Hb; by split_and!; [|left|]|].
  intros (Hb & Hn & Hr). split_and!; [|by right|done]. intros ->. rewrite len_nil in Hb. lia.
Qed.

(** Bytes at the head of requests that complete none of them. *)
Definition within_first (tail : bytes) (ws : list bytes) : Prop :=
  tail = [] \/ exists w ws' b, ws = w :: ws' /\ w = tail ++ b /\ b <> [].

Lemma holds_first ts cmds tail : Forall2 is_request ts cmds -> within_first tail (List.map snd cmds) ->
  len (mjoin (List.map snd cmds)) <= isize_max ->
  exists p, holds p tail /\
    (missing p = 0 \/ exists x cmds' b, cmds = x :: cmds' /\ x.2 = tail ++ b /\ missing p <= len b).
Proof.
  intros Hall [->|(w & ws & b & Hws & -> & Hne)] Hlen.
  { exists parser_new. split; [apply holds_nothing|by left]. }
  destruct Hall as [|t [c w] ts cmds [[Hwf Hser] _] Hall]; [done|]. cbn in Hws. injection Hws as Hw Hws.
  cbn [snd] in *. subst w.
  change (mjoin (List.map snd ((c, tail ++ b) :: cmds))) with ((tail ++ b) ++ mjoin (List.map snd cmds)) in Hlen.
  rewrite len_app in Hlen. pose proof (len_nonneg (mjoin (List.map snd cmds))).
  destruct (holds_cut t tail b Hwf Hser Hne) as (p & Hp & Hm); [lia|]. exists p. split; [done|].
  right. by exists (c, tail ++ b), cmds, b.
Qed.

(** A read of a log that is cut into reads. *)
Lemma replay_read p tail b ts cmds tail' p' s : Forall2 is_request ts cmds -> holds p tail -> holds p' tail' ->
  b <> [] -> missing p <= len b -> tail ++ b = mjoin (List.map snd cmds) ++ tail' -> len (tail ++ b) <= isize_max ->
  replay_loop (read_fuel (feed_buf p b)) (feed_buf p b) s =
  match session 0 (-1) cmds s with
  | Ret (s', _) => Ret (s', Some p')
  | Panic => Panic
  end.
Proof.
  intros Hall Hp Hp' Hb Hm Heq Hlen.
  pose proof (holds_count p tail b ts _ tail' Hp (requests_on_wire ts cmds Hall) Heq Hlen) as Hcount.
  rewrite (replay_loop_parse _ _ (ready (tail ++ b) [])) by (by apply holds_feed). rewrite Heq in *.
  apply (replay_loop_session ts); [done|done| |done].
  unfold read_fuel. cbn [buf feed_buf]. rewrite length_app. lia.
Qed.

(** Nothing is done with a read that leaves the last request unfinished. *)
Lemma replay_late p tail b s : holds p tail -> len b < missing p -> len (tail ++ b) <= isize_max ->
  exists q, replay_loop (read_fuel (feed_buf p b)) (feed_buf p b) s = Ret (s, Some q).
Proof.
  intros Hp Hlate Hlen. destruct (holds_late p tail b Hp Hlate Hlen) as (q & Hq & Hnone). exists q.
  destruct (read_fuel (feed_buf p b)) as [|f] eqn:Hf; [unfold read_fuel in Hf; lia|]. cbn [replay_loop].
  rewrite bind_unfold. unfold of_outcome at 1. rewrite Hq. cbn [outcome_bind]. by rewrite Hnone.
Qed.

(** Where a read ends that does not bring what was missing: in the first request. *)
Lemma late_within n p tail b rest ts cmds x : Forall2 is_request ts cmds -> reads_of n (b :: rest) ->
  Forall (fun x => len x.2 <= n) cmds -> tail ++ b ++ mjoin rest ++ x = mjoin (List.map snd cmds) ->
  within_first tail (List.map snd cmds) -> len (mjoin (List.map snd cmds)) <= isize_max ->
  holds p tail -> len b < missing p -> rest = [] /\ within_first (tail ++ b) (List.map snd cmds).
Proof.
  intros Hall (_ & Hb & _)%reads_of_cons Hn Heq Hcut Hlen Hp Hlate. pose proof (len_nonneg b).
  destruct (holds_first ts cmds tail Hall Hcut Hlen) as (p' & Hp' & Hm).
  assert (p' = p) as -> by (pose proof (ho_parse _ _ Hp); pose proof (ho_parse _ _ Hp'); congruence).
  destruct Hm as [Hm|([c w] & cmds' & b' & -> & Hw & Hm)]; [lia|]. cbn [snd] in Hw. subst w.
  inversion Hn as [|? ? Hx _]; subst. cbn in Hx. rewrite len_app in Hx. pose proof (len_nonneg tail).
  split; [destruct Hb; [done|lia]|]. right.
  change (mjoin (List.map snd ((c, tail ++ b') :: cmds'))) with ((tail ++ b') ++ mjoin (List.map snd cmds')) in *.
  rewrite <- app_assoc in Heq. apply app_inv_head in Heq.
  apply app_eq_app in Heq as (l & [[-> _]|[-> _]]); [rewrite len_app in *; pose proof (len_nonneg l); lia|].
  exists ((tail ++ b ++ l)), (List.map snd cmds'), l. rewrite <- app_assoc. split_and!; [done..|].
  intros ->. rewrite app_nil_r in Hm. lia.
Qed.

(** The replay of the beginning of a log, cut anywhere, is the session of the
    requests that are whole, sent by client 0, when each fits in a read. *)
Lemma replay_prefix n chunks : forall p tail ts cmds x, Forall2 is_request ts cmds -> reads_of n chunks ->
  Forall (fun x => len x.2 <= n) cmds -> tail ++ mjoin chunks ++ x = mjoin (List.map snd cmds) ->
  within_first tail (List.map snd cmds) -> len (mjoin (List.map snd cmds)) <= isize_max -> holds p tail ->
  exists cmds1 cmds2 torn, cmds = cmds1 ++ cmds2 /\ tail ++ mjoin chunks = mjoin (List.map snd cmds1) ++ torn /\
    within_first torn (List.map snd cmds2) /\
    forall s, replay chunks p s =
      match session 0 (-1) cmds1 s with
      | Ret (s', _) => Ret (s', tt)
      | Panic => Panic
      end.
Proof.
  induction chunks as [|b rest IH]; intros p tail ts cmds x Hall Hr Hn Heq Hcut Hlen Hp.
  { exists [], cmds, tail. change (mjoin []) with (@nil ascii). by rewrite app_nil_r. }
  change (mjoin (b :: rest)) with (b ++ mjoin rest) in *. rewrite <- app_assoc in Heq.
  destruct (reads_of_cons _ _ _ Hr) as (Hb & _ & Hrest). pose proof (len_nonneg (mjoin rest ++ x)) as Hx.
  assert (len (tail ++ b) <= isize_max) as Hlb.
  { rewrite <- Heq, app_assoc, len_app in Hlen. lia. }
  destruct (Z.le_gt_cases (missing p) (len b)) as [Hm|Hlate].
  2: { destruct (late_within n p tail b rest ts cmds x) as [-> Hin]; try done; try lia.
    exists [], cmds, (tail ++ b). change (mjoin []) with (@nil ascii). rewrite app_nil_r. split_and!; [done..|].
    intros s. destruct (replay_late p tail b s Hp ltac:(lia) Hlb) as (q & Hq).
    cbn [replay]. by rewrite bind_unfold, Hq. }
  assert ((tail ++ b) ++ mjoin rest ++ x = mjoin (List.map snd cmds)) as Heq' by (by rewrite <- app_assoc).
  destruct (cut_stream (List.map snd cmds) (tail ++ b) (mjoin rest ++ x)) as (ws1 & ws2 & tail' & Hws & Htb & Heq2 & Hcut');
    [done|].
  apply map_eq_app in Hws as (cmds1 & cmds2 & -> & <- & <-).
  apply Forall2_app_inv_r in Hall as (ts1 & ts2 & Hall1 & Hall2 & ->). apply Forall_app in Hn as [_ Hn2].
  assert (within_first tail' (List.map snd cmds2)) as Hcut2.
  { destruct Hcut' as [->|(w & ws3 & b' & Hw & Hw' & Hne & _)]; [by left|right; by exists w, ws3, b']. }
  rewrite map_app, join_app, len_app in Hlen. pose proof (len_nonneg (mjoin (List.map snd cmds1))).
  destruct (holds_first ts2 cmds2 tail' Hall2 Hcut2) as (p' & Hp' & _); [lia|].
  destruct (IH p' tail' ts2 cmds2 x) as (c1 & c2 & torn & -> & Htorn & Hin & Hrun); [done..|lia|done|].
  exists (cmds1 ++ c1), c2, torn. rewrite <- app_assoc. split; [done|]. split.
  { rewrite app_assoc, Htb, <- app_assoc, Htorn, map_app, join_app, app_assoc. done. }
  split; [done|]. intros s. cbn [replay]. rewrite bind_unfold, (replay_read p tail b ts1 cmds1 tail' p') by done.
  rewrite session_app. destruct (session 0 (-1) cmds1 s) as [[s1 r1]|]; [|done].
  rewrite bind_unfold. unfold of_outcome. cbn [unwrap outcome_bind]. rewrite Hrun.
  by destruct (session 0 (-1) c1 s1) as [[]|].
Qed.

(** No request ends within the first. *)
Lemma within_whole ts cmds tail x : Forall2 is_request ts cmds -> within_first tail (List.map snd cmds) ->
  tail = mjoin (List.map snd cmds) ++ x -> cmds = [].
Proof.
  intros [|t [c w] ts' cmds' [Ht _] _]; [done|]. intros Hin Heq. exfalso. pose proof (on_wire_nonempty t w Ht) as Hw.
  change (mjoin (List.map snd ((c, w) :: cmds'))) with (w ++ mjoin (List.map snd cmds')) in Heq.
  destruct Hin as [->|(w' & ws & b & Hws & -> & Hb)]; [by rewrite <- app_assoc in Heq; destruct w|].
  injection Hws as -> _. rewrite <- !app_assoc in Heq. rewrite <- (app_nil_r tail) in Heq at 1.
  apply app_inv_head in Heq. symmetry in Heq. by apply app_eq_nil in Heq as [? _].
Qed.

(** Of a whole log, it is the session of all its requests. *)
Lemma replay_session n chunks ts cmds s : Forall2 is_request ts cmds -> reads_of n chunks ->
  Forall (fun x => len x.2 <= n) cmds -> mjoin chunks = mjoin (List.map snd cmds) ->
  len (mjoin (List.map snd cmds)) <= isize_max ->
  replay chunks parser_new s =
  match session 0 (-1) cmds s with
  | Ret (s', _) => Ret (s', tt)
  | Panic => Panic
  end.
Proof.
  intros Hall Hr Hn Heq Hlen.
  destruct (replay_prefix n chunks parser_new [] ts cmds []) as (c1 & c2 & torn & -> & Htorn & Hin & ->);
    [done..|by rewrite app_nil_r|by left|done|apply holds_nothing|].
  change ([] ++ ?l) with l in Htorn. rewrite Heq, map_app, join_app in Htorn. apply app_inv_head in Htorn.
  apply Forall2_app_inv_r in Hall as (ts1 & ts2 & _ & Hall & ->).
  rewrite (within_whole ts2 c2 torn [] Hall Hin) by (by rewrite app_nil_r). by rewrite app_nil_r.
Qed.

Lemma session_log_all cmds rs : List.length cmds = List.length rs ->
  Forall (fun x => Cmd.to_be_broadcast x.1 = true) cmds -> Forall (fun r => succeeded r = true) rs ->
  session_log cmds rs = mjoin (List.map snd cmds).
Proof.
  revert rs. induction cmds as [|[c b] cmds IH]; intros [|r rs]; cbn [List.length]; try done.
  intros Hl Hb Hs. inversion Hb as [|? ? Hc Hb']; inversion Hs as [|? ? Hr Hs']; subst. cbn in Hc.
  cbn [session_log]. unfold logged. rewrite Hc, Hr. cbn [andb]. rewrite IH by (done || lia). done.
Qed.

(** C13: when a client's writes all succeed and the disk takes what it is given, the
    append-only file is given exactly their requests, and replaying what it was
    given, in reads that each request fits in, on a server with the data from before
    the session restores the data after it: at any later time if every write is
    timeless (no [SET] with a lifetime, no [XADD] that takes its identifier from the
    clock), and in the same millisecond if not. *)
Theorem aof_restores ts cmds client fd s s' rs n s0 size chunks : Forall2 is_request ts cmds ->
  Forall (fun x => data_cmd x.1 = true /\ Cmd.to_be_broadcast x.1 = true) cmds ->
  direct s client -> is_master (clients s) client = false -> disk_sound s -> aof_contents s = Some [] ->
  host_offset s = Some n -> 0 <= n -> n + session_count cmds <= i64_max ->
  session client fd cmds s = Ret (s', rs) -> Forall (fun r => succeeded r = true) rs ->
  data (handler s0) = data (handler s) -> direct s0 0 ->
  Forall (fun x => timeless x.1 = true) cmds \/ clock s0 = clock s ->
  len (mjoin (List.map snd cmds)) <= isize_max ->
  reads_of size chunks -> Forall (fun x => len x.2 <= size) cmds -> mjoin chunks = mjoin (List.map snd cmds) ->
  aof_contents s' = Some (mjoin chunks) /\
  exists s0', replay chunks parser_new s0 = Ret (s0', tt) /\ data (handler s0') = data (handler s').
Proof.
  intros Hreq Hall Hd Hm Hdisk Ha Hn Hpos Hbd Hses Hok Hag Hd0 Htime Hlen Hreads Hsize Hjoin.
  assert (Forall (fun x => data_cmd x.1 = true) cmds) as Hdc by (eapply Forall_impl; [exact Hall|by intros ? []]).
  pose proof Hd as (Ht & Hsub & _).
  destruct (session_adds cmds client fd Hdc s s' rs n Ht Hsub Hm Hn Hpos Hbd Hses) as [Had _].
  assert (exists now, agrees now s s0 /\ Forall (fun x => may_run now x.1 = true) cmds) as (now & Hag' & Hrun).
  { unfold may_run. destruct Htime as [Htl|Hck].
    - exists false. split; [by split|]. rewrite Forall_forall in Hdc, Htl |- *. intros x Hx. by rewrite Hdc, Htl.
    - exists true. split; [by split|]. rewrite Forall_forall in Hdc |- *. intros x Hx. by rewrite Hdc. }
  destruct (session_agrees now cmds client 0 fd (-1) Hrun s s0 s' rs Hag' Hd Hd0 Hm Hses)
    as (s0' & rs0 & Hses0 & [Hdata _] & _).
  rewrite Hjoin. split; [|exists s0'; split; [|done]].
  - rewrite (ad_aof _ _ _ _ Had Hdisk), Ha. cbn. f_equal.
    apply session_log_all; [|by eapply Forall_impl; [exact Hall|intros ? []]|done].
    pose proof (session_len _ _ _ _ _ _ Hses) as Hl. unfold len in Hl. lia.
  - by rewrite (replay_session size chunks ts cmds s0 Hreq Hreads Hsize Hjoin Hlen), Hses0.
Qed.
End Restore.

(** The replay of any bytes ends; here those of a request cut short. *)
Lemma replay_ends_witness :
  let p := feed_buf parser_new (as_bytes "*1") in
  wlp (@replay_loop demo_env (read_fuel p) p) (fun o _ => o <> None) demo_state.
Proof. apply (@replay_ends demo_env (as_bytes "*1") demo_state). by vm_compute. Defined.

(** The log of two writes, read in pieces of thirty bytes. *)
Definition demo_reads : list bytes :=
  let log := request_bytes ["SET"; "k"; "1"] ++ request_bytes ["INCR"; "k"] in
  [take 30 log; drop 30 log].

(** Two writes, the server that ran them, and the one that is restarted. *)
Definition demo_requests : list (RespType * (Cmd.t * bytes)) :=
  [(request ["SET"; "k"; "1"], (Cmd.SET "k" "1" None, request_bytes ["SET"; "k"; "1"]));
   (request ["INCR"; "k"], (Cmd.INCR "k", request_bytes ["INCR"; "k"]))].

(** Eight seconds later. *)
Lemma aof_restores_witness : exists s' rs s0',
  @session demo_env 7 3 (List.map snd demo_requests) demo_master = Ret (s', rs) /\
  aof_contents s' = Some (mjoin demo_reads) /\
  @replay demo_env demo_reads parser_new (with_clock demo_state 9000) = Ret (s0', tt) /\
  data (handler s0') = data (handler s').
Proof.
  destruct (@session demo_env 7 3 (List.map snd demo_requests) demo_master) as [[s' rs]|] eqn:Hs.
  - destruct (@aof_restores demo_env (List.map fst demo_requests) (List.map snd demo_requests) 7 3
      demo_master s' rs 0 (with_clock demo_state 9000) 30 demo_reads) as (H1 & s0' & H2 & H3);
      [repeat constructor|repeat constructor|by repeat split|done|done|done|done|done|by vm_compute|exact Hs| |done
      |by repeat split|left; repeat constructor|by vm_compute|by repeat split|by repeat constructor|by vm_compute|].
    + vm_compute in Hs. injection Hs as _ <-. repeat constructor.
    + exists s', rs, s0'. auto.
  - exfalso. vm_compute in Hs. discriminate.
Defined.
