(* ===== verification/Server.v ===== *)
(** * The event loop ([main.rs])

    The server is the handler's state, the connections by descriptor, and the
    epoll set. One turn of the loop handles the events [epoll_wait] returns, in
    order, then serves the blocked clients, flushes the append-only file and writes
    the queued responses. Sockets take a message whole or in part ([Takes]), and the
    disk of the append-only file does what it likes ([with_disk]); a call of epoll on
    a descriptor that is open is taken to succeed, and [accept] to return one that is
    not in use.

    Every descriptor is registered [EPOLLONESHOT]: an event on it disarms it until
    it is registered again. [disarmed] is the set of those that wait for that. *)

From S2P Require Import Prelude Text Float64 Resp RespParser RespWire CmdBuilder Store.
From S2P Require Import StringCmds ListCmds.
From S2P Require Import AppState Replication Auth Registry Handler HandlerLogic Transactions Propagation.
From S2P Require Import Client Credentials.
From S2P Require Import Blocking Rdb Aof.

(** ** The server *)

(** [sent] is what has been written to clients: by [read_socket], or by the flush
    at the end of a turn. *)
Record Server := mk_server {
  core : State;
  table : gmap Z TcpClient;
  disarmed : gset Z;
  sent : list (Z * bytes);
}.

Definition with_core (v : Server) (s : State) : Server := mk_server s (table v) (disarmed v) (sent v).

(** The descriptors of the loop itself. *)
Record Descriptors := mk_fds { listener_fd : Z; timer_fd : Z; epoll : Z }.

(** What [epoll_wait] returns: a connection, with what [accept] gave; the timer;
    a readable client, with what [read] returns and which writes go through; an
    event of a client that is not readable. *)
Inductive Event :=
| Connection (accepted : option Z)
| Timer
| Readable (key : Z) (incoming : option bytes) (takes : Takes)
| Unexpected (key : Z).

Definition disarm (v : Server) (fd : Z) : Server :=
  mk_server (core v) (table v) ({[fd]} ∪ disarmed v) (sent v).
Definition rearm (v : Server) (fd : Z) : Server :=
  mk_server (core v) (table v) (disarmed v ∖ {[fd]}) (sent v).

Section EventLoop.
Context `{Env}.
Variable fds : Descriptors.

Definition run {A} (m : M A) (v : Server) : outcome (Server * A) :=
  let! (s, a) := m (core v) in Ret (with_core v s, a).

(** A new client: registered, given the default credential, put in the table. *)
Definition accept_client (fd : Z) (v : Server) : outcome Server :=
  let s := with_interest (core v) ({[fd]} ∪ interest (core v)) in
  let (a, r) := authenticate (auth s) fd None None in
  match r with
  | Err _ => Panic
  | Ok _ =>
      Ret (mk_server (with_auth s a) (<[fd := client_new fd (epoll fds)]> (table v))
             (disarmed v ∖ {[fd]}) (sent v))
  end.

(** The client is dropped from epoll, the client table, the connections and the
    credentials. *)
Definition disconnect (key : Z) (v : Server) : Server :=
  let s := core v in
  mk_server
    (with_auth (with_clients (with_interest s (interest s ∖ {[key]})) (remove_client (clients s) key))
       (remove_auth (auth s) key))
    (delete key (table v)) (disarmed v ∖ {[key]}) (sent v).

(** A readable client: its requests are answered; then it is armed again, if it
    is still registered, or dropped. *)
Definition readable (key : Z) (incoming : option bytes) (takes : Takes) (v : Server) :
    outcome Server :=
  match table v !! key with
  | None => Ret v
  | Some c =>
      let! (v, (c, written, ok)) := run (read_socket c incoming takes) v in
      let v := mk_server (core v) (<[key := c]> (table v)) (disarmed v)
                 (sent v ++ List.map (fun b => (key, b)) written) in
      Ret (if ok : bool then rearm v key else disconnect key v)
  end.

Definition event_fd (e : Event) : Z :=
  match e with
  | Connection _ => listener_fd fds
  | Timer => timer_fd fds
  | Readable key _ _ | Unexpected key => key
  end.

Definition handle_event (e : Event) (v : Server) : outcome Server :=
  let v := disarm v (event_fd e) in
  match e with
  | Connection o =>
      let! v := match o with Some fd => accept_client fd v | None => Ret v end in
      Ret (rearm v (listener_fd fds))
  | Timer =>
      let! (v, _) := run callback_deadline_expire v in
      Ret v
  | Readable key incoming takes => readable key incoming takes v
  | Unexpected _ => Ret v
  end.

(** The end of a turn: [clients.get_mut(..).unwrap()] for each response. What a
    socket does not take of the [n]th is lost: the error is dropped. *)
Fixpoint flush (takes : Takes) (n : nat) (queue : list (Z * bytes)) (v : Server) : outcome Server :=
  match queue with
  | [] => Ret v
  | (id, message) :: rest =>
      let! _ := unwrap (table v !! id) in
      flush takes (S n) rest
        (mk_server (core v) (table v) (disarmed v) (sent v ++ [(id, (write_all takes n message).1)]))
  end.

Definition end_turn (takes : Takes) (v : Server) : outcome Server :=
  let! (v, _) := run serve_backlog_list v in
  let! (v, _) := run serve_backlog_stream v in
  let! (v, _) := run aof_flush v in
  flush takes 0 (response_queue (handler (core v))) (with_core v (with_queue (core v) [])).

Fixpoint handle_events (events : list Event) (v : Server) : outcome Server :=
  match events with
  | [] => Ret v
  | e :: rest =>
      let! v := handle_event e v in
      handle_events rest v
  end.

Definition turn (events : list Event) (takes : Takes) (v : Server) : outcome Server :=
  let! v := handle_events events v in
  end_turn takes v.

(** What the kernel may report: a descriptor that is registered and armed, once
    per turn; an accepted descriptor is not in use. *)
Definition may_report (v : Server) (e : Event) : Prop :=
  (event_fd e ∈ interest (core v)) /\ (event_fd e ∉ disarmed v) /\
  match e with
  | Connection (Some fd) =>
      table v !! fd = None /\ fd <> listener_fd fds /\ fd <> timer_fd fds
  | Connection None | Timer => True
  | Readable key _ _ | Unexpected key => key <> listener_fd fds /\ key <> timer_fd fds
  end.

(** ** The start *)

(** [main] up to the loop: the command line, the append-only file, the snapshot,
    which replaces what the file restored, and the master. [connect] is the
    descriptor of the connection to the master. *)
Definition start (args : list string) (now : Z) (disk : Disk) (chunks : bytes -> list bytes) (connect : Z) :
    outcome (Server * Disk) :=
  let! a := init args in
  let! conf := with_parse_config configs_new args in
  let s := mk_state (handler_new None) a conf clients_new auth_new [] 0%nat ∅ now in
  let! (s, disk) := attach_aof chunks disk s in
  let! h := unwrap (host_stats a) in
  let! _ := unwrap (host h) in
  let! _ := unwrap (port h) in
  let! s :=
    match path conf, dbfilename conf with
    | Some dir, Some file =>
        match files disk !! (dir +:+ "/" +:+ file) with
        | Some b =>
            let! r := Rdb.read b in
            Ret (match r with Ok d => with_data s d | Err _ => s end)
        | None => Ret s
        end
    | _, _ => Ret s
    end in
  let v := mk_server s ∅ ∅ [] in
  let! v :=
    match master_stats a with
    | Some _ =>
        let! v := accept_client connect v in
        let! (c, b) := init_handshake (client_new connect (epoll fds)) in
        Ret (mk_server (core v) (<[connect := c]> (table v)) (disarmed v) (sent v ++ [(connect, b)]))
    | None => Ret v
    end in
  let s := core v in
  Ret (with_core v (with_interest s (({[timer_fd fds]} ∪ {[listener_fd fds]}) ∪ interest s)), disk).


(** ** Runs *)

(** One thing that happens to the server. Time passes between turns; sockets and the
    disk fail when they like. *)
Inductive server_step : Server -> Server -> Prop :=
| step_event v v' e : may_report v e -> handle_event e v = Ret v' -> server_step v v'
| step_end v v' takes : end_turn takes v = Ret v' -> server_step v v'
| step_time v t : clock (core v) <= t -> server_step v (with_core v (with_clock (core v) t))
| step_disk v d : server_step v (with_core v (with_disk (core v) d)).

#[export] Instance may_report_dec v e : Decision (may_report v e).
Proof. unfold may_report. destruct e as [[]| | |]; apply _. Defined.

(** Turns of one event each, if the kernel may report it. *)
Fixpoint run_turns (l : list Event) (v : Server) : option Server :=
  match l with
  | [] => Some v
  | e :: rest =>
      if decide (may_report v e) then
        match turn [e] all_taken v with Ret v' => run_turns rest v' | Panic => None end
      else None
  end.

Lemma run_turns_steps l : forall v v', run_turns l v = Some v' -> rtc server_step v v'.
Proof.
  induction l as [|e l IH]; intros v v'; cbn [run_turns]; [by intros [= <-]|].
  destruct (decide _) as [Hmay|]; [|done]. destruct (turn [e] all_taken v) as [w|] eqn:Hw; [|done].
  intros Hrun. unfold turn in Hw. cbn [handle_events] in Hw.
  destruct (handle_event e v) as [w1|] eqn:Hev; [|done]. cbn [outcome_bind] in Hw.
  eapply rtc_l; [by eapply step_event|]. eapply rtc_l; [by eapply step_end|]. by apply IH.
Qed.

(** *** Connections own their credentials *)

Record server_wf (v : Server) : Prop := {
  sv_fd : forall fd c, table v !! fd = Some c -> client_fd c = fd;
  sv_auth : forall fd, check_auth (auth (core v)) fd = true -> is_Some (table v !! fd);
}.

Lemma check_auth_some a id : check_auth a id = true <-> is_Some (auth_clients a !! id).
Proof. unfold check_auth. destruct (auth_clients a !! id); split; [by eexists|done|done|by intros []]. Qed.

Lemma run_ret {A} (m : M A) v v' a : run m v = Ret (v', a) ->
  exists s, m (core v) = Ret (s, a) /\ v' = with_core v s.
Proof. unfold run. destruct (m (core v)) as [[s x]|]; [|done]. intros [= <- <-]. by exists s. Qed.

(** What is written of the queue. *)
Fixpoint taken_of (takes : Takes) (n : nat) (queue : list (Z * bytes)) : list (Z * bytes) :=
  match queue with
  | [] => []
  | (id, message) :: rest => (id, (write_all takes n message).1) :: taken_of takes (S n) rest
  end.

Lemma flush_spec takes queue : forall n v v', flush takes n queue v = Ret v' ->
  v' = mk_server (core v) (table v) (disarmed v) (sent v ++ taken_of takes n queue) /\
  Forall (fun x => is_Some (table v !! x.1)) queue.
Proof.
  induction queue as [|[id b] queue IH]; intros n v v'; cbn [flush taken_of].
  - intros [= <-]. rewrite app_nil_r. by destruct v.
  - destruct (table v !! id) eqn:Ht; [|done]. cbn [unwrap outcome_bind]. intros [-> Hall]%IH. cbn in *.
    split; [by rewrite <- app_assoc|]. constructor; [cbn; by rewrite Ht|done].
Qed.

(** The turn's own work on the handler. *)
Definition end_work : M unit := serve_backlog_list;; serve_backlog_stream;; aof_flush.

Lemma end_turn_spec takes v v' : end_turn takes v = Ret v' -> exists s,
  end_work (core v) = Ret (s, tt) /\
  v' = mk_server (with_queue s []) (table v) (disarmed v) (sent v ++ taken_of takes 0 (response_queue (handler s))) /\
  Forall (fun x => is_Some (table v !! x.1)) (response_queue (handler s)).
Proof.
  unfold end_turn, end_work.
  destruct (run serve_backlog_list v) as [[v1 []]|] eqn:H1; [|done]. apply run_ret in H1 as (s1 & H1 & ->).
  cbn [outcome_bind].
  destruct (run serve_backlog_stream _) as [[v2 []]|] eqn:H2; [|done]. apply run_ret in H2 as (s2 & H2 & ->).
  cbn [outcome_bind].
  destruct (run aof_flush _) as [[v3 []]|] eqn:H3; [|done]. apply run_ret in H3 as (s3 & H3 & ->).
  cbn [outcome_bind]. cbn in H2, H3. intros [-> Hall]%flush_spec. exists s3.
  split; [by rewrite bind_unfold, H1, bind_unfold, H2|]. split; [done|exact Hall].
Qed.

Lemma kept_end_work client : keeps (auth_kept client) end_work.
Proof.
  destruct (own_turn client) as (_ & H1 & H2 & H3). unfold end_work.
  apply keeps_bind; [typeclasses eauto|done|]. intros _. by apply keeps_bind; [typeclasses eauto|..].
Qed.

(** What no client did leaves all credentials. *)
Lemma kept_all {A} (m : M A) s s' a : (forall client, keeps (auth_kept client) m) ->
  m s = Ret (s', a) -> auth_clients (auth s') = auth_clients (auth s).
Proof.
  intros Hm Hrun. apply map_eq. intros id.
  apply (wlp_elim _ _ _ _ _ (Hm (id + 1) s) Hrun). lia.
Qed.

Lemma disconnect_wf key v : server_wf v -> server_wf (disconnect key v).
Proof.
  intros [Hfd Ha]. split; cbn.
  - intros fd c [_ H1]%lookup_delete_Some. eauto.
  - intros fd. rewrite check_auth_some. cbn. intros [u [Hne Hu]%lookup_delete_Some].
    rewrite lookup_delete_ne by done. apply Ha. rewrite check_auth_some. by eexists.
Qed.

Lemma accept_wf fd v v' : server_wf v -> accept_client fd v = Ret v' -> server_wf v'.
Proof.
  intros [Hfd Ha]. unfold accept_client. cbn [with_interest auth core].
  pose proof (authenticate_kept fd (auth (core v)) None None) as Hk.
  destruct (authenticate _ _ _ _) as [a [|]]; [|done]. cbn in Hk. intros [= <-]. split; cbn.
  - intros fd' c. destruct (decide (fd = fd')) as [->|Hne].
    + rewrite lookup_insert_eq. by intros [= <-].
    + rewrite lookup_insert_ne by done. eauto.
  - intros fd'. rewrite check_auth_some. destruct (decide (fd = fd')) as [->|Hne].
    + rewrite lookup_insert_eq. by eexists.
    + rewrite lookup_insert_ne, Hk by done. rewrite <- check_auth_some. apply Ha.
Qed.

Lemma readable_wf key incoming takes v v' : server_wf v ->
  readable key incoming takes v = Ret v' -> server_wf v'.
Proof.
  intros Hwf. unfold readable. destruct (table v !! key) as [c|] eqn:Hc; [|by intros [= <-]].
  destruct (run _ v) as [[v1 [[c' w] ok]]|] eqn:Hrun; [|done]. apply run_ret in Hrun as (s & Hrun & ->).
  cbn [outcome_bind]. pose proof (sv_fd v Hwf key c Hc) as Hfd.
  destruct (wlp_elim _ _ _ _ _ (own_read_socket key c incoming takes (core v) Hfd) Hrun) as [Hk Hfd'].
  set (v2 := mk_server _ _ _ _). assert (server_wf v2) as Hwf2.
  { split; cbn.
    - intros fd x. destruct (decide (key = fd)) as [->|Hne].
      + rewrite lookup_insert_eq. by intros [= <-].
      + rewrite lookup_insert_ne by done. apply (sv_fd v Hwf).
    - intros fd. rewrite check_auth_some. destruct (decide (key = fd)) as [->|Hne].
      + rewrite lookup_insert_eq. by eexists.
      + rewrite lookup_insert_ne, Hk by done. rewrite <- check_auth_some. apply (sv_auth v Hwf). }
  intros [= <-]. destruct ok; [|by apply disconnect_wf]. by destruct Hwf2.
Qed.

Lemma step_wf v v' : server_step v v' -> server_wf v -> server_wf v'.
Proof.
  assert (forall v s, server_wf v -> auth_clients (auth s) = auth_clients (auth (core v)) ->
    server_wf (with_core v s)) as Hsame.
  { intros w s [H1 H2] Ha. split; [done|]. intros fd Hc. apply H2. apply check_auth_some.
    apply check_auth_some in Hc. by rewrite <- Ha. }
  intros [v1 v2 e _ Hev|v1 v2 takes Hend|v1 t _|v1 d] Hwf.
  - assert (server_wf (disarm v1 (event_fd e))) as Hwf1 by (by destruct Hwf). unfold handle_event in Hev.
    destruct e as [[fd|]| |key i a|key].
    + destruct (accept_client fd _) as [w|] eqn:Hacc; [|done]. apply accept_wf in Hacc; [|done].
      injection Hev as <-. by destruct Hacc.
    + injection Hev as <-. by destruct Hwf1.
    + destruct (run _ _) as [[w []]|] eqn:Hrun; [|done]. apply run_ret in Hrun as (s & Hrun & ->).
      injection Hev as <-. apply Hsame; [done|].
      apply (kept_all callback_deadline_expire _ _ tt); [|done]. intros client. apply own_turn.
    + by apply readable_wf in Hev.
    + by injection Hev as <-.
  - apply end_turn_spec in Hend as (s & Hrun & -> & _).
    assert (server_wf (with_core v1 (with_queue s []))) as Hw; [|by destruct Hw].
    apply Hsame; [done|]. cbn. apply (kept_all end_work _ _ tt); [apply kept_end_work|done].
  - by apply Hsame.
  - apply Hsame; [done|]. unfold with_disk. by destruct (aof _) as [[f|]|].
Qed.

Definition needs_password (s : State) : Prop :=
  forall c, credentials (auth s) !! "default"%string = Some c -> nopass c = false.

(** C21: every authentication belongs to an open connection, in every state the
    server reaches; so a new connection is not authenticated when the default
    user needs a password, also when its descriptor was used before by a client
    that was. *)
Theorem new_connection_unauthenticated v v' fd v'' : server_wf v -> rtc server_step v v' ->
  table v' !! fd = None -> needs_password (core v') -> accept_client fd v' = Ret v'' ->
  check_auth (auth (core v'')) fd = false /\
  (forall id, check_auth (auth (core v'')) id = true -> is_Some (table v'' !! id)).
Proof.
  intros Hwf Hsteps Hnone Hpass Hacc.
  assert (server_wf v') as Hwf'.
  { clear Hnone Hpass Hacc. induction Hsteps; [done|]. apply IHHsteps. by eapply step_wf. }
  split; [|by apply (sv_auth v'' (accept_wf fd v' v'' Hwf' Hacc))].
  revert Hacc. unfold accept_client, authenticate. cbn [with_interest auth core].
  destruct (credentials _ !! _) as [c|] eqn:Hc; [|done]. unfold has_nopass. rewrite (Hpass c Hc).
  intros [= <-]. cbn. apply not_true_is_false. intros Hch.
  destruct (sv_auth v' Hwf' fd Hch) as [? Hs]. congruence.
Qed.

(** *** The timer fires once *)
Lemma flush_disarmed takes v v' : end_turn takes v = Ret v' -> disarmed v' = disarmed v.
Proof. intros (s & _ & -> & _)%end_turn_spec. done. Qed.

Lemma timer_stays v v' : listener_fd fds <> timer_fd fds -> server_step v v' ->
  timer_fd fds ∈ disarmed v -> timer_fd fds ∈ disarmed v'.
Proof.
  intros Hne [v1 v2 e Hmay Hev|v1 v2 takes Hend|v1 t _|v1 d] Hin; [|by rewrite (flush_disarmed _ _ _ Hend)|done..].
  assert (timer_fd fds ∈ disarmed (disarm v1 (event_fd e))) as Hin1 by (cbn; set_solver).
  unfold handle_event in Hev. destruct Hmay as (_ & _ & Hmay).
  destruct e as [[fd|]| |key i a|key].
  - destruct (accept_client fd _) as [w|] eqn:Hacc; [|done]. injection Hev as <-.
    unfold accept_client in Hacc. destruct (authenticate _ _ _ _) as [? []]; [|done].
    injection Hacc as <-. cbn. set_solver.
  - injection Hev as <-. cbn. set_solver.
  - destruct (run _ _) as [[w []]|] eqn:Hrun; [|done]. apply run_ret in Hrun as (s & Hrun & ->).
    injection Hev as <-. cbn. set_solver.
  - destruct Hmay as [_ Hkey]. unfold readable in Hev. destruct (table _ !! key); [|by injection Hev as <-].
    destruct (run _ _) as [[w [[c' wr] ok]]|] eqn:Hrun; [|done]. apply run_ret in Hrun as (s & Hrun & ->).
    injection Hev as <-. destruct ok; cbn in *; set_solver.
  - by injection Hev as <-.
Qed.

(** C23: the timer is registered for one event and nothing registers it again: once
    it has fired, no deadline is ever reported, whatever the server does after. *)
Theorem timer_fires_once v v1 v' : listener_fd fds <> timer_fd fds ->
  handle_event Timer v = Ret v1 -> rtc server_step v1 v' -> ~ may_report v' Timer.
Proof.
  intros Hne Hev Hsteps. assert (timer_fd fds ∈ disarmed v1) as Hin.
  { unfold handle_event in Hev. destruct (run _ _) as [[w []]|] eqn:Hrun; [|done].
    apply run_ret in Hrun as (s & Hrun & ->). injection Hev as <-. cbn. set_solver. }
  clear Hev. assert (timer_fd fds ∈ disarmed v') as Hin'.
  { induction Hsteps; [done|]. apply IHHsteps. by eapply timer_stays. }
  by intros (_ & Hnot & _).
Qed.

(** *** What the end of a turn writes *)

(** The writer of the append-only file is not touched. *)
Definition file_kept (s s' : State) : Prop := aof (handler s') = aof (handler s).

#[local] Instance file_kept_preorder : PreOrder file_kept.
Proof. split; [done|]. intros x y z. unfold file_kept. congruence. Qed.
#[local] Hint Extern 1 (PreOrder file_kept) => apply file_kept_preorder : frames.

Lemma file_kept_modify f : (forall s, aof (handler (f s)) = aof (handler s)) -> keeps file_kept (modify f).
Proof. intros Hf. by apply keeps_modify. Qed.
Lemma file_kept_respond c r : keeps file_kept (respond c r).
Proof. unfold respond, push_response. keeps_tac. by apply file_kept_modify. Qed.
Lemma file_kept_reg_remove t : keeps file_kept (reg_remove t).
Proof. intros s. unfold wlp, reg_remove. by destruct (Registry.remove _ _ _). Qed.
#[local] Hint Resolve file_kept_respond file_kept_reg_remove : frames.

Lemma file_kept_task t : keeps file_kept (run_task t).
Proof.
  destruct t; cbn [run_task]; unfold run_blpop, run_null, run_xread, run_wait, add_interest; keeps_tac;
    by apply file_kept_modify.
Qed.
Lemma file_kept_take_tasks pick ts : keeps file_kept (take_tasks pick ts).
Proof. induction ts; cbn [take_tasks]; keeps_tac. Qed.
#[local] Hint Resolve file_kept_task file_kept_take_tasks : frames.

Lemma file_kept_serve : keeps file_kept serve_backlog_list /\ keeps file_kept serve_backlog_stream.
Proof.
  unfold serve_backlog_list, serve_backlog_stream. cbv zeta.
  split; keeps_tac; by apply file_kept_modify.
Qed.

(** A flush: a beginning of the buffer moves to the end of the file, all of it if the
    disk takes what it is given. *)
Definition log_moved (w w' : option (option AofFile)) : Prop :=
  match w, w' with
  | Some (Some f), Some (Some f') =>
      aof_filepath f' = aof_filepath f /\
      (exists b, aof_file f' = aof_file f ++ b /\ aof_buffer f = b ++ aof_buffer f') /\
      (aof_disk f = [] -> aof_buffer f' = [])
  | _, _ => w' = w
  end.

Lemma writer_flush_moves f : log_moved (Some (Some f)) (Some (Some (writer_flush f).1)).
Proof.
  pose proof (writer_flush_spec f) as Hf. destruct (writer_flush f) as [f' ok].
  destruct Hf as (Hp & Ht & [b Hb] & He & Hd). split; [done|]. split.
  - exists b. split; [done|]. unfold aof_text in Ht. rewrite Hb, <- app_assoc in Ht. by apply app_inv_head in Ht.
  - intros Hdisk. by apply He, Hd.
Qed.

Lemma end_work_log s s' : end_work s = Ret (s', tt) -> log_moved (aof (handler s)) (aof (handler s')).
Proof.
  unfold end_work. rewrite bind_unfold. destruct file_kept_serve as [Hl Hst].
  destruct (serve_backlog_list s) as [[s1 []]|] eqn:H1; [|done].
  rewrite bind_unfold. destruct (serve_backlog_stream s1) as [[s2 []]|] eqn:H2; [|done].
  pose proof (wlp_elim _ _ _ _ _ (Hl s) H1) as E1. pose proof (wlp_elim _ _ _ _ _ (Hst s1) H2) as E2.
  unfold file_kept in E1, E2. rewrite <- E1, <- E2. unfold aof_flush, modify. intros [= <-].
  destruct (aof (handler s2)) as [[f|]|] eqn:Hw; rewrite ?Hw; [apply writer_flush_moves|done..].
Qed.

(** Message and what was written of it. *)
Definition partly (m w : Z * bytes) : Prop := w.1 = m.1 /\ w.2 `prefix_of` m.2.

Lemma taken_of_spec takes queue : forall n, Forall2 partly queue (taken_of takes n queue) /\
  ((forall i, takes i = None) -> taken_of takes n queue = queue).
Proof.
  induction queue as [|[id m] queue IH]; intros n; cbn [taken_of]; [by split|].
  destruct (IH (S n)) as [H1 H2]. split.
  - constructor; [|done]. split; [done|]. apply write_all_prefix.
  - intros Ht. rewrite H2 by done. unfold write_all. by rewrite Ht.
Qed.

(** C19: at the end of a turn that does not panic each response queued during it is written once, in
    order, after what the events wrote, to a connection that is open: whole, or a
    beginning of it when the socket does not take it all; the rest is lost, for the
    queue is empty whatever happens. The append-only file is different: whatever the
    disk does, a flush moves a beginning of the buffer to the end of the file and
    keeps the rest; nothing of the log is lost, and a disk that takes everything
    leaves the buffer empty. *)
Theorem turn_delivers events takes v v' : turn events takes v = Ret v' -> exists v1 s out,
  handle_events events v = Ret v1 /\ end_work (core v1) = Ret (s, tt) /\
  sent v' = sent v1 ++ out /\ Forall2 partly (response_queue (handler s)) out /\
  ((forall i, takes i = None) -> out = response_queue (handler s)) /\
  (forall id b, (id, b) ∈ response_queue (handler s) -> is_Some (table v' !! id)) /\
  response_queue (handler (core v')) = [] /\
  log_moved (aof (handler (core v1))) (aof (handler (core v'))).
Proof.
  unfold turn. destruct (handle_events events v) as [v1|] eqn:Hev; [|done]. cbn [outcome_bind].
  intros (s & Hrun & -> & Hall)%end_turn_spec. exists v1, s, (taken_of takes 0 (response_queue (handler s))).
  destruct (taken_of_spec takes (response_queue (handler s)) 0) as [Hpart Hwhole]. split_and!; try done.
  - intros id b Hin. by apply (proj1 (Forall_forall _ _) Hall _ Hin).
  - exact (end_work_log _ _ Hrun).
Qed.

(** *** What a disconnection forgets, and what it does not *)

(** C38: a dropped client has no connection, no interest, no role and no
    credentials; but its transaction, its watches, its parked requests and its
    subscriptions stay, and pass to the next client with its descriptor: in a
    transaction left open, the first command of that client is queued. *)
Theorem disconnect_keeps_transaction key v v' c b fd : is_transation (registry (handler (core v))) key = true ->
  is_queued c = true -> accept_client key (disconnect key v) = Ret v' ->
  (table (disconnect key v) !! key = None /\ (key ∉ interest (core (disconnect key v))) /\
   is_master (clients (core v')) key = false /\ is_slave (clients (core v')) key = false /\
   check_auth (auth (core (disconnect key v))) key = false) /\
  handler (core v') = handler (core v) /\
  exists s, handle (Ok c) b key fd (core v') = Ret (s, Ok (as_bytes "+QUEUED" ++ DELIMITER)) /\
    data (handler s) = data (handler (core v)).
Proof.
  intros Ht Hc Hacc. split; [split_and!|].
  - cbn. apply lookup_delete_eq.
  - cbn. set_solver.
  - unfold accept_client in Hacc. destruct (authenticate _ _ _ _) as [? []]; [|done].
    injection Hacc as <-. cbn.
    destruct (remove_client_spec (clients (core v)) key key) as [-> _]. by rewrite Z.eqb_refl, andb_false_r.
  - unfold accept_client in Hacc. destruct (authenticate _ _ _ _) as [? []]; [|done].
    injection Hacc as <-. cbn.
    destruct (remove_client_spec (clients (core v)) key key) as [_ ->]. by rewrite Z.eqb_refl, andb_false_r.
  - unfold check_auth. cbn. by rewrite lookup_delete_eq.
  - assert (handler (core v') = handler (core v)) as Hh.
    { unfold accept_client in Hacc. destruct (authenticate _ _ _ _) as [? []]; [|done].
      by injection Hacc as <-. }
    split; [done|]. unfold handle. setoid_rewrite get_bind. rewrite Hh, Ht. cbn [negb].
    destruct c; try done; (eexists; split; [reflexivity|]; cbn; by rewrite Hh).
Qed.
End EventLoop.

(** ** The start *)

(** The snapshot wins: when the configuration names a snapshot that can be
    read, the server starts with its data, and what the append-only file had
    restored is dropped. *)
Theorem snapshot_replaces_log `{Env} fds args now disk chunks connect v disk' conf dir file b d :
  start fds args now disk chunks connect = Ret (v, disk') ->
  with_parse_config configs_new args = Ret conf -> path conf = Some dir -> dbfilename conf = Some file ->
  files disk' !! (dir +:+ "/" +:+ file) = Some b -> Rdb.read b = Ret (Ok d) ->
  data (handler (core v)) = d.
Proof.
  unfold start. intros Hrun Hconf Hp Hf Ho Hd.
  destruct (init args) as [a|]; [|done]. cbn [outcome_bind] in Hrun. rewrite Hconf in Hrun.
  cbn [outcome_bind] in Hrun. destruct (attach_aof _ _ _) as [[s disk1]|]; [|done]. cbn [outcome_bind] in Hrun.
  assert (disk1 = disk') as ->.
  { revert Hrun. repeat (match goal with |- outcome_bind ?x _ = _ -> _ => destruct x; [|done]; cbn [outcome_bind] end).
    by intros [= _ ->]. }
  destruct (unwrap (host_stats a)) as [h|]; [|done]. cbn [outcome_bind] in Hrun.
  destruct (unwrap (host h)); [|done]. destruct (unwrap (port h)); [|done]. cbn [outcome_bind] in Hrun.
  rewrite Hp, Hf, Ho, Hd in Hrun. cbn [outcome_bind] in Hrun. destruct (master_stats a).
  - unfold accept_client in Hrun. destruct (authenticate _ _ _ _) as [? []]; [|done].
    cbn [outcome_bind] in Hrun. destruct (init_handshake _) as [[]|]; [|done]. by injection Hrun as <-.
  - cbn [outcome_bind] in Hrun. by injection Hrun as <-.
Qed.

(** ** Examples *)
Definition demo_fds : Descriptors := mk_fds 3 5 4.

(** A master that has just started. *)
Definition demo_server : Server :=
  mk_server (with_interest demo_state {[3; 5]}) ∅ ∅ [].

Fixpoint turns (l : list (list Event)) (v : Server) : outcome Server :=
  match l with
  | [] => Ret v
  | events :: rest => let! v := @turn demo_env demo_fds events all_taken v in turns rest v
  end.

Definition says (key : Z) (args : list string) : Event :=
  Readable key (Some (request_bytes args)) all_taken.

(** Two clients connect. *)
Definition two_clients : list (list Event) := [[Connection (Some 7)]; [Connection (Some 8)]].

Definition demo_two : Server :=
  match turns two_clients demo_server with Ret v => v | Panic => demo_server end.

(** One blocks, and the other's push reaches it in the same turn. *)
Example blpop_served_in_turn :
  (let! v := @turn demo_env demo_fds [says 7 ["BLPOP"; "q"; "0"]; says 8 ["RPUSH"; "q"; "v"]] all_taken demo_two in
   Ret (sent v)) =
  Ret [(7, []); (8, as_bytes ":1" ++ DELIMITER); (7, blpop_bytes "q" "v")].
Proof. vm_compute. reflexivity. Qed.

(** One blocks and is dropped for what it sends next; the push that would serve
    it stops the server. *)
Definition blocks_then_fails : Event :=
  Readable 7 (Some (request_bytes ["BLPOP"; "q"; "0"] ++ as_bytes "$x" ++ DELIMITER)) all_taken.

Definition demo_lost : Server :=
  match @turn demo_env demo_fds [blocks_then_fails] all_taken demo_two with Ret v => v | Panic => demo_two end.

(** Client 7 blocks, and its socket takes five bytes of the reply to it; the log is
    on a disk that takes ten bytes and is then full. *)
Definition demo_full : Server :=
  with_core demo_two (with_aof (core demo_two) (Some (Some (mk_aof "aof" [] [] [Some 10%nat; None])))).

Lemma turn_delivers_witness : exists v1 s out v',
  let events := [says 7 ["BLPOP"; "q"; "0"]; says 8 ["RPUSH"; "q"; "v"]] in
  @turn demo_env demo_fds events (fun _ => Some 5%nat) demo_full = Ret v' /\
  @handle_events demo_env demo_fds events demo_full = Ret v1 /\
  sent v' = sent v1 ++ out /\ out = [(7, take 5 (blpop_bytes "q" "v"))] /\
  Forall2 partly (response_queue (handler s)) out /\
  exists w, aof (handler (core v')) = Some (Some w) /\
    aof_file w ++ aof_buffer w = request_bytes ["RPUSH"; "q"; "v"] /\ List.length (aof_file w) = 10%nat.
Proof.
  set (events := [says 7 ["BLPOP"; "q"; "0"]; says 8 ["RPUSH"; "q"; "v"]]).
  destruct (@turn demo_env demo_fds events (fun _ => Some 5%nat) demo_full) as [v'|] eqn:Hrun.
  - destruct (@turn_delivers demo_env demo_fds events (fun _ => Some 5%nat) demo_full v' Hrun)
      as (v1 & s & out & H1 & _ & H2 & H3 & _ & _ & _ & H4).
    exists v1, s, out, v'. split; [exact Hrun|]. split; [exact H1|]. split; [exact H2|].
    vm_compute in Hrun. injection Hrun as <-. vm_compute in H1. injection H1 as <-. split; [|split; [exact H3|]].
    + match type of H2 with ?x = ?y ++ out => assert (y ++ [(7, take 5 (blpop_bytes "q" "v"))] = x) as Hx end.
      { vm_compute. reflexivity. }
      rewrite H2 in Hx. apply app_inv_head in Hx. symmetry. exact Hx.
    + eexists. split; [reflexivity|]. split; vm_compute; reflexivity.
  - exfalso. vm_compute in Hrun. discriminate.
Defined.

(** Requests are told apart by the millisecond they are parked in: when two clients
    block in the same one, the first is forgotten, and the pushes that should serve
    both serve the second only. *)
Definition demo_three : outcome Server :=
  turns [[Connection (Some 7)]; [Connection (Some 8)]; [Connection (Some 9)]] demo_server.

Example same_millisecond_loses :
  (let! v := demo_three in
   let! v := @turn demo_env demo_fds [says 7 ["BLPOP"; "q"; "0"]; says 8 ["BLPOP"; "q"; "0"]] all_taken v in
   let! v := @turn demo_env demo_fds [says 9 ["RPUSH"; "q"; "v"; "w"]] all_taken v in
   Ret (sent v)) =
  Ret [(7, []); (8, []); (9, as_bytes ":2" ++ DELIMITER); (8, blpop_bytes "q" "v")].
Proof. vm_compute. reflexivity. Qed.

(** A client that blocks and is then dropped stays in the queue of its list:
    the next push to that list stops the server, when it answers a client that is
    no longer there. *)
Theorem lost_waiter_panics :
  table demo_lost !! 7 = None /\ queue_of (registry (handler (core demo_lost))) "q" = [1000] /\
  @turn demo_env demo_fds [says 8 ["RPUSH"; "q"; "v"]] all_taken demo_lost = Panic.
Proof. split_and!; vm_compute; reflexivity. Qed.

(** A client blocks for five milliseconds, and the timer fires. *)
Definition demo_expired : Server :=
  match @turn demo_env demo_fds [says 7 ["BLPOP"; "q"; "0.005"]] all_taken demo_two with
  | Ret v => with_core v (with_clock (core v) 1005)
  | Panic => demo_two
  end.

Lemma timer_fires_once_witness : exists v1,
  may_report demo_fds demo_expired Timer /\
  @handle_event demo_env demo_fds Timer demo_expired = Ret v1 /\ ~ may_report demo_fds v1 Timer.
Proof.
  destruct (@handle_event demo_env demo_fds Timer demo_expired) as [v1|] eqn:Hrun.
  - exists v1. split; [apply (bool_decide_unpack _); vm_compute; exact I|]. split; [reflexivity|].
    apply (@timer_fires_once demo_env demo_fds demo_expired v1 v1); [done|exact Hrun|reflexivity].
  - exfalso. vm_compute in Hrun. discriminate.
Defined.

(** A password is set by the first client, which then leaves. *)
Definition demo_left : option Server :=
  @run_turns demo_env demo_fds [Connection (Some 7); says 7 ["ACL"; "SETUSER"; "default"; ">secret"];
    Readable 7 None all_taken] demo_server.

Lemma new_connection_unauthenticated_witness : exists v v',
  demo_left = Some v /\ @accept_client demo_env demo_fds 7 v = Ret v' /\
  check_auth (auth (core v')) 7 = false.
Proof.
  destruct demo_left as [v|] eqn:Hleft; [|exfalso; vm_compute in Hleft; discriminate].
  destruct (@accept_client demo_env demo_fds 7 v) as [v'|] eqn:Hacc.
  - exists v, v'. split; [reflexivity|]. split; [exact Hacc|].
    refine (proj1 (@new_connection_unauthenticated demo_env demo_fds demo_server v 7 v' _ _ _ _ Hacc)).
    + split; [intros fd c|intros fd]; cbn; rewrite ?lookup_empty; [done|]. unfold check_auth. cbn.
      by rewrite lookup_empty.
    + by apply (@run_turns_steps demo_env demo_fds) in Hleft.
    + vm_compute in Hleft. injection Hleft as <-. reflexivity.
    + vm_compute in Hleft. injection Hleft as <-. intros c. vm_compute. by intros [= <-].
  - exfalso. vm_compute in Hleft. injection Hleft as <-. vm_compute in Hacc. discriminate.
Defined.

(** A client opens a transaction and leaves. *)
Definition demo_open_txn : Server :=
  match @turn demo_env demo_fds [says 7 ["MULTI"]] all_taken demo_two with Ret v => v | Panic => demo_two end.

Lemma disconnect_keeps_transaction_witness : exists v' s,
  @accept_client demo_env demo_fds 7 (disconnect 7 demo_open_txn) = Ret v' /\
  @handle demo_env (Ok (Cmd.SET "k" "v" None)) [] 7 4 (core v') =
    Ret (s, Ok (as_bytes "+QUEUED" ++ DELIMITER)).
Proof.
  destruct (@accept_client demo_env demo_fds 7 (disconnect 7 demo_open_txn)) as [v'|] eqn:Hacc.
  - destruct (@disconnect_keeps_transaction demo_env demo_fds 7 demo_open_txn v' (Cmd.SET "k" "v" None) [] 4)
      as (_ & _ & s & Hs & _); [by vm_compute|done|exact Hacc|].
    exists v', s. split; [reflexivity|exact Hs].
  - exfalso. vm_compute in Hacc. discriminate.
Defined.

(** An append-only file that sets [k] to 1, and an empty snapshot. *)
Definition demo_disk : Disk :=
  mk_disk
    (<["/app/dump"%string := as_bytes "REDIS0011" ++ [ascii_of_N 255]]>
     (<["/app/appendonlydir/appendonly.aof.manifest"%string :=
          as_bytes "file appendonly.aof.1.incr.aof seq 1 type i" ++ [LF]]>
     (<["/app/appendonlydir/appendonly.aof.1.incr.aof"%string := request_bytes ["SET"; "k"; "1"]]> ∅)))
    {["/app/appendonlydir"%string]}.

(** Without the snapshot the log is restored. *)
Example log_restored :
  match @start demo_env demo_fds ["redis"; "--appendonly"; "yes"] 1000 demo_disk (fun b => [b]) 6 with
  | Ret (v, _) => data (handler (core v)) !! "k" <> None
  | Panic => False
  end.
Proof. vm_compute. discriminate. Qed.

Lemma snapshot_replaces_log_witness : exists v d,
  @start demo_env demo_fds ["redis"; "--appendonly"; "yes"; "--dbfilename"; "dump"] 1000 demo_disk (fun b => [b]) 6 =
    Ret (v, d) /\ data (handler (core v)) = ∅.
Proof.
  destruct (@start demo_env demo_fds ["redis"; "--appendonly"; "yes"; "--dbfilename"; "dump"] 1000 demo_disk
    (fun b => [b]) 6) as [[v d]|] eqn:Hrun.
  - exists v, d. split; [reflexivity|].
    apply (@snapshot_replaces_log demo_env demo_fds _ _ _ _ _ v d
      (mk_configs (Some "/app"%string) (Some "dump"%string) true "appendonlydir" "appendonly.aof" EverySec)
      "/app" "dump" (as_bytes "REDIS0011" ++ [ascii_of_N 255]) ∅ Hrun);
      [by vm_compute|reflexivity|reflexivity| |by vm_compute].
    vm_compute in Hrun. injection Hrun as _ <-. vm_compute. reflexivity.
  - exfalso. vm_compute in Hrun. discriminate.
Defined.
