(* ===== verification/ServerSpec.v ===== *)
(** * What the server promises its clients

    The abstract server is the state [ClientSpec] describes (key space, transactions,
    watches, log, replication), a clock, and for every connection the bytes it has
    sent of a request that is not complete. [server_refines]: any number of clients that
    connect, send requests, cut into reads and interleaved in any way, and leave, are
    written the answers of the abstract state to the requests in the order they
    complete, and at the end of a turn what is queued for the replicas, and nothing
    else. *)

From S2P Require Import Prelude Text Float64 Resp RespParser RespWire RespChunks CmdBuilder Bitmap BTree SortedSet Geohash Store.
From S2P Require Import Refinement KeySpec KeyspaceSpec.
From S2P Require Import AppState Replication Auth Registry Handler HandlerLogic Transactions Propagation ClientSpec.
From S2P Require Import Rdb Aof.
From S2P Require Import Client ClientReads Serving Server.

(** ** Operations *)

(** What happens to the server. [Arrive] says what its bytes are: the requests
    they complete, and the one they begin. *)
Inductive server_op : Type :=
| Connect (fd : Z)
| Arrive (key : Z) (b : bytes) (reqs : list (list string)) (next : list string)
| Leave (key : Z)
| EndTurn
| Elapse (ms : Z).

Record AbsServer := mk_abs { a_conns : gmap Z bytes; a_state : AbsState; a_now : Z }.

Section Promise.
Context `{Env}.
Variable fds : Descriptors.

Definition op_event (op : server_op) : option Event :=
  match op with
  | Connect fd => Some (Connection (Some fd))
  | Arrive key b _ _ => Some (Readable key (Some b) all_taken)
  | Leave key => Some (Readable key None all_taken)
  | EndTurn | Elapse _ => None
  end.

(** The server's step, and what it writes. *)
Definition serve_op (op : server_op) (v : Server) : outcome (Server * list (Z * bytes)) :=
  let! v' :=
    match op, op_event op with
    | _, Some e => handle_event fds e v
    | Elapse ms, None => Ret (with_core v (with_clock (core v) (clock (core v) + ms)))
    | _, None => end_turn all_taken v
    end in
  Ret (v', drop (List.length (sent v)) (sent v')).

(** ** The specification *)
Definition whole (reqs : list (list string)) : bytes := mjoin (List.map request_bytes reqs).

(** The bytes of a connection and of the read behind them, without the requests
    they complete. *)
Definition left_over (tail b : bytes) (reqs : list (list string)) : bytes :=
  drop (List.length (whole reqs)) (tail ++ b).

(** The queue is written at the end of a turn. *)
Definition delivered (a : AbsState) : AbsState :=
  let p := ab_repl a in with_repl (mk_abs_repl (ar_master p) (ar_replicas p) [] (ar_offset p)) a.

(** The roles of a client go with it. *)
Definition left (key : Z) (p : AbsRepl) : AbsRepl :=
  mk_abs_repl (match ar_master p with Some x => if x =? key then None else Some x | None => None end)
    (ar_replicas p ∖ {[key]}) (ar_queue p) (ar_offset p).

Definition serve_spec (op : server_op) (a : AbsServer) : AbsServer * list (Z * bytes) :=
  let '(mk_abs conns st now) := a in
  match op with
  | Connect fd => (mk_abs (<[fd := []]> conns) st now, [])
  | Arrive key b reqs next =>
      let (st', answers) := requests_spec now key reqs st in
      (mk_abs (<[key := left_over (unwrap_or (conns !! key) []) b reqs]> conns) st' now,
       List.map (pair key) answers)
  | Leave key => (mk_abs (delete key conns) (with_repl (left key (ab_repl st)) st) now, [])
  | EndTurn => (mk_abs conns (delivered st) now, ar_queue (ab_repl st))
  | Elapse ms => (mk_abs conns st (now + ms), [])
  end.

(** The bytes of a body the parser still waits for. *)
Definition missing_after (tail : bytes) : Z :=
  match parse false (ready tail []) with Ret (_, p) => missing p | Panic => 0 end.

(** A descriptor is not in use when it is accepted; a read brings something, as
    much as the body that was cut before it lacks; its bytes are what the operation
    says, and fit in a buffer; the requests are admitted; and a client for which
    something is queued does not leave before the turn ends. *)
Definition serve_admits (op : server_op) (a : AbsServer) : bool :=
  match op with
  | Connect fd =>
      negb (is_some (a_conns a !! fd)) && negb (fd =? listener_fd fds) && negb (fd =? timer_fd fds)
  | Arrive key b reqs next =>
      match a_conns a !! key with
      | Some tail =>
          (0 <? len b) && (missing_after tail <=? len b) &&
          (len (tail ++ b) <=? isize_max) && (len (request_bytes next) <=? isize_max) &&
          forallb (fun args => wire_wf (request args)) reqs &&
          bool_decide (take (List.length (whole reqs)) (tail ++ b) = whole reqs) &&
          begins (left_over tail b reqs) next &&
          requests_admit (a_now a) key reqs (a_state a)
      | None => false
      end
  | Leave key =>
      is_some (a_conns a !! key) && forallb (fun x => negb (x.1 =? key)) (ar_queue (ab_repl (a_state a)))
  | EndTurn => true
  | Elapse ms => 0 <=? ms
  end.

(** ** The relation *)

(** The handler has no subscriber and no parked client. *)
Record calm (s : State) : Prop := {
  ca_subs : subscribers (handler s) = ∅;
  ca_list : backlog_list (registry (handler s)) = ∅;
  ca_stream : backlog_stream (registry (handler s)) = ∅;
}.

Definition open_door (a : Auth) : Prop :=
  exists c, credentials a !! "default"%string = Some c /\ nopass c = true.

(** A connection that holds [tail], registered and armed; if it is the one to the
    master, after the handshake. *)
Record connected (v : Server) (key : Z) (tail : bytes) (c : TcpClient) : Prop := {
  cn_table : table v !! key = Some c;
  cn_fd : client_fd c = key;
  cn_held : held c tail;
  cn_repl : repl_status (repl_state c) <> Some Master \/
    handshake_state c = Established /\ master (clients (core v)) = Some key;
  cn_auth : check_auth (auth (core v)) key = true;
  cn_armed : key ∈ interest (core v) /\ (key ∉ disarmed v);
  cn_key : key <> listener_fd fds /\ key <> timer_fd fds;
}.

(** Whoever has a part in replication satisfies [P]. *)
Record members (P : Z -> Prop) (p : AbsRepl) : Prop := {
  mb_replicas : forall id, id ∈ ar_replicas p -> P id;
  mb_queue : Forall (fun x => P x.1) (ar_queue p);
}.

Record serves (v : Server) (a : AbsServer) : Prop := {
  se_state : keeps_for (core v) (a_state a);
  se_now : clock (core v) = a_now a;
  se_calm : calm (core v);
  se_open : open_door (auth (core v));
  se_conns : forall key,
    match a_conns a !! key with
    | Some tail => exists c, connected v key tail c
    | None => table v !! key = None
    end;
  se_listener : listener_fd fds ∈ interest (core v) /\ (listener_fd fds ∉ disarmed v);
  se_members : members (fun id => is_Some (a_conns a !! id)) (ab_repl (a_state a));
}.

Lemma members_impl (P Q : Z -> Prop) p : (forall id, P id -> Q id) -> members P p -> members Q p.
Proof. intros HPQ []. split; [auto|]. eapply Forall_impl; [done|]. intros x. apply HPQ. Qed.

Lemma run_members P m now x a : members P (ab_repl a) -> members P (ab_repl (run_as m now x a).1).
Proof.
  intros []. unfold run_as. destruct (keyspace_spec _ _) as [ks r]. split; cbn; [done|].
  apply Forall_app. split; [done|]. unfold log_entry. destruct r as [[r|]|]; [|constructor..].
  destruct (Cmd.to_be_broadcast x.1); [|constructor]. unfold spread. cbn. rewrite app_nil_r.
  apply List.Forall_map, Forall_forall. intros id Hid. cbn. apply mb_replicas0. by apply elem_of_iter_set.
Qed.

Lemma queue_members P now q : forall a, members P (ab_repl a) -> members P (ab_repl (spec_all (run_spec now) q a).1).
Proof.
  induction q as [|x q IH]; intros a Ha; [done|]. cbn [spec_all]. pose proof (run_members P false now x a Ha) as Hr.
  specialize (IH (run_spec now x a).1 Hr). unfold run_spec in *. destruct (run_as false now x a) as [a1 r]. cbn [fst] in *.
  by destruct (spec_all _ q a1).
Qed.

Lemma client_members (P : Z -> Prop) now id x a : P id -> members P (ab_repl a) ->
  members P (ab_repl (client_spec now id x a).1).
Proof.
  intros Hid Ha. unfold client_spec. destruct (ab_txns a !! id) as [q|].
  - destruct x.1; try done. destruct (watch_of (ab_watch a) id).2; [done|].
    pose proof (queue_members P now q a Ha). by destruct (spec_all _ q a).
  - destruct x.1; try done;
      try (match goal with |- context [run_as ?m now x a] => pose proof (run_members P m now x a Ha); by destruct (run_as m now x a) end).
    destruct Ha. split; cbn; [|done]. set_solver.
Qed.

Lemma requests_members (P : Z -> Prop) now id reqs : P id -> forall a, members P (ab_repl a) ->
  members P (ab_repl (requests_spec now id reqs a).1).
Proof.
  intros Hid. unfold requests_spec. induction reqs as [|args reqs IH]; intros a Ha; [done|]. cbn [spec_all].
  assert (members P (ab_repl (request_spec now id args a).1)) as Hr.
  { unfold request_spec. destruct (Cmd.from_resp _) as [[]|]; [by apply client_members|done..]. }
  specialize (IH (request_spec now id args a).1 Hr). destruct (request_spec now id args a) as [a1 r]. cbn [fst] in *.
  by destruct (spec_all _ reqs a1).
Qed.

Lemma quiet_calm s s' : quiet s s' -> calm s -> calm s'.
Proof.
  intros Hq []. split; [by rewrite (q_subs _ _ Hq)|by rewrite (q_list _ _ Hq)|by rewrite (q_stream _ _ Hq)].
Qed.

Lemma connected_ordinary v key tail c : calm (core v) -> connected v key tail c -> ordinary c (core v).
Proof.
  intros Hc []. split; [|by rewrite cn_fd0|by rewrite cn_fd0].
  unfold is_subscriber. by rewrite (ca_subs _ Hc), lookup_empty.
Qed.

(** Whatever the specification admits, the kernel may report. *)
Lemma admitted_reportable op v a e : serves v a -> serve_admits op a = true -> op_event op = Some e ->
  may_report fds v e.
Proof.
  intros [] Hok. unfold may_report. destruct op as [fd|key b reqs next|key| |ms]; cbn in Hok |- *; intros [= <-]; cbn.
  - bools. specialize (se_conns0 fd). destruct (a_conns a !! fd); [done|]. tauto.
  - specialize (se_conns0 key). destruct (a_conns a !! key) as [tail|]; [|done].
    destruct se_conns0 as (c & []). tauto.
  - specialize (se_conns0 key). destruct (a_conns a !! key) as [tail|]; [|done].
    destruct se_conns0 as (c & []). tauto.
Qed.

(** ** Each operation *)

(** A connection does not mind what happens to others. *)
Lemma connected_frame v v' key tail c : connected v key tail c ->
  table v' !! key = table v !! key ->
  check_auth (auth (core v')) key = check_auth (auth (core v)) key ->
  (key ∈ interest (core v) -> key ∈ interest (core v')) ->
  (key ∈ disarmed v' -> key ∈ disarmed v) ->
  (master (clients (core v)) = Some key -> master (clients (core v')) = Some key) ->
  connected v' key tail c.
Proof.
  intros [] Ht Ha Hi Hd Hm. split; try congruence; [tauto|]. split; [tauto|]. intros Hin. tauto.
Qed.

Definition done_op (op : server_op) (v : Server) (a : AbsServer) : Prop :=
  exists v', serve_op op v = Ret (v', (serve_spec op a).2) /\ serves v' (serve_spec op a).1 /\
    grows (aof (handler (core v))) (aof (handler (core v'))).

Lemma check_auth_insert a id id' u : check_auth (mk_auth (credentials a) (<[id := u]> (auth_clients a))) id' =
  if decide (id = id') then true else check_auth a id'.
Proof. unfold check_auth. cbn. destruct (decide (id = id')) as [->|]; [by rewrite lookup_insert_eq|by rewrite lookup_insert_ne]. Qed.

Lemma connect_ok fd v a : serves v a -> serve_admits (Connect fd) a = true -> done_op (Connect fd) v a.
Proof.
  intros Hv Hok. destruct a as [conns st now]. cbn in Hok. bools.
  destruct (se_open _ _ Hv) as (cred & Hcred & Hopen).
  unfold done_op, serve_op. cbn [op_event handle_event event_fd].
  unfold accept_client, authenticate. cbn [with_interest auth core disarm]. rewrite Hcred. unfold has_nopass. rewrite Hopen.
  cbn [outcome_bind]. eexists. split; [cbn; by rewrite drop_all|]. split; [|done]. destruct Hv, se_calm0. cbn in *.
  split; cbn; [by apply (keeps_same (core v))|done|by split|by exists cred| |set_solver|].
  2: { eapply members_impl; [|done]. intros id Hid. by apply lookup_insert_is_Some'; right. }
  intros key. destruct (decide (fd = key)) as [->|Hne].
  - rewrite lookup_insert_eq. exists (client_new key (epoll fds)).
    split; cbn; [by rewrite lookup_insert_eq|done|apply held_new|by left| |set_solver|done].
    rewrite check_auth_insert. by destruct (decide _).
  - specialize (se_conns0 key). rewrite !lookup_insert_ne by done. destruct (conns !! key) as [tail|]; [|done].
    destruct se_conns0 as [c Hc]. exists c. eapply connected_frame; [exact Hc|..]; cbn.
    + by rewrite lookup_insert_ne.
    + rewrite check_auth_insert. by destruct (decide _).
    + set_solver.
    + set_solver.
    + done.
Qed.

Lemma repl_remove s key p : repl_of s = Some p ->
  repl_of (with_auth (with_clients (with_interest s (interest s ∖ {[key]})) (remove_client (clients s) key)) (remove_auth (auth s) key)) =
  Some (left key p).
Proof.
  unfold repl_of, host_offset. cbn. destruct (offset <$> host_stats (app s)); [|done]. intros [= <-]. cbn.
  unfold left, slave_set, remove_client. cbn. do 2 f_equal. destruct (slaves (clients s)); cbn; [done|set_solver].
Qed.

Lemma leave_ok key v a : serves v a -> serve_admits (Leave key) a = true -> done_op (Leave key) v a.
Proof.
  intros Hv Hok. destruct a as [conns st now]. cbn in Hok. apply andb_true_iff in Hok as [Hconn Hqueue].
  pose proof (se_conns _ _ Hv key) as Hkey. cbn in Hkey.
  destruct (conns !! key) as [tail|] eqn:Hconns; [|done]. destruct Hkey as [c Hc].
  unfold done_op, serve_op. cbn [op_event handle_event event_fd].
  unfold readable. cbn [disarm table]. rewrite (cn_table _ _ _ _ Hc). unfold run, read_socket. cbn [outcome_bind].
  eexists. split; [cbn; by rewrite app_nil_r, drop_all|]. split; [|done]. destruct Hv, se_calm0, Hc. cbn in *.
  split; cbn; [|done|by split|done| |set_solver|].
  - destruct se_state0. split; try done. by apply repl_remove.
  - intros key'. destruct (decide (key = key')) as [->|Hne].
    + rewrite lookup_delete_eq. by rewrite lookup_delete_eq.
    + specialize (se_conns0 key'). rewrite lookup_delete_ne by done.
      destruct (conns !! key') as [tail'|]; [|by rewrite lookup_delete_ne, lookup_insert_ne].
      destruct se_conns0 as [c' Hc']. exists c'. eapply connected_frame; [exact Hc'|..]; cbn.
      * by rewrite lookup_delete_ne, lookup_insert_ne.
      * unfold check_auth. cbn. by rewrite lookup_delete_ne.
      * set_solver.
      * set_solver.
      * unfold remove_client. cbn. intros ->. by destruct (Z.eqb_spec key' key) as [->|].
  - destruct se_members0. rewrite forallb_forall in Hqueue. split; cbn.
    + intros id [Hid Hne]%elem_of_difference. rewrite lookup_delete_ne by set_solver. auto.
    + apply Forall_forall. intros x Hx. rewrite lookup_delete_ne.
      * by apply (proj1 (Forall_forall _ _) mb_queue0).
      * apply list_elem_of_In, Hqueue in Hx. destruct (Z.eqb_spec x.1 key); [done|]. by intros ->.
Qed.

Lemma elapse_ok ms v a : serves v a -> done_op (Elapse ms) v a.
Proof.
  intros Hv. destruct a as [conns st now]. unfold done_op, serve_op. cbn [op_event outcome_bind].
  eexists. split; [cbn; by rewrite drop_all|]. split; [|done]. destruct Hv, se_calm0. cbn in *.
  split; cbn; [by apply (keeps_same (core v))|by rewrite se_now0|by split|done| |done|done].
  intros key. specialize (se_conns0 key). destruct (conns !! key) as [tail|]; [|done].
  destruct se_conns0 as [c []]. exists c. by split.
Qed.

(** The end of a turn with nobody to serve. *)
(** Everything that was logged is in the file. *)
Definition flushed (s : State) : Prop :=
  match aof (handler s) with Some (Some f) => aof_buffer f = [] | _ => True end.

Lemma sound_flush s a : keeps_for s a ->
  exists s', aof_flush s = Ret (s', tt) /\ quiet s s' /\ keeps_for s' a /\ flushed s'.
Proof.
  intros Hk. pose proof (kf_log _ _ Hk) as Hlog. unfold aof_flush, modify, flushed.
  destruct (aof (handler s)) as [[f|]|] eqn:Hf; [|by exists s; rewrite Hf..].
  pose proof (writer_flush_spec f) as Hw. destruct (writer_flush f) as [f' ok].
  destruct Hw as (Hp & Ht & Hpre & He & Hd). unfold holds_log in Hlog. rewrite Hf in Hlog. destruct Hlog as [Hdisk Htext].
  destruct (Hd Hdisk) as [-> Hd']. eexists. split; [reflexivity|]. split; [|split; [|by apply He]].
  - split; try done. by rewrite Hf.
  - apply (keeps_same s); [done..| |done]. unfold holds_log. rewrite Hf. cbn. intros b [_ <-]. by split.
Qed.

Lemma calm_end_work s a : calm s -> keeps_for s a ->
  exists s', end_work s = Ret (s', tt) /\ quiet s s' /\ keeps_for s' a /\ flushed s'.
Proof.
  intros Hc Hk. unfold end_work. rewrite bind_unfold.
  assert (exists s1, serve_backlog_list s = Ret (s1, tt) /\ quiet s s1 /\ keeps_for s1 a) as (s1 & -> & Hq1 & Hk1).
  { unfold serve_backlog_list. rewrite get_bind. destruct (negb _); [by exists s|].
    rewrite (ca_list _ Hc). unfold iter_map. rewrite map_to_list_empty.
    assert (@hash_order env_order (string * list Z) [] = []) as ->.
    { apply Permutation_nil_r. apply hash_order_perm. }
    cbn. eexists. split; [reflexivity|]. split; [by split|by apply (keeps_same s)]. }
  rewrite bind_unfold. pose proof (quiet_calm _ _ Hq1 Hc) as Hc1.
  assert (exists s2, serve_backlog_stream s1 = Ret (s2, tt) /\ quiet s1 s2 /\ keeps_for s2 a) as (s2 & -> & Hq2 & Hk2).
  { unfold serve_backlog_stream. rewrite get_bind. destruct (negb _); [by exists s1|].
    rewrite (ca_stream _ Hc1), iter_set_empty.
    cbn. eexists. split; [reflexivity|]. split; [by split|by apply (keeps_same s1)]. }
  destruct (sound_flush s2 a Hk2) as (s3 & Hs3 & Hq3 & Hk3 & Hf3).
  exists s3. split_and!; [done|transitivity s1; [done|by transitivity s2]|done..].
Qed.

Lemma flush_all queue n v : Forall (fun x => is_Some (table v !! x.1)) queue ->
  flush all_taken n queue v = Ret (mk_server (core v) (table v) (disarmed v) (sent v ++ queue)).
Proof.
  intros Hall. revert n v Hall. induction queue as [|[id b] queue IH]; intros n v Hall; cbn [flush].
  { rewrite app_nil_r. by destruct v. }
  inversion Hall as [|? ? [c Hc] Hall']; subst. cbn in Hc. rewrite Hc. cbn [unwrap outcome_bind].
  rewrite IH by done. cbn. by rewrite <- app_assoc.
Qed.

Lemma end_turn_run v s : end_work (core v) = Ret (s, tt) ->
  Forall (fun x => is_Some (table v !! x.1)) (response_queue (handler s)) ->
  end_turn all_taken v = Ret (mk_server (with_queue s []) (table v) (disarmed v) (sent v ++ response_queue (handler s))).
Proof.
  unfold end_work, end_turn, run. rewrite bind_unfold.
  destruct (serve_backlog_list (core v)) as [[s1 []]|]; [|done]. rewrite bind_unfold. cbn [outcome_bind core with_core].
  destruct (serve_backlog_stream s1) as [[s2 []]|]; [|done]. cbn [outcome_bind core with_core].
  intros Haf Hq. rewrite Haf. cbn [outcome_bind core with_core]. by rewrite flush_all.
Qed.

Lemma quiet_serves v s' a st : serves v a -> quiet (core v) s' -> keeps_for s' st ->
  members (fun id => is_Some (a_conns a !! id)) (ab_repl st) ->
  serves (with_core v s') (mk_abs (a_conns a) st (a_now a)).
Proof.
  intros [] Hq Hk Hm. pose proof (quiet_calm _ _ Hq se_calm0). split; cbn; [done| |done| | | |done].
  - by rewrite (q_clock _ _ Hq).
  - by rewrite (q_auth _ _ Hq).
  - intros key. specialize (se_conns0 key). destruct (a_conns a !! key) as [tail|]; [|done].
    destruct se_conns0 as [c Hc]. exists c.
    eapply connected_frame; [exact Hc|..]; cbn; by rewrite ?(q_auth _ _ Hq), ?(q_interest _ _ Hq), ?(q_master _ _ Hq).
  - by rewrite (q_interest _ _ Hq).
Qed.

(** What was written before is of no account. *)
Lemma serves_sent v out a : serves v a -> serves (mk_server (core v) (table v) (disarmed v) out) a.
Proof.
  intros []. split; try done. intros key. specialize (se_conns0 key). destruct (a_conns a !! key); [|done].
  destruct se_conns0 as [c []]. exists c. by split.
Qed.

(** Connections of the abstract server have one. *)
Lemma connection_exists v a key : serves v a -> is_Some (a_conns a !! key) -> is_Some (table v !! key).
Proof.
  intros Hv [tail Ht]. pose proof (se_conns _ _ Hv key) as Hc. rewrite Ht in Hc. destruct Hc as [c Hc].
  exists c. apply (cn_table _ _ _ _ Hc).
Qed.

Lemma queue_of s a : keeps_for s a -> response_queue (handler s) = ar_queue (ab_repl a).
Proof.
  intros Hk. pose proof (kf_repl _ _ Hk) as Hr. unfold repl_of in Hr. destruct (host_offset s); [|done]. by injection Hr as <-.
Qed.

Lemma end_turn_flushes v a : serves v a ->
  exists v', serve_op EndTurn v = Ret (v', (serve_spec EndTurn a).2) /\ serves v' (serve_spec EndTurn a).1 /\
    flushed (core v') /\ grows (aof (handler (core v))) (aof (handler (core v'))).
Proof.
  intros Hv. destruct a as [conns st now]. unfold serve_op. cbn [op_event].
  destruct (calm_end_work (core v) st) as (s & Hs & Hq & Hk & Hf); [apply Hv|apply (se_state _ _ Hv)|].
  pose proof (queue_of _ _ Hk) as Hqueue. pose proof (se_members _ _ Hv) as [Hmr Hmq]. cbn [a_conns a_state] in *.
  rewrite (end_turn_run v s Hs).
  2: { rewrite Hqueue. eapply Forall_impl; [exact Hmq|]. intros x. by apply (connection_exists v _ _ Hv). }
  eexists. split; [cbn; by rewrite Hqueue, drop_app_length|].
  split_and!; [|done|apply (q_file _ _ Hq)].
  assert (keeps_for (with_queue s []) (delivered st)) as Hk'.
  { pose proof (kf_repl _ _ Hk) as Hr. destruct Hk. split; try done. unfold repl_of in *. cbn.
    change (host_offset (with_queue s [])) with (host_offset s). destruct (host_offset s); [|done]. by injection Hr as <-. }
  apply (serves_sent (with_core v (with_queue s []))), (quiet_serves v (with_queue s []) (mk_abs conns st now) (delivered st) Hv);
    [etransitivity; [exact Hq|by split]|done|split; [done|constructor]].
Qed.

Lemma end_turn_ok v a : serves v a -> done_op EndTurn v a.
Proof. intros Hv. destruct (end_turn_flushes v a Hv) as (v' & ? & ? & _ & ?). by exists v'. Qed.

Lemma missing_held c tail : held c tail -> missing_after tail = missing (resp_parser c).
Proof. intros Hh. unfold missing_after. by rewrite (ho_parse _ _ (h_holds _ _ Hh)). Qed.

(** What an admitted read is. *)
Lemma arrive_split tail b reqs : bool_decide (take (List.length (whole reqs)) (tail ++ b) = whole reqs) = true ->
  tail ++ b = whole reqs ++ left_over tail b reqs.
Proof.
  intros Hw%bool_decide_eq_true. unfold left_over. rewrite <- Hw at 1. by rewrite take_drop.
Qed.

(** The connection that was read, with the state its requests leave. *)
Lemma read_serves v key c p s' out a st' tail' : serves v a -> table v !! key = Some c ->
  connected v key (unwrap_or (a_conns a !! key) []) c -> held (with_parser c p) tail' ->
  quiet (core v) s' -> keeps_for s' st' -> members (fun id => is_Some (a_conns a !! id)) (ab_repl st') ->
  serves (rearm (mk_server s' (<[key := with_parser c p]> (table v)) ({[key]} ∪ disarmed v) out) key)
    (mk_abs (<[key := tail']> (a_conns a)) st' (a_now a)).
Proof.
  intros Hv Ht Hc Hheld Hq Hk Hm. pose proof (quiet_serves v s' a st' Hv Hq Hk Hm) as [].
  destruct Hc. cbn in *. split; cbn; [done..| | |].
  - intros key'. destruct (decide (key = key')) as [->|Hne].
    + rewrite lookup_insert_eq. exists (with_parser c p). split; cbn; [by rewrite lookup_insert_eq|done|done|by rewrite (q_master _ _ Hq)| | |done].
      * by rewrite (q_auth _ _ Hq).
      * rewrite (q_interest _ _ Hq). set_solver.
    + specialize (se_conns0 key'). rewrite !lookup_insert_ne by done. destruct (a_conns a !! key') as [tl|]; [|done].
      destruct se_conns0 as [c' Hc']. exists c'. eapply connected_frame; [exact Hc'|..]; cbn; [|done|done|set_solver|done].
      by rewrite lookup_insert_ne.
  - set_solver.
  - eapply members_impl; [|done]. intros id Hid. apply lookup_insert_is_Some'. by right.
Qed.

Lemma arrive_ok key b reqs next v a : serves v a -> serve_admits (Arrive key b reqs next) a = true ->
  done_op (Arrive key b reqs next) v a.
Proof.
  intros Hv Hok. cbn [serve_admits] in Hok. pose proof (se_conns _ _ Hv key) as Hkey.
  destruct (a_conns a !! key) as [tail|] eqn:Hconn; [|done]. destruct Hkey as [c Hc].
  pose proof (connected_ordinary v key tail c (se_calm _ _ Hv) Hc) as Ho. pose proof (cn_held _ _ _ _ Hc) as Hheld.
  rewrite (missing_held c tail Hheld) in Hok.
  repeat match type of Hok with (_ && _)%bool = true => let H1 := fresh in apply andb_true_iff in Hok as [Hok H1] end.
  bools. destruct (read_requests c tail b reqs next (left_over tail b reqs) (core v) (a_state a))
    as (s' & p & Hread & Hheld' & Hk & Hq); try done.
  - intros ->. unfold len in Hok. cbn in Hok. lia.
  - apply List.Forall_forall. by apply forallb_forall.
  - by apply arrive_split.
  - apply Hv.
  - by rewrite (se_now _ _ Hv), (cn_fd _ _ _ _ Hc).
  - rewrite (se_now _ _ Hv), (cn_fd _ _ _ _ Hc) in Hread, Hk.
    unfold done_op, serve_op. cbn [op_event handle_event event_fd]. unfold readable. cbn [disarm table].
    rewrite (cn_table _ _ _ _ Hc). unfold run. cbn [core disarm]. rewrite Hread. cbn [outcome_bind].
    destruct a as [conns st now]. cbn [a_conns a_state a_now serve_spec] in *. rewrite Hconn. cbn [unwrap_or].
    pose proof (requests_members (fun id => is_Some (conns !! id)) now key reqs ltac:(by eexists) st (se_members _ _ Hv)) as Hmem.
    destruct (requests_spec now key reqs st) as [st' bs]. cbn [fst snd] in *.
    eexists. split.
    + cbn [sent rearm with_core]. by rewrite drop_app_length.
    + split; [|apply (q_file _ _ Hq)]. cbn [with_core core table disarmed sent disarm].
      apply (read_serves v key c p s' _ (mk_abs conns st now) st'); try done; [by apply Hc|].
      cbn. by rewrite Hconn.
Qed.

Lemma every_op_ok op v a : serves v a -> serve_admits op a = true -> done_op op v a.
Proof.
  intros Hv Hok. destruct op.
  - by apply connect_ok.
  - by apply arrive_ok.
  - by apply leave_ok.
  - by apply end_turn_ok.
  - by apply elapse_ok.
Qed.

#[export] Instance server_implements : Implements serve_op serve_spec serve_admits serves.
Proof. intros op v a Hv Hok. destruct (every_op_ok op v a Hv Hok) as (v' & ? & ? & _). by exists v'. Qed.

(** A server whose file begins with what was in [w]. *)
#[export] Instance server_grows w : Implements serve_op serve_spec serve_admits
  (fun v a => serves v a /\ grows w (aof (handler (core v)))).
Proof.
  intros op v a [Hv Hw] Hok. destruct (every_op_ok op v a Hv Hok) as (v' & ? & ? & ?).
  exists v'. split_and!; [done..|by etransitivity].
Qed.

(** C1: any number of clients may connect, send requests, in several reads and
    interleaved with those of others, and leave, over any number of turns and at any
    pace, as far as [serve_admits] allows: the server does not panic, writes to each
    client the answers of the abstract state to its requests, in the order they
    complete among those of all clients, and writes nothing else but, at the end of
    each turn, the writes that succeeded, to the replicas. The requests are those
    [client_refines] admits, with its side conditions: commands on values, alone or
    in transactions, with or without watched keys, and those by which a replica
    joins. What a client sends is arrays of bulk strings that fit in a buffer; reads
    may cut them anywhere, but one that follows a cut inside a body brings at least
    the rest of that body; a client for which something is queued does not leave
    before the turn ends; an accepted descriptor is not in use. Reads and writes
    succeed, nobody needs a password, subscribes or is parked ([serves]). A server
    may itself replicate another. The abstract state stays that of the server: its
    key space, its open transactions and watches, what its append-only file is
    given, and its part in replication. *)
Theorem server_refines ops v a : serves v a -> admits_all serve_spec serve_admits ops a = true ->
  exists v', run_all serve_op ops v = Ret (v', (spec_all serve_spec ops a).2) /\
    serves v' (spec_all serve_spec ops a).1.
Proof. intros Hv Hok. by apply (run_implements _ _ serve_admits serves). Qed.
End Promise.

(** ** The start *)

(** The abstract key space of a snapshot. *)
Definition snapshot_keys (d : Data) : gmap string AbsValue :=
  omap (fun it => match value it with Str s => Some (AString (s, expired_at it)) | _ => None end) d.

Lemma snapshot_represents d : strings_only d -> represents d (snapshot_keys d).
Proof.
  intros Hd k. unfold snapshot_keys. rewrite lookup_omap. destruct (d !! k) as [it|] eqn:Hk; [|done].
  destruct (Hd k it Hk) as [s Hs]. cbn. rewrite Hs. apply holds_some. by split.
Qed.

Definition snapshot_of (d : Data) : AbsState := mk_abs_state (snapshot_keys d) ∅ ∅ [] (alone 0).

(** The data of the snapshot the configuration names, if there is one that can be
    read. *)
Definition snapshot (conf : Configs) (disk : Disk) : outcome Data :=
  match path conf, dbfilename conf with
  | Some dir, Some file =>
      match files disk !! (dir +:+ "/" +:+ file) with
      | Some b => let! r := Rdb.read b in Ret (match r with Ok d => d | Err _ => ∅ end)
      | None => Ret ∅
      end
  | _, _ => Ret ∅
  end.

Lemma snapshot_strings conf disk d : snapshot conf disk = Ret d -> strings_only d.
Proof.
  assert (strings_only ∅) as Hempty by (intros k it; by rewrite lookup_empty).
  unfold snapshot. destruct (path conf); [|by intros [= <-]]. destruct (dbfilename conf); [|by intros [= <-]].
  destruct (files disk !! _) as [b|]; [|by intros [= <-]].
  destruct (Rdb.read b) as [[d'|]|] eqn:Hr; [| |done]; intros [= <-]; [by eapply read_strings|done].
Qed.

(** The arguments of a master. *)
Record master_args (args : list string) (conf : Configs) (a : AppStates) : Prop := {
  ma_conf : with_parse_config configs_new args = Ret conf;
  ma_init : init args = Ret a;
  ma_master : master_stats a = None;
}.

Lemma init_host args a : init args = Ret a ->
  exists h host' port', host_stats a = Some h /\ host h = Some host' /\ port h = Some port' /\ offset h = 0.
Proof.
  unfold init. destruct (init_args _ _) as [x|]; [|done]. cbn [outcome_bind].
  destruct (parse_replicaof _) as [m|]; [|done]. cbn [outcome_bind]. unfold stats_new, start_bytes_count. cbn [offset].
  intros [= <-]. cbn. eauto 10.
Qed.

Section Start.
Context `{Env} (fds : Descriptors).

(** The state before the append-only file. *)
Definition bare_state (a : AppStates) (conf : Configs) (now : Z) : State :=
  mk_state (handler_new None) a conf clients_new auth_new [] 0%nat ∅ now.

(** The server a start gives, from the state the append-only file left. *)
Definition started (s : State) : Server :=
  mk_server (with_interest s (({[timer_fd fds]} ∪ {[listener_fd fds]}) ∪ interest s)) ∅ ∅ [].

(** The snapshot comes after the append-only file, and replaces what it restored. *)
Lemma start_master args conf a now disk chunks connect s disk' d : master_args args conf a ->
  attach_aof chunks disk (bare_state a conf now) = Ret (s, disk') -> snapshot conf disk' = Ret d ->
  data (handler s) = ∅ \/ dbfilename conf = None ->
  start fds args now disk chunks connect =
  Ret (started (match dbfilename conf with Some _ => with_data s d | None => s end), disk').
Proof.
  intros [] Ha Hsnap Hempty. destruct (init_host args a ma_init0) as (h & host' & port' & Hh & Hho & Hpo & _).
  unfold start. rewrite ma_init0, ma_conf0. cbn [outcome_bind]. fold (bare_state a conf now). rewrite Ha.
  cbn [outcome_bind]. rewrite Hh. cbn [unwrap outcome_bind]. rewrite Hho, Hpo. cbn [unwrap outcome_bind].
  match goal with |- outcome_bind ?x _ = _ =>
    assert (x = Ret (match dbfilename conf with Some _ => with_data s d | None => s end)) as -> end.
  - unfold snapshot in Hsnap. destruct (path conf), (dbfilename conf) as [file|]; [| |injection Hsnap as <-|done].
    + assert (with_data s ∅ = s) as Hsame by (destruct Hempty as [He|]; [rewrite <- He; apply with_same_data|done]).
      destruct (files disk' !! _) as [b|]; [|by injection Hsnap as <-; rewrite Hsame].
      destruct (Rdb.read b) as [[d'|]|]; [| |done]; injection Hsnap as <-; [done|by cbn; rewrite Hsame].
    + done.
    + destruct Hempty as [He|]; [|done]. by rewrite <- He, with_same_data.
  - cbn [outcome_bind]. by rewrite ma_master0.
Qed.

Lemma bare_keeps args a conf now w : init args = Ret a -> (forall f, w = Some (Some f) -> aof_disk f = [] /\ aof_text f = []) ->
  keeps_for (with_aof (bare_state a conf now) w) (mk_abs_state ∅ ∅ ∅ [] (alone 0)).
Proof.
  intros Hi Hw. destruct (init_host args a Hi) as (h & _ & _ & Hh & _ & _ & Hoff). apply keeps_new; try done.
  - unfold holds_log. cbn. destruct w as [[f|]|]; [|done..]. by apply Hw.
  - unfold repl_of, host_offset. cbn. rewrite Hh. cbn. by rewrite Hoff.
Qed.

(** A server whose state comes from the bare one by commands on values, a snapshot
    and the attachment of a writer. *)
Lemma started_serves_state args a conf now s0 s st : init args = Ret a -> quiet (bare_state a conf now) s0 ->
  (exists d w, s = with_aof (with_data s0 d) w) -> keeps_for s st -> members (fun _ => False) (ab_repl st) ->
  serves fds (started s) (mk_abs ∅ st now).
Proof.
  intros Hi Hq (d & w & ->) Hk Hm. split; cbn.
  - by eapply keeps_same.
  - apply (q_clock _ _ Hq).
  - split; cbn; [apply (q_subs _ _ Hq)|apply (q_list _ _ Hq)|apply (q_stream _ _ Hq)].
  - rewrite (q_auth _ _ Hq). by exists cred_new.
  - intros key. by rewrite lookup_empty.
  - set_solver.
  - by eapply members_impl; [|exact Hm].
Qed.

(** C6: a server that starts as a master without an append-only file, on any disk
    whose snapshot, if there is one, does not stop it, promises its clients what
    [server_refines] says: nobody is connected, and the key space is that of the
    snapshot. *)
Theorem started_serves args conf a now disk chunks connect d : master_args args conf a -> appendonly conf = false ->
  snapshot conf disk = Ret d ->
  exists v, start fds args now disk chunks connect = Ret (v, disk) /\ serves fds v (mk_abs ∅ (snapshot_of d) now).
Proof.
  intros Hm Happ Hsnap. set (s := with_aof (bare_state a conf now) (Some None)).
  assert (attach_aof chunks disk (bare_state a conf now) = Ret (s, disk)) as Ha.
  { unfold attach_aof, init_sequence. rewrite bind_unfold, get_bind. cbn [configs bare_state]. by rewrite Happ. }
  eexists. split; [apply (start_master args conf a now disk chunks connect s disk d Hm Ha Hsnap); by left|].
  assert (keeps_for (match dbfilename conf with Some _ => with_data s d | None => s end) (snapshot_of d)) as Hk.
  { pose proof (bare_keeps args a conf now (Some None) (ma_init _ _ _ Hm) ltac:(done)) as [].
    assert (represents d (snapshot_keys d)) as Hrep by (eapply snapshot_represents, snapshot_strings, Hsnap).
    unfold snapshot in Hsnap. destruct (dbfilename conf); [by split|].
    destruct (path conf); injection Hsnap as <-; by split. }
  eapply (started_serves_state args a conf now (bare_state a conf now)); [apply Hm|done| |exact Hk|by split; [set_solver|constructor]].
  destruct (dbfilename conf); [by exists d, (Some None)|]. by exists ∅, (Some None).
Qed.
End Start.

Definition demo_snapshot : Disk := mk_disk {["/app/dump"%string := rdb_file demo_entries]} ∅.

Lemma started_serves_witness : exists v d,
  @start demo_env demo_fds ["redis"; "--dbfilename"; "dump"]%string 1000 demo_snapshot (fun b => [b]) 6 =
    Ret (v, demo_snapshot) /\
  serves demo_fds v (mk_abs ∅ (snapshot_of d) 1000) /\
  snapshot_keys d !! "foo"%string = Some (AString ("bar"%string, None)).
Proof.
  set (conf := mk_configs (Some "/app"%string) (Some "dump"%string) false "appendonlydir" "appendonly.aof" EverySec).
  destruct (snapshot conf demo_snapshot) as [d|] eqn:Hd; [|exfalso; vm_compute in Hd; discriminate Hd].
  destruct (init ["redis"; "--dbfilename"; "dump"]%string) as [a|] eqn:Ha; [|exfalso; vm_compute in Ha; discriminate Ha].
  destruct (@started_serves demo_env demo_fds ["redis"; "--dbfilename"; "dump"]%string conf a 1000 demo_snapshot
    (fun b => [b]) 6 d) as (v & Hv & Hserves).
  - vm_compute in Ha. injection Ha as <-. split; by vm_compute.
  - done.
  - exact Hd.
  - exists v, d. split; [exact Hv|]. split; [exact Hserves|]. vm_compute in Hd. injection Hd as <-. vm_compute. reflexivity.
Defined.

(** What the server keeps before it has run a command. *)
Definition demo_blank : AbsState := mk_abs_state ∅ ∅ ∅ [] (alone (match host_stats (app (core demo_server)) with Some h => offset h | None => 0 end)).

Lemma demo_serves : serves demo_fds demo_server (mk_abs ∅ demo_blank 1000).
Proof.
  split; cbn; [by apply keeps_new|done| | |done|set_solver|by split; [set_solver|constructor]].
  - by split.
  - by exists cred_new.
Qed.

(** Two clients; the second request of one is cut inside a word, and the other
    comes between; then a transaction, and a client that leaves. *)
Definition demo_requests : list server_op :=
  let get := request_bytes ["GET"; "k"] in
  let txn := [["MULTI"]; ["INCR"; "k"]; ["GET"; "k"]; ["EXEC"]] in
  [Connect 7; Connect 8;
   Arrive 7 (request_bytes ["SET"; "k"; "1"] ++ take 16 get) [["SET"; "k"; "1"]] ["GET"; "k"];
   Arrive 8 (request_bytes ["INCR"; "k"] ++ request_bytes ["FLY"; "k"]) [["INCR"; "k"]; ["FLY"; "k"]] ["PING"];
   EndTurn; Elapse 20; Arrive 7 (drop 16 get) [["GET"; "k"]] ["PING"]; Leave 8;
   Arrive 7 (whole txn) txn ["PING"]; EndTurn]%string.

Lemma server_refines_witness : exists v' a',
  run_all (@serve_op demo_env demo_fds) demo_requests demo_server = Ret (v',
    let queued := (7, as_bytes "+QUEUED" ++ DELIMITER) in
    [[]; []; [(7, as_bytes "+OK" ++ DELIMITER)];
     [(8, as_bytes ":2" ++ DELIMITER); (8, wire (Error (Some "Invalid command"%string)))];
     []; []; [(7, as_bytes "$1" ++ DELIMITER ++ as_bytes "2" ++ DELIMITER)]; [];
     [(7, as_bytes "+OK" ++ DELIMITER); queued; queued; (7, wire (Array 2 (Some [Integer (Some 3); bulk "3"])))]; []]) /\
  serves demo_fds v' a'.
Proof.
  destruct (@server_refines demo_env demo_fds demo_requests demo_server (mk_abs ∅ demo_blank 1000) demo_serves)
    as (v' & Hrun & Hv'); [vm_compute; reflexivity|].
  exists v'. eexists. split; [|exact Hv']. rewrite Hrun. vm_compute. reflexivity.
Defined.
