(* ===== verification/Recovery.v ===== *)
(** * The log determines the key space

    The append-only file holds the requests of the successful writes in order
    ([ClientSpec]). When the writes do the same at any time and those that were
    refused changed nothing, running what a run logged leads from the key space
    before it to the one after ([traced]); from an empty one, the log gives the key
    space ([recoverable]).
    A start leaves the file and a manifest that names it in a directory
    ([left_behind]), where the next start finds both. *)

From S2P Require Import Prelude Text Float64 Resp RespParser RespWire CmdBuilder Bitmap BTree SortedSet Geohash Store.
From S2P Require Import Refinement KeySpec StringSpec ListSpec BitmapSpec StreamSpec ZsetSpec KeyspaceSpec.
From S2P Require Import AppState Replication Auth Registry Handler HandlerLogic Transactions Propagation ClientSpec.
From S2P Require Import Client ClientReads Serving Aof Server ServerSpec.

#[export] Instance spec_float_eq_dec : EqDecision f64.
Proof. solve_decision. Defined.

#[export] Instance abs_value_eq_dec : EqDecision AbsValue.
Proof. unfold BitSet, Stream. solve_decision. Defined.

(** ** Writes that can be replayed *)
Lemma timeless_keyspace c now now' ks : timeless c = true ->
  keyspace_spec (now, c) ks = keyspace_spec (now', c) ks /\
  keyspace_admits (now, c) ks = keyspace_admits (now', c) ks.
Proof.
  destruct c; try done; unfold keyspace_spec, keyspace_admits; cbn [fst snd]; intros Ht; try done.
  - match goal with |- context [SSet _ _ ?o] => by destruct o end.
  - match goal with |- context [XAdd _ ?i _] => destruct i as [[t|] [i|]] end; try done;
      unfold on_stream, on_key, key_admits; (split; [|done]); by destruct (ks !! key) as [[]|].
Qed.

(** A command that runs is logged and timeless, or changes nothing. *)
Definition run_durable (now : Z) (x : Cmd.t * bytes) (a : AbsState) : bool :=
  let (ks, r) := keyspace_spec (now, x.1) (ab_keys a) in
  match log_entry x r with
  | [] => bool_decide (ks = ab_keys a)
  | _ => timeless x.1
  end.

Section Durable.
Context `{Env}.

Definition client_durable (now id : Z) (x : Cmd.t * bytes) (a : AbsState) : bool :=
  match ab_txns a !! id with
  | Some q =>
      match x.1 with
      | Cmd.EXEC => (watch_of (ab_watch a) id).2 || admits_all (run_spec now) (run_durable now) q a
      | _ => true
      end
  | None =>
      match x.1 with
      | Cmd.MULTI | Cmd.EXEC | Cmd.DISCARD | Cmd.WATCH _ | Cmd.UNWATCH | Cmd.REPLCONF _ | Cmd.PSYNC _ _ => true
      | _ => run_durable now x a
      end
  end.

Definition request_durable (now id : Z) (args : list string) (a : AbsState) : bool :=
  match Cmd.from_resp (request args) with
  | Ret (Ok c) => client_durable now id (c, request_bytes args) a
  | _ => true
  end.

Definition serve_durable (op : server_op) (a : AbsServer) : bool :=
  match op with
  | Arrive key b reqs next => admits_all (request_spec (a_now a) key) (request_durable (a_now a) key) reqs (a_state a)
  | _ => true
  end.
End Durable.

(** ** Replays

    Commands that are run again, at any times, and succeed again. *)
Definition stamped (now : Z) (l : list (Cmd.t * bytes)) : list (Z * Cmd.t) := List.map (fun x => (now, x.1)) l.

(** The key space after it. *)
Definition replayed (l : list (Cmd.t * bytes)) (ks : Keyspace) : Keyspace := (spec_all keyspace_spec (stamped 0 l) ks).1.

Definition succeeds (r : Reply) : bool := match r with Ok (Some _) => true | _ => false end.

Record replays (ks : Keyspace) (l : list (Cmd.t * bytes)) (ks' : Keyspace) : Prop := {
  rp_timeless : Forall (fun x => timeless x.1 = true) l;
  rp_admits : admits_all keyspace_spec keyspace_admits (stamped 0 l) ks = true;
  rp_succeeds : forallb succeeds (spec_all keyspace_spec (stamped 0 l) ks).2 = true;
  rp_keys : replayed l ks = ks';
}.

Lemma stamped_app now l1 l2 : stamped now (l1 ++ l2) = stamped now l1 ++ stamped now l2.
Proof. apply map_app. Qed.

Lemma replayed_app l1 l2 ks : replayed (l1 ++ l2) ks = replayed l2 (replayed l1 ks).
Proof. unfold replayed. by rewrite stamped_app, spec_all_app. Qed.

Lemma replays_nil ks : replays ks [] ks.
Proof. by split. Qed.

Lemma replays_app ks ks' l1 l2 : replays ks (l1 ++ l2) ks' <->
  replays ks l1 (replayed l1 ks) /\ replays (replayed l1 ks) l2 ks'.
Proof.
  split.
  - intros []. apply Forall_app in rp_timeless0 as []. rewrite stamped_app, admits_all_app in rp_admits0.
    rewrite stamped_app, spec_all_app_out, forallb_app in rp_succeeds0. rewrite replayed_app in rp_keys0. bools. by repeat split.
  - intros [[? Ha1 Hs1 _] [? Ha2 Hs2 Hk]]. split; [by apply Forall_app|..].
    + rewrite stamped_app, admits_all_app, Ha1. exact Ha2.
    + rewrite stamped_app, spec_all_app_out, forallb_app, Hs1. exact Hs2.
    + by rewrite replayed_app.
Qed.

(** The time makes no difference. *)
Lemma replay_any_time l : Forall (fun x => timeless x.1 = true) l -> forall now ks,
  spec_all keyspace_spec (stamped now l) ks = spec_all keyspace_spec (stamped 0 l) ks /\
  admits_all keyspace_spec keyspace_admits (stamped now l) ks = admits_all keyspace_spec keyspace_admits (stamped 0 l) ks.
Proof.
  induction 1 as [|x l Hx _ IH]; intros now ks; [done|]. cbn [stamped List.map spec_all admits_all].
  destruct (timeless_keyspace x.1 now 0 ks Hx) as [-> ->]. destruct (keyspace_spec (0, x.1) ks) as [ks1 r].
  cbn [fst]. destruct (IH now ks1) as [Hs Ha]. unfold stamped in *. by rewrite Hs, Ha.
Qed.

(** ** What a run adds to the log

    The abstract state a server begins in. *)
Definition blank : AbsState := mk_abs_state ∅ ∅ ∅ [] (alone 0).

(** A request that can be sent and read. *)
Definition fits_wire (args : list string) : Prop :=
  wire_wf (request args) = true /\ len (request_bytes args) <= isize_max.

(** A command that came as a request. *)
Definition wired (x : Cmd.t * bytes) : Prop :=
  exists args, wire_wf (request args) = true /\ Cmd.from_resp (request args) = Ret (Ok x.1) /\
    x.2 = request_bytes args /\ len x.2 <= isize_max.

Lemma wired_is_request x : wired x -> exists t, is_request t x.
Proof. intros (args & Hwf & Hc & Hb & _). exists (request args). split; [|done]. rewrite Hb. by apply request_on_wire. Qed.

Lemma wired_requests l : Forall wired l -> exists ts, Forall2 is_request ts l.
Proof.
  induction 1 as [|x l Hx _ [ts Hts]]; [by exists []|]. destruct (wired_is_request x Hx) as [t Ht].
  exists (t :: ts). by constructor.
Qed.

(** The log grows by requests whose replay leads from one key space to the other. *)
Definition logged (a a' : AbsState) : Prop :=
  exists l, ab_log a' = ab_log a ++ l /\ Forall wired l /\ replays (ab_keys a) l (ab_keys a').

(** What waits for [EXEC] came as requests. *)
Definition queues_wired (a : AbsState) : Prop := forall id q, ab_txns a !! id = Some q -> Forall wired q.

Definition traced (a a' : AbsState) : Prop := logged a a' /\ queues_wired a'.

(** The log determines the key space. *)
Definition recoverable (a : AbsState) : Prop := traced blank a.

#[export] Instance logged_preorder : PreOrder logged.
Proof.
  split.
  - intros a. exists []. rewrite app_nil_r. split_and!; [done|constructor|apply replays_nil].
  - intros a b c (l1 & H1 & Hw1 & Hr1) (l2 & H2 & Hw2 & Hr2). exists (l1 ++ l2).
    rewrite H2, H1, app_assoc. split_and!; [done|by apply Forall_app|]. apply replays_app.
    by rewrite (rp_keys _ _ _ Hr1).
Qed.

Lemma traced_trans a b c : traced a b -> traced b c -> traced a c.
Proof. intros [Hab _] [Hbc Hq]. split; [by transitivity b|done]. Qed.

Lemma blank_recoverable : recoverable blank.
Proof. split; [done|]. intros id q. cbn. by rewrite lookup_empty. Qed.

Lemma recoverable_log a : recoverable a -> Forall wired (ab_log a) /\ replays ∅ (ab_log a) (ab_keys a).
Proof. intros [(l & -> & Hw & Hr) _]. done. Qed.

(** A change of what is not logged. *)
Lemma logged_same a a' : ab_log a' = ab_log a -> ab_keys a' = ab_keys a -> logged a a'.
Proof. intros Hl Hk. exists []. rewrite app_nil_r, Hk. split_and!; [done|constructor|apply replays_nil]. Qed.

Section Traces.
Context `{Env}.

Lemma run_logged m now x a : run_admits now x a = true -> run_durable now x a = true -> wired x ->
  logged a (run_as m now x a).1.
Proof.
  unfold run_admits, run_durable, run_as. intros Hok Hdur Hx.
  destruct (keyspace_spec (now, x.1) (ab_keys a)) as [ks r] eqn:Hks. cbn [fst snd].
  exists (log_entry x r). split; [done|]. cbn [ab_keys].
  assert (log_entry x r = [] \/ log_entry x r = [x] /\ succeeds r = true) as [Hl|[Hl Hr]].
  { unfold log_entry. destruct r as [[|]|]; [|by left..]. destruct (Cmd.to_be_broadcast x.1); auto. }
  all: rewrite Hl in *.
  - apply bool_decide_eq_true in Hdur as ->. split; [constructor|apply replays_nil].
  - split; [by constructor|]. destruct (timeless_keyspace x.1 0 now (ab_keys a) Hdur) as [Hs Ha].
    split; [by constructor|..]; unfold replayed; cbn [stamped List.map spec_all admits_all].
    + by rewrite Ha, Hok.
    + rewrite Hs, Hks. cbn. by rewrite Hr.
    + by rewrite Hs, Hks.
Qed.

Lemma queue_logged now q : Forall wired q -> forall a,
  admits_all (run_spec now) (run_admits now) q a = true -> admits_all (run_spec now) (run_durable now) q a = true ->
  logged a (spec_all (run_spec now) q a).1 /\ ab_txns (spec_all (run_spec now) q a).1 = ab_txns a.
Proof.
  induction 1 as [|x q Hx _ IH]; intros a Hok Hdur; [done|]. cbn [admits_all spec_all] in *. bools.
  pose proof (run_logged false now x a) as Hr. pose proof (run_txns false now x a) as Ht. specialize (IH (run_spec now x a).1).
  unfold run_spec in *. destruct (run_as false now x a) as [a1 r]. cbn [fst snd] in *. destruct (spec_all _ q a1).
  cbn [fst] in *. destruct IH as [Hl ->]; [done..|]. split; [|done]. etransitivity; [by apply Hr|done].
Qed.

Lemma queues_insert a id q m : queues_wired a -> Forall wired q -> ab_txns m = <[id := q]> (ab_txns a) -> queues_wired m.
Proof. intros Ha Hq Hm id' q'. rewrite Hm, lookup_insert_Some. intros [[_ <-]|[_ Hq']]; [done|by eapply Ha]. Qed.

Lemma queues_delete a id m : queues_wired a -> ab_txns m = delete id (ab_txns a) -> queues_wired m.
Proof. intros Ha Hm id' q'. rewrite Hm, lookup_delete_Some. intros [_ Hq']. by eapply Ha. Qed.

Lemma client_traced now id x a : client_admits now id x a = true -> client_durable now id x a = true ->
  wired x -> queues_wired a -> traced a (client_spec now id x a).1.
Proof.
  unfold client_admits, client_durable, client_spec. intros Hok Hdur Hx Ha.
  destruct (ab_txns a !! id) as [q|] eqn:Hq.
  - pose proof (Ha id q Hq) as Hqw.
    assert (traced a (with_txn id (q ++ [x]) a)).
    { split; [by apply logged_same|]. eapply queues_insert; [exact Ha| |reflexivity]. by apply Forall_app; auto. }
    assert (traced a (closed id a)) as Hclosed.
    { split; [by apply logged_same|]. by eapply queues_delete. }
    destruct x.1; cbn [fst]; try done. destruct (watch_of (ab_watch a) id).2; [done|]. cbn [orb] in *. bools.
    destruct (queue_logged now q Hqw a) as [Hl Ht]; [done..|].
    destruct (spec_all _ q a) as [a1 rs]. split; [transitivity a1; [done|by apply logged_same]|].
    eapply queues_delete; [exact Ha|]. cbn in *. by rewrite Ht.
  - assert (forall m, run_admits now x a = true -> run_durable now x a = true -> traced a (run_as m now x a).1) as Hrun.
    { intros m H1 H2. split; [by apply run_logged|]. intros id' q'. rewrite run_txns. apply Ha. }
    destruct x.1; cbn [fst]; try (match goal with |- context [run_as ?m _ _ _] =>
      specialize (Hrun m); destruct (run_as m now x a); by apply Hrun end);
      try by (split; [by apply logged_same|exact Ha]).
    split; [by apply logged_same|]. eapply queues_insert; [exact Ha| |reflexivity]. constructor.
Qed.


(** What a read brings comes as requests. *)
Lemma requests_traced now id reqs : Forall fits_wire reqs -> forall a,
  requests_admit now id reqs a = true -> admits_all (request_spec now id) (request_durable now id) reqs a = true ->
  queues_wired a -> traced a (requests_spec now id reqs a).1.
Proof.
  unfold requests_admit, requests_spec.
  induction 1 as [|args reqs [Hwf Hlen] _ IH]; intros a Hok Hdur Ha; [done|]. cbn [admits_all spec_all] in *. bools.
  assert (traced a (request_spec now id args a).1) as Hr.
  { unfold request_admits, request_durable, request_spec in *.
    destruct (Cmd.from_resp (request args)) as [[c|e]|] eqn:Hc; [|done..].
    apply client_traced; [done..| |done]. by exists args. }
  specialize (IH (request_spec now id args a).1). destruct (request_spec now id args a) as [a1 r]. cbn [fst snd] in *.
  destruct (spec_all _ reqs a1). eapply traced_trans; [exact Hr|]. apply IH; [done..|apply Hr].
Qed.

Variable fds : Descriptors.

(** The requests of an admitted read. *)
Lemma arrive_fit key b reqs next a : serve_admits fds (Arrive key b reqs next) a = true -> Forall fits_wire reqs.
Proof.
  cbn [serve_admits]. destruct (a_conns a !! key) as [tail|]; [|done]. intros Hok.
  repeat match type of Hok with (_ && _)%bool = true => let H1 := fresh in apply andb_true_iff in Hok as [Hok H1] end.
  match goal with H : bool_decide _ = true |- _ => apply arrive_split in H as Hsplit end. bools.
  apply List.Forall_forall. intros args Hin. split; [by match goal with H : forallb _ _ = true |- _ => apply (proj1 (forallb_forall _ _) H) end|].
  transitivity (len (tail ++ b)); [|done]. rewrite Hsplit. apply in_split in Hin as (l1 & l2 & ->). unfold whole.
  rewrite map_app, join_app. cbn [List.map]. change (mjoin (?x :: ?l)) with (x ++ mjoin l). rewrite !len_app.
  pose proof (len_nonneg (mjoin (List.map request_bytes l1))). pose proof (len_nonneg (mjoin (List.map request_bytes l2))).
  pose proof (len_nonneg (left_over tail b (l1 ++ args :: l2))). lia.
Qed.

Lemma serve_traced op a : serve_admits fds op a = true -> serve_durable op a = true ->
  queues_wired (a_state a) -> traced (a_state a) (a_state (serve_spec op a).1).
Proof.
  intros Hok. destruct op as [fd|key b reqs next|key| |ms].
  2: { pose proof (arrive_fit _ _ _ _ _ Hok) as Hfit. destruct a as [conns st now]. cbn in Hok |- *. intros Hdur Ha.
    destruct (conns !! key) as [tail|]; [|done]. apply andb_true_iff in Hok as [_ Hok].
    pose proof (requests_traced now key reqs Hfit st Hok Hdur Ha). by destruct (requests_spec now key reqs st). }
  all: destruct a as [conns st now]; cbn; intros _ Ha; (split; [by apply logged_same|exact Ha]).
Qed.

Lemma run_serve_traced ops : forall a, admits_all serve_spec (serve_admits fds) ops a = true ->
  admits_all serve_spec serve_durable ops a = true -> queues_wired (a_state a) ->
  traced (a_state a) (a_state (spec_all serve_spec ops a).1).
Proof.
  induction ops as [|op ops IH]; intros a Hok Hdur Ha; [done|]. cbn [admits_all spec_all] in *. bools.
  pose proof (serve_traced op a) as Hr. specialize (IH (serve_spec op a).1).
  destruct (serve_spec op a) as [a1 r]. cbn [fst snd] in *. destruct (spec_all serve_spec ops a1).
  eapply traced_trans; [by apply Hr|]. apply IH; [done..|by apply Hr].
Qed.
End Traces.

(** ** Strings *)
Lemma app_string_assoc (a b c : string) : (a +:+ b) +:+ c = a +:+ (b +:+ c).
Proof. apply as_bytes_inj. by rewrite !as_bytes_app, <- app_assoc. Qed.

Lemma app_string_inj (a b c : string) : a +:+ b = a +:+ c -> b = c.
Proof.
  intros Heq. apply as_bytes_inj. apply (f_equal as_bytes) in Heq. rewrite !as_bytes_app in Heq.
  by apply app_inv_head in Heq.
Qed.

Lemma strip_prefix_spec p : forall s n, strip_prefix p s = Some n <-> s = p +:+ n.
Proof.
  induction p as [|x p IH]; intros s n; [cbn; naive_solver|]. change (String x p +:+ n) with (String x (p +:+ n)).
  destruct s as [|y s]; cbn; [naive_solver|]. destruct (ascii_dec x y) as [->|Hne]; [|naive_solver].
  rewrite IH. naive_solver.
Qed.

Lemma elem_of_read_dir d dir n :
  n ∈ read_dir d dir <-> is_Some (files d !! (dir +:+ "/" +:+ n)) /\ no_char "/" n = true.
Proof.
  unfold read_dir. rewrite list_elem_of_In, filter_In, <- list_elem_of_In, list_elem_of_omap.
  split.
  - intros [(p & Hp & Hs) Hn]. split; [|done]. apply strip_prefix_spec in Hs as ->.
    rewrite app_string_assoc in Hp. apply list_elem_of_In, in_map_iff in Hp as ([k b] & Hk & Hin). cbn in Hk. subst k.
    apply list_elem_of_In, elem_of_map_to_list in Hin. by exists b.
  - intros [[b Hb] Hn]. split; [|done]. exists (dir +:+ "/" +:+ n). split.
    + apply list_elem_of_In, in_map_iff. exists (dir +:+ "/" +:+ n, b). split; [done|].
      by apply list_elem_of_In, elem_of_map_to_list.
    + apply strip_prefix_spec. by rewrite app_string_assoc.
Qed.

(** ** The files of a start *)
Definition plain_name (s : string) : Prop :=
  (exists a b, s = a +:+ String "." b /\ no_char "." a = true /\ no_char "." b = true) /\
  no_char "/" s = true /\ no_char " " s = true /\ no_char LF s = true /\ utf8_valid (as_bytes s) = true.

Section Files.
Context (conf : Configs) (base : string).

(** An append-only file whose name has one dot, and no snapshot. *)
Record aof_args : Prop := {
  aa_on : appendonly conf = true;
  aa_path : path conf = Some base;
  aa_snapshot : dbfilename conf = None;
  aa_name : plain_name (appendfilename conf);
}.

Definition aof_dir : string := base +:+ "/" +:+ appenddirname conf.
Definition log_name : string := format_incr (appendfilename conf) 1.
Definition log_path : string := aof_dir +:+ "/" +:+ log_name.
Definition manifest_name : string := appendfilename conf +:+ ".manifest".
Definition manifest_path : string := aof_dir +:+ "/" +:+ manifest_name.
Definition manifest_line : bytes := as_bytes ("file " +:+ log_name +:+ " seq " +:+ show_Z 1 +:+ " type i") ++ [LF].

(** A directory with nothing but the two files, if they are there. *)
Definition own_names (d : Disk) : Prop := forall n, n ∈ read_dir d aof_dir -> n = log_name \/ n = manifest_name.

(** What a start leaves. *)
Record left_behind (d : Disk) (log : bytes) : Prop := {
  lb_dir : aof_dir ∈ dirs d;
  lb_manifest : files d !! manifest_path = Some manifest_line;
  lb_log : files d !! log_path = Some log;
  lb_names : own_names d;
}.

Hypothesis Hargs : aof_args.

Lemma paths_differ : manifest_path <> log_path.
Proof. unfold manifest_path, log_path. intros H%app_string_inj%app_string_inj%app_string_inj. discriminate. Qed.

Lemma log_name_dir : no_char "/" log_name = true.
Proof.
  destruct (aa_name Hargs) as (_ & Hs & _). unfold log_name, format_incr. by rewrite !no_char_app, Hs.
Qed.

(** The numbers of the two names. *)
Lemma own_ids names : (forall n, n ∈ names -> n = log_name \/ n = manifest_name) ->
  exists ids, aof_ids names = Ret ids /\ Forall (eq 1) ids.
Proof.
  destruct (aa_name Hargs) as ((a & b & Hab & Ha & Hb) & _).
  assert (split "." log_name !! 2%nat = Some "1"%string) as Hlog.
  { unfold log_name, format_incr. rewrite Hab, app_string_assoc. change (String "." b +:+ ?x) with (String "." (b +:+ x)).
    rewrite split_join by done. change ("." +:+ ?x) with (String "." x). by rewrite split_join by done. }
  assert (split "." manifest_name !! 2%nat = Some "manifest"%string) as Hman.
  { unfold manifest_name. rewrite Hab, app_string_assoc. change (String "." b +:+ ?x) with (String "." (b +:+ x)).
    rewrite split_join by done. change ".manifest"%string with (String "." "manifest"). by rewrite split_join by done. }
  induction names as [|n names IH]; intros Hn; cbn [aof_ids]; [by exists []|].
  destruct IH as (ids & Hids & Hall); [intros n' ?; apply Hn; by apply elem_of_cons; right|].
  destruct (Hn n) as [->| ->]; [by apply elem_of_cons; left| |].
  - rewrite Hlog. cbn [unwrap outcome_bind]. rewrite Hids. exists (1 :: ids). by split; [|constructor].
  - rewrite Hman. cbn [unwrap outcome_bind]. rewrite Hids. by exists ids.
Qed.

Lemma own_files names : (forall n, n ∈ names -> n = log_name \/ n = manifest_name) ->
  aof_and_manifest names (appendfilename conf) = Ret (log_name, manifest_line).
Proof.
  intros Hn. destruct (own_ids names Hn) as (ids & Hids & Hall). unfold aof_and_manifest, get_latest_aof_id.
  rewrite Hids. cbn [outcome_bind].
  assert (unwrap_or (match ids with [] => None | id :: rest => Some (fold_left Z.max rest id) end) 1 = 1) as ->; [|done].
  clear Hids. destruct Hall as [|? ids <- Hall]; [done|]. cbn. by induction Hall as [|? ids <- _ IH].
Qed.

Lemma init_files d : own_names d ->
  init_aof_files conf d =
  let log := unwrap_or (files d !! log_path) [] in
  Ret (mk_disk (<[manifest_path := manifest_line]> (<[log_path := log]> (files d))) (dirs d), Some (mk_aof log_path log [] [])).
Proof.
  intros Hn. unfold init_aof_files, append_dirpath. rewrite (aa_on Hargs), (aa_path Hargs). cbn [negb unwrap outcome_bind].
  fold aof_dir. by rewrite (own_files _ Hn).
Qed.

Lemma init_left d log : own_names d -> aof_dir ∈ dirs d ->
  left_behind (mk_disk (<[manifest_path := manifest_line]> (<[log_path := log]> (files d))) (dirs d)) log.
Proof.
  intros Hn Hdir. pose proof paths_differ. split; cbn; [done|by rewrite lookup_insert_eq|by rewrite lookup_insert_ne, lookup_insert_eq|].
  intros n [Hf Hs]%elem_of_read_dir. cbn in Hf. destruct (decide (aof_dir +:+ "/" +:+ n = manifest_path)) as [He|Hne].
  { right. by apply app_string_inj, app_string_inj in He. }
  rewrite lookup_insert_ne in Hf by done. destruct (decide (aof_dir +:+ "/" +:+ n = log_path)) as [He|Hne'].
  { left. by apply app_string_inj, app_string_inj in He. }
  rewrite lookup_insert_ne in Hf by done. apply Hn. by apply elem_of_read_dir.
Qed.

(** The log grows. *)
Lemma left_written d log log' : left_behind d log ->
  left_behind (mk_disk (<[log_path := log']> (files d)) (dirs d)) log'.
Proof.
  intros []. pose proof paths_differ. split; cbn; [done|by rewrite lookup_insert_ne|by rewrite lookup_insert_eq|].
  intros n [Hf Hs]%elem_of_read_dir. cbn in Hf. apply lb_names0. apply elem_of_read_dir. split; [|done].
  destruct (decide (aof_dir +:+ "/" +:+ n = log_path)) as [->|Hne]; [by rewrite lb_log0|].
  by rewrite lookup_insert_ne in Hf.
Qed.

(** A second start changes nothing. *)
Lemma left_again d log : left_behind d log ->
  init_aof_files conf d = Ret (d, Some (mk_aof log_path log [] [])).
Proof.
  intros []. rewrite (init_files d lb_names0), lb_log0. cbn. rewrite (insert_id _ log_path) by done.
  rewrite insert_id by done. by destruct d.
Qed.

(** The directories a first start creates. *)
Lemma create_dirs_files d : files (create_dirs conf d) = files d /\ aof_dir ∈ dirs (create_dirs conf d).
Proof.
  unfold create_dirs, aof_dir. rewrite (aa_on Hargs), (aa_path Hargs). cbn [negb].
  destruct (String.eqb_spec (appenddirname conf) "") as [->|_]; cbn; (split; [done|]); set_solver.
Qed.
End Files.
