(* ===== verification/Lives.v ===== *)
(** * What a restart recovers

    A start replays the log that the start before left, and goes on with the key
    space it gives: a server that is started, serves and stops between two turns,
    any number of times, implements one that keeps its key space
    ([lives_implement]). One that stops anywhere, and whose file is cut anywhere,
    comes back with the requests that are whole in it: what the turns before did, and
    the first of the writes of that turn ([crash_keeps_turns]). *)

From S2P Require Import Prelude Text Float64 Resp RespParser RespWire CmdBuilder Bitmap BTree SortedSet Geohash Store.
From S2P Require Import Refinement KeySpec StringSpec ListSpec BitmapSpec StreamSpec ZsetSpec KeyspaceSpec.
From S2P Require Import AppState Replication Auth Registry Handler HandlerLogic Transactions Propagation ClientSpec.
From S2P Require Import Client ClientReads Serving Aof Server ServerSpec.
From S2P Require Import Recovery.

(** ** The replay

    It runs as the requests of a client: the offset moves. *)
Definition log_offset (off : Z) (l : list (Cmd.t * bytes)) : Z :=
  fold_left (fun o x => if Cmd.to_be_broadcast x.1 then add_offset o (len x.2) else o) l off.

Lemma spread_nobody l : spread [] l = [].
Proof. by induction l. Qed.

Lemma advance_alone `{Env} x r off :
  advance false x r (alone off) = alone (if Cmd.to_be_broadcast x.1 then add_offset off (len x.2) else off).
Proof. unfold advance, alone. cbn. by rewrite iter_set_empty, spread_nobody. Qed.

(** The replay opens no transaction and watches nothing. *)
Lemma replay_state `{Env} now l : forall ks lg off, let a := mk_abs_state ks ∅ ∅ lg (alone off) in
  (exists lg', (spec_all (run_spec now) l a).1 =
    mk_abs_state (spec_all keyspace_spec (stamped now l) ks).1 ∅ ∅ lg' (alone (log_offset off l))) /\
  admits_all (run_spec now) (run_admits now) l a = admits_all keyspace_spec keyspace_admits (stamped now l) ks.
Proof.
  induction l as [|x l IH]; intros ks lg off; [split; [by exists lg|done]|].
  set (off' := if Cmd.to_be_broadcast x.1 then add_offset off (len x.2) else off).
  assert (run_spec now x (mk_abs_state ks ∅ ∅ lg (alone off)) =
    (mk_abs_state (keyspace_spec (now, x.1) ks).1 ∅ ∅ (lg ++ log_entry x (keyspace_spec (now, x.1) ks).2) (alone off'),
     (keyspace_spec (now, x.1) ks).2)) as Hrun.
  { unfold run_spec, run_as. cbn [ab_keys ab_txns ab_watch ab_log ab_repl]. destruct (keyspace_spec (now, x.1) ks).
    by rewrite fmap_empty, advance_alone. }
  destruct (IH (keyspace_spec (now, x.1) ks).1 (lg ++ log_entry x (keyspace_spec (now, x.1) ks).2) off') as [[lg' Hst] Hadm].
  cbn [admits_all stamped List.map]. rewrite Hrun. cbn [fst]. unfold stamped in *. rewrite Hadm. split; [|done]. exists lg'.
  cbn [spec_all]. rewrite Hrun. destruct (keyspace_spec (now, x.1) ks) as [ks' r]. cbn [fst snd] in *.
  destruct (spec_all (run_spec now) l _), (spec_all keyspace_spec _ ks'). exact Hst.
Qed.

(** What a start remembers of a state: not its clients. *)
Definition reborn (st : AbsState) : AbsState :=
  mk_abs_state (ab_keys st) ∅ ∅ (ab_log st) (alone (log_offset 0 (ab_log st))).

Lemma reborn_recoverable st : recoverable st -> recoverable (reborn st).
Proof. intros [Hl _]. split; [exact Hl|]. intros id q. cbn. by rewrite lookup_empty. Qed.

(** A log that reads of [size] bytes bring back. *)
Definition fits (size : Z) (l : list (Cmd.t * bytes)) : bool :=
  (len (log_bytes l) <=? isize_max) && forallb (fun x => len x.2 <=? size) l.

Lemma fits_spec size l : fits size l = true ->
  len (log_bytes l) <= isize_max /\ Forall (fun x => len x.2 <= size) l.
Proof.
  unfold fits. rewrite andb_true_iff, Z.leb_le, forallb_forall. intros [Hl Hall]. split; [done|].
  apply List.Forall_forall. intros x Hx. by apply Z.leb_le, (Hall x).
Qed.

Section Start.
Context `{Env}.
Variable fds : Descriptors.
Context (args : list string) (conf : Configs) (a : AppStates) (base : string).
Context (chunks : bytes -> list bytes) (connect size : Z).
Hypothesis Hmaster : master_args args conf a.
Hypothesis Haof : aof_args conf base.
Hypothesis Hchunks : forall b, reads_of size (chunks b) /\ mjoin (chunks b) = b.

Let file (log : bytes) : option (option AofFile) := Some (Some (mk_aof (log_path conf base) log [] [])).

(** What the replay of a log on the disk leaves, be it cut anywhere. *)
Lemma replay_log d st f : recoverable st -> left_behind conf base d f ->
  f `prefix_of` log_bytes (ab_log st) -> fits size (ab_log st) = true ->
  exists l1 l2 torn, ab_log st = l1 ++ l2 /\ f = log_bytes l1 ++ torn /\ within_first torn (List.map snd l2) /\
    forall now, exists s lg, aof_replay chunks d (bare_state a conf now) = Ret (s, Ok tt) /\
      quiet (bare_state a conf now) s /\ keeps_for s (mk_abs_state (replayed l1 ∅) ∅ ∅ lg (alone (log_offset 0 l1))).
Proof.
  intros Hrec Hd [x Hf] [Hlen Hsize]%fits_spec. destruct (Hchunks f) as [Hreads Hjoin].
  destruct (recoverable_log st Hrec) as [Hwired Hreplay]. destruct (wired_requests _ Hwired) as [ts Hts].
  destruct (replay_prefix size (chunks f) parser_new [] ts (ab_log st) x) as (l1 & l2 & torn & Hl & Htorn & Hin & Hrun);
    [done|done|done|by rewrite Hjoin|by left|done|apply holds_nothing|].
  rewrite Hjoin in Htorn. exists l1, l2, torn. split_and!; [done..|]. intros now.
  rewrite Hl in Hreplay. apply replays_app in Hreplay as [Hreplay _].
  destruct (replay_any_time l1 (rp_timeless _ _ _ Hreplay) now ∅) as [Hsame Hadm].
  destruct (replay_state now l1 ∅ [] 0) as [[lg Hst] Hok]. fold blank in Hst, Hok.
  destruct (session_ok 0 (-1) l1 (bare_state a conf now) blank) as (s & Hs & Hk & Hq);
    [by split|apply (bare_keeps args a conf now None); [apply Hmaster|done]|done|change (clock (bare_state a conf now)) with now; by rewrite Hok, Hadm, (rp_admits _ _ _ Hreplay)|].
  change (clock (bare_state a conf now)) with now in *. rewrite Hst, Hsame in Hk.
  exists s, lg. split; [|done]. destruct (aa_name _ _ Haof) as (_ & _ & Hn1 & Hn2 & Hn3).
  unfold aof_replay. rewrite get_bind. cbn [configs bare_state]. unfold append_dirpath. rewrite (aa_path _ _ Haof), bind_unfold.
  unfold of_outcome at 1. cbn [unwrap outcome_bind]. change (base +:+ "/" +:+ appenddirname conf) with (aof_dir conf base).
  change (aof_dir conf base +:+ "/" +:+ appendfilename conf +:+ ".manifest") with (manifest_path conf base).
  rewrite (lb_manifest _ _ _ _ Hd), bind_unfold. unfold of_outcome at 1.
  destruct (format_incr_plain (appendfilename conf) 1) as (? & ? & ?); [done..|].
  unfold manifest_line, log_name. rewrite manifest_line_reads by (done || apply format_incr_long).
  cbn [outcome_bind aof_filename]. change (aof_dir conf base +:+ "/" +:+ format_incr (appendfilename conf) 1) with (log_path conf base).
  by rewrite (lb_log _ _ _ _ Hd), bind_unfold, Hrun, Hs.
Qed.

(** A start whose replay gives no error. *)
Lemma attach_steps d now s d' w :
  (if bool_decide (aof_dir conf base ∈ dirs d) then aof_replay chunks d else mret (Ok tt)) (bare_state a conf now) = Ret (s, Ok tt) ->
  init_aof_files conf (if bool_decide (aof_dir conf base ∈ dirs d) then d else create_dirs conf d) = Ret (d', w) ->
  attach_aof chunks d (bare_state a conf now) = Ret (with_aof s (Some w), d').
Proof.
  intros Hs Hi. unfold attach_aof, init_sequence. rewrite bind_unfold, get_bind. cbn [configs bare_state].
  rewrite (aa_on _ _ Haof). cbn [negb]. unfold append_dirpath at 1. rewrite (aa_path _ _ Haof), bind_unfold.
  unfold of_outcome at 1. cbn [unwrap outcome_bind]. change (base +:+ "/" +:+ appenddirname conf) with (aof_dir conf base).
  rewrite bind_unfold. fold (bare_state a conf now). rewrite Hs, bind_unfold. unfold of_outcome at 1. by rewrite Hi.
Qed.

Let reborn_at st now := mk_abs ∅ (reborn st) now.

(** A start on what is on the disk: it changes nothing there. *)
Lemma start_left d now s f : left_behind conf base d f ->
  aof_replay chunks d (bare_state a conf now) = Ret (s, Ok tt) ->
  start fds args now d chunks connect = Ret (started fds (with_aof s (file f)), d).
Proof.
  intros Hd Hs. pose proof (start_master fds args conf a now d chunks connect (with_aof s (file f)) d ∅ Hmaster) as Hstart.
  rewrite (aa_snapshot _ _ Haof) in Hstart. apply Hstart; [| |by right].
  - apply attach_steps; (rewrite bool_decide_eq_true_2 by apply Hd); [done|by apply left_again].
  - unfold snapshot. rewrite (aa_snapshot _ _ Haof). by destruct (path conf).
Qed.

(** The server of such a start, with what it keeps. *)
Lemma restarted_serves now s f a0 lg l : init args = Ret a -> quiet (bare_state a conf now) s ->
  keeps_for s (mk_abs_state a0 ∅ ∅ lg (alone (log_offset 0 l))) -> f = log_bytes l ->
  serves fds (started fds (with_aof s (file f))) (mk_abs ∅ (mk_abs_state a0 ∅ ∅ l (alone (log_offset 0 l))) now).
Proof.
  intros Hi Hq Hk ->. eapply (started_serves_state fds args a conf now s); [done|done| | |by split; [set_solver|constructor]].
  { exists (data (handler s)), (file (log_bytes l)). by rewrite with_same_data. }
  destruct Hk as [Hd1 Htx Hwt _ Hp]. split; [done..| |done].
  split; [done|]. unfold aof_text. cbn -[log_bytes]. by rewrite app_nil_r.
Qed.

Lemma restart d now st : recoverable st -> left_behind conf base d (log_bytes (ab_log st)) ->
  fits size (ab_log st) = true ->
  exists v, start fds args now d chunks connect = Ret (v, d) /\ serves fds v (reborn_at st now) /\
    aof (handler (core v)) = file (log_bytes (ab_log st)).
Proof.
  intros Hrec Hd Hfit. destruct (recoverable_log st Hrec) as [Hwired Hreplay].
  destruct (replay_log d st (log_bytes (ab_log st)) Hrec Hd) as (l1 & l2 & torn & Hl & Hf & Hin & Hs); [done..|].
  assert (l2 = []) as ->.
  { rewrite Hl, log_bytes_app in Hf. apply app_inv_head in Hf.
    rewrite Hl in Hwired. apply Forall_app in Hwired as [_ [ts Hts]%wired_requests].
    eapply (within_whole ts _ _ [] Hts Hin). by rewrite app_nil_r. }
  rewrite app_nil_r in Hl. destruct (Hs now) as (s & lg & Hrun & Hq & Hk). rewrite <- Hl, (rp_keys _ _ _ Hreplay) in Hk.
  eexists. split; [by apply start_left|]. split; [|done].
  eapply restarted_serves; [apply Hmaster|done|exact Hk|done].
Qed.

(** The first start: no directory, and no file in its place. *)
Definition unused (d : Disk) : Prop := (aof_dir conf base ∉ dirs d) /\ read_dir d (aof_dir conf base) = [].

Lemma first_start d now : unused d ->
  exists v d', start fds args now d chunks connect = Ret (v, d') /\
    serves fds v (reborn_at blank now) /\ aof (handler (core v)) = file [] /\ left_behind conf base d' [].
Proof.
  intros [Hdir Hnames]. destruct (create_dirs_files conf base Haof d) as [Hfiles Hin].
  assert (own_names conf base (create_dirs conf d)) as Hown.
  { intros n Hn. unfold read_dir in *. rewrite Hfiles, Hnames in Hn. by apply not_elem_of_nil in Hn. }
  assert (files d !! log_path conf base = None) as Hnew.
  { apply eq_None_not_Some. intros Hl. apply (not_elem_of_nil (log_name conf)). rewrite <- Hnames.
    apply elem_of_read_dir. split; [exact Hl|by eapply log_name_dir]. }
  pose proof (init_left conf base (create_dirs conf d) [] Hown Hin) as Hleft.
  pose proof (init_files conf base Haof (create_dirs conf d) Hown) as Hinit. cbv zeta in Hinit.
  rewrite Hfiles, Hnew in Hinit. rewrite Hfiles in Hleft. cbn [unwrap_or] in Hinit.
  set (d' := mk_disk _ _) in *.
  assert (attach_aof chunks d (bare_state a conf now) = Ret (with_aof (bare_state a conf now) (file []), d')) as Ha.
  { apply attach_steps; rewrite bool_decide_eq_false_2 by done; [done|exact Hinit]. }
  exists (started fds (with_aof (bare_state a conf now) (file []))), d'. split; [|split; [|split; [reflexivity|done]]].
  - pose proof (start_master fds args conf a now d chunks connect _ d' ∅ Hmaster Ha) as Hs.
    rewrite (aa_snapshot _ _ Haof) in Hs. apply Hs; [|by right].
    unfold snapshot. rewrite (aa_snapshot _ _ Haof). by destruct (path conf).
  - eapply (started_serves_state fds args a conf now (bare_state a conf now));
      [apply Hmaster|done|by exists ∅, (file [])| |by split; [set_solver|constructor]].
    apply (bare_keeps args a conf now (file [])); [apply Hmaster|by intros f [= <-]].
Qed.

(** After the end of a turn everything is in the file. *)
Lemma run_flushed w ops v st : serves fds v st -> grows w (aof (handler (core v))) ->
  admits_all serve_spec (serve_admits fds) ops st = true ->
  exists v', run_all (serve_op fds) (ops ++ [EndTurn]) v = Ret (v', (spec_all serve_spec (ops ++ [EndTurn]) st).2) /\
    serves fds v' (spec_all serve_spec (ops ++ [EndTurn]) st).1 /\ flushed (core v') /\ grows w (aof (handler (core v'))).
Proof.
  intros Hv Hw Hok.
  destruct (run_implements _ _ (serve_admits fds) _ (H := server_grows fds w) ops v st) as (v1 & Hrun & Hv1 & Hw1); [done..|].
  destruct (end_turn_flushes fds v1 _ Hv1) as (v2 & Hend & Hv2 & Hf & Hw2).
  exists v2. rewrite spec_all_app. cbn [spec_all]. split; [|split; [|split; [done|by etransitivity]]].
  - rewrite run_all_app, Hrun. cbn. rewrite Hend. cbn.
    rewrite (spec_all_app_out serve_spec). cbn. by destruct (spec_all serve_spec ops st) as [[] ?].
  - by destruct (serve_spec EndTurn (spec_all serve_spec ops st).1).
Qed.

(** The end of a turn keeps the key space and the log. *)
Lemma end_turn_traced ops st : recoverable (a_state (spec_all serve_spec ops st).1) ->
  recoverable (a_state (spec_all serve_spec (ops ++ [EndTurn]) st).1).
Proof. rewrite spec_all_app. by destruct (spec_all serve_spec ops st) as [[] ?]. Qed.

(** ** Lives

    The file of a server that stopped, with what was written to it. *)
Definition written (d : Disk) (s : State) : Disk :=
  match aof (handler s) with
  | Some (Some f) => mk_disk (<[aof_filepath f := aof_file f]> (files d)) (dirs d)
  | _ => d
  end.

(** The writer of a server that started with [f] in the file. *)
Lemma opened_writer f w : grows (file f) w ->
  exists f' buf disk, w = Some (Some (mk_aof (log_path conf base) f' buf disk)).
Proof. destruct w as [[[p f' buf disk]|]|]; [|done..]. intros [Hp _]. cbn in Hp. subst p. by exists f', buf, disk. Qed.

Lemma flushed_file s st f : keeps_for s st -> flushed s -> grows (file f) (aof (handler s)) ->
  aof (handler s) = file (log_bytes (ab_log st)).
Proof.
  intros Hk Hf Hw. apply opened_writer in Hw as (f' & buf & disk & Hw). pose proof (kf_log _ _ Hk) as Hlog.
  unfold holds_log, flushed, aof_text in *. rewrite Hw in *. cbn in Hf. subst buf. destruct Hlog as [Hd <-].
  cbn in Hd |- *. subst disk. unfold file. by rewrite app_nil_r.
Qed.

(** When a server starts, and what happens to it until it stops between two turns. *)
Definition live (x : Z * list server_op) (d : Disk) : outcome (Disk * list (list (Z * bytes))) :=
  let! (v, d) := start fds args x.1 d chunks connect in
  let! (v, rs) := run_all (serve_op fds) (x.2 ++ [EndTurn]) v in
  Ret (written d (core v), rs).

Definition live_spec (x : Z * list server_op) (st : AbsState) : AbsState * list (list (Z * bytes)) :=
  let a0 := reborn_at st x.1 in
  let r := spec_all serve_spec (x.2 ++ [EndTurn]) a0 in (a_state r.1, r.2).

Definition live_admits (x : Z * list server_op) (st : AbsState) : bool :=
  let a0 := reborn_at st x.1 in
  admits_all serve_spec (serve_admits fds) x.2 a0 && admits_all serve_spec serve_durable x.2 a0 &&
  fits size (ab_log (a_state (spec_all serve_spec (x.2 ++ [EndTurn]) a0).1)).

(** What is on the disk between two lives. *)
Definition remembers (d : Disk) (st : AbsState) : Prop :=
  st = blank /\ unused d \/
  recoverable st /\ left_behind conf base d (log_bytes (ab_log st)) /\ fits size (ab_log st) = true.

Lemma starts d now st : remembers d st ->
  recoverable st /\
  exists v d' log, start fds args now d chunks connect = Ret (v, d') /\ serves fds v (reborn_at st now) /\
    aof (handler (core v)) = file log /\ left_behind conf base d' log.
Proof.
  intros [[-> Hd]|(Hrec & Hd & Hfit)].
  - split; [apply blank_recoverable|]. destruct (first_start d now Hd) as (v & d' & ? & ? & ? & ?). eauto 10.
  - split; [done|]. destruct (restart d now st Hrec Hd Hfit) as (v & ? & ? & ?). eauto 10.
Qed.

(** What a turn leaves. *)
Lemma run_turn f ops v st : serves fds v st -> grows (file f) (aof (handler (core v))) ->
  admits_all serve_spec (serve_admits fds) ops st = true ->
  admits_all serve_spec serve_durable ops st = true -> recoverable (a_state st) ->
  exists v', run_all (serve_op fds) (ops ++ [EndTurn]) v = Ret (v', (spec_all serve_spec (ops ++ [EndTurn]) st).2) /\
    let st' := (spec_all serve_spec (ops ++ [EndTurn]) st).1 in
    serves fds v' st' /\ recoverable (a_state st') /\ aof (handler (core v')) = file (log_bytes (ab_log (a_state st'))).
Proof.
  intros Hv Hw Hok Hdur Hrec. destruct (run_flushed _ ops v st Hv Hw Hok) as (v' & Hrun & Hv' & Hf & Hw').
  exists v'. split; [done|]. cbv zeta. split_and!; [done| |by eapply flushed_file; [apply Hv'|..]].
  apply end_turn_traced. eapply traced_trans; [exact Hrec|]. by apply (run_serve_traced fds); [..|apply Hrec].
Qed.

#[export] Instance lives_implement : Implements live live_spec live_admits remembers.
Proof.
  intros [now ops] d st Hd Hok. unfold live_admits in Hok. cbn [fst snd] in Hok. bools.
  destruct (starts d now st Hd) as (Hrec & v & d' & log & Hstart & Hv & Hfile & Hleft).
  destruct (run_turn log ops v _ Hv) as (v' & Hrun & Hv' & Hrec' & Hfile'); [by rewrite Hfile|done..|by apply reborn_recoverable|].
  exists (written d' (core v')). split.
  - unfold live. cbn [fst snd]. rewrite Hstart. cbn [outcome_bind]. by rewrite Hrun.
  - right. split; [done|]. split; [|done]. unfold written. rewrite Hfile'. by eapply left_written.
Qed.

(** ** A stop anywhere

    The buffer of the writer is lost. What is in the file is a beginning of the log,
    which may end inside a request: the end of the turn, and a write that does not
    fit in the buffer, hand the file pieces that need not be whole requests, and the
    process may end while it does. *)
Definition crashed (d : Disk) (f : bytes) : Disk :=
  mk_disk (<[log_path conf base := f]> (files d)) (dirs d).

Lemma written_crashed d s st log : keeps_for s st -> grows (file log) (aof (handler s)) ->
  exists f, written d s = crashed d f /\ log `prefix_of` f /\ f `prefix_of` log_bytes (ab_log st).
Proof.
  intros Hk Hw. pose proof (opened_writer _ _ Hw) as (f & buf & disk & Heq). pose proof (kf_log _ _ Hk) as Hlog.
  unfold holds_log, written in *. rewrite Heq in *. destruct Hlog as [_ <-]. exists f. split; [done|].
  split; [apply Hw|]. by exists buf.
Qed.

(** The requests of the turns that ended come first in what can be read. *)
Lemma split_after ts l1 l2 c1 c2 torn : Forall2 is_request ts (l1 ++ l2) -> l1 ++ l2 = c1 ++ c2 ->
  log_bytes l1 `prefix_of` log_bytes c1 ++ torn -> within_first torn (List.map snd c2) -> exists m, c1 = l1 ++ m.
Proof.
  intros Hts Heq [x Hpre] Hin. apply app_eq_app in Heq as (m & [[-> ->]|[-> _]]); [|by exists m].
  enough (m = []) as -> by (exists []; by rewrite !app_nil_r).
  rewrite <- app_assoc in Hts. apply Forall2_app_inv_r in Hts as (? & ts' & _ & Hts & _).
  rewrite log_bytes_app, <- app_assoc in Hpre. apply app_inv_head in Hpre.
  apply Forall2_app_inv_r in Hts as (ts1 & ts2 & Hm & Hl2 & _). destruct Hm as [|t y ts1 m Hy Hm]; [done|]. exfalso.
  enough (y :: m = []) by done. apply (within_whole (t :: ts1) (y :: m) torn x); [by constructor| |done].
  destruct Hin as [->|(w & ws & b & Hws & -> & Hb)]; [by left|]. right. injection Hws as Hw _.
  by exists (torn ++ b), (List.map snd m), b; cbn; rewrite Hw.
Qed.

(** What a start reads from any beginning of the log: some of the requests, and the
    rest of the file is the beginning of one more. *)
Lemma crash_log st1 st f d0 log0 : recoverable st1 -> recoverable st ->
  (exists l, ab_log st = ab_log st1 ++ l) -> left_behind conf base d0 log0 ->
  f `prefix_of` log_bytes (ab_log st) -> fits size (ab_log st) = true ->
  exists l rest torn, ab_log st = l ++ rest /\ f = log_bytes l ++ torn /\ within_first torn (List.map snd rest) /\
    (forall t, exists v', start fds args t (crashed d0 f) chunks connect = Ret (v', crashed d0 f) /\
      represents (data (handler (core v'))) (replayed l ∅)) /\
    (log_bytes (ab_log st1) `prefix_of` f ->
     exists m, l = ab_log st1 ++ m /\ replayed l ∅ = replayed m (ab_keys st1)).
Proof.
  intros Hrec1 Hrec [l3 Hl3] Hd0 Hpre Hfit. pose proof (left_written conf base d0 log0 f Hd0) as Hleft.
  destruct (replay_log _ _ f Hrec Hleft Hpre Hfit) as (l & rest & torn & Heq & Hf & Hin & Hreplay).
  exists l, rest, torn. split_and!; [done..| |].
  - intros t. destruct (Hreplay t) as (s & lg & Hs & _ & Hk).
    eexists. split; [by apply (start_left _ t s f)|]. exact (kf_keys _ _ Hk).
  - intros Hend. destruct (recoverable_log _ Hrec) as [[ts Hts]%wired_requests _].
    rewrite Hl3 in Heq, Hts. rewrite Hf in Hend.
    destruct (split_after ts _ l3 l rest torn Hts Heq Hend Hin) as [m ->]. exists m. split; [done|].
    by rewrite replayed_app, (rp_keys _ _ _ (proj2 (recoverable_log _ Hrec1))).
Qed.
End Start.

(** Reads of [n] bytes. *)
Fixpoint pieces (fuel n : nat) (b : bytes) : list bytes :=
  match fuel, b with
  | S f, _ :: _ => take n b :: pieces f n (drop n b)
  | _, _ => []
  end.

Definition in_reads (n : nat) (b : bytes) : list bytes := pieces (List.length b) n b.

Lemma pieces_reads n fuel : forall b, (0 < n)%nat -> (List.length b <= fuel)%nat ->
  reads_of (Z.of_nat n) (pieces fuel n b) /\ mjoin (pieces fuel n b) = b.
Proof.
  induction fuel as [|fuel IH]; intros b Hn Hb; [by destruct b; [|cbn in Hb; lia]|].
  destruct b as [|c b]; [done|]. cbn [pieces]. set (b' := c :: b) in *.
  destruct (IH (drop n b') Hn) as [Hr Hj]; [rewrite length_drop; lia|].
  split; [|change (mjoin (?x :: ?l)) with (x ++ mjoin l); by rewrite Hj, take_drop].
  cbn [reads_of]. destruct (pieces fuel n (drop n b')) as [|p ps] eqn:Hp; [by destruct n; [lia|]|].
  split; [|split; [lia|done]]. unfold len. rewrite length_take_le; [done|].
  destruct (decide (n <= List.length b')%nat); [done|]. rewrite drop_ge in Hp by lia. by destruct fuel.
Qed.

Lemma in_reads_spec n b : (0 < n)%nat -> reads_of (Z.of_nat n) (in_reads n b) /\ mjoin (in_reads n b) = b.
Proof. intros Hn. by apply pieces_reads. Qed.

(** C3: A server with an append-only file that is started, serves its clients and stops,
    any number of times, first on a disk with nothing of its own, gives each client
    in each life the replies of an abstract server that begins the life with the key
    space the life before left: the file holds the writes that succeeded, and their
    replay is that key space, whenever it is. The requests are admitted
    ([serve_admits]) and can be replayed ([serve_durable]), and each fits in a read of
    the file. *)
Theorem crash_recovers `{Env} fds args conf a base chunks connect size lives d :
  master_args args conf a -> aof_args conf base ->
  (forall b, reads_of size (chunks b) /\ mjoin (chunks b) = b) -> unused conf base d ->
  admits_all live_spec (live_admits fds size) lives blank = true ->
  exists d' , run_all (live fds args chunks connect) lives d =
      Ret (d', (spec_all live_spec lives blank).2) /\
    remembers conf base size d' (spec_all live_spec lives blank).1.
Proof.
  intros Hm Ha Hc Hd Hok. pose proof (lives_implement fds args conf a base chunks connect size Hm Ha Hc) as Himpl.
  apply (run_implements _ _ _ (remembers conf base size)); [by left|done].
Qed.

(** Two clients write, one in a transaction; ten seconds later, after a restart, a
    refused write changes nothing and the values are there; then once more. *)
Definition demo_lives : list (Z * list server_op) :=
  let txn := [["MULTI"]; ["RPUSH"; "q"; "a"; "b"]; ["INCR"; "k"]; ["EXEC"]] in
  let bad := [["INCR"; "q"]; ["INCR"; "k"]] in
  [(1000, [Connect 7; Connect 8; Arrive 7 (request_bytes ["SET"; "k"; "1"]) [["SET"; "k"; "1"]] ["PING"];
           Arrive 8 (whole txn) txn ["PING"]]);
   (11000, [Connect 7; Arrive 7 (whole bad) bad ["PING"]]);
   (12000, [Connect 9; Arrive 9 (request_bytes ["GET"; "k"]) [["GET"; "k"]] ["PING"]])]%string.

Definition demo_args : list string := ["redis"; "--appendonly"; "yes"]%string.
Definition demo_conf : Configs :=
  mk_configs (Some "/app"%string) None true "appendonlydir" "appendonly.aof" EverySec.

Lemma crash_recovers_witness : exists d' log,
  run_all (@live demo_env demo_fds demo_args (in_reads 40) 6) demo_lives (mk_disk ∅ ∅) = Ret (d',
    let queued := (8, as_bytes "+QUEUED" ++ DELIMITER) in
    [[[]; []; [(7, as_bytes "+OK" ++ DELIMITER)];
      [(8, as_bytes "+OK" ++ DELIMITER); queued; queued; (8, wire (Array 2 (Some [Integer (Some 2); Integer (Some 2)])))]; []];
     [[]; [(7, as_bytes "-ERR value is not an integer or out of range" ++ DELIMITER);
           (7, as_bytes ":3" ++ DELIMITER)]; []];
     [[]; [(9, as_bytes "$1" ++ DELIMITER ++ as_bytes "3" ++ DELIMITER)]; []]]) /\
  files d' !! "/app/appendonlydir/appendonly.aof.1.incr.aof"%string = Some log /\
  log = whole [["SET"; "k"; "1"]; ["RPUSH"; "q"; "a"; "b"]; ["INCR"; "k"]; ["INCR"; "k"]]%string.
Proof.
  destruct (init demo_args) as [a|] eqn:Ha; [|exfalso; vm_compute in Ha; discriminate Ha].
  destruct (@crash_recovers demo_env demo_fds demo_args demo_conf a "/app" (in_reads 40) 6 40 demo_lives (mk_disk ∅ ∅))
    as (d' & Hrun & Hd').
  - vm_compute in Ha. injection Ha as <-. split; by vm_compute.
  - split; [done..|]. split_and!; [exists "appendonly"%string, "aof"%string; split_and!|..]; by vm_compute.
  - intros b. by apply (in_reads_spec 40); lia.
  - by vm_compute.
  - vm_compute. reflexivity.
  - exists d', (whole [["SET"; "k"; "1"]; ["RPUSH"; "q"; "a"; "b"]; ["INCR"; "k"]; ["INCR"; "k"]]%string).
    split; [|split; [|reflexivity]]; [rewrite Hrun; vm_compute; reflexivity|].
    destruct Hd' as [[Heq _]|(_ & Hleft & _)]; [exfalso; vm_compute in Heq; discriminate Heq|].
    pose proof (lb_log _ _ _ _ Hleft) as Hfile. etransitivity; [exact Hfile|]. vm_compute. reflexivity.
Defined.

(** C4: A server that stops anywhere in a turn. What is then in the file is some
    beginning of the log, at least the log of the turns that ended. From any
    beginning of the log, be it cut inside a request, a start brings back, at any
    time, the replay of the requests that are whole in it; from one that holds the
    log of the turns that ended, that is the key space at the end of the last turn,
    followed by the first of the writes of the turn that was cut short. The requests
    are admitted ([serve_admits]) and can be replayed ([serve_durable]), and each fits
    in a read of the file; up to the stop the disk has taken what it was given. *)
Theorem crash_keeps_turns `{Env} fds args conf a base chunks connect size d st now ops1 ops2 :
  master_args args conf a -> aof_args conf base ->
  (forall b, reads_of size (chunks b) /\ mjoin (chunks b) = b) -> remembers conf base size d st ->
  let a0 := mk_abs ∅ (reborn st) now in
  let a1 := (spec_all serve_spec (ops1 ++ [EndTurn]) a0).1 in
  let a2 := (spec_all serve_spec ops2 a1).1 in
  admits_all serve_spec (serve_admits fds) ops1 a0 = true -> admits_all serve_spec (serve_admits fds) ops2 a1 = true ->
  admits_all serve_spec serve_durable ops1 a0 = true -> admits_all serve_spec serve_durable ops2 a1 = true ->
  fits size (ab_log (a_state a2)) = true ->
  exists v0 d0 v1 v, start fds args now d chunks connect = Ret (v0, d0) /\
    run_all (serve_op fds) (ops1 ++ [EndTurn]) v0 = Ret (v1, (spec_all serve_spec (ops1 ++ [EndTurn]) a0).2) /\
    run_all (serve_op fds) ops2 v1 = Ret (v, (spec_all serve_spec ops2 a1).2) /\
    (exists f, written d0 (core v) = crashed conf base d0 f /\
       log_bytes (ab_log (a_state a1)) `prefix_of` f /\ f `prefix_of` log_bytes (ab_log (a_state a2))) /\
    forall f, f `prefix_of` log_bytes (ab_log (a_state a2)) -> exists l rest torn,
      ab_log (a_state a2) = l ++ rest /\ f = log_bytes l ++ torn /\ within_first torn (List.map snd rest) /\
      (forall t, exists v', start fds args t (crashed conf base d0 f) chunks connect = Ret (v', crashed conf base d0 f) /\
        represents (data (handler (core v'))) (replayed l ∅)) /\
      (log_bytes (ab_log (a_state a1)) `prefix_of` f ->
       exists m, l = ab_log (a_state a1) ++ m /\ replayed l ∅ = replayed m (ab_keys (a_state a1))).
Proof.
  intros Hm Ha Hc Hd a0 a1 a2 Hok1 Hok2 Hdur1 Hdur2 Hfit.
  destruct (starts fds args conf a base chunks connect size Hm Ha Hc d now st Hd)
    as (Hrec & v0 & d0 & log0 & Hstart & Hv0 & Hfile0 & Hleft).
  destruct (run_turn fds conf base log0 ops1 v0 a0 Hv0) as (v1 & Hrun1 & Hv1 & Hrec1 & Hfile);
    [by rewrite Hfile0|done..|by apply reborn_recoverable|].
  destruct (run_implements _ _ (serve_admits fds) _ (H := server_grows fds (aof (handler (core v1)))) ops2 v1 a1)
    as (v & Hrun2 & Hv & Hgrows); [by split|done|].
  pose proof (run_serve_traced fds ops2 a1 Hok2 Hdur2 (proj2 Hrec1)) as Htraced.
  pose proof Htraced as [(l3 & Hl3 & _) _]. pose proof (traced_trans _ _ _ Hrec1 Htraced) as Hrec2.
  exists v0, d0, v1, v. split_and!; [done..| |].
  - rewrite Hfile in Hgrows. exact (written_crashed conf base d0 (core v) _ _ (se_state _ _ _ Hv) Hgrows).
  - intros f Hf. apply (crash_log fds args conf a base chunks connect size Hm Ha Hc (a_state a1) (a_state a2) f d0 log0);
      [done..|by exists l3| | |]; done.
Qed.

(** One turn with a write, and a second with another that is not ended; the file is
    cut inside the request of the second. *)
Lemma crash_keeps_turns_witness : exists d0 v',
  let torn := request_bytes ["SET"; "k"; "1"]%string ++ take 20 (request_bytes ["SET"; "m"; "2"]%string) in
  let d := crashed demo_conf "/app" d0 torn in
  @start demo_env demo_fds demo_args 5000 d (in_reads 40) 6 = Ret (v', d) /\
  represents (data (handler (core v'))) {["k"%string := AString ("1"%string, None)]}.
Proof.
  destruct (init demo_args) as [a|] eqn:Ha; [|exfalso; vm_compute in Ha; discriminate Ha].
  destruct (@crash_keeps_turns demo_env demo_fds demo_args demo_conf a "/app" (in_reads 40) 6 40 (mk_disk ∅ ∅)
    blank 1000
    [Connect 7; Arrive 7 (whole [["SET"; "k"; "1"]]) [["SET"; "k"; "1"]] ["PING"]]%string
    [Arrive 7 (whole [["SET"; "m"; "2"]]) [["SET"; "m"; "2"]] ["PING"]]%string)
    as (v0 & d0 & v1 & v & _ & _ & _ & _ & Hall).
  - vm_compute in Ha. injection Ha as <-. split; by vm_compute.
  - split; [done..|]. split_and!; [exists "appendonly"%string, "aof"%string; split_and!|..]; by vm_compute.
  - intros b. by apply (in_reads_spec 40); lia.
  - left. split; [reflexivity|by vm_compute].
  - by vm_compute.
  - by vm_compute.
  - by vm_compute.
  - by vm_compute.
  - by vm_compute.
  - destruct (Hall (request_bytes ["SET"; "k"; "1"]%string ++ take 20 (request_bytes ["SET"; "m"; "2"]%string)))
      as (l & rest & torn & Hl & Hf & Hin & Hstart & Hends).
    { exists (drop 20 (request_bytes ["SET"; "m"; "2"]%string)). vm_compute. reflexivity. }
    destruct (Hstart 5000) as (v' & Hv' & Hrep). exists d0, v'. split; [exact Hv'|].
    assert (l = [(Cmd.SET "k" "1" None, request_bytes ["SET"; "k"; "1"])]%string) as ->.
    { vm_compute in Hl. destruct l as [|x [|y l]].
      - destruct Hends as (m & Hm & _); [|exfalso; vm_compute in Hm; discriminate Hm].
        exists (take 20 (request_bytes ["SET"; "m"; "2"]%string)). vm_compute. reflexivity.
      - injection Hl as <- _. vm_compute. reflexivity.
      - exfalso. injection Hl as <- <- _.
        match type of Hf with _ = ?w ++ torn =>
          pose proof (Nat.le_add_r (List.length w) (List.length torn)) as Hle end.
        rewrite <- length_app, <- Hf in Hle. vm_compute in Hle. lia. }
    vm_compute in Hrep |- *. exact Hrep.
Defined.

(** The next start takes the file as it is and goes on behind the half request: what
    it then acknowledges is lost at the start after. *)
Example torn_log_loses_writes :
  let torn := request_bytes ["SET"; "k"; "1"]%string ++ take 16 (request_bytes ["SET"; "a"; "2"]%string) in
  let disk := mk_disk
    (<["/app/appendonlydir/appendonly.aof.manifest"%string := manifest_line demo_conf]>
      {["/app/appendonlydir/appendonly.aof.1.incr.aof"%string := torn]}) {["/app/appendonlydir"%string]} in
  let set := ["SET"; "b"; "3"]%string in
  let gets := [["GET"; "k"]; ["GET"; "b"]]%string in
  match run_all (@live demo_env demo_fds demo_args (in_reads 40) 6)
    [(1000, [Connect 7; Arrive 7 (request_bytes set) [set] ["PING"%string]]);
     (2000, [Connect 7; Arrive 7 (whole gets) gets ["PING"%string]])] disk with
  | Ret (_, outs) => outs = [[[]; [(7, as_bytes "+OK" ++ DELIMITER)]; []];
      [[]; [(7, as_bytes "$1" ++ DELIMITER ++ as_bytes "1" ++ DELIMITER); (7, as_bytes "$-1" ++ DELIMITER)]; []]]
  | Panic => False
  end.
Proof. vm_compute. reflexivity. Qed.
