(* ===== verification/Replicas.v ===== *)
(** * What a replica holds

    Two servers, one of which is a replica of the other. What the master writes to
    it is the requests it logs ([feeds_serve]); a replica that reads them, in any
    pieces, runs them and answers nothing, so that it holds the key space the master
    had after those it has read ([replica_follows]). *)

From S2P Require Import Prelude Text Float64 Resp RespParser RespWire CmdBuilder Bitmap BTree SortedSet Geohash Store.
From S2P Require Import Refinement KeySpec StringSpec ListSpec BitmapSpec StreamSpec ZsetSpec KeyspaceSpec.
From S2P Require Import AppState Replication Auth Registry Handler HandlerLogic Transactions Propagation ClientSpec.
From S2P Require Import Client ClientReads Serving Aof Server ServerSpec Recovery.

(** ** Requests one after the other *)
Lemma bulks_inj a1 : forall a2, List.map bulk a1 = List.map bulk a2 -> a1 = a2.
Proof. induction a1 as [|s a1 IH]; intros [|s' a2]; cbn; intros [=]; [done|]. f_equal; auto. Qed.

(** No request is a beginning of another. *)
Lemma request_bytes_prefix a1 a2 x : wire_wf (request a1) = true -> wire_wf (request a2) = true ->
  len (request_bytes a2) <= isize_max -> request_bytes a2 = request_bytes a1 ++ x -> a1 = a2 /\ x = [].
Proof.
  intros H1 H2 Hlen Heq. destruct (request_on_wire a1 H1) as [Hwf1 Hs1]. destruct (request_on_wire a2 H2) as [Hwf2 Hs2].
  pose proof (parse_wire _ _ [] Hwf2 Hs2) as Hp2. rewrite app_nil_r in Hp2. specialize (Hp2 Hlen).
  rewrite Heq, (parse_wire _ _ x Hwf1 Hs1) in Hp2 by (by rewrite <- Heq).
  injection Hp2 as -> _ Hr. split; [|done]. by apply bulks_inj.
Qed.

Lemma request_bytes_cancel a1 a2 x y : fits_wire a1 -> fits_wire a2 ->
  request_bytes a1 ++ x = request_bytes a2 ++ y -> a1 = a2 /\ x = y.
Proof.
  intros [H1 Hl1] [H2 Hl2] Heq. apply app_eq_app in Heq as (m & [[Ha ->]|[Ha ->]]).
  - by destruct (request_bytes_prefix a2 a1 m) as [-> ->].
  - by destruct (request_bytes_prefix a1 a2 m) as [-> ->].
Qed.

Lemma whole_cons args reqs : whole (args :: reqs) = request_bytes args ++ whole reqs.
Proof. done. Qed.

Lemma request_bytes_nonempty args : wire_wf (request args) = true -> request_bytes args <> [].
Proof. intros H. by apply (on_wire_nonempty (request args)), request_on_wire. Qed.

(** What begins with whole requests has these first. *)
Lemma whole_prefix reqs : Forall fits_wire reqs -> forall all t, Forall fits_wire all ->
  whole reqs ++ t = whole all -> exists more, all = reqs ++ more /\ t = whole more.
Proof.
  induction 1 as [|args reqs Hargs _ IH]; intros all t Hall; [intros Heq; exists all; split; [done|exact Heq]|].
  rewrite whole_cons, <- (app_assoc (request_bytes args)). destruct Hall as [|args' all Hargs' Hall].
  - intros [Hnil _]%app_eq_nil. by destruct (request_bytes_nonempty args), Hargs.
  - rewrite whole_cons. intros [<- Heq]%request_bytes_cancel; [|done..].
    destruct (IH all t Hall Heq) as (more & -> & ->). by exists more.
Qed.

(** Bytes in which no request ends. *)
Definition partial (t : bytes) : Prop := forall reqs, Forall fits_wire reqs -> t = whole reqs -> reqs = [].

Lemma partial_nil : partial [].
Proof.
  intros reqs [|args reqs' [Hargs _] _]; [done|]. intros [Hnil _]%eq_sym%app_eq_nil. by apply request_bytes_nonempty in Hnil.
Qed.

Lemma begins_partial t next : begins t next = true -> len (request_bytes next) <= isize_max -> partial t.
Proof.
  intros Hb Hlen reqs [|args reqs' [Hwf _] _]; [done|]. rewrite whole_cons. intros ->. exfalso.
  destruct (begins_cut _ _ Hb) as (rest & Hrest & Hne). unfold begins in Hb. bools.
  rewrite <- app_assoc in Hrest. apply request_bytes_prefix in Hrest as [_ Hnil]; [|done..].
  by apply app_eq_nil in Hnil as [_ ->].
Qed.

(** ** What the master writes *)

(** What a client is written. *)
Definition to_client (id : Z) (out : list (Z * bytes)) : bytes :=
  mjoin (omap (fun x => if x.1 =? id then Some x.2 else None) out).

Lemma to_client_app id l1 l2 : to_client id (l1 ++ l2) = to_client id l1 ++ to_client id l2.
Proof. unfold to_client. by rewrite omap_app, join_app. Qed.

Lemma to_client_others id l : Forall (fun x => x.1 <> id) l -> to_client id l = [].
Proof.
  induction 1 as [|[id' b] l Hne _ IH]; [done|]. unfold to_client in *. cbn in *.
  by rewrite (proj2 (Z.eqb_neq id' id) Hne).
Qed.

Lemma to_client_key id l : to_client id (List.map (pair id) l) = mjoin l.
Proof.
  induction l as [|b l IH]; [done|]. unfold to_client in *. cbn. rewrite Z.eqb_refl.
  change (mjoin (?x :: ?k)) with (x ++ mjoin k). by f_equal.
Qed.

Lemma join_nothing {A} (l : list A) : mjoin (List.map (fun _ => [] : bytes) l) = [].
Proof. by induction l. Qed.

(** One message to each of some clients reaches each once. *)
Lemma to_client_each id ids b : NoDup ids -> id ∈ ids -> to_client id (List.map (fun i => (i, b)) ids) = b.
Proof.
  induction 1 as [|i ids Hi _ IH]; intros Hid; [by apply not_elem_of_nil in Hid|]. cbn [List.map].
  change ((i, b) :: ?l) with ([(i, b)] ++ l). rewrite to_client_app. apply elem_of_cons in Hid as [<-|Hid].
  - rewrite (to_client_others id (List.map _ ids)).
    + unfold to_client. cbn. rewrite Z.eqb_refl. cbn. by rewrite !app_nil_r.
    + apply List.Forall_map, Forall_forall. intros j Hj. cbn. by intros ->.
  - rewrite IH by done. unfold to_client. cbn. destruct (Z.eqb_spec i id) as [->|]; [done|done].
Qed.

Lemma to_client_spread id ids l : NoDup ids -> id ∈ ids -> to_client id (spread ids l) = log_bytes l.
Proof.
  intros Hnd Hid. induction l as [|x l IH]; [done|]. unfold spread in *. cbn [flat_map].
  by rewrite to_client_app, (to_client_each id ids x.2 Hnd Hid), IH.
Qed.

Section Master.
Context `{Env}.

(** What is logged is queued for a replica. *)
Definition feeds (id : Z) (a a' : AbsState) : Prop :=
  id ∈ ar_replicas (ab_repl a) -> id ∈ ar_replicas (ab_repl a') /\
  exists l, ab_log a' = ab_log a ++ l /\ to_client id (ar_queue (ab_repl a')) = to_client id (ar_queue (ab_repl a)) ++ log_bytes l.

#[export] Instance feeds_preorder id : PreOrder (feeds id).
Proof.
  split.
  - intros a Hid. split; [done|]. exists []. by rewrite !app_nil_r.
  - intros a b c Hab Hbc Hid. destruct (Hab Hid) as (Hid' & l1 & Hl1 & Hq1). destruct (Hbc Hid') as (Hid'' & l2 & Hl2 & Hq2).
    split; [done|]. exists (l1 ++ l2). by rewrite Hl2, Hl1, Hq2, Hq1, log_bytes_app, !app_assoc.
Qed.

Lemma feeds_same id a a' : ab_log a' = ab_log a -> ar_queue (ab_repl a') = ar_queue (ab_repl a) ->
  (id ∈ ar_replicas (ab_repl a) -> id ∈ ar_replicas (ab_repl a')) -> feeds id a a'.
Proof. intros Hl Hq Hr Hid. split; [auto|]. exists []. by rewrite Hl, Hq, !app_nil_r. Qed.

Lemma run_feeds id m now x a : feeds id a (run_as m now x a).1.
Proof.
  intros Hid. unfold run_as. destruct (keyspace_spec _ _) as [ks r]. split; [done|]. exists (log_entry x r).
  split; [done|]. cbn [ab_repl advance ar_queue fst].
  by rewrite to_client_app, to_client_spread by (apply NoDup_iter_set || by apply elem_of_iter_set).
Qed.

Lemma queue_feeds id now q : forall a, feeds id a (spec_all (run_spec now) q a).1.
Proof.
  induction q as [|x q IH]; intros a; [done|]. cbn [spec_all]. pose proof (run_feeds id false now x a) as Hr.
  specialize (IH (run_spec now x a).1). unfold run_spec in *. destruct (run_as false now x a) as [a1 r]. cbn [fst] in *.
  destruct (spec_all _ q a1). by transitivity a1.
Qed.

Lemma client_feeds id now key x a : feeds id a (client_spec now key x a).1.
Proof.
  unfold client_spec. destruct (ab_txns a !! key) as [q|].
  - destruct x.1; try by apply feeds_same. destruct (watch_of (ab_watch a) key).2; [by apply feeds_same|].
    pose proof (queue_feeds id now q a). destruct (spec_all _ q a) as [a1 rs]. transitivity a1; [done|by apply feeds_same].
  - destruct x.1; try (by apply feeds_same);
      try (match goal with |- context [run_as ?m now x a] => pose proof (run_feeds id m now x a); by destruct (run_as m now x a) end).
    apply feeds_same; [done..|cbn; set_solver].
Qed.

Lemma requests_feed id now key reqs : forall a, feeds id a (requests_spec now key reqs a).1.
Proof.
  unfold requests_spec. induction reqs as [|args reqs IH]; intros a; [done|]. cbn [spec_all].
  assert (feeds id a (request_spec now key args a).1) as Hr.
  { unfold request_spec. destruct (Cmd.from_resp _) as [[]|]; [apply client_feeds|done..]. }
  specialize (IH (request_spec now key args a).1). destruct (request_spec now key args a) as [a1 r]. cbn [fst] in *.
  destruct (spec_all _ reqs a1). by transitivity a1.
Qed.

(** The replica says nothing and stays. *)
Definition spares (id : Z) (op : server_op) : bool :=
  match op with
  | Arrive key _ _ _ | Leave key => negb (key =? id)
  | _ => true
  end.

(** What was queued for the replica, and what is logged, is written or queued. *)
Definition fed (id : Z) (a a' : AbsServer) (out : list (Z * bytes)) : Prop :=
  id ∈ ar_replicas (ab_repl (a_state a)) -> id ∈ ar_replicas (ab_repl (a_state a')) /\
  exists l, ab_log (a_state a') = ab_log (a_state a) ++ l /\
    to_client id out ++ to_client id (ar_queue (ab_repl (a_state a'))) =
    to_client id (ar_queue (ab_repl (a_state a))) ++ log_bytes l.

Lemma serve_feeds id op a : spares id op = true -> fed id a (serve_spec op a).1 (serve_spec op a).2.
Proof.
  intros Hs Hid. destruct a as [conns st now]. destruct op as [fd|key b reqs next|key| |ms]; cbn in Hs, Hid.
  - split; [done|]. exists []. by rewrite !app_nil_r.
  - apply negb_true_iff, Z.eqb_neq in Hs. cbn [serve_spec]. pose proof (requests_feed id now key reqs st Hid) as (Hid' & l & Hl & Hq).
    destruct (requests_spec now key reqs st) as [st' answers]. split; [done|]. exists l. split; [done|]. cbn [a_state fst snd].
    rewrite to_client_others by (by apply List.Forall_map, Forall_true). done.
  - apply negb_true_iff, Z.eqb_neq in Hs. split; [cbn; set_solver|]. exists []. by rewrite !app_nil_r.
  - split; [done|]. exists []. cbn. by rewrite !app_nil_r.
  - split; [done|]. exists []. by rewrite !app_nil_r.
Qed.

Lemma run_serve_feeds id ops : forall a, forallb (spares id) ops = true ->
  fed id a (spec_all serve_spec ops a).1 (mjoin (spec_all serve_spec ops a).2).
Proof.
  induction ops as [|op ops IH]; intros a Hs Hid; [split; [done|]; exists []; by rewrite !app_nil_r|].
  cbn in Hs. bools. cbn [spec_all]. destruct (serve_feeds id op a) as (Hid1 & l1 & Hl1 & Hq1); [done..|].
  destruct (serve_spec op a) as [a1 out1]. cbn [fst snd] in *.
  destruct (IH a1) as (Hid2 & l2 & Hl2 & Hq2); [done..|]. destruct (spec_all serve_spec ops a1) as [a2 out2]. cbn [fst snd] in *.
  split; [done|]. exists (l1 ++ l2). change (mjoin (?x :: ?k)) with (x ++ mjoin k).
  rewrite Hl2, Hl1, to_client_app, log_bytes_app, <- !app_assoc, Hq2. split; [done|]. by rewrite !app_assoc, Hq1.
Qed.

(** Over whole turns, a replica for which nothing was queued is written the log. *)
Lemma turn_feeds id ops a : forallb (spares id) ops = true -> id ∈ ar_replicas (ab_repl (a_state a)) ->
  to_client id (ar_queue (ab_repl (a_state a))) = [] ->
  let r := spec_all serve_spec (ops ++ [EndTurn]) a in
  id ∈ ar_replicas (ab_repl (a_state r.1)) /\ to_client id (ar_queue (ab_repl (a_state r.1))) = [] /\
  ab_log (a_state r.1) = ab_log (a_state (spec_all serve_spec ops a).1) /\
  exists l, ab_log (a_state r.1) = ab_log (a_state a) ++ l /\ to_client id (mjoin r.2) = log_bytes l.
Proof.
  intros Hs Hid Hq r. destruct (run_serve_feeds id (ops ++ [EndTurn]) a) as (Hid' & l & Hl & Hout); [|done|].
  { by rewrite forallb_app, Hs. }
  assert (ar_queue (ab_repl (a_state r.1)) = [] /\ ab_log (a_state r.1) = ab_log (a_state (spec_all serve_spec ops a).1)) as [Hnil Hlog].
  { unfold r. rewrite spec_all_app. by destruct (spec_all serve_spec ops a) as [[] ?]. }
  fold r in Hid', Hl, Hout. split; [done|]. split; [by rewrite Hnil|]. split; [done|]. exists l. split; [done|].
  by rewrite Hnil, Hq, app_nil_r in Hout.
Qed.
End Master.

(** ** What a replica does with it *)

(** A request and the command with its bytes. *)
Record sends (args : list string) (x : Cmd.t * bytes) : Prop := {
  sn_fits : fits_wire args;
  sn_cmd : Cmd.from_resp (request args) = Ret (Ok x.1);
  sn_bytes : x.2 = request_bytes args;
}.

Lemma wired_sends l : Forall wired l -> exists reqs, Forall2 sends reqs l.
Proof.
  induction 1 as [|x l (args & Hwf & Hc & Hb & Hlen) _ [reqs Hreqs]]; [by exists []|]. exists (args :: reqs).
  constructor; [|done]. split; [split; [done|by rewrite <- Hb]|done|done].
Qed.

Lemma sends_fit reqs l : Forall2 sends reqs l -> Forall fits_wire reqs.
Proof. induction 1 as [|args x reqs l [] _ IH]; by constructor. Qed.

Lemma sends_whole reqs l : Forall2 sends reqs l -> whole reqs = log_bytes l.
Proof. induction 1 as [|args x reqs l [] _ IH]; [done|]. rewrite whole_cons, IH. change (log_bytes (x :: l)) with (x.2 ++ log_bytes l). by f_equal. Qed.

Section Replica.
Context `{Env}.

(** The connection to the master is outside a transaction, and not a replica's. *)
Record linked (lk : Z) (st : AbsState) : Prop := {
  ln_master : ar_master (ab_repl st) = Some lk;
  ln_txn : ab_txns st !! lk = None;
  ln_apart : members (fun id => id <> lk) (ab_repl st);
}.

(** What the master sends runs, is logged, and is not answered. *)
Lemma link_client now lk x st ks : linked lk st -> replays (ab_keys st) [x] ks ->
  exists st', client_spec now lk x st = (st', Ok None) /\ linked lk st' /\ ab_keys st' = ks /\ ab_log st' = ab_log st ++ [x].
Proof.
  intros [Hm Ht Hap] [Htl _ Hs Hk]. apply List.Forall_inv in Htl.
  destruct (timeless_keyspace x.1 now 0 (ab_keys st) Htl) as [Hsame _].
  unfold replayed, stamped in *. cbn in Hs, Hk. rewrite <- Hsame in Hs, Hk.
  assert (client_spec now lk x st = let (st', r) := run_as true now x st in (st', heard true x r)) as ->.
  { unfold client_spec. rewrite Ht, bool_decide_eq_true_2 by done. destruct x as [c b]. by destruct c. }
  pose proof (run_members _ true now x st Hap) as Hap'.
  unfold run_as in *. destruct (keyspace_spec (now, x.1) (ab_keys st)) as [ks' r]. cbn [fst snd] in *. bools.
  destruct r as [[resp|]|]; [|done..]. unfold timeless in Htl. bools.
  unfold log_entry, heard in *. match goal with H : Cmd.to_be_broadcast _ = true |- _ => rewrite H in * end.
  assert (Cmd.always_response x.1 = false) as -> by (destruct x as [c b]; by destruct c).
  eexists. split; [reflexivity|]. split; [by split|]. by split.
Qed.

Lemma link_requests now lk reqs l : Forall2 sends reqs l -> forall st ks, linked lk st -> replays (ab_keys st) l ks ->
  exists st', requests_spec now lk reqs st = (st', List.map (fun _ => []) reqs) /\ linked lk st' /\ ab_keys st' = ks /\
    ab_log st' = ab_log st ++ l.
Proof.
  unfold requests_spec. induction 1 as [|args x reqs l Hx Hall IH]; intros st ks Hl Hr.
  - exists st. split; [done|]. split; [done|]. rewrite app_nil_r. split; [|done]. apply (rp_keys _ _ _ Hr).
  - change (x :: l) with ([x] ++ l) in Hr. apply replays_app in Hr as [H1 H2].
    destruct (link_client now lk x st _ Hl H1) as (st1 & Hst1 & Hl1 & Hk1 & Hlog1).
    rewrite <- Hk1 in H2. destruct (IH st1 ks Hl1 H2) as (st2 & Hst2 & Hl2 & Hk2 & Hlog2).
    exists st2. cbn [spec_all]. unfold request_spec at 1. rewrite (sn_cmd _ _ Hx), <- (sn_bytes _ _ Hx).
    assert ((x.1, x.2) = x) as -> by (by destruct x). rewrite Hst1.
    destruct (spec_all _ reqs st1) as [a rs]. injection Hst2 as -> Hrs. cbn [List.map]. rewrite Hrs.
    split; [done|]. split; [done|]. split; [done|]. by rewrite Hlog2, Hlog1, <- app_assoc.
Qed.

(** The other clients of the replica do not touch the connection. *)
Lemma client_txn_other now key lk x a : key <> lk -> ab_txns (client_spec now key x a).1 !! lk = ab_txns a !! lk.
Proof.
  intros Hne. unfold client_spec. destruct (ab_txns a !! key) as [q|].
  - destruct x.1; cbn; rewrite ?lookup_insert_ne, ?lookup_delete_ne by done; try done.
    destruct (watch_of (ab_watch a) key).2; cbn; [by rewrite lookup_delete_ne|].
    assert (ab_txns (spec_all (run_spec now) q a).1 = ab_txns a) as Hq.
    { revert a. induction q as [|y q IH]; intros a; [done|]. cbn [spec_all]. pose proof (run_txns false now y a) as Hr.
      specialize (IH (run_spec now y a).1). unfold run_spec in *. destruct (run_as false now y a) as [a1 r]. cbn [fst] in *.
      destruct (spec_all _ q a1). cbn [fst] in *. congruence. }
    destruct (spec_all _ q a). cbn in *. by rewrite lookup_delete_ne, Hq.
  - destruct x.1; cbn; rewrite ?lookup_insert_ne by done; try done;
      match goal with |- context [run_as ?m now x a] => pose proof (run_txns m now x a) as Hr; destruct (run_as m now x a); cbn in *; by rewrite Hr end.
Qed.

Lemma requests_linked now key lk reqs : key <> lk -> forall st, linked lk st -> linked lk (requests_spec now key reqs st).1.
Proof.
  intros Hne. unfold requests_spec. induction reqs as [|args reqs IH]; intros st Hl; [done|]. cbn [spec_all].
  assert (linked lk (request_spec now key args st).1) as Hr.
  { destruct Hl. pose proof (requests_members (fun id => id <> lk) now key [args] Hne st ln_apart0) as Hap.
    unfold requests_spec in Hap. cbn [spec_all] in Hap.
    split; [by rewrite request_master| |by destruct (request_spec now key args st)]. unfold request_spec.
    destruct (Cmd.from_resp _) as [[]|]; [by rewrite client_txn_other|done..]. }
  specialize (IH (request_spec now key args st).1 Hr). destruct (request_spec now key args st) as [a1 r]. cbn [fst] in *.
  by destruct (spec_all _ reqs a1).
Qed.
End Replica.

(** ** Both *)

(** What arrives from the master. *)
Definition arrived (lk : Z) (ops : list server_op) : bytes :=
  mjoin (List.map (fun op => match op with Arrive key b _ _ => if key =? lk then b else [] | _ => [] end) ops).

Section Follow.
Context `{Env} (fds : Descriptors).

(** Only the master changes the key space of the replica, and it does not leave. *)
Definition follows (lk : Z) (op : server_op) (b : AbsServer) : bool :=
  match op with
  | Arrive key _ _ _ => (key =? lk) || bool_decide (ab_keys (a_state (serve_spec op b).1) = ab_keys (a_state b))
  | Leave key => negb (key =? lk)
  | _ => true
  end.

(** A replica whose connection to the master holds [t], in which no request ends. *)
Record reading (lk : Z) (t : bytes) (b : AbsServer) : Prop := {
  rd_linked : linked lk (a_state b);
  rd_conn : a_conns b !! lk = Some t;
  rd_partial : partial t;
}.

(** What is read of the requests in [l]: some that have run, and the rest. *)
Definition took (lk : Z) (l : list (Cmd.t * bytes)) (rest : bytes) (b b' : AbsServer) : Prop :=
  exists l1 l2 t reqs, l = l1 ++ l2 /\ reading lk t b' /\ Forall2 sends reqs l2 /\ t ++ rest = whole reqs /\
    ab_keys (a_state b') = replayed l1 (ab_keys (a_state b)).

Lemma took_nothing lk l rest t b b' reqs : reading lk t b' -> Forall2 sends reqs l -> t ++ rest = whole reqs ->
  ab_keys (a_state b') = ab_keys (a_state b) -> took lk l rest b b'.
Proof. intros Hr Hs Ht Hk. by exists [], l, t, reqs. Qed.

Lemma link_arrives lk b reqs next t st l all rest ks : reading lk t st -> Forall2 sends all l ->
  replays (ab_keys (a_state st)) l ks -> t ++ b ++ rest = whole all ->
  serve_admits fds (Arrive lk b reqs next) st = true ->
  took lk l rest st (serve_spec (Arrive lk b reqs next) st).1 /\
  to_client lk (serve_spec (Arrive lk b reqs next) st).2 = [].
Proof.
  intros Hr Hall Hrep Heq Hok. pose proof (arrive_fit _ _ _ _ _ _ Hok) as Hfit. destruct Hr as [Hl Hconn Hpart].
  destruct st as [conns st now]. cbn [serve_admits a_conns a_state a_now] in *. rewrite Hconn in Hok.
  repeat match type of Hok with (_ && _)%bool = true => let H1 := fresh in apply andb_true_iff in Hok as [Hok H1] end.
  match goal with H : bool_decide _ = true |- _ => apply arrive_split in H as Hsplit end. bools.
  rewrite app_assoc, Hsplit, <- app_assoc in Heq.
  destruct (whole_prefix reqs Hfit all _ (sends_fit _ _ Hall) Heq) as (more & -> & Hmore).
  apply Forall2_app_inv_l in Hall as (l1 & l2 & Hs1 & Hs2 & ->). apply replays_app in Hrep as [Hrep _].
  destruct (link_requests now lk reqs l1 Hs1 st _ Hl Hrep) as (st' & Hst & Hl' & Hk & _).
  cbn [serve_spec]. rewrite Hconn. cbn [unwrap_or]. rewrite Hst. cbn [fst snd a_state]. split.
  - exists l1, l2, (left_over t b reqs), more. split_and!; [done| |done|done|done].
    split; cbn [a_conns a_state]; [done|by rewrite lookup_insert_eq|by eapply begins_partial].
  - rewrite to_client_key. apply join_nothing.
Qed.

Lemma replica_step lk op t b l all rest ks : reading lk t b -> Forall2 sends all l ->
  replays (ab_keys (a_state b)) l ks -> t ++ arrived lk [op] ++ rest = whole all ->
  serve_admits fds op b = true -> follows lk op b = true ->
  took lk l rest b (serve_spec op b).1 /\ to_client lk (serve_spec op b).2 = [].
Proof.
  intros Hr Hall Hrep Heq Hok Hf. unfold arrived in Heq. cbn in Heq. rewrite app_nil_r in Heq.
  destruct op as [fd|key x reqs next|key| |ms].
  2: { destruct (Z.eqb_spec key lk) as [->|Hne]; [by eapply link_arrives|]. destruct Hr as [Hl Hconn Hpart].
    cbn [follows] in Hf. rewrite (proj2 (Z.eqb_neq key lk) Hne) in Hf. cbn in Hf. apply bool_decide_eq_true in Hf.
    destruct b as [conns st now]. cbn [a_conns a_state a_now] in *. pose proof (requests_linked now key lk reqs Hne st Hl) as Hl'.
    cbn [serve_spec] in *. destruct (requests_spec now key reqs st) as [st' answers]. split.
    - eapply took_nothing; [|done..]. split; cbn; [done|by rewrite lookup_insert_ne|done].
    - apply to_client_others, List.Forall_map, Forall_true. done. }
  all: destruct Hr as [[Hm Ht Hap] Hconn Hpart]; destruct b as [conns st now]; cbn in Hok, Hf, Hconn; split;
    [eapply took_nothing; [split; [split|..]|done..]; cbn; try done|try done].
  - rewrite lookup_insert_ne; [done|]. intros ->. by rewrite Hconn in Hok.
  - apply negb_true_iff, Z.eqb_neq in Hf. cbn in Hm. rewrite Hm. by rewrite (proj2 (Z.eqb_neq lk key)).
  - destruct Hap. split; cbn; [|done]. set_solver.
  - apply negb_true_iff, Z.eqb_neq in Hf. by rewrite lookup_delete_ne.
  - destruct Hap. split; [done|constructor].
  - apply to_client_others. apply Hap.
Qed.

Lemma replica_run lk ops : forall t b l all rest ks, reading lk t b -> Forall2 sends all l ->
  replays (ab_keys (a_state b)) l ks -> t ++ arrived lk ops ++ rest = whole all ->
  admits_all serve_spec (serve_admits fds) ops b = true -> admits_all serve_spec (follows lk) ops b = true ->
  took lk l rest b (spec_all serve_spec ops b).1 /\ to_client lk (mjoin (spec_all serve_spec ops b).2) = [].
Proof.
  induction ops as [|op ops IH]; intros t b l all rest ks Hr Hall Hrep Heq Hok Hf.
  { split; [|done]. by eapply took_nothing. }
  cbn [admits_all] in *. bools. change (arrived lk (op :: ops)) with (arrived lk ([op] ++ ops)) in Heq.
  assert (arrived lk ([op] ++ ops) = arrived lk [op] ++ arrived lk ops) as Harr.
  { unfold arrived. by rewrite map_app, join_app. }
  rewrite Harr, <- app_assoc in Heq.
  destruct (replica_step lk op t b l all (arrived lk ops ++ rest) ks) as [(l1 & l2 & t' & reqs & -> & Hr' & Hall' & Heq' & Hk) Hout]; [done..|].
  apply replays_app in Hrep as [_ Hrep]. rewrite <- Hk in Hrep.
  destruct (IH t' _ l2 reqs rest ks Hr' Hall' Hrep Heq') as [(l3 & l4 & t'' & reqs' & -> & Hr'' & Hall'' & Heq'' & Hk') Hout']; [done..|].
  cbn [spec_all]. destruct (serve_spec op b) as [b1 out]. cbn [fst snd] in *. destruct (spec_all serve_spec ops b1) as [b2 outs].
  cbn [fst snd] in *. split.
  - exists (l1 ++ l3), l4, t'', reqs'. split_and!; [by rewrite app_assoc|done..|]. by rewrite Hk', Hk, replayed_app.
  - change (mjoin (out :: outs)) with (out ++ mjoin outs). by rewrite to_client_app, Hout, Hout'.
Qed.
End Follow.

(** A replica that has read all its master has written, between two turns of the
    master, and holds the same keys. *)
Record attached (r lk : Z) (a b : AbsServer) : Prop := {
  at_replica : r ∈ ar_replicas (ab_repl (a_state a));
  at_queue : to_client r (ar_queue (ab_repl (a_state a))) = [];
  at_txns : queues_wired (a_state a);
  at_link : reading lk [] b;
  at_keys : ab_keys (a_state b) = ab_keys (a_state a);
}.

(** C2: a replica follows its master: from the same key space on ([attached]), the
    master writes to the replica the requests it logs, and nothing else; the
    replica, which may read them late, in several reads, and between the requests of
    clients of its own, runs them and answers nothing. It then holds the key space
    the master had after those it has read: when it has read all, the master's, and
    so on from there. Both servers' operations are admitted ([serve_admits]: the
    commands and side conditions of [server_refines]; no body is cut twice).
    Moreover what runs on the master is logged and does the same at any time, or
    changes nothing ([serve_durable]: no successful [SET] with [EX] or [PX], no
    [XADD *], no [ZADD], [ZREM] or [GEOADD] that changes a value, since these are
    not sent to replicas, no refused write that leaves a key behind); the replica
    sends the master nothing and does not leave ([spares]); and on the replica the
    requests of its own clients change nothing and the connection to the master
    stays ([follows]). *)
Theorem replica_follows (E1 E2 : Env) fds1 fds2 v w a b r lk ops1 ops2 :
  serves fds1 v a -> serves fds2 w b -> attached r lk a b ->
  admits_all (@serve_spec E1) (@serve_admits E1 fds1) ops1 a = true ->
  admits_all (@serve_spec E1) (@serve_durable E1) ops1 a = true -> forallb (spares r) ops1 = true ->
  admits_all (@serve_spec E2) (@serve_admits E2 fds2) ops2 b = true ->
  admits_all (@serve_spec E2) (@follows E2 lk) ops2 b = true ->
  let r1 := spec_all (@serve_spec E1) (ops1 ++ [EndTurn]) a in
  let r2 := spec_all (@serve_spec E2) ops2 b in
  arrived lk ops2 `prefix_of` to_client r (mjoin r1.2) ->
  exists v' w', run_all (@serve_op E1 fds1) (ops1 ++ [EndTurn]) v = Ret (v', r1.2) /\ serves fds1 v' r1.1 /\
    run_all (@serve_op E2 fds2) ops2 w = Ret (w', r2.2) /\ serves fds2 w' r2.1 /\
    to_client lk (mjoin r2.2) = [] /\
    (exists l1 l2, ab_log (a_state r1.1) = ab_log (a_state a) ++ l1 ++ l2 /\
      to_client r (mjoin r1.2) = log_bytes (l1 ++ l2) /\ ab_keys (a_state r2.1) = replayed l1 (ab_keys (a_state a))) /\
    (arrived lk ops2 = to_client r (mjoin r1.2) -> attached r lk r1.1 r2.1).
Proof.
  intros Hv Hw [Hid Hqueue Htxns Hlink Hkeys] Hok1 Hdur Hsp Hok2 Hf r1 r2 [rest Hrest].
  destruct (run_implements _ _ (@serve_admits E1 fds1) (serves fds1) (ops1 ++ [EndTurn]) v a Hv) as (v' & Hrun1 & Hv').
  { rewrite admits_all_app, Hok1. cbn. done. }
  destruct (run_implements _ _ (@serve_admits E2 fds2) (serves fds2) ops2 w b Hw Hok2) as (w' & Hrun2 & Hw').
  exists v', w'. split; [done|]. split; [done|]. split; [done|]. split; [done|].
  destruct (@turn_feeds E1 r ops1 a Hsp Hid Hqueue) as (Hid' & Hqueue' & Hlog & l & Hl & Hout). fold r1 in Hid', Hqueue', Hlog, Hl, Hout.
  pose proof (@run_serve_traced E1 fds1 ops1 a Hok1 Hdur Htxns) as [(l' & Hl' & Hwired & Hrep) Htxns'].
  rewrite <- Hlog, Hl in Hl'. apply app_inv_head in Hl' as <-.
  destruct (wired_sends l Hwired) as [all Hall]. rewrite <- Hkeys in Hrep. rewrite Hout, <- (sends_whole _ _ Hall) in Hrest |- *.
  destruct (@replica_run E2 fds2 lk ops2 [] b l all rest _ Hlink Hall Hrep) as [(l1 & l2 & t & reqs & -> & Hr & Hall2 & Heq & Hk) Hsilent];
    [by symmetry|done..|]. fold r2 in Hr, Hk, Hsilent.
  split; [done|]. split; [exists l1, l2; split_and!; [done|by apply sends_whole|by rewrite Hk, Hkeys]|].
  intros Harr. rewrite Harr in Hrest. rewrite <- (app_nil_r (whole all)) in Hrest at 1. apply app_inv_head in Hrest. subst rest.
  rewrite app_nil_r in Heq. assert (reqs = []) as -> by (by apply (rd_partial _ _ _ Hr); [eapply sends_fit|]).
  inversion Hall2; subst l2. assert (t = []) as -> by exact Heq.
  assert (r1.1 = (@serve_spec E1 EndTurn (spec_all (@serve_spec E1) ops1 a).1).1) as Hend.
  { unfold r1. rewrite spec_all_app. cbn [spec_all]. by destruct (@serve_spec E1 EndTurn _). }
  split; [done|done| |done|].
  - intros id q. rewrite Hend. destruct (spec_all (@serve_spec E1) ops1 a) as [[] ?]. apply Htxns'.
  - rewrite Hk. rewrite app_nil_r in Hrep. rewrite (rp_keys _ _ _ Hrep), Hend. by destruct (spec_all (@serve_spec E1) ops1 a) as [[] ?].
Qed.
