(* ===== verification/Joining.v ===== *)
(** * How a replica joins

    The two sides of the handshake, each written by the other: a server started with
    [--replicaof] sends its requests as the answers come, and the master that reads
    them answers. Afterwards the two are [attached] ([replica_joins]). *)

From S2P Require Import Prelude Text Float64 Resp RespParser RespWire RespChunks CmdBuilder Bitmap BTree SortedSet Geohash Store.
From S2P Require Import Refinement KeySpec StringSpec ListSpec BitmapSpec StreamSpec ZsetSpec KeyspaceSpec.
From S2P Require Import AppState Replication Auth Registry Handler HandlerLogic Transactions Propagation ClientSpec.
From S2P Require Import Client ClientReads Serving Aof Server ServerSpec Recovery Replicas.

(** ** The master's side *)

(** One request in one read. *)
Definition message (key : Z) (args : list string) : server_op := Arrive key (request_bytes args) [args] ["PING"%string].

Lemma ping_fits : fits_wire ["PING"%string].
Proof. split; vm_compute; [done|discriminate]. Qed.

Lemma whole_one args : whole [args] = request_bytes args.
Proof. apply app_nil_r. Qed.

Lemma left_nothing args : left_over [] (request_bytes args) [args] = [].
Proof. unfold left_over. rewrite whole_one. apply drop_all. Qed.

Section Master.
Context `{Env} (fds : Descriptors).

Lemma message_admitted key args conns st now : conns !! key = Some [] -> fits_wire args ->
  request_admits now key args st = true -> serve_admits fds (message key args) (mk_abs conns st now) = true.
Proof.
  intros Hc [Hwf Hlen] Hok. cbn [serve_admits message a_conns a_now a_state]. rewrite Hc.
  assert (missing_after [] = 0) as -> by done. change ([] ++ ?b) with b. rewrite left_nothing, whole_one.
  pose proof (request_bytes_nonempty args Hwf) as Hne.
  assert (0 < len (request_bytes args)) as Hpos by (destruct (request_bytes args); [done|]; rewrite len_cons; pose proof (len_nonneg l); lia).
  rewrite !andb_true_iff. split_and!; try (by apply Z.leb_le; lia); try (by apply Z.ltb_lt).
  - by vm_compute.
  - cbn [forallb]. by rewrite Hwf.
  - apply bool_decide_eq_true. apply firstn_all.
  - by vm_compute.
  - unfold requests_admit. cbn. by rewrite Hok.
Qed.

Lemma message_spec key args conns st now : conns !! key = Some [] ->
  serve_spec (message key args) (mk_abs conns st now) =
  (mk_abs (<[key := []]> conns) (request_spec now key args st).1 now,
   [(key, reply_bytes (answer (request_spec now key args st).2))]).
Proof.
  intros Hc. cbn [serve_spec message]. unfold requests_spec. cbn [spec_all]. rewrite Hc. cbn [unwrap_or].
  destruct (request_spec now key args st) as [st' r]. cbn [List.map fst snd]. by rewrite left_nothing.
Qed.

(** The snapshot a replica is sent. *)
Context (rdb : bytes).
Hypothesis Hrdb : base64_decode empty_rdb_b64 = Some rdb.

(** What a client that is in no transaction and not the master is answered. *)
Definition join_requests (p : Z) : list (list string) :=
  [["PING"]; ["REPLCONF"; "listening-port"; show_Z p]; ["REPLCONF"; "capa"; "psync2"]; ["PSYNC"; "?"; "-1"]]%string.

Definition pong : RespType := SimpleStr (Some KW_PONG).
Definition okay : RespType := SimpleStr (Some KW_OK).

(** The messages the replica reads. *)
Definition join_answers (off : Z) : list bytes := [wire pong; wire okay; wire okay; resync_message off].

Lemma port_request p : 0 <= p < 2 ^ 16 ->
  Cmd.from_resp (request ["REPLCONF"; "listening-port"; show_Z p]%string) = Ret (Ok (Cmd.REPLCONF (CmdArg.ListeningPort p))).
Proof.
  intros Hp. change (Cmd.from_resp (request ["REPLCONF"; "listening-port"; show_Z p]%string)) with
    (Ret (let? opt := (let? x := from_parse_int (parse_u16 (show_Z p)) in Ok (CmdArg.ListeningPort x)) in Ok (Cmd.REPLCONF opt))).
  unfold parse_u16. rewrite parse_show_unsigned by lia. done.
Qed.

(** The state after each request. *)
Lemma join_request now id args c st : Cmd.from_resp (request args) = Ret (Ok c) ->
  request_admits now id args st = client_admits now id (c, request_bytes args) st /\
  request_spec now id args st = client_spec now id (c, request_bytes args) st.
Proof. unfold request_admits, request_spec. by intros ->. Qed.

Lemma ping_state now id b st : ab_txns st !! id = None -> ar_master (ab_repl st) <> Some id ->
  client_admits now id (Cmd.PING, b) st = true /\ client_spec now id (Cmd.PING, b) st = (st, Ok (Some pong)).
Proof.
  intros Ht Hm. unfold client_admits, client_spec. rewrite Ht, bool_decide_eq_false_2 by done. split; [done|]. cbn [fst].
  unfold run_as. cbn [keyspace_spec fst snd]. rewrite heard_client. f_equal. destruct st as [ks tx w lg [m rs q off]].
  unfold advance, log_entry. cbn. rewrite !app_nil_r. f_equal.
  rewrite <- (map_fmap_id w) at 2. apply map_fmap_ext. done.
Qed.

Lemma replconf_state now id arg b st : ab_txns st !! id = None -> ar_master (ab_repl st) <> Some id ->
  match arg with CmdArg.ListeningPort _ | CmdArg.Capa _ => True | _ => False end ->
  client_admits now id (Cmd.REPLCONF arg, b) st = true /\ client_spec now id (Cmd.REPLCONF arg, b) st = (st, Ok response_ok).
Proof.
  intros Ht Hm Harg. unfold client_admits, client_spec. rewrite Ht, bool_decide_eq_false_2 by done. cbn [fst].
  by destruct arg.
Qed.

Lemma psync_state now id b st : ab_txns st !! id = None -> ar_master (ab_repl st) <> Some id ->
  client_admits now id (Cmd.PSYNC "?" (-1), b) st = true /\
  client_spec now id (Cmd.PSYNC "?" (-1), b) st =
    (with_repl (joined id (ab_repl st)) st, Ok (Some (Bytes (Some (resync_message (ar_offset (ab_repl st))))))).
Proof.
  intros Ht Hm. unfold client_admits, client_spec. rewrite Ht, bool_decide_eq_false_2 by done. cbn [fst]. by rewrite Hrdb.
Qed.

Definition join_ops (r p : Z) : list server_op := Connect r :: List.map (message r) (join_requests p).

(** A client that goes through the requests becomes a replica. *)
Lemma master_side r p conns st now : conns !! r = None -> r <> listener_fd fds -> r <> timer_fd fds ->
  ab_txns st !! r = None -> ar_master (ab_repl st) <> Some r -> 0 <= p < 2 ^ 16 -> Forall fits_wire (join_requests p) ->
  admits_all serve_spec (serve_admits fds) (join_ops r p) (mk_abs conns st now) = true /\
  spec_all serve_spec (join_ops r p) (mk_abs conns st now) =
  (mk_abs (<[r := []]> conns) (with_repl (joined r (ab_repl st)) st) now,
   [] :: List.map (fun b => [(r, b)]) (join_answers (ar_offset (ab_repl st)))).
Proof.
  intros Hc Hl Ht Htx Hm Hp Hfit. unfold join_requests in Hfit.
  repeat match goal with H : Forall fits_wire (_ :: _) |- _ => inversion H; clear H; subst end.
  destruct (ping_state now r (request_bytes ["PING"%string]) st Htx Hm) as [Ha1 Hs1].
  destruct (replconf_state now r (CmdArg.ListeningPort p) (request_bytes ["REPLCONF"; "listening-port"; show_Z p]%string) st Htx Hm I) as [Ha2 Hs2].
  destruct (replconf_state now r (CmdArg.Capa "psync2") (request_bytes ["REPLCONF"; "capa"; "psync2"]%string) st Htx Hm I) as [Ha3 Hs3].
  destruct (psync_state now r (request_bytes ["PSYNC"; "?"; "-1"]%string) st Htx Hm) as [Ha4 Hs4].
  destruct (join_request now r ["PING"%string] Cmd.PING st eq_refl) as [Hr1 Hq1].
  destruct (join_request now r _ _ st (port_request p Hp)) as [Hr2 Hq2].
  destruct (join_request now r ["REPLCONF"; "capa"; "psync2"]%string (Cmd.REPLCONF (CmdArg.Capa "psync2")) st eq_refl) as [Hr3 Hq3].
  destruct (join_request now r ["PSYNC"; "?"; "-1"]%string (Cmd.PSYNC "?" (-1)) st eq_refl) as [Hr4 Hq4].
  rewrite Ha1 in Hr1. rewrite Ha2 in Hr2. rewrite Ha3 in Hr3. rewrite Ha4 in Hr4.
  rewrite Hs1 in Hq1. rewrite Hs2 in Hq2. rewrite Hs3 in Hq3. rewrite Hs4 in Hq4.
  pose proof (lookup_insert_eq conns r []) as Hnew.
  unfold join_ops, join_requests. cbn [List.map admits_all spec_all].
  assert (serve_admits fds (Connect r) (mk_abs conns st now) = true) as ->.
  { cbn. rewrite Hc. cbn. by rewrite (proj2 (Z.eqb_neq r _) Hl), (proj2 (Z.eqb_neq r _) Ht). }
  change (serve_spec (Connect r) (mk_abs conns st now)) with (mk_abs (<[r := []]> conns) st now, @nil (Z * bytes)). cbn [fst].
  repeat (rewrite message_spec by done; rewrite ?Hq1, ?Hq2, ?Hq3, ?Hq4; cbn [fst snd]; rewrite ?insert_insert_eq).
  split; [|reflexivity]. by rewrite !message_admitted by done.
Qed.

Lemma master_joins v r p conns st now : serves fds v (mk_abs conns st now) -> conns !! r = None ->
  r <> listener_fd fds -> r <> timer_fd fds -> ab_txns st !! r = None -> ar_master (ab_repl st) <> Some r ->
  0 <= p < 2 ^ 16 -> Forall fits_wire (join_requests p) ->
  exists v', run_all (serve_op fds) (join_ops r p) v = Ret (v', [] :: List.map (fun b => [(r, b)]) (join_answers (ar_offset (ab_repl st)))) /\
    serves fds v' (mk_abs (<[r := []]> conns) (with_repl (joined r (ab_repl st)) st) now).
Proof.
  intros Hv Hc Hl Ht Htx Hm Hp Hfit. destruct (master_side r p conns st now) as [Hok Hspec]; [done..|].
  destruct (run_implements _ _ (serve_admits fds) (serves fds) _ v _ Hv Hok) as (v' & Hrun & Hv').
  rewrite Hspec in Hrun, Hv'. by exists v'.
Qed.
End Master.

(** ** The messages of the master *)

(** The line before the snapshot. *)
Definition resync_line (off : Z) : RespType :=
  SimpleStr (Some (KW_FULLRESYNC +:+ " " +:+ Handler.repl_id +:+ " " +:+ show_Z (Z.max off 0))).

Lemma resync_line_command off : off <= i64_max ->
  Cmd.from_resp (resync_line off) = Ret (Ok (Cmd.FULLRESYNC Handler.repl_id (Z.max off 0))).
Proof.
  intros Hoff. unfold resync_line. set (n := Z.max off 0).
  change (KW_FULLRESYNC +:+ " " +:+ Handler.repl_id +:+ " " +:+ show_Z n) with ((KW_FULLRESYNC +:+ " " +:+ Handler.repl_id +:+ " ") +:+ show_Z n).
  change (Cmd.from_resp (SimpleStr (Some ((KW_FULLRESYNC +:+ " " +:+ Handler.repl_id +:+ " ") +:+ show_Z n)))) with
    (let! p := Cmd.str_take ((KW_FULLRESYNC +:+ " " +:+ Handler.repl_id +:+ " ") +:+ show_Z n) 10 in
     if String.eqb p KW_FULLRESYNC then Ret (Cmd.fullresync ((KW_FULLRESYNC +:+ " " +:+ Handler.repl_id +:+ " ") +:+ show_Z n))
     else Ret (Err (InvalidArgument "Invalid command"%string))).
  assert (Cmd.str_take ((KW_FULLRESYNC +:+ " " +:+ Handler.repl_id +:+ " ") +:+ show_Z n) 10 = Ret KW_FULLRESYNC) as ->.
  { unfold Cmd.str_take. rewrite as_bytes_app. set (pre := as_bytes (KW_FULLRESYNC +:+ " " +:+ Handler.repl_id +:+ " ")).
    pose proof (len_nonneg (as_bytes (show_Z n))). assert (len pre = 52) as Hpre by done.
    rewrite len_app, Hpre. destruct (Z.ltb_spec (52 + len (as_bytes (show_Z n))) 10); [lia|].
    rewrite vec_get_app_l, slice_app_in by (rewrite ?Hpre; lia).
    reflexivity. }
  assert (split " " ((KW_FULLRESYNC +:+ " " +:+ Handler.repl_id +:+ " ") +:+ show_Z n) = [KW_FULLRESYNC; Handler.repl_id; show_Z n]) as Hsplit.
  { transitivity (split " " (KW_FULLRESYNC +:+ String " " (Handler.repl_id +:+ String " " (show_Z n)))); [reflexivity|].
    rewrite !split_join by done. by rewrite split_no_char by (apply no_char_show; [unfold n; lia|done]). }
  cbn [outcome_bind]. unfold Cmd.fullresync. rewrite Hsplit. cbn -[show_Z].
  rewrite parse_show_i64 by (unfold is_i64, i64_min, i64_max, n in *; lia). done.
Qed.

Lemma resync_line_wf off : wire_wf (resync_line off) = true.
Proof.
  cbn -[show_Z]. assert (Forall (fun c => is_ascii c = true /\ c <> CR) (as_bytes (KW_FULLRESYNC +:+ " " +:+ Handler.repl_id +:+ " " +:+ show_Z (Z.max off 0)))) as Hall.
  { rewrite !as_bytes_app, !Forall_app. assert (forall b, forallb (fun c => is_ascii c && negb (bool_decide (c = CR))) b = true ->
      Forall (fun c => is_ascii c = true /\ c <> CR) b) as Hdec.
    { intros b Hb. apply List.Forall_forall. intros c Hc. apply (proj1 (forallb_forall _ _) Hb) in Hc. bools.
      split; [done|by eapply bool_decide_eq_false_1]. }
    split_and!; try (by apply Hdec). apply show_Z_forall; by split. }
  rewrite utf8_valid_ascii, no_crlf_no_cr; [done| |].
  - eapply Forall_impl; [exact Hall|]. by intros c [].
  - apply forallb_forall. intros c Hc. by apply (proj1 (List.Forall_forall _ _) Hall).
Qed.

(** A number has no more digits than bits. *)
Lemma show_digits_len f : forall n acc, len (show_digits f n acc) <= Z.of_nat f + len acc.
Proof.
  induction f as [|f IH]; intros n acc; cbn [show_digits]; [lia|]. destruct (_ =? 0); [|specialize (IH (n / 10) (digit_char (n mod 10) :: acc))]; rewrite ?len_cons in *; lia.
Qed.

Lemma show_Z_len n : 0 <= n -> len (as_bytes (show_Z n)) <= Z.log2 n + 1.
Proof.
  intros Hn. rewrite show_Z_nonneg, as_bytes_from_bytes by done. unfold show_nonneg.
  pose proof (show_digits_len (S (Z.to_nat (Z.log2 n))) n []) as Hd. pose proof (Z.log2_nonneg n). rewrite len_nil in Hd. lia.
Qed.

Lemma show_Z_len_bound n : 0 <= n < 2 ^ 64 -> len (as_bytes (show_Z n)) <= 64.
Proof.
  intros Hn. pose proof (show_Z_len n ltac:(lia)). destruct (Z.eq_dec n 0) as [->|]; [by vm_compute|].
  pose proof (proj1 (Z.log2_lt_pow2 n 64 ltac:(lia)) ltac:(lia)). lia.
Qed.

Lemma port_fits p : 0 <= p < 2 ^ 16 -> Forall fits_wire (join_requests p).
Proof.
  intros Hp. assert (fits_wire ["REPLCONF"; "listening-port"; show_Z p]%string) as Hport.
  { pose proof (show_Z_len_bound p ltac:(lia)) as Hl. pose proof (len_nonneg (as_bytes (show_Z p))) as Hl0.
    assert (str_len (show_Z p) = len (as_bytes (show_Z p))) as Hs by (symmetry; apply len_as_bytes). split.
    - transitivity (wire_wf (bulk (show_Z p)) && true); [reflexivity|]. unfold bulk. cbn [wire_wf].
      rewrite Z.eqb_refl, utf8_show_Z, Hs. cbn [andb]. rewrite andb_true_r. apply Z.leb_le. unfold isize_max. lia.
    - change (request_bytes ["REPLCONF"; "listening-port"; show_Z p]%string) with
        (header "*" 3 ++ (header "$" 8 ++ as_bytes "REPLCONF" ++ DELIMITER) ++ (header "$" 14 ++ as_bytes "listening-port" ++ DELIMITER) ++
         (header "$" (str_len (show_Z p)) ++ as_bytes (show_Z p) ++ DELIMITER) ++ []).
      pose proof (show_Z_len_bound (str_len (show_Z p)) ltac:(lia)). rewrite !len_app.
      assert (len (header "$" (str_len (show_Z p))) <= 67) by (unfold header; rewrite !len_app; change (len DELIMITER) with 2; change (len (as_bytes "$")) with 1; lia).
      change (len (header "*" 3)) with 4. change (len (header "$" 8)) with 4. change (len (header "$" 14)) with 5.
      change (len (as_bytes "REPLCONF")) with 8. change (len (as_bytes "listening-port")) with 14.
      change (len DELIMITER) with 2. change (len []) with 0. unfold isize_max. lia. }
  apply Forall_cons_2; [apply ping_fits|]. apply Forall_cons_2; [done|].
  apply Forall_cons_2; [by split; [vm_compute|vm_compute; discriminate]|].
  apply Forall_cons_2; [by split; [vm_compute|vm_compute; discriminate]|constructor].
Qed.

(** ** The replica's side *)
Section Reads.
Context `{Env}.

(** A value that is complete is served, and the loop goes on. *)
Lemma read_loop_value fuel c p q t written s s' c' b :
  parse (parse_rdb c) (resp_parser c) = Ret (Ok tt, p) -> get_completed p = (Some t, q) ->
  serve_value (with_parser c q) t s = Ret (s', (c', b)) ->
  read_loop (S fuel) all_taken c written s = read_loop fuel all_taken c' (written ++ [b]) s'.
Proof.
  intros Hp Hq Hs. cbn [read_loop]. rewrite bind_unfold. unfold of_outcome. rewrite Hp. cbn [outcome_bind].
  rewrite Hq, bind_unfold, Hs, write_all_open. done.
Qed.

Lemma read_loop_done fuel c written s : resp_parser c = ready [] [] ->
  read_loop (S fuel) all_taken c written s = Ret (s, Some (c, written, true)).
Proof.
  intros Hp. cbn [read_loop]. rewrite bind_unfold. unfold of_outcome. rewrite Hp.
  assert (parse (parse_rdb c) (ready [] []) = Ret (Ok tt, ready [] [])) as -> by (by destruct (parse_rdb c)).
  cbn [outcome_bind]. change (get_completed (ready [] [])) with (@None RespType, ready [] []). cbv beta iota.
  rewrite <- Hp, with_same_parser. done.
Qed.

Lemma read_fuel_ready w : read_fuel (ready w []) = S (S (S (2 * List.length w + 1))).
Proof. unfold read_fuel. cbn. lia. Qed.

(** A message in one read, to a connection that holds nothing. *)
Lemma read_message c t w s s' c' b : resp_parser c = ready [] [] -> parse_rdb c = false -> on_wire t w ->
  len w <= isize_max -> serve_value c t s = Ret (s', (c', b)) -> resp_parser c' = ready [] [] ->
  read_socket c (Some w) all_taken s = Ret (s', (c', [b], true)).
Proof.
  intros Hp Hrdb Hw Hlen Hs Hp'. rewrite read_socket_data by (by eapply on_wire_nonempty). destruct Hw as [Hwf Hser].
  rewrite Hp. change (feed_buf (ready [] []) w) with (ready w []). cbv zeta. rewrite bind_unfold.
  rewrite read_fuel_ready. set (f := S (2 * List.length w + 1)).
  pose proof (parse_wire t w [] Hwf Hser) as Hparse. rewrite app_nil_r in Hparse.
  rewrite (read_loop_value (S f) _ (parsed [] t) (ready [] []) t [] s s' c' b).
  - rewrite read_loop_done by done. done.
  - cbn [parse_rdb resp_parser with_parser]. rewrite Hrdb. by apply Hparse.
  - done.
  - change (with_parser (with_parser c ?x) ?y) with (with_parser c y). by rewrite <- Hp, with_same_parser.
Qed.

(** A line, and behind it a snapshot, read as a file if the line says so. *)
Lemma read_snapshot c t w rdb s s1 c1 b1 s2 c2 b2 : resp_parser c = ready [] [] -> parse_rdb c = false -> on_wire t w ->
  0 < len rdb -> len (w ++ header "$" (len rdb) ++ rdb) <= isize_max ->
  (forall p, serve_value (with_parser c p) t s = Ret (s1, (with_parser c1 p, b1))) -> parse_rdb c1 = true ->
  serve_value (with_parser c1 (ready [] [])) (Resp.RDB (Some rdb)) s1 = Ret (s2, (c2, b2)) -> resp_parser c2 = ready [] [] ->
  read_socket c (Some (w ++ header "$" (len rdb) ++ rdb)) all_taken s = Ret (s2, (c2, [b1; b2], true)).
Proof.
  intros Hp Hrdb Hw Hpos Hlen Hs1 Hrdb1 Hs2 Hp2. pose proof (on_wire_nonempty t w Hw) as Hne. destruct Hw as [Hwf Hser].
  set (rest := header "$" (len rdb) ++ rdb) in *.
  rewrite read_socket_data by (by intros [? _]%app_eq_nil).
  rewrite Hp. change (feed_buf (ready [] []) (w ++ rest)) with (ready (w ++ rest) []). cbv zeta. rewrite bind_unfold.
  rewrite read_fuel_ready. set (f := (2 * List.length (w ++ rest) + 1)%nat).
  rewrite (read_loop_value (S (S f)) _ (parsed rest t) (ready rest []) t [] s s1 (with_parser c1 (ready rest [])) b1).
  - rewrite (read_loop_value (S f) _ (parsed [] (Resp.RDB (Some rdb))) (ready [] []) (Resp.RDB (Some rdb)) _ s1 s2 c2 b2).
    + rewrite read_loop_done by done. done.
    + cbn [parse_rdb resp_parser with_parser]. rewrite Hrdb1. apply parse_snapshot; [done|].
      rewrite len_app in Hlen. pose proof (len_nonneg w). unfold rest in Hlen. lia.
    + done.
    + exact Hs2.
  - cbn [parse_rdb resp_parser with_parser]. rewrite Hrdb. by apply parse_wire.
  - done.
  - apply Hs1.
Qed.

(** What a replica does with a message of its master during the handshake. *)
Lemma serve_handshake c t w cmd s s' c' r : serialize t = Ret w -> Cmd.from_resp t = Ret (Ok cmd) ->
  check_auth (auth s) (client_fd c) = true -> repl_status (repl_state c) = Some Master ->
  handshake_to_master c cmd w s = Ret (s', (c', r)) ->
  serve_value c t s = Ret (s', (c', reply_bytes r)).
Proof.
  intros Hw Hc Ha Hm Hh. unfold serve_value. rewrite bind_unfold. unfold of_outcome at 1. rewrite Hw. cbn [outcome_bind].
  rewrite bind_unfold. unfold of_outcome at 1. rewrite Hc. cbn [outcome_bind]. rewrite get_bind, Ha, andb_false_r, Hm.
  rewrite bind_unfold, Hh. by destruct r.
Qed.
End Reads.

(** The arguments of a replica without an append-only file or a snapshot, that
    listens on port [p]. *)
Record replica_args (args : list string) (conf : Configs) (a : AppStates) (p : Z) : Prop := {
  ra_conf : with_parse_config configs_new args = Ret conf;
  ra_init : init args = Ret a;
  ra_master : is_Some (master_stats a);
  ra_port : exists h, host_stats a = Some h /\ port h = Some p;
  ra_u16 : 0 <= p < 2 ^ 16;
  ra_aof : appendonly conf = false;
  ra_snapshot : dbfilename conf = None;
}.

Section Replica.
Context `{Env} (fds : Descriptors) (lk : Z).

(** The connection to the master, on the way through the handshake. *)
Definition link (h : HandShakeState) : TcpClient :=
  mk_client lk (epoll fds) (ready [] []) h (mk_repl (Some Master) None None "?" (-1)) false.

(** A server with no other connection. *)
Record joining (v : Server) (s : State) (c : TcpClient) : Prop := {
  jn_core : core v = s;
  jn_table : table v = {[lk := c]};
  jn_armed : lk ∈ interest s /\ (lk ∉ disarmed v);
  jn_listener : listener_fd fds ∈ interest s /\ (listener_fd fds ∉ disarmed v);
}.

Lemma joining_reads v s c b s' c' bs : joining v s c ->
  read_socket c (Some b) all_taken s = Ret (s', (c', bs, true)) -> interest s' = interest s ->
  exists v', serve_op fds (Arrive lk b [] []) v = Ret (v', List.map (pair lk) bs) /\ joining v' s' c'.
Proof.
  intros [] Hr Hi. unfold serve_op. cbn [op_event handle_event event_fd]. unfold readable. cbn [disarm table].
  rewrite jn_table0, lookup_singleton_eq. unfold run. cbn [core disarm]. rewrite jn_core0, Hr. cbn [outcome_bind].
  eexists. split; [cbn [sent rearm with_core]; by rewrite drop_app_length|].
  split; cbn; [done|by rewrite jn_table0, insert_singleton_eq|rewrite Hi; set_solver|rewrite Hi; set_solver].
Qed.

(** The state before the master's messages: the connection is logged in. *)
Definition joining_state (a : AppStates) (conf : Configs) (now : Z) : State :=
  with_interest
    (with_auth (with_aof (bare_state a conf now) (Some None))
       (mk_auth (credentials auth_new) (<[lk := "default"%string]> (auth_clients auth_new))))
    (({[timer_fd fds]} ∪ {[listener_fd fds]}) ∪ ({[lk]} ∪ ∅)).

Lemma start_replica args conf a p now disk chunks : replica_args args conf a p ->
  exists v, start fds args now disk chunks lk = Ret (v, disk) /\ sent v = [(lk, request_bytes ["PING"%string])] /\
    joining v (joining_state a conf now) (link HS_PING).
Proof.
  intros []. destruct (init_host args a ra_init0) as (h & host' & port' & Hh & Hho & Hpo & _).
  unfold start. rewrite ra_init0, ra_conf0. cbn [outcome_bind]. fold (bare_state a conf now).
  assert (attach_aof chunks disk (bare_state a conf now) = Ret (with_aof (bare_state a conf now) (Some None), disk)) as ->.
  { unfold attach_aof, init_sequence. rewrite bind_unfold, get_bind. cbn [configs bare_state]. by rewrite ra_aof0. }
  cbn [outcome_bind]. rewrite Hh. cbn [unwrap outcome_bind]. rewrite Hho, Hpo. cbn [unwrap outcome_bind].
  rewrite ra_snapshot0. destruct ra_master0 as [m Hm].
  match goal with |- context [match path conf with Some _ => ?x | None => _ end] =>
    assert (match path conf with Some _ => x | None => x end = x) as -> by (by destruct (path conf)) end.
  cbn [outcome_bind]. rewrite Hm. eexists. split; [reflexivity|]. split; [done|].
  split; cbn; [done|by rewrite insert_insert_eq|set_solver|set_solver].
Qed.

(** The state after them: the connection is the master's. *)
Definition joined_state (a : AppStates) (conf : Configs) (now : Z) (h : ReplStats) : State :=
  with_app (with_clients (joining_state a conf now) (set_master (clients (joining_state a conf now)) lk))
    (mk_states (Some (start_bytes_count h).1) (master_stats a)).

Definition following (now : Z) : AbsServer :=
  mk_abs {[lk := []]} (mk_abs_state ∅ ∅ ∅ [] (mk_abs_repl (Some lk) ∅ [] 0)) now.

Lemma joined_serves args conf a p now h v : replica_args args conf a p -> host_stats a = Some h ->
  lk <> listener_fd fds -> lk <> timer_fd fds -> joining v (joined_state a conf now h) (link Established) ->
  serves fds v (following now).
Proof.
  intros [] Hh Hl Ht []. destruct (init_host args a ra_init0) as (h' & _ & _ & Hh' & _ & _ & Hoff).
  rewrite Hh in Hh'. injection Hh' as <-.
  split; cbn [following a_conns a_state a_now].
  - rewrite jn_core0. apply keeps_new; try done. unfold repl_of, host_offset. cbn.
    unfold start_bytes_count. rewrite Hoff. cbn. by rewrite Hoff.
  - by rewrite jn_core0.
  - rewrite jn_core0. by split.
  - rewrite jn_core0. by exists cred_new.
  - intros key. rewrite jn_table0. destruct (decide (lk = key)) as [<-|Hne].
    + rewrite !lookup_singleton_eq. exists (link Established).
      split; [by rewrite jn_table0, lookup_singleton_eq|done|by split; [apply holds_nothing|]|right; by rewrite jn_core0| |by rewrite jn_core0|done].
      rewrite jn_core0. unfold check_auth. cbn. by rewrite lookup_insert_eq.
    + by rewrite !lookup_singleton_ne.
  - by rewrite jn_core0.
  - by split; [set_solver|constructor].
Qed.

(** What the replica sends, read by read. *)
Definition join_sent (p : Z) : list (list bytes) :=
  [[request_bytes ["REPLCONF"; "listening-port"; show_Z p]]; [request_bytes ["REPLCONF"; "capa"; "psync2"]];
   [request_bytes ["PSYNC"; "?"; "-1"]]; [[]; []]]%string.

Lemma message_read h h' t w cmd r s : on_wire t w -> len w <= isize_max -> Cmd.from_resp t = Ret (Ok cmd) ->
  check_auth (auth s) lk = true -> handshake_to_master (link h) cmd w s = Ret (s, (link h', r)) ->
  read_socket (link h) (Some w) all_taken s = Ret (s, (link h', [reply_bytes r], true)).
Proof.
  intros Hw Hlen Hc Ha Hh. apply (read_message (link h) t w); try done.
  by apply (serve_handshake (link h) t w cmd); [apply Hw|..].
Qed.

Lemma short_on_wire s : wire_wf (SimpleStr (Some s)) = true -> on_wire (SimpleStr (Some s)) (wire (SimpleStr (Some s))).
Proof. by split. Qed.

Lemma resync_read a conf now h off rdb : host_stats a = Some h -> off <= i64_max -> 0 < len rdb ->
  len (wire (resync_line off) ++ header "$" (len rdb) ++ rdb) <= isize_max ->
  read_socket (link HS_PSYNC) (Some (wire (resync_line off) ++ header "$" (len rdb) ++ rdb)) all_taken (joining_state a conf now) =
  Ret (joined_state a conf now h, (link Established, [[]; []], true)).
Proof.
  intros Hh Hoff Hrdb Hlen. set (s := joining_state a conf now).
  assert (check_auth (auth s) lk = true) as Ha by (unfold check_auth, s; cbn; by rewrite lookup_insert_eq).
  set (s1 := with_clients s (set_master (clients s) lk)).
  apply (read_snapshot (link HS_PSYNC) (resync_line off) _ rdb s s1 (with_parse_rdb (link Established) true) []
           (joined_state a conf now h) (link Established) []); try done.
  - apply short_on_wire, resync_line_wf.
  - intros p. apply (serve_handshake _ _ (wire (resync_line off)) (Cmd.FULLRESYNC Handler.repl_id (Z.max off 0)) _ _ _ (Ok [])); try done.
    by apply resync_line_command.
  - apply (serve_handshake _ _ (header "$" (len rdb) ++ rdb) (Cmd.RDB rdb) _ _ _ (Ok [])); try done.
    unfold handshake_to_master. rewrite get_bind. cbn [handshake_state with_parser with_parse_rdb link].
    unfold start_counting. change (host_stats (app s1)) with (host_stats a). rewrite Hh. done.
Qed.

Lemma replica_side args conf a p now v off rdb : replica_args args conf a p ->
  lk <> listener_fd fds -> lk <> timer_fd fds -> joining v (joining_state a conf now) (link HS_PING) ->
  off <= i64_max -> 0 < len rdb -> len (wire (resync_line off) ++ header "$" (len rdb) ++ rdb) <= isize_max ->
  exists v', run_all (serve_op fds)
      (List.map (fun b => Arrive lk b [] []) [wire pong; wire okay; wire okay; wire (resync_line off) ++ header "$" (len rdb) ++ rdb]) v =
      Ret (v', List.map (List.map (pair lk)) (join_sent p)) /\ serves fds v' (following now).
Proof.
  intros Hargs Hl Ht Hv Hoff Hrdb Hlen. destruct (ra_port _ _ _ _ Hargs) as (h & Hh & Hp).
  set (s := joining_state a conf now) in *.
  assert (check_auth (auth s) lk = true) as Ha by (unfold check_auth, s; cbn; by rewrite lookup_insert_eq).
  assert (on_wire pong (wire pong) /\ on_wire okay (wire okay)) as [Hpong Hok] by (split; by apply short_on_wire).
  assert (len (wire pong) <= isize_max /\ len (wire okay) <= isize_max) as [Hl1 Hl2] by (split; by vm_compute).
  destruct (joining_reads v s _ _ s _ _ Hv (message_read HS_PING HS_REPLCONF1 pong _ Cmd.PONG _ s Hpong Hl1 eq_refl Ha
    (handshake_pong (link HS_PING) _ s h p eq_refl Hh Hp)) eq_refl) as (v1 & Hv1 & Hj1).
  destruct (joining_reads v1 s _ _ s _ _ Hj1 (message_read HS_REPLCONF1 HS_REPLCONF2 okay _ Cmd.OK _ s Hok Hl2 eq_refl Ha
    (handshake_ok1 (link HS_REPLCONF1) _ s eq_refl)) eq_refl) as (v2 & Hv2 & Hj2).
  destruct (joining_reads v2 s _ _ s _ _ Hj2 (message_read HS_REPLCONF2 HS_PSYNC okay _ Cmd.OK _ s Hok Hl2 eq_refl Ha
    (handshake_ok2 (link HS_REPLCONF2) _ s eq_refl eq_refl eq_refl)) eq_refl) as (v3 & Hv3 & Hj3).
  destruct (joining_reads v3 s _ _ _ _ _ Hj3 (resync_read a conf now h off rdb Hh Hoff Hrdb Hlen) eq_refl) as (v4 & Hv4 & Hj4).
  exists v4. split; [|by eapply joined_serves].
  cbn [run_all List.map]. rewrite Hv1. cbn [outcome_bind]. rewrite Hv2. cbn [outcome_bind]. rewrite Hv3. cbn [outcome_bind].
  rewrite Hv4. done.
Qed.

Lemma replica_comes args conf a p now disk chunks off rdb : replica_args args conf a p ->
  lk <> listener_fd fds -> lk <> timer_fd fds -> off <= i64_max -> 0 < len rdb ->
  len (wire (resync_line off) ++ header "$" (len rdb) ++ rdb) <= isize_max ->
  exists w w', start fds args now disk chunks lk = Ret (w, disk) /\ sent w = [(lk, request_bytes ["PING"%string])] /\
    run_all (serve_op fds)
      (List.map (fun b => Arrive lk b [] []) [wire pong; wire okay; wire okay; wire (resync_line off) ++ header "$" (len rdb) ++ rdb]) w =
      Ret (w', List.map (List.map (pair lk)) (join_sent p)) /\ serves fds w' (following now).
Proof.
  intros Hargs Hl Ht Hoff Hrdb Hlen. destruct (start_replica args conf a p now disk chunks Hargs) as (w & Hw & Hsent & Hj).
  destruct (replica_side args conf a p now w off rdb) as (w' & Hrun & Hw'); [done..|]. by exists w, w'.
Qed.
End Replica.

Lemma resync_message_len off rdb : off <= i64_max -> len rdb <= 2 ^ 32 ->
  len (wire (resync_line off) ++ header "$" (len rdb) ++ rdb) <= isize_max.
Proof.
  intros Hoff Hrdb. pose proof (len_nonneg rdb). set (pre := as_bytes (KW_FULLRESYNC +:+ " " +:+ Handler.repl_id +:+ " ")).
  assert (wire (resync_line off) = as_bytes "+" ++ (pre ++ as_bytes (show_Z (Z.max off 0))) ++ DELIMITER) as ->.
  { unfold wire, resync_line. cbn [serialize]. unfold pre. rewrite !as_bytes_app. by rewrite <- !app_assoc. }
  unfold header. rewrite !len_app. assert (len pre = 52) as -> by done.
  pose proof (show_Z_len_bound (Z.max off 0) ltac:(unfold i64_max in *; lia)).
  pose proof (show_Z_len_bound (len rdb) ltac:(lia)).
  change (len DELIMITER) with 2. change (len (as_bytes "+")) with 1. change (len (as_bytes "$")) with 1. unfold isize_max. lia.
Qed.

(** ** Both sides *)
Lemma attached_joined r lk conns st now now' : members (fun id => is_Some (conns !! id)) (ab_repl st) -> conns !! r = None ->
  queues_wired st -> ab_keys st = ∅ ->
  attached r lk (mk_abs (<[r := []]> conns) (with_repl (joined r (ab_repl st)) st) now) (following lk now').
Proof.
  intros [_ Hq] Hr Htx Hkeys. split; cbn [a_state with_repl joined ab_repl ar_replicas ar_queue following ab_keys].
  - set_solver.
  - apply to_client_others. eapply Forall_impl; [exact Hq|]. intros x [y Hx] Heq. cbn in Hx. by rewrite Heq, Hr in Hx.
  - exact Htx.
  - split; [split; [done| |by split; [set_solver|constructor]]| |apply partial_nil]; cbn; [by rewrite lookup_empty|by rewrite lookup_singleton_eq].
  - done.
Qed.

(** C5: a replica joins: a server started with [--replicaof], and a master that holds
    no keys yet, which somebody new connects to. Each reads what the other has
    written, message by message: [PING] and [+PONG], the port and the capability
    and [+OK], [PSYNC ? -1] and [+FULLRESYNC] with the snapshot behind it. Then both
    serve, the replica with the master as its master, and they are [attached]. *)
Theorem replica_joins (E1 E2 : Env) fds1 fds2 v conns st now1 r args conf a p now2 disk chunks lk rdb :
  serves fds1 v (mk_abs conns st now1) -> conns !! r = None -> r <> listener_fd fds1 -> r <> timer_fd fds1 ->
  ab_txns st !! r = None -> ar_master (ab_repl st) <> Some r -> queues_wired st -> ab_keys st = ∅ ->
  ar_offset (ab_repl st) <= i64_max ->
  @base64_decode (@env_base64 E1) empty_rdb_b64 = Some rdb -> 0 < len rdb <= 2 ^ 32 ->
  replica_args args conf a p -> lk <> listener_fd fds2 -> lk <> timer_fd fds2 ->
  let answers := @join_answers E1 (ar_offset (ab_repl st)) in
  exists v' w w' a', let out1 := [] :: List.map (fun b => [(r, b)]) answers in let out2 := List.map (List.map (pair lk)) (join_sent p) in
    run_all (@serve_op E1 fds1) (join_ops r p) v = Ret (v', out1) /\ serves fds1 v' a' /\
    @start E2 fds2 args now2 disk chunks lk = Ret (w, disk) /\
    run_all (@serve_op E2 fds2) (List.map (fun b => Arrive lk b [] []) answers) w = Ret (w', out2) /\ serves fds2 w' (following lk now2) /\
    to_client lk (sent w ++ mjoin out2) = whole (join_requests p) /\
    a_conns a' = <[r := []]> conns /\ attached r lk a' (following lk now2).
Proof.
  intros Hv Hr Hl1 Ht1 Htx Hm Hqueues Hkeys Hoff Hrdb [Hpos Hlen] Hargs Hl2 Ht2 answers.
  pose proof (port_fits p (ra_u16 _ _ _ _ Hargs)) as Hfit.
  destruct (@master_joins E1 fds1 rdb Hrdb v r p conns st now1) as (v' & Hrun1 & Hv'); [done..|apply (ra_u16 _ _ _ _ Hargs)|done|].
  destruct (@replica_comes E2 fds2 lk args conf a p now2 disk chunks (ar_offset (ab_repl st)) rdb) as (w & w' & Hstart & Hsent & Hrun2 & Hw');
    [done..|by apply resync_message_len|].
  assert (answers = [wire pong; wire okay; wire okay; wire (resync_line (ar_offset (ab_repl st))) ++ header "$" (len rdb) ++ rdb]) as Hans.
  { unfold answers, join_answers, resync_message. by rewrite Hrdb. }
  exists v', w, w'. eexists. cbv zeta. split; [exact Hrun1|]. split; [exact Hv'|]. split; [done|].
  rewrite Hans. split; [exact Hrun2|]. split; [done|]. split; [|split; [done|]].
  - rewrite Hsent. unfold to_client. cbn -[request_bytes]. rewrite !Z.eqb_refl. cbn -[request_bytes].
    unfold whole. cbn -[request_bytes]. by rewrite !app_nil_r.
  - apply attached_joined; [apply (se_members _ _ _ Hv)|done..].
Qed.

(** ** Examples *)

(** A snapshot of the first bytes of a file. *)
Definition demo_master_env : Env := {|
  env_libm := @env_libm demo_env;
  env_order := @env_order demo_env;
  env_sha := @env_sha demo_env;
  env_base64 := fun _ => Some (as_bytes "REDIS0011");
|}.

Definition demo_replica_args : list string := ["redis"; "--port"; "6380"; "--replicaof"; "localhost 6379"]%string.

Lemma demo_replica : exists conf a, replica_args demo_replica_args conf a 6380.
Proof.
  destruct (with_parse_config configs_new demo_replica_args) as [conf|] eqn:Hconf; [|exfalso; vm_compute in Hconf; discriminate Hconf].
  destruct (init demo_replica_args) as [a|] eqn:Ha; [|exfalso; vm_compute in Ha; discriminate Ha].
  exists conf, a. vm_compute in Hconf. injection Hconf as <-. vm_compute in Ha. injection Ha as <-.
  split; [by vm_compute|by vm_compute|by eexists|by eexists|lia|done|done].
Defined.

Lemma demo_blank_queues : queues_wired demo_blank.
Proof. intros id q. cbn. by rewrite lookup_empty. Qed.

Lemma replica_joins_witness : exists v' w w' a',
  run_all (@serve_op demo_master_env demo_fds) (join_ops 7 6380) demo_server = Ret (v',
    [[]; [(7, as_bytes "+PONG" ++ DELIMITER)]; [(7, as_bytes "+OK" ++ DELIMITER)]; [(7, as_bytes "+OK" ++ DELIMITER)];
     [(7, as_bytes "+FULLRESYNC 8371b4fb1155b71f4a04d3e1bc3e18c4a990aeeb 0" ++ DELIMITER ++ as_bytes "$9" ++ DELIMITER ++ as_bytes "REDIS0011")]]) /\
  @start demo_env demo_fds demo_replica_args 1000 (mk_disk ∅ ∅) (fun b => [b]) 6 = Ret (w, mk_disk ∅ ∅) /\
  serves demo_fds w' (following 6 1000) /\ attached 7 6 a' (following 6 1000).
Proof.
  destruct demo_replica as (conf & a & Hargs).
  destruct (@replica_joins demo_master_env demo_env demo_fds demo_fds demo_server ∅ demo_blank 1000 7 demo_replica_args conf a 6380
    1000 (mk_disk ∅ ∅) (fun b => [b]) 6 (as_bytes "REDIS0011") demo_serves)
    as (v' & w & w' & a' & Hrun1 & _ & Hstart & _ & Hw' & _ & _ & Hatt);
    [done|done|done|done|done|apply demo_blank_queues|done|by vm_compute|done|by split; vm_compute|done|done|done|].
  exists v', w, w', a'. split; [rewrite Hrun1; vm_compute; reflexivity|]. by split_and!.
Defined.

(** The master of two clients, one of which is the replica. *)
Definition demo_joined : AbsServer := mk_abs {[7 := []]} (with_repl (joined 7 (ab_repl demo_blank)) demo_blank) 1000.

Lemma demo_joined_serves : exists v, serves demo_fds v demo_joined.
Proof.
  destruct (@master_joins demo_master_env demo_fds (as_bytes "REDIS0011") eq_refl demo_server 7 6380 ∅ demo_blank 1000 demo_serves)
    as (v & _ & Hv); [done..|apply port_fits; lia|]. by exists v.
Qed.

Lemma demo_following_serves : exists w, serves demo_fds w (following 6 1000).
Proof.
  destruct demo_replica as (conf & a & Hargs).
  destruct (@replica_comes demo_env demo_fds 6 demo_replica_args conf a 6380 1000 (mk_disk ∅ ∅) (fun b => [b]) 0 (as_bytes "REDIS0011") Hargs)
    as (w & w' & _ & _ & _ & Hw'); [done..|by apply resync_message_len|]. by exists w'.
Qed.

(** A client of the master writes twice, once in vain between; the replica reads
    what it is sent in two pieces, cut inside the second request, and then a client
    of its own. *)
Definition demo_writes : list (list string) := [["SET"; "k"; "1"]; ["LPOP"; "k"]; ["INCR"; "k"]]%string.
Definition demo_logged : list (list string) := [["SET"; "k"; "1"]; ["INCR"; "k"]]%string.
Definition demo_reads : list server_op :=
  let get := ["GET"; "k"]%string in let b := whole demo_logged in
  [Connect 9; Arrive 6 (take 40 b) [["SET"; "k"; "1"]] ["INCR"; "k"]; Elapse 5; Arrive 9 (request_bytes get) [get] ["PING"];
   Arrive 6 (drop 40 b) [["INCR"; "k"]] ["PING"]; EndTurn; Arrive 9 (request_bytes get) [get] ["PING"]]%string.

Lemma replica_follows_witness : exists v' w' a' b',
  serves demo_fds v' a' /\ serves demo_fds w' b' /\ attached 7 6 a' b' /\
  ab_keys (a_state b') !! "k"%string = Some (AString ("2"%string, None)).
Proof.
  destruct demo_joined_serves as (v & Hv). destruct demo_following_serves as (w & Hw).
  destruct (@replica_follows demo_master_env demo_env demo_fds demo_fds v w demo_joined (following 6 1000) 7 6
    [Connect 8; Arrive 8 (whole demo_writes) demo_writes ["PING"%string]] demo_reads Hv Hw)
    as (v' & w' & _ & Hv' & _ & Hw' & _ & _ & Hatt).
  - apply (attached_joined 7 6 ∅ demo_blank 1000 1000); [by split; [set_solver|constructor]|done|apply demo_blank_queues|done].
  - vm_compute. reflexivity.
  - vm_compute. reflexivity.
  - vm_compute. reflexivity.
  - vm_compute. reflexivity.
  - vm_compute. reflexivity.
  - exists []. vm_compute. reflexivity.
  - eexists v', w', _, _. split; [exact Hv'|]. split; [exact Hw'|]. split; [apply Hatt; vm_compute; reflexivity|].
    vm_compute. reflexivity.
Defined.

(** ** Examples of what a replica does not get

    The snapshot is always the same empty one: a replica that joins after a write
    never learns of it. *)
Definition late_join : outcome Server :=
  let! (v, _) := run_all (@serve_op demo_master_env demo_fds)
    (Connect 8 :: message 8 ["SET"; "k"; "1"]%string :: join_ops 7 6380 ++ [EndTurn]) demo_server in Ret v.

Example late_replica_misses :
  match late_join with
  | Ret v => data (handler (core v)) !! "k"%string <> None /\ slave_set (clients (core v)) = {[7]} /\
      to_client 7 (sent v) = mjoin (@join_answers demo_master_env 27)
  | Panic => False
  end.
Proof. vm_compute. split_and!; [discriminate|reflexivity|reflexivity]. Qed.

(** A replica that leaves in the turn of a write: the message queued for it has
    nowhere to go, and the server stops. *)
Example lost_replica_panics :
  (let! (v, _) := run_all (@serve_op demo_master_env demo_fds) (Connect 8 :: join_ops 7 6380 ++ [EndTurn]) demo_server in
   @turn demo_master_env demo_fds [says 8 ["SET"; "k"; "1"]%string; Readable 7 None all_taken] all_taken v) = Panic.
Proof. vm_compute. reflexivity. Qed.
